(** * Position core of the chess engine: a shallow embedding

    The development follows the sources: the move and undo-record packing
    (types.cpp), the Zobrist key object (zobrist_hash.cpp), the from-scratch
    key (hash_position.cpp), the position with its mutation protocol, FEN
    reading and writing, draw detection, static exchange evaluation and the
    move-string parsers (position.cpp), and the beta-cutoff step of the
    alpha-beta search (search.cpp).

    Machine integers are [Z]; bitboards are [Z] with [Z.land], [Z.lor],
    [Z.lxor], [Z.shiftl]; arrays indexed by a square are lists updated with
    stdpp's insert; arrays indexed by an enumeration are functions from it. *)

From Stdlib Require Import ZArith List Bool Lia Ascii String Ring.
From stdpp Require Import base numbers list.

Open Scope Z_scope.

(** ** Enumerations (types.h)

    The header is not part of the sources at hand. The numbering used below is
    the one the sources rely on: [" PNBRQKpnbrqk"] is indexed by a piece,
    ["  NBRQK"] by a piece kind, and a colour indexes two-element arrays. *)

Inductive Color := WHITE | BLACK.

(** [PIECE_KIND_7] is the value 7: no enumerator the sources use has it, but
    [promotion] and [captured_piece] cast a three-bit field to a piece kind
    without a check, and a field holding 7 gives a value that differs from
    [NO_PIECE_KIND] and from the six kinds. *)
Inductive PieceKind :=
  | NO_PIECE_KIND | PAWN | KNIGHT | BISHOP | ROOK | QUEEN | KING
  | PIECE_KIND_7.

Inductive Piece :=
  | NO_PIECE
  | W_PAWN | W_KNIGHT | W_BISHOP | W_ROOK | W_QUEEN | W_KING
  | B_PAWN | B_KNIGHT | B_BISHOP | B_ROOK | B_QUEEN | B_KING.

#[global] Instance Color_eq_dec : EqDecision Color.
Proof. solve_decision. Defined.
#[global] Instance PieceKind_eq_dec : EqDecision PieceKind.
Proof. solve_decision. Defined.
#[global] Instance Piece_eq_dec : EqDecision Piece.
Proof. solve_decision. Defined.

(** [operator!] on a colour. *)
Definition opp (c : Color) : Color :=
  match c with WHITE => BLACK | BLACK => WHITE end.

Definition get_color (p : Piece) : Color :=
  match p with
  | B_PAWN | B_KNIGHT | B_BISHOP | B_ROOK | B_QUEEN | B_KING => BLACK
  | _ => WHITE
  end.

(** [make_piece_kind] and [get_piece_kind] agree on pieces. Both are applied
    to [NO_PIECE] by the sources: [do_move] reads the kind of the piece on the
    destination square before it knows that the square is occupied, and [see]
    takes [get_piece_kind (piece_at (to_sq))] as its first victim, also when
    the destination square is empty (an en-passant capture). The kind of
    [NO_PIECE] is [NO_PIECE_KIND]. *)
Definition make_piece_kind (p : Piece) : PieceKind :=
  match p with
  | NO_PIECE => NO_PIECE_KIND
  | W_PAWN | B_PAWN => PAWN
  | W_KNIGHT | B_KNIGHT => KNIGHT
  | W_BISHOP | B_BISHOP => BISHOP
  | W_ROOK | B_ROOK => ROOK
  | W_QUEEN | B_QUEEN => QUEEN
  | W_KING | B_KING => KING
  end.

Definition get_piece_kind (p : Piece) : PieceKind := make_piece_kind p.

(** [make_piece (c, NO_PIECE_KIND)] is [NO_PIECE]: [undo_move] builds the
    captured piece this way and tests it against [NO_PIECE]. Nothing is known
    of [make_piece] on the value 7, which names no piece; it is given
    [NO_PIECE] here, and every result that depends on that piece is stated
    for moves whose promotion field is not 7. *)
Definition make_piece (c : Color) (k : PieceKind) : Piece :=
  match c, k with
  | _, NO_PIECE_KIND => NO_PIECE
  | WHITE, PAWN => W_PAWN | WHITE, KNIGHT => W_KNIGHT
  | WHITE, BISHOP => W_BISHOP | WHITE, ROOK => W_ROOK
  | WHITE, QUEEN => W_QUEEN | WHITE, KING => W_KING
  | BLACK, PAWN => B_PAWN | BLACK, KNIGHT => B_KNIGHT
  | BLACK, BISHOP => B_BISHOP | BLACK, ROOK => B_ROOK
  | BLACK, QUEEN => B_QUEEN | BLACK, KING => B_KING
  | _, PIECE_KIND_7 => NO_PIECE
  end.

Definition pk_code (k : PieceKind) : Z :=
  match k with
  | NO_PIECE_KIND => 0 | PAWN => 1 | KNIGHT => 2 | BISHOP => 3
  | ROOK => 4 | QUEEN => 5 | KING => 6 | PIECE_KIND_7 => 7
  end.

(** The cast [PieceKind(n)] of a three-bit field, [0 <= n < 8]: the value
    7 is kept as it is, a kind of its own. *)
Definition pk_of_code (n : Z) : PieceKind :=
  match n with
  | 1 => PAWN | 2 => KNIGHT | 3 => BISHOP | 4 => ROOK | 5 => QUEEN | 6 => KING
  | 7 => PIECE_KIND_7
  | _ => NO_PIECE_KIND
  end.

Definition piece_code (p : Piece) : Z :=
  match p with
  | NO_PIECE => 0
  | W_PAWN => 1 | W_KNIGHT => 2 | W_BISHOP => 3
  | W_ROOK => 4 | W_QUEEN => 5 | W_KING => 6
  | B_PAWN => 7 | B_KNIGHT => 8 | B_BISHOP => 9
  | B_ROOK => 10 | B_QUEEN => 11 | B_KING => 12
  end.

Definition all_pieces : list Piece :=
  [W_PAWN; W_KNIGHT; W_BISHOP; W_ROOK; W_QUEEN; W_KING;
   B_PAWN; B_KNIGHT; B_BISHOP; B_ROOK; B_QUEEN; B_KING].

(** ** Squares, files and ranks

    Modelled from the spec: [make_square], [file], [rank] and [NO_SQUARE] are
    declared in types.h, which is missing. Section 3 fixes squares as
    [0 .. 63] with A1 = 0 and H8 = 63, rank by rank; [NO_SQUARE] is the value
    just outside that range. *)

Definition Square := Z.
Definition Bitboard := Z.

Definition NO_SQUARE : Square := 64.
Definition SQUARE_NUM : Z := 64.

Definition make_square (rank file : Z) : Square := rank * 8 + file.
Definition file (sq : Square) : Z := Z.land sq 7.
Definition rank (sq : Square) : Z := Z.shiftr sq 3.

Definition FILE_A := 0.
Definition FILE_B := 1.
Definition FILE_C := 2.
Definition FILE_D := 3.
Definition FILE_E := 4.
Definition FILE_F := 5.
Definition FILE_G := 6.
Definition FILE_H := 7.
Definition RANK_1 := 0.
Definition RANK_2 := 1.
Definition RANK_3 := 2.
Definition RANK_4 := 3.
Definition RANK_5 := 4.
Definition RANK_6 := 5.
Definition RANK_7 := 6.
Definition RANK_8 := 7.

Definition SQ_A1 : Square := 0.
Definition SQ_C1 : Square := 2.
Definition SQ_E1 : Square := 4.
Definition SQ_G1 : Square := 6.
Definition SQ_H1 : Square := 7.
Definition SQ_A8 : Square := 56.
Definition SQ_C8 : Square := 58.
Definition SQ_E8 : Square := 60.
Definition SQ_G8 : Square := 62.
Definition SQ_H8 : Square := 63.

Definition square_bb (sq : Square) : Bitboard := Z.shiftl 1 sq.

(** ** Castling rights

    Modelled from the spec: the [Castling] type, its constants and its
    [operator!] live in types.h, which is missing. Section 3 makes the rights
    a four-bit set over W_OO, W_OOO, B_OO, B_OOO; [operator!] is the
    complement inside that set (the reading under which a rook move from a1
    drops W_OOO and keeps the other three, section 8 scenario 5). *)

Definition Castling := Z.

Definition NO_CASTLING : Castling := 0.
Definition W_OO : Castling := 1.
Definition W_OOO : Castling := 2.
Definition B_OO : Castling := 4.
Definition B_OOO : Castling := 8.
Definition KING_CASTLING : Castling := Z.lor W_OO B_OO.
Definition QUEEN_CASTLING : Castling := Z.lor W_OOO B_OOO.

Definition castling_not (c : Castling) : Castling := Z.lxor c 15.

Definition CASTLING_RIGHTS (c : Color) : Castling :=
  match c with WHITE => Z.lor W_OO W_OOO | BLACK => Z.lor B_OO B_OOO end.

Definition KING_SIDE_ROOK_SQUARE (c : Color) : Square :=
  match c with WHITE => SQ_H1 | BLACK => SQ_H8 end.

Definition QUEEN_SIDE_ROOK_SQUARE (c : Color) : Square :=
  match c with WHITE => SQ_A1 | BLACK => SQ_A8 end.

(** ** Move and undo-record packing (types.cpp) *)

Definition Move := Z.
Definition MoveInfo := Z.

Definition NO_MOVE : Move := 0.

Definition create_move (from to : Square) : Move :=
  Z.lor (Z.shiftl to 6) from.

Definition create_promotion (from to : Square) (promotion : PieceKind) : Move :=
  Z.lor (Z.lor (Z.shiftl (pk_code promotion) 12) (Z.shiftl to 6)) from.

Definition create_castling (castling : Castling) : Move :=
  Z.shiftl (if castling =? KING_CASTLING then 1 else 2) 15.

Definition from (move : Move) : Square := Z.land move 63.

Definition to (move : Move) : Square := Z.land (Z.shiftr move 6) 63.

Definition promotion (move : Move) : PieceKind :=
  pk_of_code (Z.land (Z.shiftr move 12) 7).

Definition castling (move : Move) : Castling :=
  let p := Z.land (Z.shiftr move 15) 3 in
  if p =? 0 then NO_CASTLING
  else if p =? 1 then KING_CASTLING
  else QUEEN_CASTLING.

Definition KING_CASTLING_MOVE : Move := create_castling KING_CASTLING.
Definition QUEEN_CASTLING_MOVE : Move := create_castling QUEEN_CASTLING.

Definition create_moveinfo (captured : PieceKind) (last_castling : Castling)
    (last_enpassant : Square) (enpassant : bool) (half_move_counter : Z)
    : MoveInfo :=
  if negb (last_enpassant =? NO_SQUARE) then
    Z.lor (Z.lor (Z.lor (Z.lor (Z.lor
      (Z.shiftl half_move_counter 15)
      (Z.shiftl (Z.b2z enpassant) 14))
      (Z.shiftl 1 13))
      (Z.shiftl last_enpassant 7))
      (Z.shiftl last_castling 3))
      (pk_code captured)
  else
    Z.lor (Z.lor (Z.lor
      (Z.shiftl half_move_counter 15)
      (Z.shiftl (Z.b2z enpassant) 14))
      (Z.shiftl last_castling 3))
      (pk_code captured).

Definition captured_piece (moveinfo : MoveInfo) : PieceKind :=
  pk_of_code (Z.land moveinfo 7).

Definition last_castling (moveinfo : MoveInfo) : Castling :=
  Z.land (Z.shiftr moveinfo 3) 15.

Definition last_enpassant_square (moveinfo : MoveInfo) : Square :=
  Z.land (Z.shiftr moveinfo 7) 63.

Definition last_enpassant (moveinfo : MoveInfo) : bool :=
  negb (Z.land (Z.shiftr moveinfo 13) 1 =? 0).

Definition enpassant (moveinfo : MoveInfo) : bool :=
  negb (Z.land (Z.shiftr moveinfo 14) 1 =? 0).

Definition half_move_counter (moveinfo : MoveInfo) : Z :=
  Z.land (Z.shiftr moveinfo 15) 255.


(** ** Zobrist constants and the key object (zobrist_hash.cpp)

    The tables of random constants are initialised outside the sources at
    hand; they are taken as a parameter. *)

Class ZobristTable := {
  HASH_PIECE : Piece -> Square -> Z;
  HASH_CASTLING_WHITE_SHORT : Z;
  HASH_CASTLING_WHITE_LONG : Z;
  HASH_CASTLING_BLACK_SHORT : Z;
  HASH_CASTLING_BLACK_LONG : Z;
  HASH_ENPASSANT : Z -> Z;
  HASH_TURN : Z
}.

Record HashKey := {
  _piece_key : Z;
  _pawn_key : Z;
  _enpassant_key : Z;
  _castling_key : Z;
  _color_key : Z
}.

Definition HashKey_empty : HashKey :=
  {| _piece_key := 0; _pawn_key := 0; _enpassant_key := 0;
     _castling_key := 0; _color_key := 0 |}.

Definition get_key (h : HashKey) : Z :=
  Z.lxor (Z.lxor (Z.lxor (Z.lxor (_piece_key h) (_pawn_key h))
    (_enpassant_key h)) (_castling_key h)) (_color_key h).

Definition get_pawnkey (h : HashKey) : Z := _pawn_key h.

(** The test [castling & FLAG] of the sources. *)
Definition has_right (castling flag : Castling) : bool :=
  negb (Z.land castling flag =? 0).

Section Zobrist.
Context {T : ZobristTable}.

Definition toggle_piece (h : HashKey) (piece : Piece) (sq : Square) : HashKey :=
  if decide (get_piece_kind piece = PAWN) then
    {| _piece_key := _piece_key h;
       _pawn_key := Z.lxor (_pawn_key h) (HASH_PIECE piece sq);
       _enpassant_key := _enpassant_key h;
       _castling_key := _castling_key h;
       _color_key := _color_key h |}
  else
    {| _piece_key := Z.lxor (_piece_key h) (HASH_PIECE piece sq);
       _pawn_key := _pawn_key h;
       _enpassant_key := _enpassant_key h;
       _castling_key := _castling_key h;
       _color_key := _color_key h |}.

Definition hash_move_piece (h : HashKey) (piece : Piece) (from to : Square)
    : HashKey :=
  toggle_piece (toggle_piece h piece from) piece to.

Definition flip_side (h : HashKey) : HashKey :=
  {| _piece_key := _piece_key h;
     _pawn_key := _pawn_key h;
     _enpassant_key := _enpassant_key h;
     _castling_key := _castling_key h;
     _color_key := Z.lxor (_color_key h) HASH_TURN |}.

Definition hash_clear_enpassant (h : HashKey) : HashKey :=
  {| _piece_key := _piece_key h;
     _pawn_key := _pawn_key h;
     _enpassant_key := 0;
     _castling_key := _castling_key h;
     _color_key := _color_key h |}.

Definition hash_set_enpassant (h : HashKey) (file : Z) : HashKey :=
  {| _piece_key := _piece_key h;
     _pawn_key := _pawn_key h;
     _enpassant_key := HASH_ENPASSANT file;
     _castling_key := _castling_key h;
     _color_key := _color_key h |}.

(** The value [set_castling] leaves in the castling subkey: it clears the
    subkey and then folds in one constant per right held. *)
Definition castling_key_of (castling : Castling) : Z :=
  let k := 0 in
  let k := if has_right castling W_OO
           then Z.lxor k HASH_CASTLING_WHITE_SHORT else k in
  let k := if has_right castling W_OOO
           then Z.lxor k HASH_CASTLING_WHITE_LONG else k in
  let k := if has_right castling B_OO
           then Z.lxor k HASH_CASTLING_BLACK_SHORT else k in
  let k := if has_right castling B_OOO
           then Z.lxor k HASH_CASTLING_BLACK_LONG else k in
  k.

Definition hash_set_castling (h : HashKey) (castling : Castling) : HashKey :=
  {| _piece_key := _piece_key h;
     _pawn_key := _pawn_key h;
     _enpassant_key := _enpassant_key h;
     _castling_key := castling_key_of castling;
     _color_key := _color_key h |}.
End Zobrist.

(** ** The position (position.h, position.cpp) *)

#[global] Instance Piece_inhabited : Inhabited Piece := populate NO_PIECE.

Record Position := {
  _board : list Piece;
  _by_color_bb : Color -> Bitboard;
  _by_piece_kind_bb : PieceKind -> Bitboard;
  _piece_count : Piece -> Z;
  _piece_position : Piece -> list Square;
  _current_side : Color;
  _castling_rights : Castling;
  _enpassant_square : Square;
  _half_move_counter : Z;
  _ply_counter : Z;
  _zobrist_hash : HashKey;
  _history : list Z;
  _history_counter : Z
}.

(** Assignment to one array cell indexed by an enumeration. *)
Definition arr_set {A B : Type} `{EqDecision A} (f : A -> B) (i : A) (v : B)
    : A -> B :=
  fun j => if decide (j = i) then v else f j.

(** Field assignments. *)
Definition set_board (P : Position) (b : list Piece) : Position :=
  {| _board := b; _by_color_bb := _by_color_bb P;
     _by_piece_kind_bb := _by_piece_kind_bb P;
     _piece_count := _piece_count P; _piece_position := _piece_position P;
     _current_side := _current_side P; _castling_rights := _castling_rights P;
     _enpassant_square := _enpassant_square P;
     _half_move_counter := _half_move_counter P;
     _ply_counter := _ply_counter P; _zobrist_hash := _zobrist_hash P;
     _history := _history P; _history_counter := _history_counter P |}.

Definition set_bitboards (P : Position) (bc : Color -> Bitboard)
    (bk : PieceKind -> Bitboard) : Position :=
  {| _board := _board P; _by_color_bb := bc; _by_piece_kind_bb := bk;
     _piece_count := _piece_count P; _piece_position := _piece_position P;
     _current_side := _current_side P; _castling_rights := _castling_rights P;
     _enpassant_square := _enpassant_square P;
     _half_move_counter := _half_move_counter P;
     _ply_counter := _ply_counter P; _zobrist_hash := _zobrist_hash P;
     _history := _history P; _history_counter := _history_counter P |}.

Definition set_piece_lists (P : Position) (cnt : Piece -> Z)
    (pos : Piece -> list Square) : Position :=
  {| _board := _board P; _by_color_bb := _by_color_bb P;
     _by_piece_kind_bb := _by_piece_kind_bb P;
     _piece_count := cnt; _piece_position := pos;
     _current_side := _current_side P; _castling_rights := _castling_rights P;
     _enpassant_square := _enpassant_square P;
     _half_move_counter := _half_move_counter P;
     _ply_counter := _ply_counter P; _zobrist_hash := _zobrist_hash P;
     _history := _history P; _history_counter := _history_counter P |}.

Definition set_current_side (P : Position) (c : Color) : Position :=
  {| _board := _board P; _by_color_bb := _by_color_bb P;
     _by_piece_kind_bb := _by_piece_kind_bb P;
     _piece_count := _piece_count P; _piece_position := _piece_position P;
     _current_side := c; _castling_rights := _castling_rights P;
     _enpassant_square := _enpassant_square P;
     _half_move_counter := _half_move_counter P;
     _ply_counter := _ply_counter P; _zobrist_hash := _zobrist_hash P;
     _history := _history P; _history_counter := _history_counter P |}.

Definition set_castling_rights (P : Position) (c : Castling) : Position :=
  {| _board := _board P; _by_color_bb := _by_color_bb P;
     _by_piece_kind_bb := _by_piece_kind_bb P;
     _piece_count := _piece_count P; _piece_position := _piece_position P;
     _current_side := _current_side P; _castling_rights := c;
     _enpassant_square := _enpassant_square P;
     _half_move_counter := _half_move_counter P;
     _ply_counter := _ply_counter P; _zobrist_hash := _zobrist_hash P;
     _history := _history P; _history_counter := _history_counter P |}.

(** [set_enpassant_square]; its ASSERT (the square is [NO_SQUARE] or on the
    third or sixth rank) is [enpassant_square_ok] below. *)
Definition set_enpassant_square (P : Position) (sq : Square) : Position :=
  {| _board := _board P; _by_color_bb := _by_color_bb P;
     _by_piece_kind_bb := _by_piece_kind_bb P;
     _piece_count := _piece_count P; _piece_position := _piece_position P;
     _current_side := _current_side P; _castling_rights := _castling_rights P;
     _enpassant_square := sq;
     _half_move_counter := _half_move_counter P;
     _ply_counter := _ply_counter P; _zobrist_hash := _zobrist_hash P;
     _history := _history P; _history_counter := _history_counter P |}.

Definition enpassant_square_ok (sq : Square) : bool :=
  (sq =? NO_SQUARE) || (rank sq =? RANK_3) || (rank sq =? RANK_6).

Definition set_half_move_counter (P : Position) (n : Z) : Position :=
  {| _board := _board P; _by_color_bb := _by_color_bb P;
     _by_piece_kind_bb := _by_piece_kind_bb P;
     _piece_count := _piece_count P; _piece_position := _piece_position P;
     _current_side := _current_side P; _castling_rights := _castling_rights P;
     _enpassant_square := _enpassant_square P;
     _half_move_counter := n;
     _ply_counter := _ply_counter P; _zobrist_hash := _zobrist_hash P;
     _history := _history P; _history_counter := _history_counter P |}.

Definition set_ply_counter (P : Position) (n : Z) : Position :=
  {| _board := _board P; _by_color_bb := _by_color_bb P;
     _by_piece_kind_bb := _by_piece_kind_bb P;
     _piece_count := _piece_count P; _piece_position := _piece_position P;
     _current_side := _current_side P; _castling_rights := _castling_rights P;
     _enpassant_square := _enpassant_square P;
     _half_move_counter := _half_move_counter P;
     _ply_counter := n; _zobrist_hash := _zobrist_hash P;
     _history := _history P; _history_counter := _history_counter P |}.

Definition set_zobrist_hash (P : Position) (h : HashKey) : Position :=
  {| _board := _board P; _by_color_bb := _by_color_bb P;
     _by_piece_kind_bb := _by_piece_kind_bb P;
     _piece_count := _piece_count P; _piece_position := _piece_position P;
     _current_side := _current_side P; _castling_rights := _castling_rights P;
     _enpassant_square := _enpassant_square P;
     _half_move_counter := _half_move_counter P;
     _ply_counter := _ply_counter P; _zobrist_hash := h;
     _history := _history P; _history_counter := _history_counter P |}.

Definition set_history (P : Position) (h : list Z) (n : Z) : Position :=
  {| _board := _board P; _by_color_bb := _by_color_bb P;
     _by_piece_kind_bb := _by_piece_kind_bb P;
     _piece_count := _piece_count P; _piece_position := _piece_position P;
     _current_side := _current_side P; _castling_rights := _castling_rights P;
     _enpassant_square := _enpassant_square P;
     _half_move_counter := _half_move_counter P;
     _ply_counter := _ply_counter P; _zobrist_hash := _zobrist_hash P;
     _history := h; _history_counter := n |}.

(** The eight-bit half-move counter wraps. *)
Definition u8 (n : Z) : Z := n mod 256.

Definition piece_at (P : Position) (sq : Square) : Piece :=
  _board P !!! Z.to_nat sq.

Definition color (P : Position) : Color := _current_side P.
Definition enpassant_square (P : Position) : Square := _enpassant_square P.
Definition castling_rights (P : Position) : Castling := _castling_rights P.
Definition hash (P : Position) : Z := get_key (_zobrist_hash P).
Definition no_pieces (P : Position) (p : Piece) : Z := _piece_count P p.

Definition piece_position (P : Position) (p : Piece) (i : Z) : Square :=
  _piece_position P p !!! Z.to_nat i.

Definition pieces (P : Position) : Bitboard :=
  Z.lor (_by_color_bb P WHITE) (_by_color_bb P BLACK).

Definition pieces_cp (P : Position) (c : Color) (k : PieceKind) : Bitboard :=
  Z.land (_by_color_bb P c) (_by_piece_kind_bb P k).

Definition pieces_cpp (P : Position) (c : Color) (k1 k2 : PieceKind)
    : Bitboard :=
  Z.lor (pieces_cp P c k1) (pieces_cp P c k2).

(** The loop shared by [remove_piece] and [move_piece]: among the first [n]
    cells, the first one holding [old] is overwritten with [new], and the scan
    stops there. *)
Fixpoint replace_first (n : nat) (old new : Square) (l : list Square)
    : list Square :=
  match n, l with
  | S n', x :: l' =>
      if x =? old then new :: l' else x :: replace_first n' old new l'
  | _, _ => l
  end.

Section PositionOps.
Context {T : ZobristTable}.

Definition add_piece (P : Position) (piece : Piece) (square : Square)
    : Position :=
  let P := set_board P (<[Z.to_nat square := piece]> (_board P)) in
  let P := set_bitboards P
    (arr_set (_by_color_bb P) (get_color piece)
       (Z.lor (_by_color_bb P (get_color piece)) (square_bb square)))
    (arr_set (_by_piece_kind_bb P) (get_piece_kind piece)
       (Z.lor (_by_piece_kind_bb P (get_piece_kind piece))
          (square_bb square))) in
  let P := set_piece_lists P (_piece_count P)
    (arr_set (_piece_position P) piece
       (<[Z.to_nat (_piece_count P piece) := square]>
          (_piece_position P piece))) in
  let P := set_piece_lists P
    (arr_set (_piece_count P) piece (_piece_count P piece + 1))
    (_piece_position P) in
  set_zobrist_hash P (toggle_piece (_zobrist_hash P) piece square).

Definition remove_piece (P : Position) (square : Square) : Position :=
  let piece := _board P !!! Z.to_nat square in
  let P := set_board P (<[Z.to_nat square := NO_PIECE]> (_board P)) in
  let P := set_bitboards P
    (arr_set (_by_color_bb P) (get_color piece)
       (Z.lxor (_by_color_bb P (get_color piece)) (square_bb square)))
    (arr_set (_by_piece_kind_bb P) (get_piece_kind piece)
       (Z.lxor (_by_piece_kind_bb P (get_piece_kind piece))
          (square_bb square))) in
  let pos := _piece_count P piece - 1 in
  let P := set_piece_lists P (_piece_count P)
    (arr_set (_piece_position P) piece
       (replace_first (Z.to_nat pos) square
          (_piece_position P piece !!! Z.to_nat pos)
          (_piece_position P piece))) in
  let P := set_piece_lists P
    (arr_set (_piece_count P) piece (_piece_count P piece - 1))
    (_piece_position P) in
  set_zobrist_hash P (toggle_piece (_zobrist_hash P) piece square).

Definition move_piece (P : Position) (from to : Square) : Position :=
  let piece := _board P !!! Z.to_nat from in
  let P := set_board P
    (<[Z.to_nat to := piece]> (<[Z.to_nat from := NO_PIECE]> (_board P))) in
  let change := Z.lor (square_bb from) (square_bb to) in
  let P := set_bitboards P
    (arr_set (_by_color_bb P) (get_color piece)
       (Z.lxor (_by_color_bb P (get_color piece)) change))
    (arr_set (_by_piece_kind_bb P) (get_piece_kind piece)
       (Z.lxor (_by_piece_kind_bb P (get_piece_kind piece)) change)) in
  let P := set_piece_lists P (_piece_count P)
    (arr_set (_piece_position P) piece
       (replace_first (Z.to_nat (_piece_count P piece)) from to
          (_piece_position P piece))) in
  set_zobrist_hash P (hash_move_piece (_zobrist_hash P) piece from to).

Definition change_current_side (P : Position) : Position :=
  let P := set_zobrist_hash P (flip_side (_zobrist_hash P)) in
  set_current_side P (opp (_current_side P)).

Definition zobrist_clear_enpassant (P : Position) : Position :=
  set_zobrist_hash P (hash_clear_enpassant (_zobrist_hash P)).

Definition zobrist_set_enpassant (P : Position) (f : Z) : Position :=
  set_zobrist_hash P (hash_set_enpassant (_zobrist_hash P) f).

Definition zobrist_set_castling (P : Position) : Position :=
  set_zobrist_hash P (hash_set_castling (_zobrist_hash P) (_castling_rights P)).

(** [_castling_rights &= !mask]. *)
Definition clear_rights (P : Position) (mask : Castling) : Position :=
  set_castling_rights P (Z.land (_castling_rights P) (castling_not mask)).

Definition clear_rights_if (b : bool) (P : Position) (mask : Castling)
    : Position :=
  if b then clear_rights P mask else P.

Definition pawn_step_back (side : Color) : Z :=
  match side with WHITE => -8 | BLACK => 8 end.

Definition home_rank (side : Color) : Z :=
  match side with WHITE => RANK_1 | BLACK => RANK_8 end.

(** The castling branch of [do_move]. *)
Definition do_castling (P : Position) (side : Color) (move : Move)
    : Position :=
  let P := set_half_move_counter P 0 in
  let rank := home_rank side in
  let P :=
    if castling move =? KING_CASTLING then
      let P := move_piece P (make_square rank FILE_E)
                 (make_square rank FILE_G) in
      move_piece P (make_square rank FILE_H) (make_square rank FILE_F)
    else
      let P := move_piece P (make_square rank FILE_E)
                 (make_square rank FILE_C) in
      move_piece P (make_square rank FILE_A) (make_square rank FILE_D) in
  let P := clear_rights P (CASTLING_RIGHTS side) in
  let P := zobrist_set_castling P in
  set_enpassant_square P NO_SQUARE.

(** The five castling-right updates of the ordinary branch of [do_move]. *)
Definition update_rights (P : Position) (side : Color)
    (moved_piece captured_piece : Piece) (move : Move) : Position :=
  let P := clear_rights_if
    (bool_decide (get_piece_kind moved_piece = KING))
    P (CASTLING_RIGHTS side) in
  let P := clear_rights_if
    (bool_decide (get_piece_kind moved_piece = ROOK)
     && (from move =? KING_SIDE_ROOK_SQUARE side))
    P (Z.land (CASTLING_RIGHTS side) KING_CASTLING) in
  let P := clear_rights_if
    (bool_decide (get_piece_kind moved_piece = ROOK)
     && (from move =? QUEEN_SIDE_ROOK_SQUARE side))
    P (Z.land (CASTLING_RIGHTS side) QUEEN_CASTLING) in
  let P := clear_rights_if
    (bool_decide (make_piece_kind captured_piece = ROOK)
     && (to move =? KING_SIDE_ROOK_SQUARE (opp side)))
    P (Z.land (CASTLING_RIGHTS (opp side)) KING_CASTLING) in
  let P := clear_rights_if
    (bool_decide (make_piece_kind captured_piece = ROOK)
     && (to move =? QUEEN_SIDE_ROOK_SQUARE (opp side)))
    P (Z.land (CASTLING_RIGHTS (opp side)) QUEEN_CASTLING) in
  zobrist_set_castling P.

(** The half-move clock of the ordinary branch. *)
Definition tick_half_move (P : Position) (moved_piece captured_piece : Piece)
    : Position :=
  if bool_decide (get_piece_kind moved_piece <> PAWN)
     && bool_decide (make_piece_kind captured_piece = NO_PIECE_KIND)
  then set_half_move_counter P (u8 (_half_move_counter P + 1))
  else set_half_move_counter P 0.

(** The piece movements of the ordinary branch, with the en-passant flag
    of the undo record. *)
Definition shift_pieces (P : Position) (side : Color) (move : Move)
    (moved_piece captured_piece : Piece) : Position * bool :=
  if bool_decide (get_piece_kind moved_piece = PAWN)
     && (to move =? _enpassant_square P)
  then
    let P := move_piece P (from move) (to move) in
    let captured_square := to move + pawn_step_back side in
    (remove_piece P captured_square, true)
  else
    let P := if bool_decide (captured_piece <> NO_PIECE)
             then remove_piece P (to move) else P in
    let P :=
      if bool_decide (promotion move <> NO_PIECE_KIND) then
        let P := remove_piece P (from move) in
        add_piece P (make_piece side (promotion move)) (to move)
      else move_piece P (from move) (to move) in
    (update_rights P side moved_piece captured_piece move, false).

(** The new en-passant square of the ordinary branch. *)
Definition mark_enpassant (P : Position) (side : Color) (move : Move)
    (moved_piece : Piece) : Position :=
  let enpassant_rank := match side with WHITE => RANK_4 | BLACK => RANK_5 end in
  let rank2 := match side with WHITE => RANK_2 | BLACK => RANK_7 end in
  if bool_decide (get_piece_kind moved_piece = PAWN)
     && (rank (from move) =? rank2)
     && (rank (to move) =? enpassant_rank)
  then
    let P := set_enpassant_square P (to move + pawn_step_back side) in
    zobrist_set_enpassant P (file (_enpassant_square P))
  else set_enpassant_square P NO_SQUARE.

(** The ordinary (non-castling) branch of [do_move]; it also yields the
    captured kind and the en-passant flag of the undo record. *)
Definition do_ordinary (P : Position) (side : Color) (move : Move)
    : Position * PieceKind * bool :=
  let moved_piece := _board P !!! Z.to_nat (from move) in
  let captured_piece := _board P !!! Z.to_nat (to move) in
  let captured := make_piece_kind captured_piece in
  let P := tick_half_move P moved_piece captured_piece in
  let '(P, enpassant) :=
    shift_pieces P side move moved_piece captured_piece in
  let P := mark_enpassant P side move moved_piece in
  (P, captured, enpassant).

Definition push_history (P : Position) : Position :=
  set_history P
    (<[Z.to_nat (_history_counter P) := get_key (_zobrist_hash P)]>
       (_history P))
    (_history_counter P + 1).

Definition do_move (P : Position) (move : Move) : Position * MoveInfo :=
  let side := _current_side P in
  let P := change_current_side P in
  let P := set_ply_counter P (_ply_counter P + 1) in
  let prev_castling := _castling_rights P in
  let prev_enpassant_sq := _enpassant_square P in
  let hm_counter := _half_move_counter P in
  let P := zobrist_clear_enpassant P in
  let '(P, captured, enpassant) :=
    if negb (castling move =? NO_CASTLING)
    then (do_castling P side move, NO_PIECE_KIND, false)
    else do_ordinary P side move in
  let P := push_history P in
  (P, create_moveinfo captured prev_castling prev_enpassant_sq
        enpassant hm_counter).

(** The piece movements of [undo_move]. *)
Definition unshift_pieces (P : Position) (side : Color) (move : Move)
    (moveinfo : MoveInfo) : Position :=
  if negb (castling move =? NO_CASTLING) then
    let rank := home_rank side in
    if castling move =? KING_CASTLING then
      let P := move_piece P (make_square rank FILE_G)
                 (make_square rank FILE_E) in
      move_piece P (make_square rank FILE_F) (make_square rank FILE_H)
    else
      let P := move_piece P (make_square rank FILE_C)
                 (make_square rank FILE_E) in
      move_piece P (make_square rank FILE_D) (make_square rank FILE_A)
  else
    let captured := make_piece (opp side) (captured_piece moveinfo) in
    let P :=
      if enpassant moveinfo then
        let captured_square := to move + pawn_step_back side in
        add_piece P (make_piece (opp side) PAWN) captured_square
      else P in
    let P :=
      if bool_decide (promotion move <> NO_PIECE_KIND) then
        let P := add_piece P (make_piece side PAWN) (from move) in
        remove_piece P (to move)
      else move_piece P (to move) (from move) in
    if bool_decide (captured <> NO_PIECE)
    then add_piece P captured (to move) else P.

(** The fields [undo_move] reads back from the undo record. *)
Definition restore_scalars (P : Position) (moveinfo : MoveInfo) : Position :=
  let P := set_castling_rights P (last_castling moveinfo) in
  let P := zobrist_set_castling P in
  let P := set_enpassant_square P (last_enpassant_square moveinfo) in
  let P :=
    if _enpassant_square P =? NO_SQUARE
    then zobrist_clear_enpassant P
    else zobrist_set_enpassant P (file (_enpassant_square P)) in
  set_half_move_counter P (half_move_counter moveinfo).

Definition undo_move (P : Position) (move : Move) (moveinfo : MoveInfo)
    : Position :=
  let P := change_current_side P in
  let side := _current_side P in
  let P := set_ply_counter P (_ply_counter P - 1) in
  let P := restore_scalars P moveinfo in
  let P := unshift_pieces P side move moveinfo in
  set_history P (_history P) (_history_counter P - 1).

Definition do_null_move (P : Position) : Position * MoveInfo :=
  let P := change_current_side P in
  let P := set_ply_counter P (_ply_counter P + 1) in
  let P := set_half_move_counter P (u8 (_half_move_counter P + 1)) in
  let enpassant_sq := _enpassant_square P in
  let P := set_enpassant_square P NO_SQUARE in
  let P := zobrist_clear_enpassant P in
  (P, create_moveinfo NO_PIECE_KIND NO_CASTLING enpassant_sq false 0).

Definition undo_null_move (P : Position) (moveinfo : MoveInfo) : Position :=
  let P := change_current_side P in
  let P := set_ply_counter P (_ply_counter P - 1) in
  let P := set_half_move_counter P (u8 (_half_move_counter P - 1)) in
  let P := set_enpassant_square P (last_enpassant_square moveinfo) in
  if negb (_enpassant_square P =? NO_SQUARE)
  then zobrist_set_enpassant P (file (_enpassant_square P))
  else P.

(** [HashKey::init]: the key of a freshly built position, from its piece
    lists, rights, en-passant square and side. *)
Definition xor_squares (piece : Piece) (sqs : list Square) (k : Z) : Z :=
  fold_left (fun k sq => Z.lxor k (HASH_PIECE piece sq)) sqs k.

Definition live (P : Position) (piece : Piece) : list Square :=
  take (Z.to_nat (_piece_count P piece)) (_piece_position P piece).

Definition hash_init (h : HashKey) (P : Position) : HashKey :=
  let color_key :=
    if decide (color P = WHITE) then Z.lxor (_color_key h) HASH_TURN
    else _color_key h in
  let pawn_key :=
    fold_left (fun k c => xor_squares (make_piece c PAWN)
                            (live P (make_piece c PAWN)) k)
      [WHITE; BLACK] (_pawn_key h) in
  let piece_key :=
    fold_left (fun k c =>
      fold_left (fun k pk => xor_squares (make_piece c pk)
                               (live P (make_piece c pk)) k)
        [KNIGHT; BISHOP; ROOK; QUEEN; KING] k)
      [WHITE; BLACK] (_piece_key h) in
  let h := {| _piece_key := piece_key; _pawn_key := pawn_key;
              _enpassant_key := _enpassant_key h;
              _castling_key := _castling_key h;
              _color_key := color_key |} in
  let h := hash_set_castling h (castling_rights P) in
  if negb (enpassant_square P =? NO_SQUARE)
  then hash_set_enpassant h (file (enpassant_square P))
  else h.
End PositionOps.

(** ** Reading and writing FEN (position.cpp)

    Characters are [ascii], texts are lists of them; [std::istringstream] is a
    buffer with its fail bit, and [>>] skips white space first. A failed
    extraction leaves a text target untouched and zeroes an integer target;
    once the stream has failed every later extraction does nothing. Integer
    overflow on extraction is not modelled. *)

Definition code (c : ascii) : Z := Z.of_N (N_of_ascii c).
Definition chr (n : Z) : ascii := ascii_of_N (Z.to_N n).

Record istream := { buf : list ascii; failed : bool }.

Definition is_space (c : ascii) : bool :=
  (code c =? 32) || ((9 <=? code c) && (code c <=? 13)).

Definition is_digit (c : ascii) : bool :=
  (code "0" <=? code c) && (code c <=? code "9").

Fixpoint skip_ws (s : list ascii) : list ascii :=
  match s with
  | c :: s' => if is_space c then skip_ws s' else s
  | [] => []
  end.

Fixpoint take_word (s : list ascii) : list ascii * list ascii :=
  match s with
  | c :: s' =>
      if is_space c then ([], s)
      else let '(w, r) := take_word s' in (c :: w, r)
  | [] => ([], [])
  end.

Fixpoint take_digits (s : list ascii) : list ascii * list ascii :=
  match s with
  | c :: s' =>
      if is_digit c then let '(w, r) := take_digits s' in (c :: w, r)
      else ([], s)
  | [] => ([], [])
  end.

Definition digits_value (ds : list ascii) : Z :=
  fold_left (fun n c => 10 * n + (code c - code "0")) ds 0.

(** [stream >> token] for a text target. *)
Definition read_token (st : istream) (token : list ascii)
    : istream * list ascii :=
  if failed st then (st, token)
  else match skip_ws (buf st) with
       | [] => ({| buf := []; failed := true |}, token)
       | s => let '(w, r) := take_word s in
              ({| buf := r; failed := false |}, w)
       end.

(** [stream >> n] for an integer target. *)
Definition read_int (st : istream) (n : Z) : istream * Z :=
  if failed st then (st, n)
  else
    let s := skip_ws (buf st) in
    let '(neg, s1) :=
      match s with
      | c :: r => if code c =? code "-" then (true, r)
                  else if code c =? code "+" then (false, r)
                  else (false, s)
      | [] => (false, s)
      end in
    let '(ds, r) := take_digits s1 in
    match ds with
    | [] => ({| buf := s; failed := true |}, 0)
    | _ => ({| buf := r; failed := false |},
            if neg : bool then - digits_value ds else digits_value ds)
    end.

(** Decimal output of an integer, most significant digit first. *)
Fixpoint decimal_digits (fuel : nat) (n : Z) (acc : list ascii) : list ascii :=
  match fuel with
  | O => acc
  | S fuel' =>
      let acc' := chr (code "0" + n mod 10) :: acc in
      if n <? 10 then acc' else decimal_digits fuel' (n / 10) acc'
  end.

Definition print_int (n : Z) : list ascii :=
  if n <? 0 then "-"%char :: decimal_digits (S (Z.to_nat (- n))) (- n) []
  else decimal_digits (S (Z.to_nat n)) n [].

Definition char_to_piece (c : ascii) : Piece :=
  if Ascii.eqb c "P" then W_PAWN else if Ascii.eqb c "N" then W_KNIGHT
  else if Ascii.eqb c "B" then W_BISHOP else if Ascii.eqb c "R" then W_ROOK
  else if Ascii.eqb c "Q" then W_QUEEN else if Ascii.eqb c "K" then W_KING
  else if Ascii.eqb c "p" then B_PAWN else if Ascii.eqb c "n" then B_KNIGHT
  else if Ascii.eqb c "b" then B_BISHOP else if Ascii.eqb c "r" then B_ROOK
  else if Ascii.eqb c "q" then B_QUEEN else if Ascii.eqb c "k" then B_KING
  else NO_PIECE.

(** [piece_to_char = " PNBRQKpnbrqk"]. *)
Definition piece_to_char (p : Piece) : ascii :=
  match p with
  | NO_PIECE => " "
  | W_PAWN => "P" | W_KNIGHT => "N" | W_BISHOP => "B"
  | W_ROOK => "R" | W_QUEEN => "Q" | W_KING => "K"
  | B_PAWN => "p" | B_KNIGHT => "n" | B_BISHOP => "b"
  | B_ROOK => "r" | B_QUEEN => "q" | B_KING => "k"
  end%char.

Definition char_at (s : list ascii) (i : nat) : ascii := nth i s zero.

Definition notationToSquare (notation : list ascii) : Square :=
  let file := code (char_at notation 0) - code "a" in
  let rank := code (char_at notation 1) - code "1" in
  make_square rank file.

Definition squareToNotation (sq : Square) : list ascii :=
  let file_str := list_ascii_of_string "abcdefgh" in
  let rank_str := list_ascii_of_string "12345678" in
  [char_at file_str (Z.to_nat (file sq)); char_at rank_str (Z.to_nat (rank sq))].

(** Modelled from the spec: [MAX_PLIES], the capacity of the history array
    (section 3, [history[MAX_PLIES]]), is declared in a header that is
    missing; no result below depends on its value. *)
Definition MAX_PLIES : Z := 1024.

(** The state every constructor starts from. Cells the constructor leaves
    uninitialised (piece lists, history, counters) are zero here. *)
Definition blank_position : Position :=
  {| _board := replicate 64 NO_PIECE;
     _by_color_bb := fun _ => 0;
     _by_piece_kind_bb := fun _ => 0;
     _piece_count := fun _ => 0;
     _piece_position := fun _ => replicate 10 0;
     _current_side := WHITE;
     _castling_rights := NO_CASTLING;
     _enpassant_square := NO_SQUARE;
     _half_move_counter := 0;
     _ply_counter := 0;
     _zobrist_hash := HashKey_empty;
     _history := replicate (Z.to_nat MAX_PLIES) 0;
     _history_counter := 0 |}.

(** The body of the constructors' placement loops. *)
Definition place_piece (P : Position) (piece : Piece) (square : Square)
    : Position :=
  let P := set_board P (<[Z.to_nat square := piece]> (_board P)) in
  let P := set_bitboards P
    (arr_set (_by_color_bb P) (get_color piece)
       (Z.lor (_by_color_bb P (get_color piece)) (square_bb square)))
    (arr_set (_by_piece_kind_bb P) (get_piece_kind piece)
       (Z.lor (_by_piece_kind_bb P (get_piece_kind piece))
          (square_bb square))) in
  set_piece_lists P
    (arr_set (_piece_count P) piece (_piece_count P piece + 1))
    (arr_set (_piece_position P) piece
       (<[Z.to_nat (_piece_count P piece) := square]>
          (_piece_position P piece))).

(** One character of the placement field. *)
Definition fen_place (st : Position * Square) (c : ascii)
    : Position * Square :=
  let '(P, square) := st in
  if Ascii.eqb c "/" then (P, square - 16)
  else if is_digit c then (P, square + (code c - code "0"))
  else (place_piece P (char_to_piece c) square, square + 1).

Definition fen_castling (rights : Castling) (c : ascii) : Castling :=
  if Ascii.eqb c "K" then Z.lor rights W_OO
  else if Ascii.eqb c "Q" then Z.lor rights W_OOO
  else if Ascii.eqb c "k" then Z.lor rights B_OO
  else if Ascii.eqb c "q" then Z.lor rights B_OOO
  else rights.

Fixpoint ascii_list_eqb (a b : list ascii) : bool :=
  match a, b with
  | [], [] => true
  | x :: a', y :: b' => Ascii.eqb x y && ascii_list_eqb a' b'
  | _, _ => false
  end.

Section Fen.
Context {T : ZobristTable}.

(** [Position::Position(std::string fen)]. *)
Definition Position_of_fen (fen : list ascii) : Position :=
  let P := blank_position in
  let stream := {| buf := fen; failed := false |} in
  let '(stream, token) := read_token stream [] in
  let '(P, _) := fold_left fen_place token (P, SQ_A8) in
  let '(stream, token) := read_token stream token in
  let P := set_current_side P
    (if ascii_list_eqb token ["w"%char] then WHITE else BLACK) in
  let '(stream, token) := read_token stream token in
  let P := set_castling_rights P
    (fold_left fen_castling token (_castling_rights P)) in
  let '(stream, token) := read_token stream token in
  let P := set_enpassant_square P
    (if ascii_list_eqb token ["-"%char] then NO_SQUARE
     else notationToSquare token) in
  let '(stream, n) := read_int stream (_ply_counter P) in
  let P := set_ply_counter P n in
  let P := set_half_move_counter P (u8 (_ply_counter P)) in
  let '(stream, n) := read_int stream (_ply_counter P) in
  let P := set_ply_counter P n in
  let P := set_ply_counter P
    (2 * _ply_counter P - 1
     + (if decide (_current_side P = BLACK) then 1 else 0)) in
  let P := set_zobrist_hash P (hash_init HashKey_empty P) in
  set_history P
    (<[0%nat := get_key (_zobrist_hash P)]> (_history P)) 1.

(** [Position::Position(const std::vector<std::pair<Piece, Square>>&)]. *)
Definition Position_of_pieces (pcs : list (Piece * Square)) : Position :=
  let P := fold_left (fun P ps => place_piece P (fst ps) (snd ps))
             pcs blank_position in
  let P := set_half_move_counter P 0 in
  let P := set_ply_counter P 1 in
  let P := set_zobrist_hash P (hash_init HashKey_empty P) in
  set_history P
    (<[0%nat := get_key (_zobrist_hash P)]> (_history P)) 1.
End Fen.

(** One rank of the placement field; [counter] is the run of empty squares
    pending since the last piece. *)
Fixpoint fen_rank (P : Position) (rank : Z) (files : list Z) (counter : Z)
    : list ascii :=
  match files with
  | [] => if 0 <? counter then [chr (code "0" + counter)] else []
  | f :: files' =>
      let piece := piece_at P (make_square rank f) in
      if decide (piece = NO_PIECE) then fen_rank P rank files' (counter + 1)
      else (if 0 <? counter then [chr (code "0" + counter)] else [])
           ++ piece_to_char piece :: fen_rank P rank files' 0
  end.

Definition all_files : list Z := [0; 1; 2; 3; 4; 5; 6; 7].

Fixpoint fen_ranks (P : Position) (ranks : list Z) : list ascii :=
  match ranks with
  | [] => []
  | r :: ranks' =>
      fen_rank P r all_files 0
      ++ (if 0 <? r then ["/"%char] else [])
      ++ fen_ranks P ranks'
  end.

Definition fen_castling_field (rights : Castling) : list ascii :=
  if negb (rights =? NO_CASTLING) then
    (if has_right rights W_OO then ["K"%char] else [])
    ++ (if has_right rights W_OOO then ["Q"%char] else [])
    ++ (if has_right rights B_OO then ["k"%char] else [])
    ++ (if has_right rights B_OOO then ["q"%char] else [])
  else ["-"%char].

Definition fen_enpassant_field (sq : Square) : list ascii :=
  if negb (sq =? NO_SQUARE)
  then [chr (code "a" + file sq); chr (code "1" + rank sq)]
  else ["-"%char].

(** [Position::fen]. *)
Definition fen (P : Position) : list ascii :=
  fen_ranks P [7; 6; 5; 4; 3; 2; 1; 0]
  ++ [" "%char]
  ++ [if decide (_current_side P = WHITE) then "w"%char else "b"%char]
  ++ [" "%char]
  ++ fen_castling_field (_castling_rights P)
  ++ [" "%char]
  ++ fen_enpassant_field (_enpassant_square P)
  ++ [" "%char] ++ print_int (_half_move_counter P)
  ++ [" "%char] ++ print_int (Z.quot (_ply_counter P - 1) 2 + 1).

Definition STARTPOS_FEN : list ascii :=
  list_ascii_of_string
    "rnbqkbnr/pppppppp/8/8/8/8/PPPPPPPP/RNBQKBNR w KQkq - 0 1".

(** ** Equality, draw detection and material (position.cpp) *)

Definition all_squares : list Square := map Z.of_nat (seq 0 64).

(** [Position::operator==]. *)
Definition Position_eq (P Q : Position) : bool :=
  if negb (get_key (_zobrist_hash P) =? get_key (_zobrist_hash Q)) then false
  else if negb (bool_decide (_current_side P = _current_side Q)) then false
  else if negb (_castling_rights P =? _castling_rights Q) then false
  else if negb (_enpassant_square P =? _enpassant_square Q) then false
  else forallb (fun sq => bool_decide (piece_at P sq = piece_at Q sq))
         all_squares.

(** The loop of [threefold_repetition]: [n] cells remain to be visited, from
    index [n - 1] down to 0; [count] is the running number of occurrences. *)
Fixpoint threefold_loop (h : list Z) (key : Z) (n : nat) (count : Z) : bool :=
  match n with
  | O => false
  | S i =>
      if h !!! i =? key then
        if count + 1 =? 3 then true else threefold_loop h key i (count + 1)
      else threefold_loop h key i count
  end.

Definition threefold_repetition (P : Position) : bool :=
  threefold_loop (_history P) (get_key (_zobrist_hash P))
    (Z.to_nat (_history_counter P - 1)) 1.

Fixpoint is_repeated_loop (h : list Z) (key : Z) (n : nat) : bool :=
  match n with
  | O => false
  | S i => if h !!! i =? key then true else is_repeated_loop h key i
  end.

Definition is_repeated (P : Position) : bool :=
  is_repeated_loop (_history P) (get_key (_zobrist_hash P))
    (Z.to_nat (_history_counter P - 1)).

Definition rule50 (P : Position) : bool := 100 <=? _half_move_counter P.

(** Modelled from the spec: [PieceCountVector] and [create_pcv] are declared
    in types.h, which is missing. A piece-count vector stands for the ten
    counts it is built from (pawns, knights, bishops, rooks, queens of White,
    then of Black), so two vectors are equal exactly when the counts are; the
    packing into one machine word is not in the sources. *)
Definition PieceCountVector := list Z.

Definition create_pcv (wp wn wb wr wq bp bn bb br bq : Z) : PieceCountVector :=
  [wp; wn; wb; wr; wq; bp; bn; bb; br; bq].

Definition pcv_eqb (a b : PieceCountVector) : bool := bool_decide (a = b).

Definition get_pcv (P : Position) : PieceCountVector :=
  create_pcv (_piece_count P W_PAWN) (_piece_count P W_KNIGHT)
    (_piece_count P W_BISHOP) (_piece_count P W_ROOK)
    (_piece_count P W_QUEEN) (_piece_count P B_PAWN)
    (_piece_count P B_KNIGHT) (_piece_count P B_BISHOP)
    (_piece_count P B_ROOK) (_piece_count P B_QUEEN).

Definition notEnoughMaterialPCV : list PieceCountVector :=
  [ create_pcv 0 0 0 0 0 0 0 0 0 0;
    create_pcv 0 0 0 0 0 0 1 0 0 0;
    create_pcv 0 0 0 0 0 0 0 1 0 0;
    create_pcv 0 1 0 0 0 0 0 0 0 0;
    create_pcv 0 0 1 0 0 0 0 0 0 0 ].

(** [std::find] reaching the end of the table. *)
Definition enough_material (P : Position) : bool :=
  negb (existsb (pcv_eqb (get_pcv P)) notEnoughMaterialPCV).

Definition is_draw (P : Position) : bool :=
  rule50 P || threefold_repetition P || negb (enough_material P).

Definition no_nonpawns (P : Position) (c : Color) : Z :=
  _piece_count P (make_piece c KNIGHT) + _piece_count P (make_piece c BISHOP)
  + _piece_count P (make_piece c ROOK) + _piece_count P (make_piece c QUEEN).

Definition move_is_quiet (P : Position) (move : Move) : bool :=
  if negb (castling move =? NO_CASTLING) then true
  else if bool_decide (promotion move <> NO_PIECE_KIND) then false
  else if (to move =? enpassant_square P)
          && bool_decide (make_piece_kind (piece_at P (from move)) = PAWN)
       then false
  else if bool_decide (piece_at P (to move) = NO_PIECE) then true
  else false.

Definition move_is_capture (P : Position) (move : Move) : bool :=
  (castling move =? NO_CASTLING)
  && (bool_decide (piece_at P (to move) <> NO_PIECE)
      || (bool_decide (make_piece_kind (piece_at P (from move)) = PAWN)
          && (to move =? enpassant_square P))).

(** ** Attack sets (bitboard.h)

    Modelled from the spec: the attack tables and [slider_attack] are declared
    in bitboard.h, which is missing. Section 4.1 describes them: per square
    the pawn-attack targets of each colour, the knight and king targets, and
    sliding attacks by a ray scan over the blockers, the first blocker of a
    ray included; queen attacks are the union of bishop and rook attacks. *)

Definition on_board (f r : Z) : bool :=
  (0 <=? f) && (f <? 8) && (0 <=? r) && (r <? 8).

Definition bb_of (f r : Z) : Bitboard :=
  if on_board f r then square_bb (make_square r f) else 0.

Definition bb_union (l : list Bitboard) : Bitboard := fold_left Z.lor l 0.

Definition squares_of (bb : Bitboard) : list Square :=
  filter (fun s => Is_true (Z.testbit bb s)) all_squares.

Definition jumps (offsets : list (Z * Z)) (sq : Square) : Bitboard :=
  bb_union (map (fun d => bb_of (file sq + fst d) (rank sq + snd d)) offsets).

Definition KNIGHT_MASK (sq : Square) : Bitboard :=
  jumps [(1, 2); (2, 1); (2, -1); (1, -2); (-1, -2); (-2, -1); (-2, 1); (-1, 2)]
    sq.

Definition KING_MASK (sq : Square) : Bitboard :=
  jumps [(1, 0); (1, 1); (0, 1); (-1, 1); (-1, 0); (-1, -1); (0, -1); (1, -1)]
    sq.

(** Targets attacked by pawns of colour [c] standing on the squares of [bb]. *)
Definition pawn_attacks (bb : Bitboard) (c : Color) : Bitboard :=
  let dr := match c with WHITE => 1 | BLACK => -1 end in
  bb_union (map (fun sq => jumps [(1, dr); (-1, dr)] sq) (squares_of bb)).

Fixpoint ray (fuel : nat) (f r df dr : Z) (blockers : Bitboard) : Bitboard :=
  match fuel with
  | O => 0
  | S fuel' =>
      let f' := f + df in
      let r' := r + dr in
      if on_board f' r' then
        Z.lor (square_bb (make_square r' f'))
          (if Z.testbit blockers (make_square r' f') then 0
           else ray fuel' f' r' df dr blockers)
      else 0
  end.

Definition rays (dirs : list (Z * Z)) (sq : Square) (blockers : Bitboard)
    : Bitboard :=
  bb_union (map (fun d => ray 7 (file sq) (rank sq) (fst d) (snd d) blockers)
              dirs).

Definition slider_attack (k : PieceKind) (sq : Square) (blockers : Bitboard)
    : Bitboard :=
  match k with
  | BISHOP => rays [(1, 1); (1, -1); (-1, 1); (-1, -1)] sq blockers
  | ROOK => rays [(1, 0); (-1, 0); (0, 1); (0, -1)] sq blockers
  | QUEEN => rays [(1, 1); (1, -1); (-1, 1); (-1, -1);
                   (1, 0); (-1, 0); (0, 1); (0, -1)] sq blockers
  | _ => 0
  end.

(** Index of the least significant set bit ([pop_lsb] returns it). *)
Definition lsb (bb : Bitboard) : Square :=
  match squares_of bb with s :: _ => s | [] => NO_SQUARE end.

Definition bb_clear (bb : Bitboard) (sq : Square) : Bitboard :=
  Z.land bb (Z.lxor (Z.ones 64) (square_bb sq)).

(** ** The from-scratch key (hash_position.cpp) *)

Section HashPosition.
Context {T : ZobristTable}.

Definition hash_position (P : Position) : Z :=
  let key :=
    fold_left (fun key piece => xor_squares piece (live P piece) key)
      all_pieces 0 in
  let key := if has_right (castling_rights P) W_OO
             then Z.lxor key HASH_CASTLING_WHITE_SHORT else key in
  let key := if has_right (castling_rights P) W_OOO
             then Z.lxor key HASH_CASTLING_WHITE_LONG else key in
  let key := if has_right (castling_rights P) B_OO
             then Z.lxor key HASH_CASTLING_BLACK_SHORT else key in
  let key := if has_right (castling_rights P) B_OOO
             then Z.lxor key HASH_CASTLING_BLACK_LONG else key in
  let key :=
    if negb (enpassant_square P =? NO_SQUARE) then
      let enpassant_bb := square_bb (enpassant_square P) in
      let possible_attackers := pawn_attacks enpassant_bb (opp (color P)) in
      if negb (Z.land possible_attackers (pieces_cp P (color P) PAWN) =? 0)
      then Z.lxor key (HASH_ENPASSANT (file (enpassant_square P)))
      else key
    else key in
  if decide (color P = WHITE) then Z.lxor key HASH_TURN else key.

(** [PolyglotBook::hash]. *)
Definition polyglot_hash (P : Position) : Z := hash_position P.
End HashPosition.

(** ** Attackers of a square and static exchange evaluation (position.cpp) *)

Definition square_attackers (P : Position) (sq : Square) (c : Color)
    : Bitboard :=
  let attackers := 0 in
  let attackers := Z.lor attackers
    (Z.land (pawn_attacks (square_bb sq) (opp c)) (pieces_cp P c PAWN)) in
  let attackers := Z.lor attackers
    (Z.land (KNIGHT_MASK sq) (pieces_cp P c KNIGHT)) in
  let attackers := Z.lor attackers
    (Z.land (slider_attack BISHOP sq (pieces P))
       (pieces_cpp P c BISHOP QUEEN)) in
  let attackers := Z.lor attackers
    (Z.land (slider_attack ROOK sq (pieces P)) (pieces_cpp P c ROOK QUEEN)) in
  Z.lor attackers (Z.land (KING_MASK sq) (pieces_cp P c KING)).

Definition is_in_check (P : Position) (side : Color) : bool :=
  let king_sq := piece_position P (make_piece side KING) 0 in
  if negb (Z.land (pawn_attacks (square_bb king_sq) side)
             (pieces_cp P (opp side) PAWN) =? 0) then true
  else if negb (Z.land (KNIGHT_MASK king_sq)
                  (pieces_cp P (opp side) KNIGHT) =? 0) then true
  else if negb (Z.land (slider_attack BISHOP king_sq (pieces P))
                  (pieces_cpp P (opp side) BISHOP QUEEN) =? 0) then true
  else if negb (Z.land (slider_attack ROOK king_sq (pieces P))
                  (pieces_cpp P (opp side) ROOK QUEEN) =? 0) then true
  else false.

Definition see_kinds : list PieceKind :=
  [PAWN; KNIGHT; BISHOP; ROOK; QUEEN; KING].

(** The inner [for] of [see]: the first kind, in the order pawn to king, of
    which [side] has an attacker still on the board, with the square
    [pop_lsb] returns for it. *)
Fixpoint pick_attacker (P : Position) (side : Color) (attackers : Bitboard)
    (occupied : Bitboard) (kinds : list PieceKind)
    : option (PieceKind * Square) :=
  match kinds with
  | [] => None
  | pk :: kinds' =>
      let temp := Z.land (Z.land attackers (pieces_cp P side pk)) occupied in
      if negb (temp =? 0) then Some (pk, lsb temp)
      else pick_attacker P side attackers occupied kinds'
  end.

Section See.
(** [PIECE_VALUE[kind].eg]; the table is defined outside the sources at
    hand. *)
Variable PIECE_VALUE_eg : PieceKind -> Z.

(** The [while (true)] of [see]. [pks] is the filled part of the gain
    stack, oldest entry first. A round in which the inner [for] finds
    nothing leaves everything but [side] as it was. *)
Fixpoint see_loop (fuel : nat) (P : Position) (side : Color)
    (attackers : Color -> Bitboard) (occupied : Bitboard)
    (pks : list PieceKind) (current_piecekind : PieceKind)
    : option (list PieceKind) :=
  match fuel with
  | O => None
  | S fuel' =>
      let side := opp side in
      if attackers side =? 0 then Some pks
      else
        match pick_attacker P side (attackers side) occupied see_kinds with
        | Some (pk, sq) =>
            see_loop fuel' P side
              (arr_set attackers side (bb_clear (attackers side) sq))
              (bb_clear occupied sq)
              (pks ++ [current_piecekind]) pk
        | None =>
            see_loop fuel' P side attackers occupied pks current_piecekind
        end
  end.

(** The closing loop of [see] over [pks[counter]] for [counter] from the top
    of the stack down to 1; [upper] is the part of the stack above cell 0,
    top first. *)
Fixpoint see_unwind (upper : list PieceKind) (value : Z) : Z :=
  match upper with
  | [] => value
  | pk :: upper' =>
      see_unwind upper' (Z.max 0 (PIECE_VALUE_eg pk - value))
  end.

Definition see_value (pks : list PieceKind) : Z :=
  match pks with
  | [] => 0
  | pk0 :: upper => PIECE_VALUE_eg pk0 - see_unwind (rev upper) 0
  end.

Definition see_pks (fuel : nat) (P : Position) (move : Move)
    : option (list PieceKind) :=
  let from_sq := from move in
  let to_sq := to move in
  let side := color P in
  let current_piecekind := get_piece_kind (piece_at P from_sq) in
  let pks := [get_piece_kind (piece_at P to_sq)] in
  let occupied :=
    Z.land (pieces P)
      (Z.lxor (Z.ones 64) (Z.lor (square_bb from_sq) (square_bb to_sq))) in
  let attackers : Color -> Bitboard :=
    fun c => square_attackers P to_sq c in
  let attackers := arr_set attackers side (bb_clear (attackers side) from_sq) in
  see_loop fuel P side attackers occupied pks current_piecekind.

(** [Position::see]; [None] when the fuel given to the capture loop runs
    out before the loop ends. *)
Definition see_fuel (fuel : nat) (P : Position) (move : Move) : option Z :=
  match see_pks fuel P move with
  | Some pks => Some (see_value pks)
  | None => None
  end.

(** The exchange as section 4.4 of the spec words it, to compare with
    [see]: each side in turn captures on the target square with its
    lowest-valued attacker (lowest kind first, then lowest square), the
    attackers being recomputed from the current occupancy so that pieces
    standing behind a removed piece come into play; either side may stop. *)
Definition attackers_through (P : Position) (sq : Square) (c : Color)
    (occupied : Bitboard) : Bitboard :=
  let a := 0 in
  let a := Z.lor a
    (Z.land (pawn_attacks (square_bb sq) (opp c)) (pieces_cp P c PAWN)) in
  let a := Z.lor a (Z.land (KNIGHT_MASK sq) (pieces_cp P c KNIGHT)) in
  let a := Z.lor a
    (Z.land (slider_attack BISHOP sq occupied)
       (pieces_cpp P c BISHOP QUEEN)) in
  let a := Z.lor a
    (Z.land (slider_attack ROOK sq occupied) (pieces_cpp P c ROOK QUEEN)) in
  let a := Z.lor a (Z.land (KING_MASK sq) (pieces_cp P c KING)) in
  Z.land a occupied.

(** Best outcome for [side], to move on the target square on which a piece
    of kind [standing] has just landed, when it may decline to capture. *)
Fixpoint swap_xray (fuel : nat) (P : Position) (sq : Square) (side : Color)
    (occupied : Bitboard) (standing : PieceKind) : Z :=
  match fuel with
  | O => 0
  | S fuel' =>
      match pick_attacker P side (attackers_through P sq side occupied)
              occupied see_kinds with
      | Some (pk, s) =>
          Z.max 0 (PIECE_VALUE_eg standing
                   - swap_xray fuel' P sq (opp side) (bb_clear occupied s) pk)
      | None => 0
      end
  end.

Definition see_xray (P : Position) (move : Move) : Z :=
  let occupied :=
    Z.land (pieces P)
      (Z.lxor (Z.ones 64)
         (Z.lor (square_bb (from move)) (square_bb (to move)))) in
  PIECE_VALUE_eg (get_piece_kind (piece_at P (to move)))
  - swap_xray 64 P (to move) (opp (color P)) occupied
      (get_piece_kind (piece_at P (from move))).

(** The capture loop of [see] together with the unwinding of its stack,
    read as one recursion over the states of the loop: what going on from a
    state is worth to [side]. It uses the loop's own choice of the attacker
    and is a step on the way from [see] to the exchange it is compared
    with, not a second account of the exchange. *)
Fixpoint swap_fixed (fuel : nat) (P : Position) (side : Color)
    (attackers : Color -> Bitboard) (occupied : Bitboard)
    (standing : PieceKind) : Z :=
  match fuel with
  | O => 0
  | S fuel' =>
      match pick_attacker P side (attackers side) occupied see_kinds with
      | Some (pk, s) =>
          Z.max 0 (PIECE_VALUE_eg standing
                   - swap_fixed fuel' P (opp side)
                       (arr_set attackers side (bb_clear (attackers side) s))
                       (bb_clear occupied s) pk)
      | None => 0
      end
  end.

Definition see_fixed (P : Position) (move : Move) : Z :=
  let side := color P in
  let occupied :=
    Z.land (pieces P)
      (Z.lxor (Z.ones 64)
         (Z.lor (square_bb (from move)) (square_bb (to move)))) in
  let attackers : Color -> Bitboard :=
    fun c => square_attackers P (to move) c in
  let attackers :=
    arr_set attackers side (bb_clear (attackers side) (from move)) in
  PIECE_VALUE_eg (get_piece_kind (piece_at P (to move)))
  - swap_fixed 64 P (opp side) attackers occupied
      (get_piece_kind (piece_at P (from move))).
End See.

(** ** Move strings (position.cpp) *)

(** What a call can end in: a returned value or a thrown
    [std::runtime_error]. *)
Inductive outcome (A : Type) :=
  | Returned (a : A)
  | Thrown (what : list ascii).
Arguments Returned {A} a.
Arguments Thrown {A} what.

Definition is_char (s : string) (c : ascii) : bool :=
  existsb (Ascii.eqb c) (list_ascii_of_string s).

(** [Position::parse_uci]. Characters are read at indices 0 to 3 whatever the
    length of the text; a read past the end yields the NUL character here. *)
Definition parse_uci (P : Position) (str : list ascii) : outcome Move :=
  let from := make_square (code (char_at str 1) - code "1")
                (code (char_at str 0) - code "a") in
  let to := make_square (code (char_at str 3) - code "1")
              (code (char_at str 2) - code "a") in
  let promotion : outcome PieceKind :=
    if (4 <? Z.of_nat (length str)) then
      let c := char_at str 4 in
      if is_char "nN" c then Returned KNIGHT
      else if is_char "bB" c then Returned BISHOP
      else if is_char "rR" c then Returned ROOK
      else if is_char "qQ" c then Returned QUEEN
      else Thrown (list_ascii_of_string "Unknown promotion piece: "
                   ++ drop 4 str)
    else Returned NO_PIECE_KIND in
  match promotion with
  | Thrown what => Thrown what
  | Returned promotion =>
      let move := create_promotion from to promotion in
      let king := bool_decide (make_piece_kind (_board P !!! Z.to_nat from)
                               = KING) in
      let move := if king && (from =? SQ_E1) && (to =? SQ_G1)
                  then create_castling KING_CASTLING else move in
      let move := if king && (from =? SQ_E1) && (to =? SQ_C1)
                  then create_castling QUEEN_CASTLING else move in
      let move := if king && (from =? SQ_E8) && (to =? SQ_G8)
                  then create_castling KING_CASTLING else move in
      let move := if king && (from =? SQ_E8) && (to =? SQ_C8)
                  then create_castling QUEEN_CASTLING else move in
      Returned move
  end.

(** [SAN_REGEX], matched against the whole text:
    [([NBRQK]?)([a-h]?)([1-8]?)x?([a-h][1-8])=?([nbrqkNBRQK]?)[\+#]?].
    Every optional item first tries to take a character and falls back to
    taking none; the first complete match in that order is the match. *)
Definition opt_item (cls : ascii -> bool) (s : list ascii)
    : list (list ascii * list ascii) :=
  match s with
  | c :: r => if cls c then [([c], r); ([], s)] else [([], s)]
  | [] => [([], [])]
  end.

Record san_groups := {
  g_piece : list ascii;
  g_file : list ascii;
  g_rank : list ascii;
  g_target : list ascii;
  g_promotion : list ascii
}.

Definition san_matches (s : list ascii) : list san_groups :=
  '(g1, s) ← opt_item (is_char "NBRQK") s;
  '(g2, s) ← opt_item (is_char "abcdefgh") s;
  '(g3, s) ← opt_item (is_char "12345678") s;
  '(_, s) ← opt_item (is_char "x") s;
  match s with
  | f :: r :: s =>
      if is_char "abcdefgh" f && is_char "12345678" r then
        '(_, s) ← opt_item (is_char "=") s;
        '(g5, s) ← opt_item (is_char "nbrqkNBRQK") s;
        '(_, s) ← opt_item (is_char "+#") s;
        match s with
        | [] => [ {| g_piece := g1; g_file := g2; g_rank := g3;
                     g_target := [f; r]; g_promotion := g5 |} ]
        | _ => []
        end
      else []
  | _ => []
  end.

Definition san_regex_match (s : list ascii) : option san_groups :=
  head (san_matches s).

Definition parse_piece_kind (s : list ascii) : PieceKind :=
  match s with
  | [c] =>
      if is_char "nN" c then KNIGHT
      else if is_char "bB" c then BISHOP
      else if is_char "rR" c then ROOK
      else if is_char "qQ" c then QUEEN
      else if is_char "kK" c then KING
      else PAWN
  | _ => PAWN
  end.

Definition opt_matches {A : Type} (o : option A) (test : A -> bool) : bool :=
  match o with Some a => test a | None => true end.

Section ParseSan.
(** The legal-move generator (movegen.cpp) is not among the sources; the
    list it writes into the caller's buffer is taken as a parameter. *)
Variable generate_moves : Position -> Color -> list Move.

Definition san_move_matches (P : Position) (moved_piece : PieceKind)
    (from_file from_rank : option Z) (to_square : Square)
    (promotion_piece_kind : option PieceKind) (move : Move) : bool :=
  bool_decide (make_piece_kind (piece_at P (from move)) = moved_piece)
  && opt_matches from_file (fun f => file (from move) =? f)
  && opt_matches from_rank (fun r => rank (from move) =? r)
  && (to move =? to_square)
  && opt_matches promotion_piece_kind
       (fun k => bool_decide (promotion move = k)).

(** The matching loop: the last matching move and the number of matches. *)
Definition san_scan (test : Move -> bool) (moves : list Move) : Move * Z :=
  fold_left (fun acc move =>
               if test move then (move, snd acc + 1) else acc)
    moves (NO_MOVE, 0).

Definition is_member (move : Move) (moves : list Move) : bool :=
  existsb (Z.eqb move) moves.

(** [Position::parse_san]. *)
Definition parse_san (P : Position) (str : list ascii) : Move :=
  let moves := generate_moves P (color P) in
  if ascii_list_eqb str (list_ascii_of_string "0-0")
     || ascii_list_eqb str (list_ascii_of_string "O-O")
  then (if is_member KING_CASTLING_MOVE moves
        then KING_CASTLING_MOVE else NO_MOVE)
  else if ascii_list_eqb str (list_ascii_of_string "0-0-0")
          || ascii_list_eqb str (list_ascii_of_string "O-O-O")
  then (if is_member QUEEN_CASTLING_MOVE moves
        then QUEEN_CASTLING_MOVE else NO_MOVE)
  else
    match san_regex_match str with
    | None => NO_MOVE
    | Some m =>
        let moved_piece := parse_piece_kind (g_piece m) in
        let from_file :=
          match g_file m with
          | c :: _ => Some (code c - code "a") | [] => None
          end in
        let from_rank :=
          match g_rank m with
          | c :: _ => Some (code c - code "1") | [] => None
          end in
        let to_square :=
          make_square (code (char_at (g_target m) 1) - code "1")
            (code (char_at (g_target m) 0) - code "a") in
        let promotion_piece_kind :=
          match g_promotion m with
          | _ :: _ => Some (parse_piece_kind (g_promotion m)) | [] => None
          end in
        if match promotion_piece_kind with
           | Some k => bool_decide (k = PAWN) || bool_decide (k = KING)
           | None => false
           end
        then NO_MOVE
        else
          let '(matching_move, matching_move_count) :=
            san_scan (san_move_matches P moved_piece from_file from_rank
                        to_square promotion_piece_kind) moves in
          if negb (matching_move_count =? 1) then NO_MOVE
          else matching_move
    end.
End ParseSan.

(** ** The move loop of the alpha-beta search (search.cpp)

    Modelled from the spec: [SearchInfo] and its [update_killers],
    [update_history] and [update_pv] are declared in search.h, which is
    missing. Section 4.7 describes the block: the current ply, a killer table
    with two slots per ply in which a new killer replaces slot 0 only if
    distinct from it (the entry it replaces is kept in slot 1), a history
    table per side, origin and destination that a cutoff raises by the
    remaining depth, and a principal-variation hint per Zobrist key. *)

Definition MoveList := list Move.

Record SearchInfo := {
  ply : Z;
  killers : Z -> Z -> Move;
  history : Color -> Square -> Square -> Z;
  pv_hint : Z -> option Move
}.

Definition set_ply (info : SearchInfo) (n : Z) : SearchInfo :=
  {| ply := n; killers := killers info; history := history info;
     pv_hint := pv_hint info |}.

Definition update_killers (info : SearchInfo) (at_ply : Z) (move : Move)
    : SearchInfo :=
  if killers info 0 at_ply =? move then info
  else
    {| ply := ply info;
       killers := fun slot p =>
         if p =? at_ply then
           if slot =? 0 then move
           else if slot =? 1 then killers info 0 at_ply
           else killers info slot p
         else killers info slot p;
       history := history info;
       pv_hint := pv_hint info |}.

Definition update_history (info : SearchInfo) (side : Color)
    (from to : Square) (depth : Z) : SearchInfo :=
  {| ply := ply info;
     killers := killers info;
     history := fun c f t =>
       if bool_decide (c = side) && (f =? from) && (t =? to)
       then history info c f t + depth
       else history info c f t;
     pv_hint := pv_hint info |}.

Definition update_pv (info : SearchInfo) (key : Z) (move : Move)
    : SearchInfo :=
  {| ply := ply info;
     killers := killers info;
     history := history info;
     pv_hint := fun k => if k =? key then Some move else pv_hint info k |}.

(** The variables the move loop of [Search::search] carries round. *)
Record LoopState := {
  ls_position : Position;
  ls_info : SearchInfo;
  ls_alpha : Z;
  ls_best : Z;
  ls_full_window : bool;
  ls_movelist : MoveList
}.

(** What one round of the loop ends in: a [return] out of [search], or the
    state the next round starts from. *)
Inductive round_end :=
  | Return (score : Z) (st : LoopState)
  | Next (st : LoopState).

Section SearchLoop.
Context {T : ZobristTable}.

(** The recursive call [search<true>(position, depth, alpha, beta,
    temp_movelist)]: it yields the score, the list left in [temp_movelist],
    and the position and search information as the call leaves them. *)
Variable search_rec :
  Position -> SearchInfo -> Z -> Z -> Z -> Z * MoveList * Position * SearchInfo.

Definition negate (r : Z * MoveList * Position * SearchInfo)
    : Z * MoveList * Position * SearchInfo :=
  let '(score, ml, P, info) := r in (- score, ml, P, info).

(** The first half of the body of [while (movepicker.has_next())]: the
    move is made, searched (with the full window, or with a zero window and
    a full-window re-search), and taken back. *)
Definition search_try (depth beta : Z) (st : LoopState) (move : Move)
    : Z * MoveList * Position * SearchInfo :=
  let position := ls_position st in
  let info := ls_info st in
  let alpha := ls_alpha st in
  let '(position, moveinfo) := do_move position move in
  let info := set_ply info (ply info + 1) in
  let '(result, temp_movelist, position, info) :=
    if ls_full_window st then
      negate (search_rec position info (depth - 1) (- beta) (- alpha))
    else
      let '(result, temp_movelist, position, info) :=
        negate (search_rec position info (depth - 1) (- alpha - 1)
                  (- alpha)) in
      if (alpha <? result) && (result <? beta) then
        negate (search_rec position info (depth - 1) (- beta) (- alpha))
      else (result, temp_movelist, position, info) in
  let info := set_ply info (ply info - 1) in
  let position := undo_move position move moveinfo in
  (result, temp_movelist, position, info).

(** The second half: the beta cutoff, or the bookkeeping of the best score
    and of the window. *)
Definition search_settle (depth beta : Z) (st : LoopState) (move : Move)
    (tried : Z * MoveList * Position * SearchInfo) : round_end :=
  let '(result, temp_movelist, position, info) := tried in
  let alpha := ls_alpha st in
  if beta <=? result then
    let info :=
      if bool_decide (piece_at position (to move) = NO_PIECE) then
        let info := update_killers info (ply info) move in
        update_history info (color position) (from move) (to move) depth
      else info in
    let movelist := temp_movelist ++ [move] in
    let info := update_pv info (hash position) move in
    Return beta
      {| ls_position := position; ls_info := info; ls_alpha := alpha;
         ls_best := ls_best st; ls_full_window := ls_full_window st;
         ls_movelist := movelist |}
  else
    let '(best, movelist) :=
      if ls_best st <? result then (result, temp_movelist ++ [move])
      else (ls_best st, ls_movelist st) in
    let '(alpha, full_window) :=
      if alpha <? result then (result, false)
      else (alpha, ls_full_window st) in
    Next {| ls_position := position; ls_info := info; ls_alpha := alpha;
            ls_best := best; ls_full_window := full_window;
            ls_movelist := movelist |}.

Definition search_round (depth beta : Z) (st : LoopState) (move : Move)
    : round_end :=
  search_settle depth beta st move (search_try depth beta st move).

(** The loop over the moves in the order the move picker yields them, and
    the code after it. *)
Fixpoint search_moves (depth beta : Z) (st : LoopState) (moves : list Move)
    : Z * LoopState :=
  match moves with
  | [] =>
      let info :=
        match last (ls_movelist st) with
        | Some m => update_pv (ls_info st) (hash (ls_position st)) m
        | None => ls_info st
        end in
      (ls_best st,
       {| ls_position := ls_position st; ls_info := info;
          ls_alpha := ls_alpha st; ls_best := ls_best st;
          ls_full_window := ls_full_window st;
          ls_movelist := ls_movelist st |})
  | move :: moves' =>
      match search_round depth beta st move with
      | Return score st' => (score, st')
      | Next st' => search_moves depth beta st' moves'
      end
  end.
End SearchLoop.

(** ** Move texts (position.cpp, types.cpp) *)

Definition files_text : list ascii := list_ascii_of_string "abcdefgh".
Definition ranks_text : list ascii := list_ascii_of_string "12345678".

(** The four characters both printers start a move text with. *)
Definition squares_text (move : Move) : list ascii :=
  [char_at files_text (Z.to_nat (file (from move)));
   char_at ranks_text (Z.to_nat (rank (from move)));
   char_at files_text (Z.to_nat (file (to move)));
   char_at ranks_text (Z.to_nat (rank (to move)))].

(** [Position::uci]; its promotion letters are ["  nbrq "], indexed by the
    piece kind. *)
Definition uci (P : Position) (move : Move) : list ascii :=
  if negb (Z.land (castling move) KING_CASTLING =? 0) then
    if decide (_current_side P = WHITE) then list_ascii_of_string "e1g1"
    else list_ascii_of_string "e8g8"
  else if negb (Z.land (castling move) QUEEN_CASTLING =? 0) then
    if decide (_current_side P = WHITE) then list_ascii_of_string "e1c1"
    else list_ascii_of_string "e8c8"
  else
    let str := squares_text move in
    if decide (promotion move <> NO_PIECE_KIND)
    then str ++ [char_at (list_ascii_of_string "  nbrq ")
                   (Z.to_nat (pk_code (promotion move)))]
    else str.

(** [move_to_string] of types.cpp; its promotion letters are ["  NBRQ "]. *)
Definition move_to_string (move : Move) : list ascii :=
  if negb (Z.land (castling move) KING_CASTLING =? 0) then
    list_ascii_of_string "OO"
  else if negb (Z.land (castling move) QUEEN_CASTLING =? 0) then
    list_ascii_of_string "OOO"
  else
    let str := squares_text move in
    if decide (promotion move <> NO_PIECE_KIND)
    then str ++ [char_at (list_ascii_of_string "  NBRQ ")
                   (Z.to_nat (pk_code (promotion move)))]
    else str.

(** [string_to_move] of types.cpp: the [switch] knows the four lower-case
    letters and leaves the promotion unset on any other character. *)
Definition string_to_move (str : list ascii) : Move :=
  let from := make_square (code (char_at str 1) - code "1")
                (code (char_at str 0) - code "a") in
  let to := make_square (code (char_at str 3) - code "1")
              (code (char_at str 2) - code "a") in
  let promotion :=
    if (4 <? Z.of_nat (length str)) then
      let c := char_at str 4 in
      if Ascii.eqb c "n" then KNIGHT
      else if Ascii.eqb c "b" then BISHOP
      else if Ascii.eqb c "r" then ROOK
      else if Ascii.eqb c "q" then QUEEN
      else NO_PIECE_KIND
    else NO_PIECE_KIND in
  create_promotion from to promotion.

(** ** The opening book (polyglot.cpp) *)

(** The move of a book entry, from bytes 8 and 9 of the entry. The kind of
    the promotion is computed on the integers, [PAWN + promotion_code], and
    packed as [create_promotion] packs it. *)
Definition book_move (byte8 byte9 : Z) : Move :=
  let move_code := Z.lor (Z.shiftl (Z.land byte8 255) 8) (Z.land byte9 255) in
  let fromRank := Z.land (Z.shiftr move_code 9) 7 in
  let fromFile := Z.land (Z.shiftr move_code 6) 7 in
  let toRank := Z.land (Z.shiftr move_code 3) 7 in
  let toFile := Z.land move_code 7 in
  let promotion_code := Z.land (Z.shiftr move_code 12) 7 in
  let promotion :=
    if negb (promotion_code =? 0) then pk_code PAWN + promotion_code
    else pk_code NO_PIECE_KIND in
  Z.lor (Z.lor (Z.shiftl promotion 12)
           (Z.shiftl (make_square toRank toFile) 6))
    (make_square fromRank fromFile).

(** The [while] of [get_random_move], over the entries from index [i] on:
    it yields the index the move is then read at. *)
Fixpoint weighted_index (rest : list (Move * Z)) (sample w : Z) (i : nat)
    : nat :=
  match rest with
  | [] => i
  | (_, weight) :: rest' =>
      if w + weight <? sample
      then weighted_index rest' sample (w + weight) (S i)
      else i
  end.

Definition sum_of_weights (moves : list (Move * Z)) : Z :=
  fold_left (fun s wm => s + snd wm) moves 0.

(** [PolyglotBook::decode_move]. *)
Definition decode_move (move : Move) (P : Position) : Move :=
  if (from move =? SQ_E1) && ((to move =? SQ_H1) || (to move =? SQ_G1))
     && bool_decide (piece_at P (from move) = W_KING)
  then create_castling KING_CASTLING
  else if (from move =? SQ_E1) && ((to move =? SQ_A1) || (to move =? SQ_C1))
          && bool_decide (piece_at P (from move) = W_KING)
  then create_castling QUEEN_CASTLING
  else if (from move =? SQ_E8) && ((to move =? SQ_H8) || (to move =? SQ_G8))
          && bool_decide (piece_at P (from move) = B_KING)
  then create_castling KING_CASTLING
  else if (from move =? SQ_E8) && ((to move =? SQ_A8) || (to move =? SQ_C8))
          && bool_decide (piece_at P (from move) = B_KING)
  then create_castling QUEEN_CASTLING
  else move.

(** [PolyglotBook::get_random_move], given the number the generator
    yields; the entry read past the end of the list is [NO_MOVE] here. *)
Definition get_random_move (moves : list (Move * Z)) (random : Z)
    (P : Position) : Move :=
  let sample := Z.rem random (sum_of_weights moves) in
  let i := weighted_index moves sample 0 0 in
  decode_move (fst (nth i moves (NO_MOVE, 0))) P.

(** [std::max_element] with the comparison of [get_best_move]: the first
    entry of greatest weight, [best] being the greatest seen so far. *)
Fixpoint max_element (best : Move * Z) (rest : list (Move * Z)) : Move * Z :=
  match rest with
  | [] => best
  | wm :: rest' =>
      if snd best <? snd wm then max_element wm rest'
      else max_element best rest'
  end.

(** [PolyglotBook::get_best_move]; on an empty list, which the book never
    holds, the entry read is [NO_MOVE] here. *)
Definition get_best_move (moves : list (Move * Z)) (P : Position) : Move :=
  match moves with
  | [] => decode_move NO_MOVE P
  | wm :: rest => decode_move (fst (max_element wm rest)) P
  end.

(** ** Concrete tables and positions used in the examples

    A table of distinct one-bit constants stands in for the random Zobrist
    constants, and the classical centipawn values for the piece values. *)

Definition example_table : ZobristTable :=
  {| HASH_PIECE := fun p s => Z.shiftl 1 (piece_code p * 64 + s);
     HASH_CASTLING_WHITE_SHORT := Z.shiftl 1 900;
     HASH_CASTLING_WHITE_LONG := Z.shiftl 1 901;
     HASH_CASTLING_BLACK_SHORT := Z.shiftl 1 902;
     HASH_CASTLING_BLACK_LONG := Z.shiftl 1 903;
     HASH_ENPASSANT := fun f => Z.shiftl 1 (910 + f);
     HASH_TURN := Z.shiftl 1 920 |}.

Definition example_values (k : PieceKind) : Z :=
  match k with
  | NO_PIECE_KIND => 0 | PAWN => 100 | KNIGHT => 300 | BISHOP => 300
  | ROOK => 500 | QUEEN => 900 | KING => 10000
  | PIECE_KIND_7 => 0
  end.

Definition position_of (fen : string) : Position :=
  Position_of_fen (T := example_table) (list_ascii_of_string fen).

Definition startpos : Position :=
  Position_of_fen (T := example_table) STARTPOS_FEN.

(** Section 8, scenario 5. *)
Definition rooks_and_kings : Position :=
  position_of "r3k2r/8/8/8/8/8/8/R3K2R w KQkq - 0 1".

(** The same placement three plies after the last capture or pawn move. *)
Definition castling_position : Position :=
  position_of "r3k2r/8/8/8/8/8/8/R3K2R w KQkq - 3 1".

(** Section 8, scenario 6. *)
Definition enpassant_position : Position :=
  position_of "rnbqkbnr/ppp1p1pp/8/3pPp2/8/8/PPPP1PPP/RNBQKBNR w KQkq f6 0 3".

Definition uci_move (s : string) : Move :=
  let l := list_ascii_of_string s in
  create_move
    (make_square (code (char_at l 1) - code "1") (code (char_at l 0) - code "a"))
    (make_square (code (char_at l 3) - code "1") (code (char_at l 2) - code "a")).

(** * The vocabulary of the results

    The predicates and helper functions the statements below are written
    with: the agreement of the board with the piece lists, the bitboards
    and the subkeys, the shape of a move, what equality compares, and the
    like. *)

Section Vocabulary.
Context {T : ZobristTable}.

(** The loop run over a whole list. *)
Definition subst_first (old new : Square) (l : list Square) : list Square :=
  replace_first (length l) old new l.

Definition cell (b : list Piece) (sq : Square) : Piece := b !!! Z.to_nat sq.

Definition live_of (cnt : Piece -> Z) (pos : Piece -> list Square)
    (pc : Piece) : list Square :=
  take (Z.to_nat (cnt pc)) (pos pc).

(** The filled part of every piece list holds, without repetition, exactly
    the squares on which the board has that piece. *)
Record listed_on (b : list Piece) (cnt : Piece -> Z)
    (pos : Piece -> list Square) : Prop := {
  lo_board : length b = 64%nat;
  lo_len : forall pc, length (pos pc) = 10%nat;
  lo_count : forall pc, 0 <= cnt pc <= 10;
  lo_none : cnt NO_PIECE = 0;
  lo_nodup : forall pc, NoDup (live_of cnt pos pc);
  lo_member : forall pc sq,
    pc <> NO_PIECE ->
    sq ∈ live_of cnt pos pc <-> 0 <= sq < 64 /\ cell b sq = pc
}.

Definition listed (P : Position) : Prop :=
  listed_on (_board P) (_piece_count P) (_piece_position P).

(** Bit [s] of the bitboard of [a] is set exactly when square [s] holds a
    piece whose attribute [f] is [a]. *)
Definition mapped_on {A : Type} `{EqDecision A} (f : Piece -> A)
    (b : list Piece) (bb : A -> Bitboard) : Prop :=
  forall a s,
    Z.testbit (bb a) s
    = bool_decide (0 <= s < 64 /\ cell b s <> NO_PIECE /\ f (cell b s) = a).

Definition pawn_pieces : list Piece := [W_PAWN; B_PAWN].

Definition officer_pieces : list Piece :=
  [W_KNIGHT; W_BISHOP; W_ROOK; W_QUEEN; W_KING;
   B_KNIGHT; B_BISHOP; B_ROOK; B_QUEEN; B_KING].

Definition xor_list (pc : Piece) (l : list Square) : Z :=
  foldr (fun sq k => Z.lxor (HASH_PIECE pc sq) k) 0 l.

(** The subkey of the piece [pc] read off the board. *)
Definition board_xor (pc : Piece) (b : list Piece) : Z :=
  xor_list pc (filter (fun s => cell b s = pc) all_squares).

Definition board_key (b : list Piece) (pcs : list Piece) : Z :=
  foldr (fun pc k => Z.lxor (board_xor pc b) k) 0 pcs.

(** The pawn subkey and the piece subkey are those of the board. *)
Definition hashed_board (b : list Piece) (h : HashKey) : Prop :=
  _pawn_key h = board_key b pawn_pieces
  /\ _piece_key h = board_key b officer_pieces.

(** Board, piece lists, bitboards and placement subkeys agree. *)
Record placed (P : Position) : Prop := {
  pl_listed : listed_on (_board P) (_piece_count P) (_piece_position P);
  pl_color : mapped_on get_color (_board P) (_by_color_bb P);
  pl_kind : mapped_on make_piece_kind (_board P) (_by_piece_kind_bb P);
  pl_hashed : hashed_board (_board P) (_zobrist_hash P)
}.

(** Two positions with the same placement data. *)
Definition same_placement (P Q : Position) : Prop :=
  _board P = _board Q
  /\ _by_color_bb P = _by_color_bb Q
  /\ _by_piece_kind_bb P = _by_piece_kind_bb Q
  /\ _piece_count P = _piece_count Q
  /\ _piece_position P = _piece_position Q
  /\ _pawn_key (_zobrist_hash P) = _pawn_key (_zobrist_hash Q)
  /\ _piece_key (_zobrist_hash P) = _piece_key (_zobrist_hash Q).

(** The position is well placed, with the given board and counts. *)
Definition tracks (X : Position) (b : list Piece) (c : Piece -> Z) : Prop :=
  placed X /\ _board X = b /\ forall pc, _piece_count X pc = c pc.

(** What [do_move] needs of an ordinary move: an own piece on the origin;
    for an en-passant capture an empty target, no promotion and an enemy
    pawn behind the target; otherwise a target that is empty or holds an
    enemy piece, and for a promotion a promotion field that names a kind, an
    own pawn moving and room in the list of the promoted piece. *)
Definition ordinary_shape (b : list Piece) (cnt : Piece -> Z) (ep : Square)
    (side : Color) (m : Move) : bool :=
  let moved := cell b (from m) in
  let captured := cell b (to m) in
  bool_decide (moved <> NO_PIECE /\ get_color moved = side)
  && (if bool_decide (get_piece_kind moved = PAWN) && (to m =? ep) then
        bool_decide (captured = NO_PIECE /\ promotion m = NO_PIECE_KIND
                     /\ 0 <= to m + pawn_step_back side < 64
                     /\ cell b (to m + pawn_step_back side)
                        = make_piece (opp side) PAWN)
      else
        bool_decide (captured = NO_PIECE \/ get_color captured = opp side)
        && bool_decide (promotion m <> NO_PIECE_KIND ->
                        promotion m <> PIECE_KIND_7
                        /\ moved = make_piece side PAWN
                        /\ cnt (make_piece side (promotion m)) < 10)).

(** What [do_move] needs of a castling move: pieces on the king's and the
    rook's squares, and nothing on the squares they go to. *)
Definition castling_shape (b : list Piece) (side : Color) (m : Move) : bool :=
  let r := home_rank side in
  if castling m =? KING_CASTLING then
    bool_decide (cell b (make_square r FILE_E) <> NO_PIECE
                 /\ cell b (make_square r FILE_H) <> NO_PIECE
                 /\ cell b (make_square r FILE_F) = NO_PIECE
                 /\ cell b (make_square r FILE_G) = NO_PIECE)
  else
    bool_decide (cell b (make_square r FILE_E) <> NO_PIECE
                 /\ cell b (make_square r FILE_A) <> NO_PIECE
                 /\ cell b (make_square r FILE_C) = NO_PIECE
                 /\ cell b (make_square r FILE_D) = NO_PIECE).

Definition move_shape (P : Position) (m : Move) : bool :=
  if negb (castling m =? NO_CASTLING)
  then castling_shape (_board P) (_current_side P) m
  else ordinary_shape (_board P) (_piece_count P) (_enpassant_square P)
         (_current_side P) m.

(** The bitboard with the bits of the squares whose piece passes [pred]. *)
Definition bb_where (pred : Piece -> bool) (b : list Piece) : Bitboard :=
  foldr (fun s acc => if pred (cell b s) then Z.lor acc (square_bb s) else acc)
    0 all_squares.

Definition all_colors : list Color := [WHITE; BLACK].

Definition all_kinds : list PieceKind :=
  [NO_PIECE_KIND; PAWN; KNIGHT; BISHOP; ROOK; QUEEN; KING; PIECE_KIND_7].

(** The list of one piece: ten cells, a count within them, and the filled
    part holding once each exactly the squares of that piece. *)
Definition list_ok (P : Position) (pc : Piece) : bool :=
  bool_decide (length (_piece_position P pc) = 10%nat)
  && (0 <=? _piece_count P pc) && (_piece_count P pc <=? 10)
  && bool_decide (NoDup (live P pc))
  && forallb (fun s => (0 <=? s) && (s <? 64)
                       && bool_decide (cell (_board P) s = pc)) (live P pc)
  && forallb (fun s => implb (bool_decide (cell (_board P) s = pc))
                         (bool_decide (s ∈ live P pc))) all_squares.

Definition lists_ok (P : Position) : bool :=
  bool_decide (length (_piece_position P NO_PIECE) = 10%nat)
  && (_piece_count P NO_PIECE =? 0)
  && forallb (list_ok P) all_pieces.

Definition bitboards_ok (P : Position) : bool :=
  forallb (fun c => _by_color_bb P c
             =? bb_where (fun p => bool_decide (p <> NO_PIECE /\ get_color p = c))
                  (_board P)) all_colors
  && forallb (fun k => _by_piece_kind_bb P k
                =? bb_where (fun p => bool_decide (p <> NO_PIECE
                                                   /\ make_piece_kind p = k))
                     (_board P)) all_kinds.

(** The five subkeys are those of the board, the rights, the en-passant
    square and the side to move. *)
Definition keys_ok (P : Position) : bool :=
  let h := _zobrist_hash P in
  (_pawn_key h =? board_key (_board P) pawn_pieces)
  && (_piece_key h =? board_key (_board P) officer_pieces)
  && (_castling_key h =? castling_key_of (_castling_rights P))
  && (_enpassant_key h
      =? if _enpassant_square P =? NO_SQUARE then 0
         else HASH_ENPASSANT (file (_enpassant_square P)))
  && (_color_key h =? if decide (_current_side P = WHITE) then HASH_TURN else 0).

Definition consistent (P : Position) : bool :=
  bool_decide (length (_board P) = 64%nat)
  && lists_ok P && bitboards_ok P && keys_ok P
  && (0 <=? _castling_rights P) && (_castling_rights P <? 16)
  && (0 <=? _half_move_counter P) && (_half_move_counter P <? 256)
  && enpassant_square_ok (_enpassant_square P).

(** What a consistent position gives. *)
Record consistent_facts (P : Position) : Prop := {
  cf_placed : placed P;
  cf_rights : 0 <= _castling_rights P < 16;
  cf_hm : 0 <= _half_move_counter P < 256;
  cf_ep : 0 <= _enpassant_square P <= 64;
  cf_ep_ok : enpassant_square_ok (_enpassant_square P) = true;
  cf_castling_key :
    _castling_key (_zobrist_hash P) = castling_key_of (_castling_rights P);
  cf_enpassant_key :
    _enpassant_key (_zobrist_hash P)
    = if _enpassant_square P =? NO_SQUARE then 0
      else HASH_ENPASSANT (file (_enpassant_square P));
  cf_color_key :
    _color_key (_zobrist_hash P)
    = if decide (_current_side P = WHITE) then HASH_TURN else 0
}.

(** What [operator==] looks at. *)
Definition same_compared (P Q : Position) : Prop :=
  get_key (_zobrist_hash P) = get_key (_zobrist_hash Q)
  /\ _current_side P = _current_side Q
  /\ _castling_rights P = _castling_rights Q
  /\ _enpassant_square P = _enpassant_square Q
  /\ (forall sq, 0 <= sq < 64 -> piece_at P sq = piece_at Q sq).

(** Agreement on the fields only [change_current_side], the ply counter
    and the history write. *)
Definition same_stable (X Y : Position) : Prop :=
  _current_side X = _current_side Y
  /\ _ply_counter X = _ply_counter Y
  /\ _history X = _history Y
  /\ _history_counter X = _history_counter Y
  /\ _color_key (_zobrist_hash X) = _color_key (_zobrist_hash Y).

(** Agreement on the fields and subkeys the piece operations leave
    alone. *)
Definition same_scalars (X Y : Position) : Prop :=
  same_stable X Y
  /\ _castling_rights X = _castling_rights Y
  /\ _enpassant_square X = _enpassant_square Y
  /\ _half_move_counter X = _half_move_counter Y
  /\ _enpassant_key (_zobrist_hash X) = _enpassant_key (_zobrist_hash Y)
  /\ _castling_key (_zobrist_hash X) = _castling_key (_zobrist_hash Y).

Definition is_pawn_move (P : Position) (m : Move) : bool :=
  bool_decide (get_piece_kind (piece_at P (from m)) = PAWN).

Inductive Right := R_W_OO | R_W_OOO | R_B_OO | R_B_OOO.

Definition right_flag (R : Right) : Castling :=
  match R with
  | R_W_OO => W_OO | R_W_OOO => W_OOO | R_B_OO => B_OO | R_B_OOO => B_OOO
  end.

Definition right_color (R : Right) : Color :=
  match R with R_W_OO | R_W_OOO => WHITE | R_B_OO | R_B_OOO => BLACK end.

(** The home square of the rook a right belongs to. *)
Definition right_rook_square (R : Right) : Square :=
  match R with
  | R_W_OO => SQ_H1 | R_W_OOO => SQ_A1 | R_B_OO => SQ_H8 | R_B_OOO => SQ_A8
  end.

Definition king_home (c : Color) : Square :=
  match c with WHITE => SQ_E1 | BLACK => SQ_E8 end.

Definition holds (P : Position) (R : Right) : bool :=
  has_right (_castling_rights P) (right_flag R).

(** The moves that cost the right [R], in the words of the spec: the king or
    the rook of the right leaves its home square (castling included), or the
    opponent's rook of the right is captured on its home square. *)
Definition clears (P : Position) (m : Move) (R : Right) : bool :=
  let side := color P in
  if negb (castling m =? NO_CASTLING) then bool_decide (right_color R = side)
  else
    let moved := piece_at P (from m) in
    let captured := piece_at P (to m) in
    (bool_decide (right_color R = side)
     && ((bool_decide (moved = make_piece side KING)
          && (from m =? king_home side))
         || (bool_decide (moved = make_piece side ROOK)
             && (from m =? right_rook_square R))))
    || (bool_decide (right_color R = opp side)
        && bool_decide (captured = make_piece (opp side) ROOK)
        && (to m =? right_rook_square R)).

(** A side that holds a right has its king on the home square. *)
Definition kings_at_home (P : Position) : bool :=
  forallb (fun R =>
    negb (holds P R)
    || forallb (fun sq =>
         negb (bool_decide (piece_at P sq = make_piece (right_color R) KING))
         || (sq =? king_home (right_color R)))
       all_squares)
    [R_W_OO; R_W_OOO; R_B_OO; R_B_OOO].

(** The move takes a piece of the side to move to an empty square or onto a
    piece of the other side. *)
Definition moves_own_piece (P : Position) (m : Move) : bool :=
  bool_decide (piece_at P (from m) <> NO_PIECE)
  && bool_decide (get_color (piece_at P (from m)) = color P)
  && (bool_decide (piece_at P (to m) = NO_PIECE)
      || bool_decide (get_color (piece_at P (to m)) = opp (color P))).

(** Number of cells among the first [n] of the history that hold [key]. *)
Definition occurrences (h : list Z) (key : Z) (n : nat) : Z :=
  Z.of_nat (length (filter (fun i => h !!! i = key) (seq 0 n))).

(** The material signatures with which neither side can mate: bare kings, or
    one knight or one bishop on either side and nothing else. *)
Definition bare_or_one_minor (P : Position) : Prop :=
  let n := _piece_count P in
  n W_PAWN = 0 /\ n W_ROOK = 0 /\ n W_QUEEN = 0
  /\ n B_PAWN = 0 /\ n B_ROOK = 0 /\ n B_QUEEN = 0
  /\ ((n W_KNIGHT = 0 /\ n W_BISHOP = 0 /\ n B_KNIGHT = 0 /\ n B_BISHOP = 0)
      \/ (n W_KNIGHT = 1 /\ n W_BISHOP = 0 /\ n B_KNIGHT = 0 /\ n B_BISHOP = 0)
      \/ (n W_KNIGHT = 0 /\ n W_BISHOP = 1 /\ n B_KNIGHT = 0 /\ n B_BISHOP = 0)
      \/ (n W_KNIGHT = 0 /\ n W_BISHOP = 0 /\ n B_KNIGHT = 1 /\ n B_BISHOP = 0)
      \/ (n W_KNIGHT = 0 /\ n W_BISHOP = 0 /\ n B_KNIGHT = 0 /\ n B_BISHOP = 1)).


(** The test [parse_san] builds from the groups of a matched text. *)
Definition san_test (P : Position) (g : san_groups) : Move -> bool :=
  san_move_matches P (parse_piece_kind (g_piece g))
    (match g_file g with c :: _ => Some (code c - code "a") | [] => None end)
    (match g_rank g with c :: _ => Some (code c - code "1") | [] => None end)
    (make_square (code (char_at (g_target g) 1) - code "1")
       (code (char_at (g_target g) 0) - code "a"))
    (match g_promotion g with
     | _ :: _ => Some (parse_piece_kind (g_promotion g)) | [] => None
     end).

Definition is_castling_text (str : list ascii) : bool :=
  ascii_list_eqb str (list_ascii_of_string "0-0")
  || ascii_list_eqb str (list_ascii_of_string "O-O")
  || ascii_list_eqb str (list_ascii_of_string "0-0-0")
  || ascii_list_eqb str (list_ascii_of_string "O-O-O").

(** The promotion letter [parse_uci] accepts at index 4, if any. *)
Definition uci_promotion (str : list ascii) : option PieceKind :=
  if 4 <? Z.of_nat (length str) then
    let c := char_at str 4 in
    if is_char "nN" c then Some KNIGHT
    else if is_char "bB" c then Some BISHOP
    else if is_char "rR" c then Some ROOK
    else if is_char "qQ" c then Some QUEEN
    else None
  else Some NO_PIECE_KIND.

(** What the groups of a matched text ask of a move: the kind of the piece
    on its origin is the one the piece letter names (a pawn when there is no
    letter), the file and the rank of its origin are the ones given, if any,
    its destination is the target square, and its promotion is the kind the
    promotion letter names, if there is one. *)
Definition san_fits (P : Position) (g : san_groups) (m : Move) : Prop :=
  make_piece_kind (piece_at P (from m)) = parse_piece_kind (g_piece g)
  /\ (forall c rest, g_file g = c :: rest -> file (from m) = code c - code "a")
  /\ (forall c rest, g_rank g = c :: rest -> rank (from m) = code c - code "1")
  /\ to m = make_square (code (char_at (g_target g) 1) - code "1")
              (code (char_at (g_target g) 0) - code "a")
  /\ (g_promotion g <> [] -> promotion m = parse_piece_kind (g_promotion g)).

(** The texts [parse_san] gives up on before it looks at the moves: a
    promotion letter that names a pawn or a king. *)
Definition san_refused (g : san_groups) : bool :=
  match g_promotion g with
  | [] => false
  | _ :: _ => bool_decide (parse_piece_kind (g_promotion g) = PAWN
                          \/ parse_piece_kind (g_promotion g) = KING)
  end.

(** An optional item of the grammar: nothing, or one character of a class. *)
Definition opt_of (cls : ascii -> bool) (w : list ascii) : Prop :=
  w = [] \/ exists c, w = [c] /\ cls c = true.

(** The grammar of [SAN_REGEX], item by item: the whole text is the piece
    letter, the file, the rank, an [x], the target square, an [=], the
    promotion letter and a check mark, each but the target optional. *)
Definition san_text (str : list ascii) (g : san_groups) : Prop :=
  exists x e s f r,
    str = g_piece g ++ g_file g ++ g_rank g ++ x ++ g_target g ++ e
          ++ g_promotion g ++ s
    /\ opt_of (is_char "NBRQK") (g_piece g)
    /\ opt_of (is_char "abcdefgh") (g_file g)
    /\ opt_of (is_char "12345678") (g_rank g)
    /\ opt_of (is_char "x") x
    /\ g_target g = [f; r]
    /\ is_char "abcdefgh" f = true /\ is_char "12345678" r = true
    /\ opt_of (is_char "=") e
    /\ opt_of (is_char "nbrqkNBRQK") (g_promotion g)
    /\ opt_of (is_char "+#") s.

(** The move [parse_uci] reads off a text whose promotion is [k]. *)
Definition uci_reading (P : Position) (str : list ascii) (k : PieceKind)
    : Move :=
  let f := make_square (code (char_at str 1) - code "1")
             (code (char_at str 0) - code "a") in
  let t := make_square (code (char_at str 3) - code "1")
             (code (char_at str 2) - code "a") in
  let king := make_piece_kind (_board P !!! Z.to_nat f) = KING in
  if bool_decide (king /\ (f = SQ_E1 /\ t = SQ_C1 \/ f = SQ_E8 /\ t = SQ_C8))
  then QUEEN_CASTLING_MOVE
  else if bool_decide (king /\ (f = SQ_E1 /\ t = SQ_G1
                                \/ f = SQ_E8 /\ t = SQ_G8))
  then KING_CASTLING_MOVE
  else create_promotion f t k.

(** The position [do_move] works on after its first statements. *)
Definition entered (P : Position) : Position :=
  zobrist_clear_enpassant
    (set_ply_counter (change_current_side P) (_ply_counter P + 1)).

(** What comes back, in terms of the position before the move. *)
Definition restored (P P' : Position) : Prop :=
  _board P' = _board P
  /\ (forall c, _by_color_bb P' c = _by_color_bb P c)
  /\ (forall k, _by_piece_kind_bb P' k = _by_piece_kind_bb P k)
  /\ (forall pc, _piece_count P' pc = _piece_count P pc)
  /\ (forall pc, pc <> NO_PIECE -> live P' pc ≡ₚ live P pc)
  /\ _current_side P' = _current_side P
  /\ _castling_rights P' = _castling_rights P
  /\ _half_move_counter P' = _half_move_counter P
  /\ _ply_counter P' = _ply_counter P
  /\ _history_counter P' = _history_counter P
  /\ take (Z.to_nat (_history_counter P)) (_history P')
     = take (Z.to_nat (_history_counter P)) (_history P)
  /\ _piece_key (_zobrist_hash P') = _piece_key (_zobrist_hash P)
  /\ _pawn_key (_zobrist_hash P') = _pawn_key (_zobrist_hash P)
  /\ _castling_key (_zobrist_hash P') = _castling_key (_zobrist_hash P)
  /\ _color_key (_zobrist_hash P') = _color_key (_zobrist_hash P)
  /\ (_enpassant_square P <> NO_SQUARE ->
      _enpassant_square P' = _enpassant_square P
      /\ _enpassant_key (_zobrist_hash P')
         = _enpassant_key (_zobrist_hash P)
      /\ hash P' = hash P
      /\ Position_eq P' P = true).

(** The test of [hash_position] for the en-passant subkey: a pawn of the
    side to move attacks the en-passant square. *)
Definition enpassant_capturable (P : Position) : bool :=
  negb (Z.land (pawn_attacks (square_bb (enpassant_square P)) (opp (color P)))
          (pieces_cp P (color P) PAWN) =? 0).

(** The occupancy and the attacker sets [see] starts its loop with. *)
Definition see_occupied (P : Position) (m : Move) : Bitboard :=
  Z.land (pieces P)
    (Z.lxor (Z.ones 64) (Z.lor (square_bb (from m)) (square_bb (to m)))).

Definition see_attackers (P : Position) (m : Move) : Color -> Bitboard :=
  arr_set (fun c => square_attackers P (to m) c) (color P)
    (bb_clear (square_attackers P (to m) (color P)) (from m)).

(** *** The exchange the value of [see] is compared with

    The swap-off on the target square with the attackers fixed before the
    first capture, told on the board: the pieces that attack the square
    stand on a list of squares for each side; the side to move takes with
    the weakest piece left on its list, that is the piece of lowest kind in
    the order pawn, knight, bishop, rook, queen, king and, among pieces of
    the same kind, the one on the lowest square; either side may stop. *)
Definition kind_rank (k : PieceKind) : Z :=
  match k with
  | NO_PIECE_KIND => 0
  | PAWN => 1 | KNIGHT => 2 | BISHOP => 3 | ROOK => 4 | QUEEN => 5 | KING => 6
  | PIECE_KIND_7 => 7
  end.

(** The piece on [s] is taken before the piece on [s']. *)
Definition weaker (P : Position) (s s' : Square) : bool :=
  let k := kind_rank (make_piece_kind (piece_at P s)) in
  let k' := kind_rank (make_piece_kind (piece_at P s')) in
  (k <? k') || ((k =? k') && (s <=? s')).

Fixpoint weakest (P : Position) (l : list Square) : option Square :=
  match l with
  | [] => None
  | s :: l' =>
      match weakest P l' with
      | Some s' => if weaker P s s' then Some s else Some s'
      | None => Some s
      end
  end.

(** Attacks, read on the board. A pawn hits the two squares diagonally in
    front of it, a knight and a king the squares of their leaps and steps;
    a bishop, a rook and a queen reach a square along one of their lines
    when it lies [n] steps away and the squares passed on the way are
    empty. *)
Definition pawn_hits (c : Color) (s t : Square) : bool :=
  (rank t - rank s =? match c with WHITE => 1 | BLACK => -1 end)
  && (Z.abs (file t - file s) =? 1).

Definition knight_hits (s t : Square) : bool :=
  ((Z.abs (file t - file s) =? 1) && (Z.abs (rank t - rank s) =? 2))
  || ((Z.abs (file t - file s) =? 2) && (Z.abs (rank t - rank s) =? 1)).

Definition king_hits (s t : Square) : bool :=
  (Z.abs (file t - file s) <=? 1) && (Z.abs (rank t - rank s) <=? 1)
  && negb (s =? t).

Definition line_steps : list Z := [1; 2; 3; 4; 5; 6; 7].

Definition reaches (P : Position) (s t : Square) (d : Z * Z) : bool :=
  existsb
    (fun n =>
       (file t =? file s + n * fst d) && (rank t =? rank s + n * snd d)
       && forallb
            (fun k =>
               (n <=? k)
               || bool_decide
                    (piece_at P (make_square (rank s + k * snd d)
                                   (file s + k * fst d)) = NO_PIECE))
            line_steps)
    line_steps.

Definition diagonals : list (Z * Z) := [(1, 1); (1, -1); (-1, 1); (-1, -1)].

Definition straights : list (Z * Z) := [(1, 0); (-1, 0); (0, 1); (0, -1)].

(** The piece on [s] attacks the square [t]. *)
Definition attacks (P : Position) (s t : Square) : bool :=
  match make_piece_kind (piece_at P s) with
  | PAWN => pawn_hits (get_color (piece_at P s)) s t
  | KNIGHT => knight_hits s t
  | BISHOP => existsb (reaches P s t) diagonals
  | ROOK => existsb (reaches P s t) straights
  | QUEEN => existsb (reaches P s t) (diagonals ++ straights)
  | KING => king_hits s t
  | _ => false
  end.

(** The squares from which a piece of colour [c] attacks [sq] on the full
    board. *)
Definition attackers_on (P : Position) (sq : Square) (c : Color)
    : list Square :=
  filter (fun s => piece_at P s <> NO_PIECE /\ get_color (piece_at P s) = c
                   /\ attacks P s sq = true) all_squares.

(** What the exchange is worth to [side], which is to move when a piece of
    kind [standing] has just landed on the target square; [left] lists, for
    each side, the attackers that have not yet taken part. *)
Fixpoint swap_off (value : PieceKind -> Z) (fuel : nat) (P : Position)
    (side : Color) (left : Color -> list Square) (standing : PieceKind) : Z :=
  match fuel with
  | O => 0
  | S fuel' =>
      match weakest P (left side) with
      | None => 0
      | Some s =>
          Z.max 0
            (value standing
             - swap_off value fuel' P (opp side)
                 (arr_set left side (filter (fun x => x <> s) (left side)))
                 (make_piece_kind (piece_at P s)))
      end
  end.

(** The first capture is forced: the value of the piece taken, less what the
    exchange that follows is worth to the other side. *)
Definition see_swap_off (value : PieceKind -> Z) (fuel : nat) (P : Position)
    (m : Move) : Z :=
  let side := color P in
  let left :=
    arr_set (attackers_on P (to m)) side
      (filter (fun x => x <> from m) (attackers_on P (to m) side)) in
  value (make_piece_kind (piece_at P (to m)))
  - swap_off value fuel P (opp side) left
      (make_piece_kind (piece_at P (from m))).

(** A capture of the piece standing on the destination square by a piece of
    the side to move, without promotion: no castling move, no en-passant
    capture. *)
Definition plain_capture (P : Position) (m : Move) : bool :=
  (castling m =? NO_CASTLING)
  && bool_decide (promotion m = NO_PIECE_KIND)
  && bool_decide (piece_at P (from m) <> NO_PIECE
                  /\ get_color (piece_at P (from m)) = color P)
  && bool_decide (piece_at P (to m) <> NO_PIECE
                  /\ get_color (piece_at P (to m)) = opp (color P)).

(** What the loop of [see] keeps true of its attacker sets and its
    occupancy. *)
Definition fixed_ok (P : Position) (att : Color -> Bitboard)
    (occ : Bitboard) : Prop :=
  (forall s, Z.testbit occ s = true -> 0 <= s < 64)
  /\ (forall c s, Z.testbit (att c) s = true ->
        Z.testbit occ s = true
        /\ exists pk, pk ∈ see_kinds /\ Z.testbit (pieces_cp P c pk) s = true)
  /\ (forall s, Z.testbit (_by_color_bb P WHITE) s = true ->
        Z.testbit (_by_color_bb P BLACK) s = true -> False).

(** The placements the constructor makes, in the order of the text. *)
Definition place_all (Q : Position) (l : list (Piece * Square)) : Position :=
  fold_left (fun Q ps => place_piece Q (fst ps) (snd ps)) l Q.

(** The pieces of board [b] on the squares [L], in that order. *)
Definition placements_of (b : list Piece) (L : list Square)
    : list (Piece * Square) :=
  omap (fun s => if decide (cell b s = NO_PIECE) then None
                 else Some (cell b s, s)) L.

Fixpoint zseq (start : Z) (n : nat) : list Z :=
  match n with
  | O => []
  | S n' => start :: zseq (start + 1) n'
  end.

(** The ranks from [n - 1] down to 0. *)
Fixpoint ranks_down (n : nat) : list Z :=
  match n with
  | O => []
  | S n' => Z.of_nat n' :: ranks_down n'
  end.

(** The squares in the order FEN lists them. *)
Definition fen_order (ranks : list Z) : list Square :=
  concat (map (fun r => map (make_square r) all_files) ranks).

(** The board under construction holds some of the pieces of [b], each on
    its square, and its piece lists agree with it. *)
Definition partly (b : list Piece) (Q : Position) : Prop :=
  listed Q
  /\ forall s, 0 <= s < 64 ->
       cell (_board Q) s = NO_PIECE \/ cell (_board Q) s = cell b s.

Definition nospace (l : list ascii) : Prop :=
  Forall (fun c => is_space c = false) l.

(** The constructor from the side field on, the placements made and the
    fields read. *)
Definition fen_finish (Q : Position) (side : Color) (rights : Castling)
    (ep : Square) (n1 n2 : Z) : Position :=
  let P := set_current_side Q side in
  let P := set_castling_rights P rights in
  let P := set_enpassant_square P ep in
  let P := set_ply_counter P n1 in
  let P := set_half_move_counter P (u8 (_ply_counter P)) in
  let P := set_ply_counter P n2 in
  let P := set_ply_counter P
    (2 * _ply_counter P - 1
     + (if decide (_current_side P = BLACK) then 1 else 0)) in
  let P := set_zobrist_hash P (hash_init HashKey_empty P) in
  set_history P (<[0%nat := get_key (_zobrist_hash P)]> (_history P)) 1.
End Vocabulary.

(** Further positions and search states used in the examples. *)

(** A search state at the root of the position of section 8, scenario 6, with
    empty tables, and a recursive search that reports a lost position. *)
Definition blank_info : SearchInfo :=
  {| ply := 0; killers := fun _ _ => NO_MOVE;
     history := fun _ _ _ => 0; pv_hint := fun _ => None |}.

Definition enpassant_root : LoopState :=
  {| ls_position := enpassant_position; ls_info := blank_info;
     ls_alpha := -100; ls_best := -1000000; ls_full_window := true;
     ls_movelist := [] |}.

Definition losing_search (P : Position) (info : SearchInfo) (depth alpha beta : Z)
    : Z * MoveList * Position * SearchInfo :=
  (-500, [], P, info).

(** Two white knights that can both go to d2, and the moves of the knights
    and the king as the list of legal moves. *)
Definition two_knights : Position :=
  position_of "4k3/8/8/8/8/8/8/1N2KN2 w - - 0 1".

Definition two_knights_moves (P : Position) (side : Color) : list Move :=
  [uci_move "b1d2"; uci_move "f1d2"; uci_move "b1a3"; uci_move "b1c3";
   uci_move "f1e3"; uci_move "f1g3"; uci_move "f1h2"; uci_move "e1e2";
   uci_move "e1d1"; uci_move "e1f2"].

(** C1, a position the theorem applies to: the rook takes the rook on a8
    while an en-passant square is set. *)
Definition rook_takes_rook : Position :=
  position_of "r3k2r/8/8/3pP3/8/8/8/R3K2R w KQkq d6 0 2".

(** C2, a position on which the two keys differ: after 1. e4 from the start
    position the en-passant square is e3, no black pawn attacks it, and the
    incremental key carries the constant of the e-file. *)
Definition after_e2e4 : Position :=
  (do_move (T := example_table) startpos (uci_move "e2e4")).1.

(** C7, a position the theorem applies to, which is also one on which the
    claim fails: White has doubled rooks on the a-file. After [Rxa7] and
    [Rxa7] the rook on a1 could recapture through the square its partner
    left; [see] does not count it. *)
Definition doubled_rooks : Position :=
  position_of "r6k/p7/8/8/8/8/R7/R3K3 w - - 0 1".

(** The captures the theorem leaves out: an en-passant capture takes a pawn
    that does not stand on the destination square, and [see] reads its
    first victim off that square. White's e5xd6 below wins a pawn that
    nothing defends, and [see] values it at 0; the capture e4xd5 of the
    same pawn in the position one rank lower is valued at a pawn. *)
Definition enpassant_pawns : Position :=
  position_of "4k3/8/8/3pP3/8/8/8/4K3 w - d6 0 1".

Definition plain_pawns : Position :=
  position_of "4k3/8/8/3p4/4P3/8/8/4K3 w - - 0 1".

(** * Results

    ** What each operation does to each field *)

Section Frame.
Context {T : ZobristTable}.

Lemma board_set_board P b :
  _board (set_board P b) = b.
Proof. reflexivity. Qed.

Lemma bycolor_set_board P b :
  _by_color_bb (set_board P b) = _by_color_bb P.
Proof. reflexivity. Qed.

Lemma bykind_set_board P b :
  _by_piece_kind_bb (set_board P b) = _by_piece_kind_bb P.
Proof. reflexivity. Qed.

Lemma count_set_board P b :
  _piece_count (set_board P b) = _piece_count P.
Proof. reflexivity. Qed.

Lemma ppos_set_board P b :
  _piece_position (set_board P b) = _piece_position P.
Proof. reflexivity. Qed.

Lemma side_set_board P b :
  _current_side (set_board P b) = _current_side P.
Proof. reflexivity. Qed.

Lemma rights_set_board P b :
  _castling_rights (set_board P b) = _castling_rights P.
Proof. reflexivity. Qed.

Lemma ep_set_board P b :
  _enpassant_square (set_board P b) = _enpassant_square P.
Proof. reflexivity. Qed.

Lemma hm_set_board P b :
  _half_move_counter (set_board P b) = _half_move_counter P.
Proof. reflexivity. Qed.

Lemma plies_set_board P b :
  _ply_counter (set_board P b) = _ply_counter P.
Proof. reflexivity. Qed.

Lemma zob_set_board P b :
  _zobrist_hash (set_board P b) = _zobrist_hash P.
Proof. reflexivity. Qed.

Lemma hist_set_board P b :
  _history (set_board P b) = _history P.
Proof. reflexivity. Qed.

Lemma hcount_set_board P b :
  _history_counter (set_board P b) = _history_counter P.
Proof. reflexivity. Qed.

Lemma board_set_bitboards P bc bk :
  _board (set_bitboards P bc bk) = _board P.
Proof. reflexivity. Qed.

Lemma bycolor_set_bitboards P bc bk :
  _by_color_bb (set_bitboards P bc bk) = bc.
Proof. reflexivity. Qed.

Lemma bykind_set_bitboards P bc bk :
  _by_piece_kind_bb (set_bitboards P bc bk) = bk.
Proof. reflexivity. Qed.

Lemma count_set_bitboards P bc bk :
  _piece_count (set_bitboards P bc bk) = _piece_count P.
Proof. reflexivity. Qed.

Lemma ppos_set_bitboards P bc bk :
  _piece_position (set_bitboards P bc bk) = _piece_position P.
Proof. reflexivity. Qed.

Lemma side_set_bitboards P bc bk :
  _current_side (set_bitboards P bc bk) = _current_side P.
Proof. reflexivity. Qed.

Lemma rights_set_bitboards P bc bk :
  _castling_rights (set_bitboards P bc bk) = _castling_rights P.
Proof. reflexivity. Qed.

Lemma ep_set_bitboards P bc bk :
  _enpassant_square (set_bitboards P bc bk) = _enpassant_square P.
Proof. reflexivity. Qed.

Lemma hm_set_bitboards P bc bk :
  _half_move_counter (set_bitboards P bc bk) = _half_move_counter P.
Proof. reflexivity. Qed.

Lemma plies_set_bitboards P bc bk :
  _ply_counter (set_bitboards P bc bk) = _ply_counter P.
Proof. reflexivity. Qed.

Lemma zob_set_bitboards P bc bk :
  _zobrist_hash (set_bitboards P bc bk) = _zobrist_hash P.
Proof. reflexivity. Qed.

Lemma hist_set_bitboards P bc bk :
  _history (set_bitboards P bc bk) = _history P.
Proof. reflexivity. Qed.

Lemma hcount_set_bitboards P bc bk :
  _history_counter (set_bitboards P bc bk) = _history_counter P.
Proof. reflexivity. Qed.

Lemma board_set_piece_lists P cnt pos :
  _board (set_piece_lists P cnt pos) = _board P.
Proof. reflexivity. Qed.

Lemma bycolor_set_piece_lists P cnt pos :
  _by_color_bb (set_piece_lists P cnt pos) = _by_color_bb P.
Proof. reflexivity. Qed.

Lemma bykind_set_piece_lists P cnt pos :
  _by_piece_kind_bb (set_piece_lists P cnt pos) = _by_piece_kind_bb P.
Proof. reflexivity. Qed.

Lemma count_set_piece_lists P cnt pos :
  _piece_count (set_piece_lists P cnt pos) = cnt.
Proof. reflexivity. Qed.

Lemma ppos_set_piece_lists P cnt pos :
  _piece_position (set_piece_lists P cnt pos) = pos.
Proof. reflexivity. Qed.

Lemma side_set_piece_lists P cnt pos :
  _current_side (set_piece_lists P cnt pos) = _current_side P.
Proof. reflexivity. Qed.

Lemma rights_set_piece_lists P cnt pos :
  _castling_rights (set_piece_lists P cnt pos) = _castling_rights P.
Proof. reflexivity. Qed.

Lemma ep_set_piece_lists P cnt pos :
  _enpassant_square (set_piece_lists P cnt pos) = _enpassant_square P.
Proof. reflexivity. Qed.

Lemma hm_set_piece_lists P cnt pos :
  _half_move_counter (set_piece_lists P cnt pos) = _half_move_counter P.
Proof. reflexivity. Qed.

Lemma plies_set_piece_lists P cnt pos :
  _ply_counter (set_piece_lists P cnt pos) = _ply_counter P.
Proof. reflexivity. Qed.

Lemma zob_set_piece_lists P cnt pos :
  _zobrist_hash (set_piece_lists P cnt pos) = _zobrist_hash P.
Proof. reflexivity. Qed.

Lemma hist_set_piece_lists P cnt pos :
  _history (set_piece_lists P cnt pos) = _history P.
Proof. reflexivity. Qed.

Lemma hcount_set_piece_lists P cnt pos :
  _history_counter (set_piece_lists P cnt pos) = _history_counter P.
Proof. reflexivity. Qed.

Lemma board_set_current_side P c :
  _board (set_current_side P c) = _board P.
Proof. reflexivity. Qed.

Lemma bycolor_set_current_side P c :
  _by_color_bb (set_current_side P c) = _by_color_bb P.
Proof. reflexivity. Qed.

Lemma bykind_set_current_side P c :
  _by_piece_kind_bb (set_current_side P c) = _by_piece_kind_bb P.
Proof. reflexivity. Qed.

Lemma count_set_current_side P c :
  _piece_count (set_current_side P c) = _piece_count P.
Proof. reflexivity. Qed.

Lemma ppos_set_current_side P c :
  _piece_position (set_current_side P c) = _piece_position P.
Proof. reflexivity. Qed.

Lemma side_set_current_side P c :
  _current_side (set_current_side P c) = c.
Proof. reflexivity. Qed.

Lemma rights_set_current_side P c :
  _castling_rights (set_current_side P c) = _castling_rights P.
Proof. reflexivity. Qed.

Lemma ep_set_current_side P c :
  _enpassant_square (set_current_side P c) = _enpassant_square P.
Proof. reflexivity. Qed.

Lemma hm_set_current_side P c :
  _half_move_counter (set_current_side P c) = _half_move_counter P.
Proof. reflexivity. Qed.

Lemma plies_set_current_side P c :
  _ply_counter (set_current_side P c) = _ply_counter P.
Proof. reflexivity. Qed.

Lemma zob_set_current_side P c :
  _zobrist_hash (set_current_side P c) = _zobrist_hash P.
Proof. reflexivity. Qed.

Lemma hist_set_current_side P c :
  _history (set_current_side P c) = _history P.
Proof. reflexivity. Qed.

Lemma hcount_set_current_side P c :
  _history_counter (set_current_side P c) = _history_counter P.
Proof. reflexivity. Qed.

Lemma board_set_castling_rights P c :
  _board (set_castling_rights P c) = _board P.
Proof. reflexivity. Qed.

Lemma bycolor_set_castling_rights P c :
  _by_color_bb (set_castling_rights P c) = _by_color_bb P.
Proof. reflexivity. Qed.

Lemma bykind_set_castling_rights P c :
  _by_piece_kind_bb (set_castling_rights P c) = _by_piece_kind_bb P.
Proof. reflexivity. Qed.

Lemma count_set_castling_rights P c :
  _piece_count (set_castling_rights P c) = _piece_count P.
Proof. reflexivity. Qed.

Lemma ppos_set_castling_rights P c :
  _piece_position (set_castling_rights P c) = _piece_position P.
Proof. reflexivity. Qed.

Lemma side_set_castling_rights P c :
  _current_side (set_castling_rights P c) = _current_side P.
Proof. reflexivity. Qed.

Lemma rights_set_castling_rights P c :
  _castling_rights (set_castling_rights P c) = c.
Proof. reflexivity. Qed.

Lemma ep_set_castling_rights P c :
  _enpassant_square (set_castling_rights P c) = _enpassant_square P.
Proof. reflexivity. Qed.

Lemma hm_set_castling_rights P c :
  _half_move_counter (set_castling_rights P c) = _half_move_counter P.
Proof. reflexivity. Qed.

Lemma plies_set_castling_rights P c :
  _ply_counter (set_castling_rights P c) = _ply_counter P.
Proof. reflexivity. Qed.

Lemma zob_set_castling_rights P c :
  _zobrist_hash (set_castling_rights P c) = _zobrist_hash P.
Proof. reflexivity. Qed.

Lemma hist_set_castling_rights P c :
  _history (set_castling_rights P c) = _history P.
Proof. reflexivity. Qed.

Lemma hcount_set_castling_rights P c :
  _history_counter (set_castling_rights P c) = _history_counter P.
Proof. reflexivity. Qed.

Lemma board_set_enpassant_square P sq :
  _board (set_enpassant_square P sq) = _board P.
Proof. reflexivity. Qed.

Lemma bycolor_set_enpassant_square P sq :
  _by_color_bb (set_enpassant_square P sq) = _by_color_bb P.
Proof. reflexivity. Qed.

Lemma bykind_set_enpassant_square P sq :
  _by_piece_kind_bb (set_enpassant_square P sq) = _by_piece_kind_bb P.
Proof. reflexivity. Qed.

Lemma count_set_enpassant_square P sq :
  _piece_count (set_enpassant_square P sq) = _piece_count P.
Proof. reflexivity. Qed.

Lemma ppos_set_enpassant_square P sq :
  _piece_position (set_enpassant_square P sq) = _piece_position P.
Proof. reflexivity. Qed.

Lemma side_set_enpassant_square P sq :
  _current_side (set_enpassant_square P sq) = _current_side P.
Proof. reflexivity. Qed.

Lemma rights_set_enpassant_square P sq :
  _castling_rights (set_enpassant_square P sq) = _castling_rights P.
Proof. reflexivity. Qed.

Lemma ep_set_enpassant_square P sq :
  _enpassant_square (set_enpassant_square P sq) = sq.
Proof. reflexivity. Qed.

Lemma hm_set_enpassant_square P sq :
  _half_move_counter (set_enpassant_square P sq) = _half_move_counter P.
Proof. reflexivity. Qed.

Lemma plies_set_enpassant_square P sq :
  _ply_counter (set_enpassant_square P sq) = _ply_counter P.
Proof. reflexivity. Qed.

Lemma zob_set_enpassant_square P sq :
  _zobrist_hash (set_enpassant_square P sq) = _zobrist_hash P.
Proof. reflexivity. Qed.

Lemma hist_set_enpassant_square P sq :
  _history (set_enpassant_square P sq) = _history P.
Proof. reflexivity. Qed.

Lemma hcount_set_enpassant_square P sq :
  _history_counter (set_enpassant_square P sq) = _history_counter P.
Proof. reflexivity. Qed.

Lemma board_set_half_move_counter P n :
  _board (set_half_move_counter P n) = _board P.
Proof. reflexivity. Qed.

Lemma bycolor_set_half_move_counter P n :
  _by_color_bb (set_half_move_counter P n) = _by_color_bb P.
Proof. reflexivity. Qed.

Lemma bykind_set_half_move_counter P n :
  _by_piece_kind_bb (set_half_move_counter P n) = _by_piece_kind_bb P.
Proof. reflexivity. Qed.

Lemma count_set_half_move_counter P n :
  _piece_count (set_half_move_counter P n) = _piece_count P.
Proof. reflexivity. Qed.

Lemma ppos_set_half_move_counter P n :
  _piece_position (set_half_move_counter P n) = _piece_position P.
Proof. reflexivity. Qed.

Lemma side_set_half_move_counter P n :
  _current_side (set_half_move_counter P n) = _current_side P.
Proof. reflexivity. Qed.

Lemma rights_set_half_move_counter P n :
  _castling_rights (set_half_move_counter P n) = _castling_rights P.
Proof. reflexivity. Qed.

Lemma ep_set_half_move_counter P n :
  _enpassant_square (set_half_move_counter P n) = _enpassant_square P.
Proof. reflexivity. Qed.

Lemma hm_set_half_move_counter P n :
  _half_move_counter (set_half_move_counter P n) = n.
Proof. reflexivity. Qed.

Lemma plies_set_half_move_counter P n :
  _ply_counter (set_half_move_counter P n) = _ply_counter P.
Proof. reflexivity. Qed.

Lemma zob_set_half_move_counter P n :
  _zobrist_hash (set_half_move_counter P n) = _zobrist_hash P.
Proof. reflexivity. Qed.

Lemma hist_set_half_move_counter P n :
  _history (set_half_move_counter P n) = _history P.
Proof. reflexivity. Qed.

Lemma hcount_set_half_move_counter P n :
  _history_counter (set_half_move_counter P n) = _history_counter P.
Proof. reflexivity. Qed.

Lemma board_set_ply_counter P n :
  _board (set_ply_counter P n) = _board P.
Proof. reflexivity. Qed.

Lemma bycolor_set_ply_counter P n :
  _by_color_bb (set_ply_counter P n) = _by_color_bb P.
Proof. reflexivity. Qed.

Lemma bykind_set_ply_counter P n :
  _by_piece_kind_bb (set_ply_counter P n) = _by_piece_kind_bb P.
Proof. reflexivity. Qed.

Lemma count_set_ply_counter P n :
  _piece_count (set_ply_counter P n) = _piece_count P.
Proof. reflexivity. Qed.

Lemma ppos_set_ply_counter P n :
  _piece_position (set_ply_counter P n) = _piece_position P.
Proof. reflexivity. Qed.

Lemma side_set_ply_counter P n :
  _current_side (set_ply_counter P n) = _current_side P.
Proof. reflexivity. Qed.

Lemma rights_set_ply_counter P n :
  _castling_rights (set_ply_counter P n) = _castling_rights P.
Proof. reflexivity. Qed.

Lemma ep_set_ply_counter P n :
  _enpassant_square (set_ply_counter P n) = _enpassant_square P.
Proof. reflexivity. Qed.

Lemma hm_set_ply_counter P n :
  _half_move_counter (set_ply_counter P n) = _half_move_counter P.
Proof. reflexivity. Qed.

Lemma plies_set_ply_counter P n :
  _ply_counter (set_ply_counter P n) = n.
Proof. reflexivity. Qed.

Lemma zob_set_ply_counter P n :
  _zobrist_hash (set_ply_counter P n) = _zobrist_hash P.
Proof. reflexivity. Qed.

Lemma hist_set_ply_counter P n :
  _history (set_ply_counter P n) = _history P.
Proof. reflexivity. Qed.

Lemma hcount_set_ply_counter P n :
  _history_counter (set_ply_counter P n) = _history_counter P.
Proof. reflexivity. Qed.

Lemma board_set_zobrist_hash P h :
  _board (set_zobrist_hash P h) = _board P.
Proof. reflexivity. Qed.

Lemma bycolor_set_zobrist_hash P h :
  _by_color_bb (set_zobrist_hash P h) = _by_color_bb P.
Proof. reflexivity. Qed.

Lemma bykind_set_zobrist_hash P h :
  _by_piece_kind_bb (set_zobrist_hash P h) = _by_piece_kind_bb P.
Proof. reflexivity. Qed.

Lemma count_set_zobrist_hash P h :
  _piece_count (set_zobrist_hash P h) = _piece_count P.
Proof. reflexivity. Qed.

Lemma ppos_set_zobrist_hash P h :
  _piece_position (set_zobrist_hash P h) = _piece_position P.
Proof. reflexivity. Qed.

Lemma side_set_zobrist_hash P h :
  _current_side (set_zobrist_hash P h) = _current_side P.
Proof. reflexivity. Qed.

Lemma rights_set_zobrist_hash P h :
  _castling_rights (set_zobrist_hash P h) = _castling_rights P.
Proof. reflexivity. Qed.

Lemma ep_set_zobrist_hash P h :
  _enpassant_square (set_zobrist_hash P h) = _enpassant_square P.
Proof. reflexivity. Qed.

Lemma hm_set_zobrist_hash P h :
  _half_move_counter (set_zobrist_hash P h) = _half_move_counter P.
Proof. reflexivity. Qed.

Lemma plies_set_zobrist_hash P h :
  _ply_counter (set_zobrist_hash P h) = _ply_counter P.
Proof. reflexivity. Qed.

Lemma zob_set_zobrist_hash P h :
  _zobrist_hash (set_zobrist_hash P h) = h.
Proof. reflexivity. Qed.

Lemma hist_set_zobrist_hash P h :
  _history (set_zobrist_hash P h) = _history P.
Proof. reflexivity. Qed.

Lemma hcount_set_zobrist_hash P h :
  _history_counter (set_zobrist_hash P h) = _history_counter P.
Proof. reflexivity. Qed.

Lemma board_set_history P h n :
  _board (set_history P h n) = _board P.
Proof. reflexivity. Qed.

Lemma bycolor_set_history P h n :
  _by_color_bb (set_history P h n) = _by_color_bb P.
Proof. reflexivity. Qed.

Lemma bykind_set_history P h n :
  _by_piece_kind_bb (set_history P h n) = _by_piece_kind_bb P.
Proof. reflexivity. Qed.

Lemma count_set_history P h n :
  _piece_count (set_history P h n) = _piece_count P.
Proof. reflexivity. Qed.

Lemma ppos_set_history P h n :
  _piece_position (set_history P h n) = _piece_position P.
Proof. reflexivity. Qed.

Lemma side_set_history P h n :
  _current_side (set_history P h n) = _current_side P.
Proof. reflexivity. Qed.

Lemma rights_set_history P h n :
  _castling_rights (set_history P h n) = _castling_rights P.
Proof. reflexivity. Qed.

Lemma ep_set_history P h n :
  _enpassant_square (set_history P h n) = _enpassant_square P.
Proof. reflexivity. Qed.

Lemma hm_set_history P h n :
  _half_move_counter (set_history P h n) = _half_move_counter P.
Proof. reflexivity. Qed.

Lemma plies_set_history P h n :
  _ply_counter (set_history P h n) = _ply_counter P.
Proof. reflexivity. Qed.

Lemma zob_set_history P h n :
  _zobrist_hash (set_history P h n) = _zobrist_hash P.
Proof. reflexivity. Qed.

Lemma hist_set_history P h n :
  _history (set_history P h n) = h.
Proof. reflexivity. Qed.

Lemma hcount_set_history P h n :
  _history_counter (set_history P h n) = n.
Proof. reflexivity. Qed.

Lemma board_change_current_side P :
  _board (change_current_side P) = _board P.
Proof. reflexivity. Qed.

Lemma bycolor_change_current_side P :
  _by_color_bb (change_current_side P) = _by_color_bb P.
Proof. reflexivity. Qed.

Lemma bykind_change_current_side P :
  _by_piece_kind_bb (change_current_side P) = _by_piece_kind_bb P.
Proof. reflexivity. Qed.

Lemma count_change_current_side P :
  _piece_count (change_current_side P) = _piece_count P.
Proof. reflexivity. Qed.

Lemma ppos_change_current_side P :
  _piece_position (change_current_side P) = _piece_position P.
Proof. reflexivity. Qed.

Lemma side_change_current_side P :
  _current_side (change_current_side P) = opp (_current_side P).
Proof. reflexivity. Qed.

Lemma rights_change_current_side P :
  _castling_rights (change_current_side P) = _castling_rights P.
Proof. reflexivity. Qed.

Lemma ep_change_current_side P :
  _enpassant_square (change_current_side P) = _enpassant_square P.
Proof. reflexivity. Qed.

Lemma hm_change_current_side P :
  _half_move_counter (change_current_side P) = _half_move_counter P.
Proof. reflexivity. Qed.

Lemma plies_change_current_side P :
  _ply_counter (change_current_side P) = _ply_counter P.
Proof. reflexivity. Qed.

Lemma zob_change_current_side P :
  _zobrist_hash (change_current_side P) = flip_side (_zobrist_hash P).
Proof. reflexivity. Qed.

Lemma hist_change_current_side P :
  _history (change_current_side P) = _history P.
Proof. reflexivity. Qed.

Lemma hcount_change_current_side P :
  _history_counter (change_current_side P) = _history_counter P.
Proof. reflexivity. Qed.

Lemma board_zobrist_clear_enpassant P :
  _board (zobrist_clear_enpassant P) = _board P.
Proof. reflexivity. Qed.

Lemma bycolor_zobrist_clear_enpassant P :
  _by_color_bb (zobrist_clear_enpassant P) = _by_color_bb P.
Proof. reflexivity. Qed.

Lemma bykind_zobrist_clear_enpassant P :
  _by_piece_kind_bb (zobrist_clear_enpassant P) = _by_piece_kind_bb P.
Proof. reflexivity. Qed.

Lemma count_zobrist_clear_enpassant P :
  _piece_count (zobrist_clear_enpassant P) = _piece_count P.
Proof. reflexivity. Qed.

Lemma ppos_zobrist_clear_enpassant P :
  _piece_position (zobrist_clear_enpassant P) = _piece_position P.
Proof. reflexivity. Qed.

Lemma side_zobrist_clear_enpassant P :
  _current_side (zobrist_clear_enpassant P) = _current_side P.
Proof. reflexivity. Qed.

Lemma rights_zobrist_clear_enpassant P :
  _castling_rights (zobrist_clear_enpassant P) = _castling_rights P.
Proof. reflexivity. Qed.

Lemma ep_zobrist_clear_enpassant P :
  _enpassant_square (zobrist_clear_enpassant P) = _enpassant_square P.
Proof. reflexivity. Qed.

Lemma hm_zobrist_clear_enpassant P :
  _half_move_counter (zobrist_clear_enpassant P) = _half_move_counter P.
Proof. reflexivity. Qed.

Lemma plies_zobrist_clear_enpassant P :
  _ply_counter (zobrist_clear_enpassant P) = _ply_counter P.
Proof. reflexivity. Qed.

Lemma zob_zobrist_clear_enpassant P :
  _zobrist_hash (zobrist_clear_enpassant P) = hash_clear_enpassant (_zobrist_hash P).
Proof. reflexivity. Qed.

Lemma hist_zobrist_clear_enpassant P :
  _history (zobrist_clear_enpassant P) = _history P.
Proof. reflexivity. Qed.

Lemma hcount_zobrist_clear_enpassant P :
  _history_counter (zobrist_clear_enpassant P) = _history_counter P.
Proof. reflexivity. Qed.

Lemma board_zobrist_set_enpassant P f :
  _board (zobrist_set_enpassant P f) = _board P.
Proof. reflexivity. Qed.

Lemma bycolor_zobrist_set_enpassant P f :
  _by_color_bb (zobrist_set_enpassant P f) = _by_color_bb P.
Proof. reflexivity. Qed.

Lemma bykind_zobrist_set_enpassant P f :
  _by_piece_kind_bb (zobrist_set_enpassant P f) = _by_piece_kind_bb P.
Proof. reflexivity. Qed.

Lemma count_zobrist_set_enpassant P f :
  _piece_count (zobrist_set_enpassant P f) = _piece_count P.
Proof. reflexivity. Qed.

Lemma ppos_zobrist_set_enpassant P f :
  _piece_position (zobrist_set_enpassant P f) = _piece_position P.
Proof. reflexivity. Qed.

Lemma side_zobrist_set_enpassant P f :
  _current_side (zobrist_set_enpassant P f) = _current_side P.
Proof. reflexivity. Qed.

Lemma rights_zobrist_set_enpassant P f :
  _castling_rights (zobrist_set_enpassant P f) = _castling_rights P.
Proof. reflexivity. Qed.

Lemma ep_zobrist_set_enpassant P f :
  _enpassant_square (zobrist_set_enpassant P f) = _enpassant_square P.
Proof. reflexivity. Qed.

Lemma hm_zobrist_set_enpassant P f :
  _half_move_counter (zobrist_set_enpassant P f) = _half_move_counter P.
Proof. reflexivity. Qed.

Lemma plies_zobrist_set_enpassant P f :
  _ply_counter (zobrist_set_enpassant P f) = _ply_counter P.
Proof. reflexivity. Qed.

Lemma zob_zobrist_set_enpassant P f :
  _zobrist_hash (zobrist_set_enpassant P f) = hash_set_enpassant (_zobrist_hash P) f.
Proof. reflexivity. Qed.

Lemma hist_zobrist_set_enpassant P f :
  _history (zobrist_set_enpassant P f) = _history P.
Proof. reflexivity. Qed.

Lemma hcount_zobrist_set_enpassant P f :
  _history_counter (zobrist_set_enpassant P f) = _history_counter P.
Proof. reflexivity. Qed.

Lemma board_zobrist_set_castling P :
  _board (zobrist_set_castling P) = _board P.
Proof. reflexivity. Qed.

Lemma bycolor_zobrist_set_castling P :
  _by_color_bb (zobrist_set_castling P) = _by_color_bb P.
Proof. reflexivity. Qed.

Lemma bykind_zobrist_set_castling P :
  _by_piece_kind_bb (zobrist_set_castling P) = _by_piece_kind_bb P.
Proof. reflexivity. Qed.

Lemma count_zobrist_set_castling P :
  _piece_count (zobrist_set_castling P) = _piece_count P.
Proof. reflexivity. Qed.

Lemma ppos_zobrist_set_castling P :
  _piece_position (zobrist_set_castling P) = _piece_position P.
Proof. reflexivity. Qed.

Lemma side_zobrist_set_castling P :
  _current_side (zobrist_set_castling P) = _current_side P.
Proof. reflexivity. Qed.

Lemma rights_zobrist_set_castling P :
  _castling_rights (zobrist_set_castling P) = _castling_rights P.
Proof. reflexivity. Qed.

Lemma ep_zobrist_set_castling P :
  _enpassant_square (zobrist_set_castling P) = _enpassant_square P.
Proof. reflexivity. Qed.

Lemma hm_zobrist_set_castling P :
  _half_move_counter (zobrist_set_castling P) = _half_move_counter P.
Proof. reflexivity. Qed.

Lemma plies_zobrist_set_castling P :
  _ply_counter (zobrist_set_castling P) = _ply_counter P.
Proof. reflexivity. Qed.

Lemma zob_zobrist_set_castling P :
  _zobrist_hash (zobrist_set_castling P) = hash_set_castling (_zobrist_hash P) (_castling_rights P).
Proof. reflexivity. Qed.

Lemma hist_zobrist_set_castling P :
  _history (zobrist_set_castling P) = _history P.
Proof. reflexivity. Qed.

Lemma hcount_zobrist_set_castling P :
  _history_counter (zobrist_set_castling P) = _history_counter P.
Proof. reflexivity. Qed.

Lemma board_clear_rights P mask :
  _board (clear_rights P mask) = _board P.
Proof. reflexivity. Qed.

Lemma bycolor_clear_rights P mask :
  _by_color_bb (clear_rights P mask) = _by_color_bb P.
Proof. reflexivity. Qed.

Lemma bykind_clear_rights P mask :
  _by_piece_kind_bb (clear_rights P mask) = _by_piece_kind_bb P.
Proof. reflexivity. Qed.

Lemma count_clear_rights P mask :
  _piece_count (clear_rights P mask) = _piece_count P.
Proof. reflexivity. Qed.

Lemma ppos_clear_rights P mask :
  _piece_position (clear_rights P mask) = _piece_position P.
Proof. reflexivity. Qed.

Lemma side_clear_rights P mask :
  _current_side (clear_rights P mask) = _current_side P.
Proof. reflexivity. Qed.

Lemma rights_clear_rights P mask :
  _castling_rights (clear_rights P mask) = Z.land (_castling_rights P) (castling_not mask).
Proof. reflexivity. Qed.

Lemma ep_clear_rights P mask :
  _enpassant_square (clear_rights P mask) = _enpassant_square P.
Proof. reflexivity. Qed.

Lemma hm_clear_rights P mask :
  _half_move_counter (clear_rights P mask) = _half_move_counter P.
Proof. reflexivity. Qed.

Lemma plies_clear_rights P mask :
  _ply_counter (clear_rights P mask) = _ply_counter P.
Proof. reflexivity. Qed.

Lemma zob_clear_rights P mask :
  _zobrist_hash (clear_rights P mask) = _zobrist_hash P.
Proof. reflexivity. Qed.

Lemma hist_clear_rights P mask :
  _history (clear_rights P mask) = _history P.
Proof. reflexivity. Qed.

Lemma hcount_clear_rights P mask :
  _history_counter (clear_rights P mask) = _history_counter P.
Proof. reflexivity. Qed.

Lemma board_push_history P :
  _board (push_history P) = _board P.
Proof. reflexivity. Qed.

Lemma bycolor_push_history P :
  _by_color_bb (push_history P) = _by_color_bb P.
Proof. reflexivity. Qed.

Lemma bykind_push_history P :
  _by_piece_kind_bb (push_history P) = _by_piece_kind_bb P.
Proof. reflexivity. Qed.

Lemma count_push_history P :
  _piece_count (push_history P) = _piece_count P.
Proof. reflexivity. Qed.

Lemma ppos_push_history P :
  _piece_position (push_history P) = _piece_position P.
Proof. reflexivity. Qed.

Lemma side_push_history P :
  _current_side (push_history P) = _current_side P.
Proof. reflexivity. Qed.

Lemma rights_push_history P :
  _castling_rights (push_history P) = _castling_rights P.
Proof. reflexivity. Qed.

Lemma ep_push_history P :
  _enpassant_square (push_history P) = _enpassant_square P.
Proof. reflexivity. Qed.

Lemma hm_push_history P :
  _half_move_counter (push_history P) = _half_move_counter P.
Proof. reflexivity. Qed.

Lemma plies_push_history P :
  _ply_counter (push_history P) = _ply_counter P.
Proof. reflexivity. Qed.

Lemma zob_push_history P :
  _zobrist_hash (push_history P) = _zobrist_hash P.
Proof. reflexivity. Qed.

Lemma hist_push_history P :
  _history (push_history P) = <[Z.to_nat (_history_counter P) := get_key (_zobrist_hash P)]> (_history P).
Proof. reflexivity. Qed.

Lemma hcount_push_history P :
  _history_counter (push_history P) = _history_counter P + 1.
Proof. reflexivity. Qed.

Lemma side_add_piece P pc sq :
  _current_side (add_piece P pc sq) = _current_side P.
Proof. reflexivity. Qed.

Lemma rights_add_piece P pc sq :
  _castling_rights (add_piece P pc sq) = _castling_rights P.
Proof. reflexivity. Qed.

Lemma ep_add_piece P pc sq :
  _enpassant_square (add_piece P pc sq) = _enpassant_square P.
Proof. reflexivity. Qed.

Lemma hm_add_piece P pc sq :
  _half_move_counter (add_piece P pc sq) = _half_move_counter P.
Proof. reflexivity. Qed.

Lemma plies_add_piece P pc sq :
  _ply_counter (add_piece P pc sq) = _ply_counter P.
Proof. reflexivity. Qed.

Lemma hist_add_piece P pc sq :
  _history (add_piece P pc sq) = _history P.
Proof. reflexivity. Qed.

Lemma hcount_add_piece P pc sq :
  _history_counter (add_piece P pc sq) = _history_counter P.
Proof. reflexivity. Qed.

Lemma side_remove_piece P sq :
  _current_side (remove_piece P sq) = _current_side P.
Proof. reflexivity. Qed.

Lemma rights_remove_piece P sq :
  _castling_rights (remove_piece P sq) = _castling_rights P.
Proof. reflexivity. Qed.

Lemma ep_remove_piece P sq :
  _enpassant_square (remove_piece P sq) = _enpassant_square P.
Proof. reflexivity. Qed.

Lemma hm_remove_piece P sq :
  _half_move_counter (remove_piece P sq) = _half_move_counter P.
Proof. reflexivity. Qed.

Lemma plies_remove_piece P sq :
  _ply_counter (remove_piece P sq) = _ply_counter P.
Proof. reflexivity. Qed.

Lemma hist_remove_piece P sq :
  _history (remove_piece P sq) = _history P.
Proof. reflexivity. Qed.

Lemma hcount_remove_piece P sq :
  _history_counter (remove_piece P sq) = _history_counter P.
Proof. reflexivity. Qed.

Lemma side_move_piece P a b :
  _current_side (move_piece P a b) = _current_side P.
Proof. reflexivity. Qed.

Lemma rights_move_piece P a b :
  _castling_rights (move_piece P a b) = _castling_rights P.
Proof. reflexivity. Qed.

Lemma ep_move_piece P a b :
  _enpassant_square (move_piece P a b) = _enpassant_square P.
Proof. reflexivity. Qed.

Lemma hm_move_piece P a b :
  _half_move_counter (move_piece P a b) = _half_move_counter P.
Proof. reflexivity. Qed.

Lemma plies_move_piece P a b :
  _ply_counter (move_piece P a b) = _ply_counter P.
Proof. reflexivity. Qed.

Lemma hist_move_piece P a b :
  _history (move_piece P a b) = _history P.
Proof. reflexivity. Qed.

Lemma hcount_move_piece P a b :
  _history_counter (move_piece P a b) = _history_counter P.
Proof. reflexivity. Qed.

Lemma board_clear_rights_if b P mask :
  _board (clear_rights_if b P mask) = _board P.
Proof. by destruct b. Qed.

Lemma bycolor_clear_rights_if b P mask :
  _by_color_bb (clear_rights_if b P mask) = _by_color_bb P.
Proof. by destruct b. Qed.

Lemma bykind_clear_rights_if b P mask :
  _by_piece_kind_bb (clear_rights_if b P mask) = _by_piece_kind_bb P.
Proof. by destruct b. Qed.

Lemma count_clear_rights_if b P mask :
  _piece_count (clear_rights_if b P mask) = _piece_count P.
Proof. by destruct b. Qed.

Lemma ppos_clear_rights_if b P mask :
  _piece_position (clear_rights_if b P mask) = _piece_position P.
Proof. by destruct b. Qed.

Lemma side_clear_rights_if b P mask :
  _current_side (clear_rights_if b P mask) = _current_side P.
Proof. by destruct b. Qed.

Lemma ep_clear_rights_if b P mask :
  _enpassant_square (clear_rights_if b P mask) = _enpassant_square P.
Proof. by destruct b. Qed.

Lemma hm_clear_rights_if b P mask :
  _half_move_counter (clear_rights_if b P mask) = _half_move_counter P.
Proof. by destruct b. Qed.

Lemma plies_clear_rights_if b P mask :
  _ply_counter (clear_rights_if b P mask) = _ply_counter P.
Proof. by destruct b. Qed.

Lemma zob_clear_rights_if b P mask :
  _zobrist_hash (clear_rights_if b P mask) = _zobrist_hash P.
Proof. by destruct b. Qed.

Lemma hist_clear_rights_if b P mask :
  _history (clear_rights_if b P mask) = _history P.
Proof. by destruct b. Qed.

Lemma hcount_clear_rights_if b P mask :
  _history_counter (clear_rights_if b P mask) = _history_counter P.
Proof. by destruct b. Qed.

End Frame.

Create Rewrite HintDb frame.

#[global] Hint Rewrite
  @board_set_board @bycolor_set_board @bykind_set_board @count_set_board
  @ppos_set_board @side_set_board @rights_set_board @ep_set_board
  @hm_set_board @plies_set_board @zob_set_board @hist_set_board
  @hcount_set_board @board_set_bitboards @bycolor_set_bitboards
  @bykind_set_bitboards @count_set_bitboards @ppos_set_bitboards
  @side_set_bitboards @rights_set_bitboards @ep_set_bitboards
  @hm_set_bitboards @plies_set_bitboards @zob_set_bitboards
  @hist_set_bitboards @hcount_set_bitboards @board_set_piece_lists
  @bycolor_set_piece_lists @bykind_set_piece_lists @count_set_piece_lists
  @ppos_set_piece_lists @side_set_piece_lists @rights_set_piece_lists
  @ep_set_piece_lists @hm_set_piece_lists @plies_set_piece_lists
  @zob_set_piece_lists @hist_set_piece_lists @hcount_set_piece_lists
  @board_set_current_side @bycolor_set_current_side @bykind_set_current_side
  @count_set_current_side @ppos_set_current_side @side_set_current_side
  @rights_set_current_side @ep_set_current_side @hm_set_current_side
  @plies_set_current_side @zob_set_current_side @hist_set_current_side
  @hcount_set_current_side @board_set_castling_rights
  @bycolor_set_castling_rights @bykind_set_castling_rights
  @count_set_castling_rights @ppos_set_castling_rights
  @side_set_castling_rights @rights_set_castling_rights
  @ep_set_castling_rights @hm_set_castling_rights @plies_set_castling_rights
  @zob_set_castling_rights @hist_set_castling_rights
  @hcount_set_castling_rights @board_set_enpassant_square
  @bycolor_set_enpassant_square @bykind_set_enpassant_square
  @count_set_enpassant_square @ppos_set_enpassant_square
  @side_set_enpassant_square @rights_set_enpassant_square
  @ep_set_enpassant_square @hm_set_enpassant_square
  @plies_set_enpassant_square @zob_set_enpassant_square
  @hist_set_enpassant_square @hcount_set_enpassant_square
  @board_set_half_move_counter @bycolor_set_half_move_counter
  @bykind_set_half_move_counter @count_set_half_move_counter
  @ppos_set_half_move_counter @side_set_half_move_counter
  @rights_set_half_move_counter @ep_set_half_move_counter
  @hm_set_half_move_counter @plies_set_half_move_counter
  @zob_set_half_move_counter @hist_set_half_move_counter
  @hcount_set_half_move_counter @board_set_ply_counter
  @bycolor_set_ply_counter @bykind_set_ply_counter @count_set_ply_counter
  @ppos_set_ply_counter @side_set_ply_counter @rights_set_ply_counter
  @ep_set_ply_counter @hm_set_ply_counter @plies_set_ply_counter
  @zob_set_ply_counter @hist_set_ply_counter @hcount_set_ply_counter
  @board_set_zobrist_hash @bycolor_set_zobrist_hash @bykind_set_zobrist_hash
  @count_set_zobrist_hash @ppos_set_zobrist_hash @side_set_zobrist_hash
  @rights_set_zobrist_hash @ep_set_zobrist_hash @hm_set_zobrist_hash
  @plies_set_zobrist_hash @zob_set_zobrist_hash @hist_set_zobrist_hash
  @hcount_set_zobrist_hash @board_set_history @bycolor_set_history
  @bykind_set_history @count_set_history @ppos_set_history @side_set_history
  @rights_set_history @ep_set_history @hm_set_history @plies_set_history
  @zob_set_history @hist_set_history @hcount_set_history
  @board_change_current_side @bycolor_change_current_side
  @bykind_change_current_side @count_change_current_side
  @ppos_change_current_side @side_change_current_side
  @rights_change_current_side @ep_change_current_side @hm_change_current_side
  @plies_change_current_side @zob_change_current_side
  @hist_change_current_side @hcount_change_current_side
  @board_zobrist_clear_enpassant @bycolor_zobrist_clear_enpassant
  @bykind_zobrist_clear_enpassant @count_zobrist_clear_enpassant
  @ppos_zobrist_clear_enpassant @side_zobrist_clear_enpassant
  @rights_zobrist_clear_enpassant @ep_zobrist_clear_enpassant
  @hm_zobrist_clear_enpassant @plies_zobrist_clear_enpassant
  @zob_zobrist_clear_enpassant @hist_zobrist_clear_enpassant
  @hcount_zobrist_clear_enpassant @board_zobrist_set_enpassant
  @bycolor_zobrist_set_enpassant @bykind_zobrist_set_enpassant
  @count_zobrist_set_enpassant @ppos_zobrist_set_enpassant
  @side_zobrist_set_enpassant @rights_zobrist_set_enpassant
  @ep_zobrist_set_enpassant @hm_zobrist_set_enpassant
  @plies_zobrist_set_enpassant @zob_zobrist_set_enpassant
  @hist_zobrist_set_enpassant @hcount_zobrist_set_enpassant
  @board_zobrist_set_castling @bycolor_zobrist_set_castling
  @bykind_zobrist_set_castling @count_zobrist_set_castling
  @ppos_zobrist_set_castling @side_zobrist_set_castling
  @rights_zobrist_set_castling @ep_zobrist_set_castling
  @hm_zobrist_set_castling @plies_zobrist_set_castling
  @zob_zobrist_set_castling @hist_zobrist_set_castling
  @hcount_zobrist_set_castling @board_clear_rights @bycolor_clear_rights
  @bykind_clear_rights @count_clear_rights @ppos_clear_rights
  @side_clear_rights @rights_clear_rights @ep_clear_rights @hm_clear_rights
  @plies_clear_rights @zob_clear_rights @hist_clear_rights
  @hcount_clear_rights @board_push_history @bycolor_push_history
  @bykind_push_history @count_push_history @ppos_push_history
  @side_push_history @rights_push_history @ep_push_history @hm_push_history
  @plies_push_history @zob_push_history @hist_push_history
  @hcount_push_history @side_add_piece @rights_add_piece @ep_add_piece
  @hm_add_piece @plies_add_piece @hist_add_piece @hcount_add_piece
  @side_remove_piece @rights_remove_piece @ep_remove_piece @hm_remove_piece
  @plies_remove_piece @hist_remove_piece @hcount_remove_piece
  @side_move_piece @rights_move_piece @ep_move_piece @hm_move_piece
  @plies_move_piece @hist_move_piece @hcount_move_piece
  @board_clear_rights_if @bycolor_clear_rights_if @bykind_clear_rights_if
  @count_clear_rights_if @ppos_clear_rights_if @side_clear_rights_if
  @ep_clear_rights_if @hm_clear_rights_if @plies_clear_rights_if
  @zob_clear_rights_if @hist_clear_rights_if @hcount_clear_rights_if
  : frame.

#[global] Arguments add_piece : simpl never.
#[global] Arguments remove_piece : simpl never.
#[global] Arguments move_piece : simpl never.
#[global] Arguments update_rights : simpl never.
#[global] Arguments clear_rights_if : simpl never.
#[global] Arguments shift_pieces : simpl never.
#[global] Arguments unshift_pieces : simpl never.
#[global] Arguments mark_enpassant : simpl never.
#[global] Arguments tick_half_move : simpl never.
#[global] Arguments do_castling : simpl never.
#[global] Arguments do_ordinary : simpl never.

Ltac frame := autorewrite with frame.

(** ** The scan-and-overwrite loop of the piece lists *)

Lemma replace_first_length n old new (l : list Square) :
  length (replace_first n old new l) = length l.
Proof.
  revert l. induction n as [|n IH]; intros [|x l]; cbn; try done.
  destruct (x =? old); cbn; [done|]. by rewrite IH.
Qed.

Lemma replace_first_take n old new (l : list Square) :
  take n (replace_first n old new l) = replace_first n old new (take n l).
Proof.
  revert l. induction n as [|n IH]; intros [|x l]; cbn; try done.
  destruct (x =? old); cbn; [done|]. by rewrite IH.
Qed.

Lemma replace_first_drop n old new (l : list Square) :
  drop n (replace_first n old new l) = drop n l.
Proof.
  revert l. induction n as [|n IH]; intros [|x l]; cbn; try done.
  destruct (x =? old); cbn; [done|]. by rewrite IH.
Qed.

Lemma subst_first_cons old new x l :
  subst_first old new (x :: l)
  = if x =? old then new :: l else x :: subst_first old new l.
Proof. reflexivity. Qed.

Lemma subst_first_absent old new l : old ∉ l -> subst_first old new l = l.
Proof.
  induction l as [|x l IH]; [done|]. intros Hn.
  rewrite subst_first_cons. apply not_elem_of_cons in Hn as [Hx Hl].
  destruct (Z.eqb_spec x old); [congruence|]. by rewrite IH.
Qed.

Lemma elem_of_subst_first old new l x :
  NoDup l ->
  x ∈ subst_first old new l <-> (x ∈ l /\ x <> old) \/ (x = new /\ old ∈ l).
Proof.
  induction l as [|y l IH]; intros Hnd.
  - cbn. rewrite !elem_of_nil. tauto.
  - apply NoDup_cons in Hnd as [Hy Hnd]. rewrite subst_first_cons.
    destruct (Z.eqb_spec y old) as [->|Hne].
    + rewrite !elem_of_cons. split.
      * intros [->|Hx]; [tauto|]. left. split; [tauto|].
        intros ->. contradiction.
      * intros [[[->|Hx] Hne]|[-> _]]; tauto.
    + rewrite !elem_of_cons, IH by assumption. split.
      * intros [->|[[Hx Hxo]|[-> Ho]]]; tauto.
      * intros [[[->|Hx] Hxo]|[-> [Ho|Ho]]]; try tauto. congruence.
Qed.

Lemma NoDup_subst_first old new l :
  NoDup l -> new ∉ l -> NoDup (subst_first old new l).
Proof.
  induction l as [|y l IH]; intros Hnd Hnew; [done|].
  apply NoDup_cons in Hnd as [Hy Hnd].
  apply not_elem_of_cons in Hnew as [Hny Hnl].
  rewrite subst_first_cons. destruct (Z.eqb_spec y old) as [->|Hne].
  - apply NoDup_cons. tauto.
  - apply NoDup_cons. split; [|by apply IH].
    rewrite elem_of_subst_first by assumption.
    intros [[Hin _]|[-> _]]; [contradiction|congruence].
Qed.

Lemma subst_first_length old new l :
  length (subst_first old new l) = length l.
Proof. apply replace_first_length. Qed.

(** Exclusive-or of the constants of a list of squares: replacing one square
    and dropping one square. *)
Lemma take_replace_first n old new (l : list Square) :
  (n <= length l)%nat ->
  take n (replace_first n old new l) = subst_first old new (take n l).
Proof.
  intros H. rewrite replace_first_take. unfold subst_first.
  by rewrite length_take_le.
Qed.

Lemma take_S_insert {A} (l : list A) n x :
  (n < length l)%nat -> take (S n) (<[n := x]> l) = take n l ++ [x].
Proof.
  intros H. rewrite (take_S_r _ _ x) by (by apply list_lookup_insert_eq).
  by rewrite take_insert_ge.
Qed.

Lemma take_S_total (l : list Square) n :
  (n < length l)%nat -> take (S n) l = take n l ++ [l !!! n].
Proof.
  intros H. apply take_S_r. by apply list_lookup_lookup_total_lt.
Qed.

(** A filter that lets strictly less through. *)
Lemma filter_length_lt {A} (Q Q' : A -> Prop)
    `{forall x, Decision (Q x)} `{forall x, Decision (Q' x)} (l : list A) x0 :
  (forall x, x ∈ l -> Q' x -> Q x) -> x0 ∈ l -> Q x0 -> ~ Q' x0 ->
  (length (filter Q' l) < length (filter Q l))%nat.
Proof.
  intros Himp Hin Hq Hq'.
  assert (Hle : forall l', (forall x, x ∈ l' -> Q' x -> Q x) ->
            (length (filter Q' l') <= length (filter Q l'))%nat).
  { induction l' as [|y l' IH]; intros Hl'; [done|].
    assert (Hy' : Q' y -> Q y) by (apply Hl'; apply elem_of_cons; by left).
    assert (IH' : (length (filter Q' l') <= length (filter Q l'))%nat)
      by (apply IH; intros x Hx; apply Hl'; apply elem_of_cons; by right).
    destruct (decide (Q' y)) as [Hy|Hy].
    - rewrite (filter_cons_True Q') by done.
      rewrite (filter_cons_True Q) by by apply Hy'. cbn [length]. lia.
    - rewrite (filter_cons_False Q') by done.
      destruct (decide (Q y)).
      + rewrite (filter_cons_True Q) by done. cbn [length]. lia.
      + rewrite (filter_cons_False Q) by done. done. }
  induction l as [|y l IH]; [by apply elem_of_nil in Hin|].
  assert (Htl : forall x, x ∈ l -> Q' x -> Q x)
    by (intros x Hx; apply Himp; apply elem_of_cons; by right).
  assert (Hy' : Q' y -> Q y) by (apply Himp; apply elem_of_cons; by left).
  apply elem_of_cons in Hin as [<-|Hin].
  - rewrite (filter_cons_True Q) by done.
    rewrite (filter_cons_False Q') by done.
    cbn [length]. specialize (Hle l Htl). lia.
  - specialize (IH Htl Hin). destruct (decide (Q' y)) as [Hy|Hy].
    + rewrite (filter_cons_True Q') by done.
      rewrite (filter_cons_True Q) by by apply Hy'. cbn [length]. lia.
    + rewrite (filter_cons_False Q') by done.
      destruct (decide (Q y)).
      * rewrite (filter_cons_True Q) by done. cbn [length]. lia.
      * rewrite (filter_cons_False Q) by done. done.
Qed.

(** ** Board and piece lists agree *)

Lemma cell_insert b a p s :
  length b = 64%nat -> 0 <= a < 64 -> 0 <= s ->
  cell (<[Z.to_nat a := p]> b) s = if decide (s = a) then p else cell b s.
Proof.
  intros Hlen Ha Hs. unfold cell. destruct (decide (s = a)) as [->|Hne].
  - apply list_lookup_total_insert_eq. lia.
  - apply list_lookup_total_insert_ne. lia.
Qed.

Lemma live_of_length cnt pos pc :
  length (pos pc) = 10%nat -> 0 <= cnt pc <= 10 ->
  length (live_of cnt pos pc) = Z.to_nat (cnt pc).
Proof. intros Hl Hc. unfold live_of. rewrite length_take. lia. Qed.

Lemma live_of_arr_set_ne cnt pos pc pc' c l :
  pc' <> pc ->
  live_of (arr_set cnt pc c) (arr_set pos pc l) pc' = live_of cnt pos pc'.
Proof.
  intros Hne. unfold live_of, arr_set. by rewrite !decide_False.
Qed.

Lemma live_of_arr_set_eq cnt pos pc c l :
  live_of (arr_set cnt pc c) (arr_set pos pc l) pc = take (Z.to_nat c) l.
Proof. unfold live_of, arr_set. by rewrite !decide_True. Qed.

Lemma live_of_pos_ne cnt pos pc pc' l :
  pc' <> pc -> live_of cnt (arr_set pos pc l) pc' = live_of cnt pos pc'.
Proof. intros Hne. unfold live_of, arr_set. by rewrite !decide_False. Qed.

Lemma live_of_pos_eq cnt pos pc l :
  live_of cnt (arr_set pos pc l) pc = take (Z.to_nat (cnt pc)) l.
Proof. unfold live_of, arr_set. by rewrite !decide_True. Qed.

Lemma member_by_range (L : list Square) (b : list Piece) pc :
  (forall x, x ∈ L -> 0 <= x < 64) ->
  (forall x, 0 <= x < 64 -> x ∈ L <-> cell b x = pc) ->
  forall x, x ∈ L <-> 0 <= x < 64 /\ cell b x = pc.
Proof.
  intros Hr Hc x. split.
  - intros Hx. split; [by apply Hr|]. apply Hc; [by apply Hr|done].
  - intros [Hx Hcx]. by apply Hc.
Qed.

Section ListedSteps.
Variables (b : list Piece) (cnt : Piece -> Z) (pos : Piece -> list Square).
Hypothesis Hl : listed_on b cnt pos.

(** A piece is put on an empty square: its square is appended. *)
Lemma listed_on_add pc sq :
  pc <> NO_PIECE -> 0 <= sq < 64 -> cell b sq = NO_PIECE -> cnt pc < 10 ->
  listed_on (<[Z.to_nat sq := pc]> b)
    (arr_set cnt pc (cnt pc + 1))
    (arr_set pos pc (<[Z.to_nat (cnt pc) := sq]> (pos pc))).
Proof.
  intros Hpc Hsq Hempty Hroom. destruct Hl as [Hb Hlen Hcnt Hnone Hnd Hmem].
  pose proof (Hcnt pc) as Hc.
  assert (Hlive : live_of (arr_set cnt pc (cnt pc + 1))
            (arr_set pos pc (<[Z.to_nat (cnt pc) := sq]> (pos pc))) pc
          = live_of cnt pos pc ++ [sq]).
  { rewrite live_of_arr_set_eq.
    replace (Z.to_nat (cnt pc + 1)) with (S (Z.to_nat (cnt pc))) by lia.
    apply take_S_insert. rewrite Hlen. lia. }
  assert (Hfresh : sq ∉ live_of cnt pos pc).
  { intros Hin. apply Hmem in Hin as [_ Hin]; [|done]. congruence. }
  split.
  - by rewrite length_insert.
  - intros pc'. unfold arr_set. case_decide; [|done].
    by rewrite length_insert.
  - intros pc'. unfold arr_set. case_decide; [lia|done].
  - unfold arr_set. by rewrite decide_False by done.
  - intros pc'. destruct (decide (pc' = pc)) as [->|Hne].
    + rewrite Hlive. apply NoDup_app. split; [done|].
      split; [|apply NoDup_singleton].
      intros x Hx Hx'. apply list_elem_of_singleton in Hx'. by subst.
    + by rewrite live_of_arr_set_ne.
  - intros pc' x Hpc'. revert x. apply member_by_range.
    + intros x. destruct (decide (pc' = pc)) as [->|Hne].
      * rewrite Hlive, elem_of_app, list_elem_of_singleton, Hmem by done.
        intros [[? _]| ->]; done.
      * rewrite live_of_arr_set_ne, Hmem by done. tauto.
    + intros x Hx. rewrite cell_insert by (done || lia).
      destruct (decide (pc' = pc)) as [->|Hne].
      * rewrite Hlive, elem_of_app, list_elem_of_singleton, Hmem by done.
        case_decide; [subst x|]; tauto.
      * rewrite live_of_arr_set_ne, Hmem by done.
        case_decide; [subst x|tauto].
        split; [intros [_ Hc']|intros Hc']; congruence.
Qed.

(** The piece on a square is taken off: the last square of its list takes
    the place of the square. *)
Lemma listed_on_remove sq :
  0 <= sq < 64 -> cell b sq <> NO_PIECE ->
  let pc := cell b sq in
  listed_on (<[Z.to_nat sq := NO_PIECE]> b)
    (arr_set cnt pc (cnt pc - 1))
    (arr_set pos pc
       (replace_first (Z.to_nat (cnt pc - 1)) sq
          (pos pc !!! Z.to_nat (cnt pc - 1)) (pos pc))).
Proof.
  intros Hsq Hfull pc. destruct Hl as [Hb Hlen Hcnt Hnone Hnd Hmem].
  assert (Hpcdef : cell b sq = pc) by reflexivity.
  assert (Hpc : pc <> NO_PIECE) by exact Hfull. clearbody pc.
  pose proof (Hcnt pc) as Hc.
  assert (Hin : sq ∈ live_of cnt pos pc) by (apply Hmem; done).
  assert (Hpos : 1 <= cnt pc).
  { destruct (Z.le_gt_cases 1 (cnt pc)); [done|].
    unfold live_of in Hin. replace (Z.to_nat (cnt pc)) with 0%nat in Hin by lia.
    rewrite take_0 in Hin. by apply elem_of_nil in Hin. }
  set (n := Z.to_nat (cnt pc - 1)).
  set (lst := pos pc !!! n).
  assert (Hsplit : live_of cnt pos pc = take n (pos pc) ++ [lst]).
  { unfold live_of. replace (Z.to_nat (cnt pc)) with (S n) by lia.
    apply take_S_total. rewrite Hlen. lia. }
  pose proof (Hnd pc) as Hndpc. rewrite Hsplit in Hndpc.
  apply NoDup_app in Hndpc as (Hnd0 & Hdisj & _).
  assert (Hlst : lst ∉ take n (pos pc)).
  { intros H. apply (Hdisj _ H). by apply list_elem_of_singleton. }
  assert (Hlive : live_of (arr_set cnt pc (cnt pc - 1))
            (arr_set pos pc (replace_first n sq lst (pos pc))) pc
          = subst_first sq lst (take n (pos pc))).
  { rewrite live_of_arr_set_eq. fold n. apply take_replace_first.
    rewrite Hlen. lia. }
  assert (Helem : forall x,
            x ∈ subst_first sq lst (take n (pos pc))
            <-> x ∈ live_of cnt pos pc /\ x <> sq).
  { intros x. rewrite elem_of_subst_first, Hsplit, elem_of_app,
      list_elem_of_singleton by done.
    rewrite Hsplit, elem_of_app, list_elem_of_singleton in Hin.
    split.
    - intros [[Hx Hne]|[Hxl Hs]]; [tauto|]. subst x.
      split; [tauto|]. congruence.
    - intros [[Hx|Hxl] Hne]; [tauto|]. subst x. right. split; [done|].
      destruct Hin as [Hin|Hin]; [done|congruence]. }
  split.
  - by rewrite length_insert.
  - intros pc'. unfold arr_set. case_decide; [|done].
    subst pc'. by rewrite replace_first_length.
  - intros pc'. unfold arr_set. case_decide; [subst; lia|done].
  - unfold arr_set. by rewrite decide_False by done.
  - intros pc'. destruct (decide (pc' = pc)) as [->|Hne].
    + rewrite Hlive. by apply NoDup_subst_first.
    + by rewrite live_of_arr_set_ne.
  - intros pc' x Hpc'. revert x. apply member_by_range.
    + intros x. destruct (decide (pc' = pc)) as [->|Hne].
      * rewrite Hlive, Helem, Hmem by done. tauto.
      * rewrite live_of_arr_set_ne, Hmem by done. tauto.
    + intros x Hx. rewrite cell_insert by (done || lia).
      destruct (decide (pc' = pc)) as [->|Hne].
      * rewrite Hlive, Helem, Hmem by done.
        case_decide; [subst x|tauto]. split; [tauto|]. intros Hc'. done.
      * rewrite live_of_arr_set_ne, Hmem by done.
        case_decide; [subst x|tauto].
        split; [intros [_ Hc']|intros Hc']; [|done].
        congruence.
Qed.

(** The piece on a square goes to an empty square: its square is replaced
    where it stands in the list. *)
Lemma listed_on_move from to :
  0 <= from < 64 -> 0 <= to < 64 ->
  cell b from <> NO_PIECE -> cell b to = NO_PIECE ->
  let pc := cell b from in
  listed_on (<[Z.to_nat to := pc]> (<[Z.to_nat from := NO_PIECE]> b))
    cnt
    (arr_set pos pc (replace_first (Z.to_nat (cnt pc)) from to (pos pc))).
Proof.
  intros Hfrom Hto Hfull Hempty pc.
  destruct Hl as [Hb Hlen Hcnt Hnone Hnd Hmem].
  assert (Hpcdef : cell b from = pc) by reflexivity.
  assert (Hpc : pc <> NO_PIECE) by exact Hfull. clearbody pc.
  pose proof (Hcnt pc) as Hc.
  assert (Hne : from <> to) by (intros ->; contradiction).
  assert (Hin : from ∈ live_of cnt pos pc) by (apply Hmem; done).
  assert (Hfresh : to ∉ live_of cnt pos pc).
  { intros H. apply Hmem in H as [_ H]; [|done]. congruence. }
  assert (Hlive : live_of cnt
            (arr_set pos pc (replace_first (Z.to_nat (cnt pc)) from to (pos pc)))
            pc
          = subst_first from to (live_of cnt pos pc)).
  { rewrite live_of_pos_eq. apply take_replace_first. rewrite Hlen. lia. }
  assert (Hcell : forall x, 0 <= x ->
            cell (<[Z.to_nat to := pc]> (<[Z.to_nat from := NO_PIECE]> b)) x
            = if decide (x = to) then pc
              else if decide (x = from) then NO_PIECE else cell b x).
  { intros x Hx. rewrite cell_insert by (rewrite ?length_insert; done || lia).
    case_decide; [done|]. by rewrite cell_insert by (done || lia). }
  split.
  - by rewrite !length_insert.
  - intros pc'. unfold arr_set. case_decide; [|done].
    subst pc'. by rewrite replace_first_length.
  - done.
  - done.
  - intros pc'. destruct (decide (pc' = pc)) as [->|Hne'].
    + rewrite Hlive. by apply NoDup_subst_first.
    + by rewrite live_of_pos_ne.
  - intros pc' x Hpc'. revert x. apply member_by_range.
    + intros x. destruct (decide (pc' = pc)) as [->|Hne'].
      * rewrite Hlive, elem_of_subst_first, Hmem by done.
        intros [[[? _] _]|[-> _]]; done.
      * rewrite live_of_pos_ne, Hmem by done. tauto.
    + intros x Hx. rewrite Hcell by lia.
      destruct (decide (pc' = pc)) as [->|Hne'].
      * rewrite Hlive, elem_of_subst_first, Hmem by done.
        destruct (decide (x = to)) as [->|Hxt]; [tauto|].
        destruct (decide (x = from)) as [->|Hxf]; [|tauto].
        split; [tauto|]. intros Hc'. done.
      * rewrite live_of_pos_ne, Hmem by done.
        destruct (decide (x = to)) as [->|Hxt].
        { split; [intros [_ Hc']|intros Hc']; congruence. }
        destruct (decide (x = from)) as [->|Hxf]; [|tauto].
        split; [intros [_ Hc']|intros Hc']; [|done].
        congruence.
Qed.
End ListedSteps.

(** ** Board and occupancy bitboards agree *)

Lemma testbit_square_bb sq s :
  0 <= sq -> Z.testbit (square_bb sq) s = bool_decide (s = sq).
Proof.
  intros Hsq. unfold square_bb. rewrite Z.shiftl_1_l, Z.pow2_bits_eqb by done.
  destruct (Z.eqb_spec sq s) as [->|Hne].
  - by rewrite bool_decide_eq_true_2.
  - by rewrite bool_decide_eq_false_2.
Qed.

Section Mapped.
Context {A : Type} `{EqDecision A}.
Variable f : Piece -> A.

Variables (b : list Piece) (bb : A -> Bitboard).
Hypothesis Hlen : length b = 64%nat.
Hypothesis Hm : mapped_on f b bb.

Lemma mapped_on_add pc sq :
  pc <> NO_PIECE -> 0 <= sq < 64 -> cell b sq = NO_PIECE ->
  mapped_on f (<[Z.to_nat sq := pc]> b)
    (arr_set bb (f pc) (Z.lor (bb (f pc)) (square_bb sq))).
Proof.
  intros Hpc Hsq Hempty a s. unfold arr_set.
  destruct (decide (0 <= s < 64)) as [Hs|Hs].
  2:{ rewrite (bool_decide_eq_false_2 (_ /\ _)) by tauto.
      case_decide; rewrite ?Z.lor_spec, ?Hm, ?testbit_square_bb by lia;
        rewrite (bool_decide_eq_false_2 (_ /\ _)) by tauto;
        [|done]. rewrite bool_decide_eq_false_2 by lia. done. }
  rewrite cell_insert by (done || lia).
  destruct (decide (s = sq)) as [->|Hne].
  - rewrite (bool_decide_ext _ (f pc = a)) by tauto.
    case_decide as Ha.
    + rewrite Z.lor_spec, testbit_square_bb by lia.
      rewrite (bool_decide_eq_true_2 (sq = sq)) by done.
      rewrite orb_true_r. symmetry. by apply bool_decide_eq_true_2.
    + rewrite Hm, Hempty.
      rewrite bool_decide_eq_false_2 by tauto. symmetry.
      apply bool_decide_eq_false_2. congruence.
  - case_decide; [|apply Hm].
    rewrite Z.lor_spec, testbit_square_bb, Hm by lia.
    rewrite (bool_decide_eq_false_2 (s = sq)) by done.
    subst a. by rewrite orb_false_r.
Qed.

Lemma mapped_on_remove sq :
  0 <= sq < 64 -> cell b sq <> NO_PIECE ->
  mapped_on f (<[Z.to_nat sq := NO_PIECE]> b)
    (arr_set bb (f (cell b sq)) (Z.lxor (bb (f (cell b sq))) (square_bb sq))).
Proof.
  intros Hsq Hfull a s. unfold arr_set.
  destruct (decide (0 <= s < 64)) as [Hs|Hs].
  2:{ rewrite (bool_decide_eq_false_2 (_ /\ _)) by tauto.
      case_decide; rewrite ?Z.lxor_spec, ?Hm, ?testbit_square_bb by lia;
        rewrite (bool_decide_eq_false_2 (_ /\ _)) by tauto;
        [|done]. rewrite bool_decide_eq_false_2 by lia. done. }
  rewrite cell_insert by (done || lia).
  destruct (decide (s = sq)) as [->|Hne].
  - rewrite (bool_decide_eq_false_2 (_ /\ _)) by tauto.
    case_decide as Ha.
    + rewrite Z.lxor_spec, testbit_square_bb, Hm by lia.
      rewrite (bool_decide_eq_true_2 (sq = sq)) by done.
      subst a. by rewrite bool_decide_eq_true_2.
    + rewrite Hm. apply bool_decide_eq_false_2. intros (_ & _ & H). congruence.
  - case_decide; [|apply Hm].
    rewrite Z.lxor_spec, testbit_square_bb, Hm by lia.
    rewrite (bool_decide_eq_false_2 (s = sq)) by done.
    subst a. by rewrite xorb_false_r.
Qed.

Lemma mapped_on_move from to :
  0 <= from < 64 -> 0 <= to < 64 ->
  cell b from <> NO_PIECE -> cell b to = NO_PIECE ->
  mapped_on f
    (<[Z.to_nat to := cell b from]> (<[Z.to_nat from := NO_PIECE]> b))
    (arr_set bb (f (cell b from))
       (Z.lxor (bb (f (cell b from)))
          (Z.lor (square_bb from) (square_bb to)))).
Proof.
  intros Hfrom Hto Hfull Hempty a s. unfold arr_set.
  assert (Hne : from <> to) by (intros ->; contradiction).
  destruct (decide (0 <= s < 64)) as [Hs|Hs].
  2:{ rewrite (bool_decide_eq_false_2 (_ /\ _)) by tauto.
      case_decide;
        rewrite ?Z.lxor_spec, ?Z.lor_spec, ?Hm, ?testbit_square_bb by lia;
        rewrite (bool_decide_eq_false_2 (_ /\ _)) by tauto;
        [|done]. rewrite !bool_decide_eq_false_2 by lia. done. }
  rewrite cell_insert by (rewrite ?length_insert; done || lia).
  destruct (decide (s = to)) as [->|Hst].
  - rewrite (bool_decide_ext _ (f (cell b from) = a)) by tauto.
    case_decide as Ha.
    + rewrite Z.lxor_spec, Z.lor_spec, !testbit_square_bb, Hm by lia.
      rewrite Hempty.
      rewrite (bool_decide_eq_false_2 (_ /\ _)) by tauto.
      rewrite (bool_decide_eq_false_2 (to = from)) by done.
      rewrite (bool_decide_eq_true_2 (to = to)) by done.
      symmetry. by apply bool_decide_eq_true_2.
    + rewrite Hm, Hempty. rewrite bool_decide_eq_false_2 by tauto.
      symmetry. apply bool_decide_eq_false_2. congruence.
  - rewrite cell_insert by (done || lia).
    destruct (decide (s = from)) as [->|Hsf].
    + rewrite (bool_decide_eq_false_2 (_ /\ _)) by tauto.
      case_decide as Ha.
      * rewrite Z.lxor_spec, Z.lor_spec, !testbit_square_bb, Hm by lia.
        rewrite (bool_decide_eq_true_2 (from = from)) by done.
        subst a. by rewrite bool_decide_eq_true_2.
      * rewrite Hm. apply bool_decide_eq_false_2.
        intros (_ & _ & H). congruence.
    + case_decide; [|apply Hm].
      rewrite Z.lxor_spec, Z.lor_spec, !testbit_square_bb, Hm by lia.
      rewrite (bool_decide_eq_false_2 (s = from)) by done.
      rewrite (bool_decide_eq_false_2 (s = to)) by done.
      subst a. by rewrite xorb_false_r.
Qed.
End Mapped.

(** Two bitboard arrays that agree with the same board are equal. *)
Lemma mapped_on_unique {A} `{EqDecision A} (f : Piece -> A) b bb bb' a :
  mapped_on f b bb -> mapped_on f b bb' -> bb a = bb' a.
Proof.
  intros H H'. apply Z.bits_inj'. intros n _. by rewrite H, H'.
Qed.

(** ** Piece lists and placement subkeys agree *)

(** Equations between exclusive-ors of the same constants, bit by bit. *)
Ltac xor_ring :=
  apply Z.bits_inj'; intros ? ?;
  repeat rewrite Z.lxor_spec; rewrite ?Z.bits_0; ring.

Section Hashed.
Context {T : ZobristTable}.

Lemma xor_list_cons pc x l :
  xor_list pc (x :: l) = Z.lxor (HASH_PIECE pc x) (xor_list pc l).
Proof. reflexivity. Qed.

Lemma xor_squares_xor_list pc l k :
  xor_squares pc l k = Z.lxor k (xor_list pc l).
Proof.
  unfold xor_squares. revert k. induction l as [|x l IH]; intros k.
  - cbn. by rewrite Z.lxor_0_r.
  - cbn [fold_left]. rewrite IH, xor_list_cons. xor_ring.
Qed.

Lemma xor_list_app pc l l' :
  xor_list pc (l ++ l') = Z.lxor (xor_list pc l) (xor_list pc l').
Proof.
  induction l as [|x l IH]; [done|].
  rewrite <- app_comm_cons, !xor_list_cons, IH. xor_ring.
Qed.

Lemma xor_list_perm pc l l' : l ≡ₚ l' -> xor_list pc l = xor_list pc l'.
Proof.
  induction 1 as [|x l l' _ IH|x y l|l l' l'' _ IH1 _ IH2].
  - done.
  - by rewrite !xor_list_cons, IH.
  - rewrite !xor_list_cons. xor_ring.
  - congruence.
Qed.

Lemma xor_list_subst_first pc old new l :
  old ∈ l ->
  xor_list pc (subst_first old new l)
  = Z.lxor (Z.lxor (xor_list pc l) (HASH_PIECE pc old)) (HASH_PIECE pc new).
Proof.
  induction l as [|x l IH]; intros Hin; [by apply elem_of_nil in Hin|].
  rewrite subst_first_cons. destruct (Z.eqb_spec x old) as [->|Hne].
  - rewrite !xor_list_cons. xor_ring.
  - apply elem_of_cons in Hin as [->|Hin]; [done|].
    rewrite !xor_list_cons, IH by done. xor_ring.
Qed.

Lemma NoDup_all_squares : NoDup all_squares.
Proof.
  unfold all_squares. apply NoDup_fmap_2; [|apply NoDup_seq].
  intros x y. lia.
Qed.

Lemma elem_of_all_squares sq : sq ∈ all_squares <-> 0 <= sq < 64.
Proof.
  unfold all_squares. rewrite list_elem_of_fmap. split.
  - intros (n & -> & Hn). apply elem_of_seq in Hn. lia.
  - intros H. exists (Z.to_nat sq). split; [lia|]. apply elem_of_seq. lia.
Qed.

Lemma live_perm b cnt pos pc :
  listed_on b cnt pos -> pc <> NO_PIECE ->
  live_of cnt pos pc ≡ₚ filter (fun s => cell b s = pc) all_squares.
Proof.
  intros [_ _ _ _ Hnd Hmem] Hpc. apply NoDup_Permutation.
  - apply Hnd.
  - apply NoDup_filter, NoDup_all_squares.
  - intros x. rewrite Hmem, list_elem_of_filter, elem_of_all_squares by done.
    tauto.
Qed.

Lemma xor_list_live b cnt pos pc :
  listed_on b cnt pos -> pc <> NO_PIECE ->
  xor_list pc (live_of cnt pos pc) = board_xor pc b.
Proof. intros Hl Hpc. apply xor_list_perm. by apply live_perm. Qed.

Lemma board_xor_insert_list b a p pc (L : list Square) :
  length b = 64%nat -> 0 <= a < 64 -> NoDup L -> (forall x, x ∈ L -> 0 <= x) ->
  xor_list pc (filter (fun s => cell (<[Z.to_nat a := p]> b) s = pc) L)
  = Z.lxor (xor_list pc (filter (fun s => cell b s = pc) L))
      (if decide (a ∈ L) then
         Z.lxor (if decide (cell b a = pc) then HASH_PIECE pc a else 0)
           (if decide (p = pc) then HASH_PIECE pc a else 0)
       else 0).
Proof.
  intros Hlen Ha. induction L as [|x L IH]; intros Hnd Hpos.
  - cbn. by rewrite decide_False by apply not_elem_of_nil.
  - apply NoDup_cons in Hnd as [Hx Hnd].
    assert (Hx0 : 0 <= x) by (apply Hpos; left).
    specialize (IH Hnd (fun y Hy => Hpos y (list_elem_of_further _ _ _ Hy))).
    rewrite !filter_cons, cell_insert by done.
    destruct (decide (x = a)) as [->|Hne].
    + rewrite (decide_True (P := a ∈ a :: L)) by left.
      rewrite decide_False in IH by done. rewrite Z.lxor_0_r in IH.
      rewrite (decide_True (P := a = a)) by done.
      destruct (decide (p = pc)), (decide (cell b a = pc));
        rewrite ?xor_list_cons; rewrite IH; xor_ring.
    + rewrite (decide_False (P := x = a)) by done.
      destruct (decide (a ∈ L)) as [Hin|Hin].
      * rewrite (decide_True (P := a ∈ x :: L)) by (by right).
        destruct (decide (cell b x = pc));
          rewrite ?xor_list_cons; rewrite IH; xor_ring.
      * rewrite (decide_False (P := a ∈ x :: L))
          by (rewrite elem_of_cons; intros [?|?]; [congruence|contradiction]).
        destruct (decide (cell b x = pc));
          rewrite ?xor_list_cons; rewrite IH; xor_ring.
Qed.

Lemma board_xor_insert b a p pc :
  length b = 64%nat -> 0 <= a < 64 ->
  board_xor pc (<[Z.to_nat a := p]> b)
  = Z.lxor (board_xor pc b)
      (Z.lxor (if decide (cell b a = pc) then HASH_PIECE pc a else 0)
         (if decide (p = pc) then HASH_PIECE pc a else 0)).
Proof.
  intros Hlen Ha. unfold board_xor.
  rewrite board_xor_insert_list; try done.
  - by rewrite decide_True by (by apply elem_of_all_squares).
  - apply NoDup_all_squares.
  - intros x Hx. apply elem_of_all_squares in Hx. lia.
Qed.

Lemma board_key_insert b a p pcs :
  length b = 64%nat -> 0 <= a < 64 -> NoDup pcs ->
  board_key (<[Z.to_nat a := p]> b) pcs
  = Z.lxor (board_key b pcs)
      (Z.lxor (if decide (cell b a ∈ pcs) then HASH_PIECE (cell b a) a else 0)
         (if decide (p ∈ pcs) then HASH_PIECE p a else 0)).
Proof.
  intros Hlen Ha. induction pcs as [|pc pcs IH]; intros Hnd.
  - cbn. rewrite !decide_False by apply not_elem_of_nil. done.
  - apply NoDup_cons in Hnd as [Hpc Hnd]. specialize (IH Hnd).
    cbn [board_key foldr]. fold (board_key (<[Z.to_nat a := p]> b) pcs).
    fold (board_key b pcs). rewrite IH, board_xor_insert by done.
    assert (Hdec : forall q,
              (if decide (q ∈ pc :: pcs) then HASH_PIECE q a else 0)
              = Z.lxor (if decide (q = pc) then HASH_PIECE pc a else 0)
                  (if decide (q ∈ pcs) then HASH_PIECE q a else 0)).
    { intros q. destruct (decide (q = pc)) as [->|Hq].
      - rewrite decide_True by left. rewrite decide_False by done.
        by rewrite Z.lxor_0_r.
      - destruct (decide (q ∈ pcs)) as [Hin|Hin].
        + rewrite decide_True by (by right). done.
        + rewrite decide_False; [done|].
          rewrite elem_of_cons. intros [?|?]; [congruence|contradiction]. }
    rewrite !Hdec. xor_ring.
Qed.

(** Membership of a given piece in a given list, by evaluation. *)
Ltac closed_elem :=
  match goal with
  | H : ?x ∈ ?l |- _ =>
      solve [apply (bool_decide_pack _) in H; vm_compute in H; destruct H]
  | H : ?x ∉ ?l |- _ =>
      solve [apply H, (bool_decide_unpack _); vm_compute; exact I]
  end.

Lemma toggle_piece_keys h q a :
  q <> NO_PIECE ->
  _pawn_key (toggle_piece h q a)
    = Z.lxor (_pawn_key h)
        (if decide (q ∈ pawn_pieces) then HASH_PIECE q a else 0)
  /\ _piece_key (toggle_piece h q a)
      = Z.lxor (_piece_key h)
          (if decide (q ∈ officer_pieces) then HASH_PIECE q a else 0).
Proof.
  intros Hq. unfold toggle_piece, pawn_pieces, officer_pieces.
  destruct q; try done; cbn [get_piece_kind make_piece_kind];
    repeat case_decide; cbn [_pawn_key _piece_key];
    rewrite ?Z.lxor_0_r; try done; exfalso; closed_elem.
Qed.

Lemma NoDup_pawn_pieces : NoDup pawn_pieces.
Proof. apply NoDup_ListNoDup. repeat constructor; cbn; intuition discriminate. Qed.

Lemma NoDup_officer_pieces : NoDup officer_pieces.
Proof. apply NoDup_ListNoDup. repeat constructor; cbn; intuition discriminate. Qed.

Lemma hashed_board_insert b h a p :
  length b = 64%nat -> 0 <= a < 64 ->
  hashed_board b h ->
  hashed_board (<[Z.to_nat a := p]> b)
    (let h := if decide (cell b a = NO_PIECE) then h
              else toggle_piece h (cell b a) a in
     if decide (p = NO_PIECE) then h else toggle_piece h p a).
Proof.
  intros Hlen Ha [Hp Ho]. unfold hashed_board.
  rewrite !board_key_insert
    by (done || apply NoDup_pawn_pieces || apply NoDup_officer_pieces).
  cbn zeta.
  assert (Hnone : forall pcs,
            pcs = pawn_pieces \/ pcs = officer_pieces ->
            NO_PIECE ∉ pcs).
  { intros pcs [-> | ->] H; closed_elem. }
  destruct (decide (p = NO_PIECE)) as [->|Hpn],
           (decide (cell b a = NO_PIECE)) as [Hq|Hq].
  - rewrite Hq, !decide_False by (apply Hnone; tauto).
    rewrite Hp, Ho. split; xor_ring.
  - rewrite !(decide_False (P := NO_PIECE ∈ _)) by (apply Hnone; tauto).
    destruct (toggle_piece_keys h (cell b a) a Hq) as [-> ->].
    rewrite Hp, Ho. split; xor_ring.
  - rewrite Hq, !(decide_False (P := NO_PIECE ∈ _)) by (apply Hnone; tauto).
    destruct (toggle_piece_keys h p a Hpn) as [-> ->].
    rewrite Hp, Ho. split; xor_ring.
  - destruct (toggle_piece_keys (toggle_piece h (cell b a) a) p a Hpn)
      as [-> ->].
    destruct (toggle_piece_keys h (cell b a) a Hq) as [-> ->].
    rewrite Hp, Ho. split; xor_ring.
Qed.
End Hashed.

(** ** The placement invariant of a position *)

Section PieceFields.
Context {T : ZobristTable}.

Lemma board_add_piece P pc sq :
  _board (add_piece P pc sq) = <[Z.to_nat sq := pc]> (_board P).
Proof. reflexivity. Qed.

Lemma bycolor_add_piece P pc sq :
  _by_color_bb (add_piece P pc sq)
  = arr_set (_by_color_bb P) (get_color pc)
      (Z.lor (_by_color_bb P (get_color pc)) (square_bb sq)).
Proof. reflexivity. Qed.

Lemma bykind_add_piece P pc sq :
  _by_piece_kind_bb (add_piece P pc sq)
  = arr_set (_by_piece_kind_bb P) (make_piece_kind pc)
      (Z.lor (_by_piece_kind_bb P (make_piece_kind pc)) (square_bb sq)).
Proof. reflexivity. Qed.

Lemma count_add_piece P pc sq :
  _piece_count (add_piece P pc sq)
  = arr_set (_piece_count P) pc (_piece_count P pc + 1).
Proof. reflexivity. Qed.

Lemma ppos_add_piece P pc sq :
  _piece_position (add_piece P pc sq)
  = arr_set (_piece_position P) pc
      (<[Z.to_nat (_piece_count P pc) := sq]> (_piece_position P pc)).
Proof. reflexivity. Qed.

Lemma zob_add_piece P pc sq :
  _zobrist_hash (add_piece P pc sq) = toggle_piece (_zobrist_hash P) pc sq.
Proof. reflexivity. Qed.

Lemma board_remove_piece P sq :
  _board (remove_piece P sq) = <[Z.to_nat sq := NO_PIECE]> (_board P).
Proof. reflexivity. Qed.

Lemma bycolor_remove_piece P sq :
  _by_color_bb (remove_piece P sq)
  = arr_set (_by_color_bb P) (get_color (cell (_board P) sq))
      (Z.lxor (_by_color_bb P (get_color (cell (_board P) sq)))
         (square_bb sq)).
Proof. reflexivity. Qed.

Lemma bykind_remove_piece P sq :
  _by_piece_kind_bb (remove_piece P sq)
  = arr_set (_by_piece_kind_bb P) (make_piece_kind (cell (_board P) sq))
      (Z.lxor (_by_piece_kind_bb P (make_piece_kind (cell (_board P) sq)))
         (square_bb sq)).
Proof. reflexivity. Qed.

Lemma count_remove_piece P sq :
  _piece_count (remove_piece P sq)
  = arr_set (_piece_count P) (cell (_board P) sq)
      (_piece_count P (cell (_board P) sq) - 1).
Proof. reflexivity. Qed.

Lemma ppos_remove_piece P sq :
  _piece_position (remove_piece P sq)
  = arr_set (_piece_position P) (cell (_board P) sq)
      (replace_first (Z.to_nat (_piece_count P (cell (_board P) sq) - 1)) sq
         (_piece_position P (cell (_board P) sq)
            !!! Z.to_nat (_piece_count P (cell (_board P) sq) - 1))
         (_piece_position P (cell (_board P) sq))).
Proof. reflexivity. Qed.

Lemma zob_remove_piece P sq :
  _zobrist_hash (remove_piece P sq)
  = toggle_piece (_zobrist_hash P) (cell (_board P) sq) sq.
Proof. reflexivity. Qed.

Lemma board_move_piece P from to :
  _board (move_piece P from to)
  = <[Z.to_nat to := cell (_board P) from]>
      (<[Z.to_nat from := NO_PIECE]> (_board P)).
Proof. reflexivity. Qed.

Lemma bycolor_move_piece P from to :
  _by_color_bb (move_piece P from to)
  = arr_set (_by_color_bb P) (get_color (cell (_board P) from))
      (Z.lxor (_by_color_bb P (get_color (cell (_board P) from)))
         (Z.lor (square_bb from) (square_bb to))).
Proof. reflexivity. Qed.

Lemma bykind_move_piece P from to :
  _by_piece_kind_bb (move_piece P from to)
  = arr_set (_by_piece_kind_bb P) (make_piece_kind (cell (_board P) from))
      (Z.lxor (_by_piece_kind_bb P (make_piece_kind (cell (_board P) from)))
         (Z.lor (square_bb from) (square_bb to))).
Proof. reflexivity. Qed.

Lemma count_move_piece P from to :
  _piece_count (move_piece P from to) = _piece_count P.
Proof. reflexivity. Qed.

Lemma ppos_move_piece P from to :
  _piece_position (move_piece P from to)
  = arr_set (_piece_position P) (cell (_board P) from)
      (replace_first (Z.to_nat (_piece_count P (cell (_board P) from)))
         from to (_piece_position P (cell (_board P) from))).
Proof. reflexivity. Qed.

Lemma zob_move_piece P from to :
  _zobrist_hash (move_piece P from to)
  = toggle_piece (toggle_piece (_zobrist_hash P) (cell (_board P) from) from)
      (cell (_board P) from) to.
Proof. reflexivity. Qed.

Lemma placed_same P Q : same_placement P Q -> placed P -> placed Q.
Proof.
  intros (Hb & Hc & Hk & Hn & Hp & Hpk & Hok) [Hl Hco Hki [Hh1 Hh2]].
  split.
  - by rewrite <- Hb, <- Hn, <- Hp.
  - by rewrite <- Hb, <- Hc.
  - by rewrite <- Hb, <- Hk.
  - split; congruence.
Qed.

Lemma same_placement_refl P : same_placement P P.
Proof. by repeat split. Qed.

Lemma same_placement_trans P Q R :
  same_placement P Q -> same_placement Q R -> same_placement P R.
Proof. unfold same_placement. intuition congruence. Qed.

Lemma same_placement_sym P Q : same_placement P Q -> same_placement Q P.
Proof. unfold same_placement. intuition congruence. Qed.

Lemma placed_add_piece P pc sq :
  placed P -> pc <> NO_PIECE -> 0 <= sq < 64 ->
  piece_at P sq = NO_PIECE -> _piece_count P pc < 10 ->
  placed (add_piece P pc sq).
Proof.
  intros [Hl Hc Hk Hh] Hpc Hsq Hempty Hroom.
  pose proof (lo_board _ _ _ Hl) as Hlen.
  split.
  - rewrite board_add_piece, count_add_piece, ppos_add_piece.
    by apply listed_on_add.
  - rewrite board_add_piece, bycolor_add_piece. by apply mapped_on_add.
  - rewrite board_add_piece, bykind_add_piece. by apply mapped_on_add.
  - rewrite board_add_piece, zob_add_piece.
    pose proof (hashed_board_insert (_board P) (_zobrist_hash P) sq pc
                  Hlen Hsq Hh) as H.
    cbn zeta in H.
    rewrite (decide_True (P := cell (_board P) sq = NO_PIECE)) in H
      by exact Hempty.
    by rewrite (decide_False (P := pc = NO_PIECE)) in H by done.
Qed.

Lemma placed_remove_piece P sq :
  placed P -> 0 <= sq < 64 -> piece_at P sq <> NO_PIECE ->
  placed (remove_piece P sq).
Proof.
  intros [Hl Hc Hk Hh] Hsq Hfull.
  pose proof (lo_board _ _ _ Hl) as Hlen.
  split.
  - rewrite board_remove_piece, count_remove_piece, ppos_remove_piece.
    by apply listed_on_remove.
  - rewrite board_remove_piece, bycolor_remove_piece.
    by apply mapped_on_remove.
  - rewrite board_remove_piece, bykind_remove_piece.
    by apply mapped_on_remove.
  - rewrite board_remove_piece, zob_remove_piece.
    pose proof (hashed_board_insert (_board P) (_zobrist_hash P) sq NO_PIECE
                  Hlen Hsq Hh) as H.
    cbn zeta in H.
    rewrite (decide_False (P := cell (_board P) sq = NO_PIECE)) in H
      by exact Hfull.
    by rewrite (decide_True (P := NO_PIECE = NO_PIECE)) in H by done.
Qed.

Lemma placed_move_piece P from to :
  placed P -> 0 <= from < 64 -> 0 <= to < 64 ->
  piece_at P from <> NO_PIECE -> piece_at P to = NO_PIECE ->
  placed (move_piece P from to).
Proof.
  intros [Hl Hc Hk Hh] Hfrom Hto Hfull Hempty.
  pose proof (lo_board _ _ _ Hl) as Hlen.
  assert (Hne : from <> to) by (intros ->; contradiction).
  split.
  - rewrite board_move_piece, count_move_piece, ppos_move_piece.
    by apply listed_on_move.
  - rewrite board_move_piece, bycolor_move_piece. by apply mapped_on_move.
  - rewrite board_move_piece, bykind_move_piece. by apply mapped_on_move.
  - rewrite board_move_piece, zob_move_piece.
    pose proof (hashed_board_insert (_board P) (_zobrist_hash P) from NO_PIECE
                  Hlen Hfrom Hh) as H1.
    cbn zeta in H1.
    rewrite (decide_False (P := cell (_board P) from = NO_PIECE)) in H1
      by exact Hfull.
    rewrite (decide_True (P := NO_PIECE = NO_PIECE)) in H1 by done.
    pose proof (hashed_board_insert _ _ to (cell (_board P) from)
                  ltac:(by rewrite length_insert) Hto H1) as H2.
    cbn zeta in H2. rewrite cell_insert in H2 by (done || lia).
    rewrite (decide_False (P := to = from)) in H2 by done.
    rewrite (decide_True (P := cell (_board P) to = NO_PIECE)) in H2
      by exact Hempty.
    by rewrite (decide_False (P := cell (_board P) from = NO_PIECE)) in H2
      by exact Hfull.
Qed.
End PieceFields.

Create Rewrite HintDb board.

#[global] Hint Rewrite @board_add_piece @board_remove_piece @board_move_piece
  : board.

(** ** Following the board through the piece operations *)

Lemma cell_ext (b b' : list Piece) :
  length b = 64%nat -> length b' = 64%nat ->
  (forall s, 0 <= s < 64 -> cell b s = cell b' s) -> b = b'.
Proof.
  intros Hb Hb' H. apply list_eq_same_length with 64%nat; try done.
  intros i x y Hi Hx Hy. specialize (H (Z.of_nat i) ltac:(lia)).
  unfold cell in H. rewrite Nat2Z.id in H.
  rewrite (list_lookup_total_correct _ _ _ Hx) in H.
  rewrite (list_lookup_total_correct _ _ _ Hy) in H. done.
Qed.

Section Tracks.
Context {T : ZobristTable}.

Lemma tracks_same X' X b c :
  same_placement X' X -> tracks X b c -> tracks X' b c.
Proof.
  intros Hs (Hp & Hb & Hc). split; [|split].
  - apply (placed_same X X'); [by apply same_placement_sym|done].
  - destruct Hs as (-> & _). done.
  - destruct Hs as (_ & _ & _ & -> & _). done.
Qed.

Lemma tracks_counts X b c c' :
  tracks X b c -> (forall pc, c pc = c' pc) -> tracks X b c'.
Proof.
  intros (Hp & Hb & Hc) He. split; [done|split; [done|]].
  intros pc. by rewrite Hc.
Qed.

Lemma tracks_move X b c a t :
  tracks X b c -> 0 <= a < 64 -> 0 <= t < 64 ->
  cell b a <> NO_PIECE -> cell b t = NO_PIECE ->
  tracks (move_piece X a t)
    (<[Z.to_nat t := cell b a]> (<[Z.to_nat a := NO_PIECE]> b)) c.
Proof.
  intros (Hp & <- & Hc) Ha Ht Hfull Hempty. split; [|split].
  - by apply placed_move_piece.
  - apply board_move_piece.
  - intros pc. by rewrite count_move_piece.
Qed.

Lemma tracks_remove X b c s :
  tracks X b c -> 0 <= s < 64 -> cell b s <> NO_PIECE ->
  tracks (remove_piece X s) (<[Z.to_nat s := NO_PIECE]> b)
    (arr_set c (cell b s) (c (cell b s) - 1)).
Proof.
  intros (Hp & <- & Hc) Hs Hfull. split; [|split].
  - by apply placed_remove_piece.
  - apply board_remove_piece.
  - intros pc. rewrite count_remove_piece. unfold arr_set.
    case_decide; by rewrite Hc.
Qed.

Lemma tracks_add X b c pc s :
  tracks X b c -> pc <> NO_PIECE -> 0 <= s < 64 ->
  cell b s = NO_PIECE -> c pc < 10 ->
  tracks (add_piece X pc s) (<[Z.to_nat s := pc]> b)
    (arr_set c pc (c pc + 1)).
Proof.
  intros (Hp & <- & Hc) Hpc Hs Hempty Hroom. split; [|split].
  - apply placed_add_piece; try done. by rewrite Hc.
  - apply board_add_piece.
  - intros q. rewrite count_add_piece. unfold arr_set.
    case_decide; by rewrite Hc.
Qed.

(** The operations that leave the placement data alone. *)
Lemma same_placement_update_rights X side mp cp m :
  same_placement (update_rights X side mp cp m) X.
Proof. unfold update_rights. repeat split; by frame. Qed.

Lemma same_placement_tick_half_move X mp cp :
  same_placement (tick_half_move X mp cp) X.
Proof. unfold tick_half_move. case_match; by repeat split. Qed.

Lemma same_placement_mark_enpassant X side m mp :
  same_placement (mark_enpassant X side m mp) X.
Proof. unfold mark_enpassant. case_match; by repeat split. Qed.

Lemma same_placement_restore_scalars X info :
  same_placement (restore_scalars X info) X.
Proof. unfold restore_scalars. case_match; by repeat split. Qed.
End Tracks.

(** ** The shape of a move, and the piece movements undone *)

Lemma from_range m : 0 <= from m < 64.
Proof.
  unfold from. change 63 with (Z.ones 6). rewrite Z.land_ones by lia.
  apply Z.mod_pos_bound. lia.
Qed.

Lemma to_range m : 0 <= to m < 64.
Proof.
  unfold to. change 63 with (Z.ones 6). rewrite Z.land_ones by lia.
  apply Z.mod_pos_bound. lia.
Qed.

Lemma make_piece_of_piece pc :
  pc <> NO_PIECE -> make_piece (get_color pc) (make_piece_kind pc) = pc.
Proof. by destruct pc. Qed.

Lemma make_piece_none c : make_piece c NO_PIECE_KIND = NO_PIECE.
Proof. by destruct c. Qed.

Lemma make_piece_is_none c k :
  k <> PIECE_KIND_7 -> make_piece c k = NO_PIECE -> k = NO_PIECE_KIND.
Proof. by destruct c, k. Qed.

Lemma get_color_make_piece c k :
  k <> NO_PIECE_KIND -> k <> PIECE_KIND_7 -> get_color (make_piece c k) = c.
Proof. by destruct c, k. Qed.

Lemma make_piece_kind_make_piece c k :
  k <> PIECE_KIND_7 -> make_piece_kind (make_piece c k) = k.
Proof. by destruct c, k. Qed.

Lemma opp_opp c : opp (opp c) = c.
Proof. by destruct c. Qed.

Lemma opp_ne c : opp c <> c.
Proof. by destruct c. Qed.

(** Side conditions on cells of an updated board, and on updated counts. *)
Ltac cell_eqs :=
  repeat match goal with
  | H : cell ?b ?x = _ |- context [cell ?b ?x] => rewrite H
  end.

(** Arithmetic on counts whose arguments are provably the same piece. *)
Ltac count_args :=
  repeat match goal with
  | H : context [?c ?x] |- _ =>
      lazymatch type of x with Piece => idtac end;
      lazymatch type of H with
      | _ < _ => idtac | _ <= _ <= _ => idtac | _ <= _ => idtac
      end;
      revert H
  end;
  repeat match goal with
  | |- context [?c ?x] =>
      lazymatch type of x with Piece => idtac end;
      match goal with
      | |- context [c ?y] =>
          lazymatch x with y => fail | _ => idtac end;
          let E := fresh in
          assert (E : x = y) by congruence; rewrite E; clear E
      end
  end;
  intros; lia.

Ltac cells :=
  repeat rewrite cell_insert
    by (rewrite ?length_insert; first [assumption | lia]);
  unfold arr_set; cell_eqs;
  repeat case_decide;
  first
    [ done | lia | congruence | tauto
    | match goal with
      | H : @eq Piece ?p ?q |- _ =>
          first [rewrite H in * | rewrite <- H in *]; first [lia | congruence]
      end
    | subst; first [lia | congruence]
    | count_args ].

Section Undone.
Context {T : ZobristTable}.

Lemma tracks_board_length X b c : tracks X b c -> length b = 64%nat.
Proof. intros ([[Hl _ _ _ _ _] _ _ _] & <- & _). exact Hl. Qed.

Lemma tracks_count_bound X b c pc : tracks X b c -> 0 <= c pc <= 10.
Proof. intros ([[_ _ Hc _ _ _] _ _ _] & _ & He). rewrite <- He. apply Hc. Qed.

(** The castling branch, done and undone. *)
Lemma castling_undone X Y side m b c :
  tracks X b c ->
  castling_shape b side m = true ->
  let r := home_rank side in
  let X1 :=
    if castling m =? KING_CASTLING then
      move_piece (move_piece X (make_square r FILE_E) (make_square r FILE_G))
        (make_square r FILE_H) (make_square r FILE_F)
    else
      move_piece (move_piece X (make_square r FILE_E) (make_square r FILE_C))
        (make_square r FILE_A) (make_square r FILE_D) in
  same_placement Y X1 ->
  castling m <> NO_CASTLING ->
  forall info, tracks (unshift_pieces Y side m info) b c.
Proof.
  intros HX Hshape r X1 HY Hc info.
  pose proof (tracks_board_length _ _ _ HX) as Hlen.
  unfold unshift_pieces.
  destruct (Z.eqb_spec (castling m) NO_CASTLING) as [E|_]; [done|].
  cbn [negb]. fold r.
  unfold castling_shape in Hshape. fold r in Hshape. subst X1.
  assert (Hr : r = 0 \/ r = 7)
    by (subst r; unfold home_rank, RANK_1, RANK_8; destruct side; lia).
  clearbody r.
  unfold make_square, FILE_A, FILE_C, FILE_D, FILE_E, FILE_F, FILE_G, FILE_H
    in *.
  destruct (castling m =? KING_CASTLING).
  - apply bool_decide_eq_true in Hshape as (He & Hh & Hf & Hg).
    pose proof (tracks_move _ _ _ (r * 8 + 4) (r * 8 + 6) HX
                  ltac:(lia) ltac:(lia) He Hg) as H1.
    pose proof (tracks_move _ _ _ (r * 8 + 7) (r * 8 + 5) H1
                  ltac:(lia) ltac:(lia) ltac:(cells) ltac:(cells)) as H2.
    pose proof (tracks_same _ _ _ _ HY H2) as H3.
    pose proof (tracks_move _ _ _ (r * 8 + 6) (r * 8 + 4) H3
                  ltac:(lia) ltac:(lia) ltac:(cells) ltac:(cells)) as H4.
    pose proof (tracks_move _ _ _ (r * 8 + 5) (r * 8 + 7) H4
                  ltac:(lia) ltac:(lia) ltac:(cells) ltac:(cells)) as H5.
    destruct H5 as (Hp & Hb & Hn). split; [done|split; [|done]].
    rewrite Hb. apply cell_ext; [by rewrite !length_insert|done|].
    intros s Hs. cells.
  - apply bool_decide_eq_true in Hshape as (He & Ha & Hc' & Hd).
    pose proof (tracks_move _ _ _ (r * 8 + 4) (r * 8 + 2) HX
                  ltac:(lia) ltac:(lia) He Hc') as H1.
    pose proof (tracks_move _ _ _ (r * 8 + 0) (r * 8 + 3) H1
                  ltac:(lia) ltac:(lia) ltac:(cells) ltac:(cells)) as H2.
    pose proof (tracks_same _ _ _ _ HY H2) as H3.
    pose proof (tracks_move _ _ _ (r * 8 + 2) (r * 8 + 4) H3
                  ltac:(lia) ltac:(lia) ltac:(cells) ltac:(cells)) as H4.
    pose proof (tracks_move _ _ _ (r * 8 + 3) (r * 8 + 0) H4
                  ltac:(lia) ltac:(lia) ltac:(cells) ltac:(cells)) as H5.
    destruct H5 as (Hp & Hb & Hn). split; [done|split; [|done]].
    rewrite Hb. apply cell_ext; [by rewrite !length_insert|done|].
    intros s Hs. cells.
Qed.
End Undone.

Section UndoneOrdinary.
Context {T : ZobristTable}.

Ltac board_back Hfinal :=
  let Hp := fresh in let Hb := fresh in let Hn := fresh in
  eexists; split;
  [ destruct Hfinal as (Hp & Hb & Hn); split; [exact Hp|split; [|exact Hn]];
    rewrite Hb; apply cell_ext; [by rewrite !length_insert|done|];
    intros ? ?; cells
  | intros ?; cells ].

(** The ordinary branch, done and undone: the board comes back, and so
    does every count. *)
Lemma ordinary_undone X Y side m b c info :
  tracks X b c ->
  ordinary_shape b c (_enpassant_square X) side m = true ->
  castling m = NO_CASTLING ->
  same_placement Y
    (shift_pieces X side m (cell b (from m)) (cell b (to m))).1 ->
  captured_piece info = make_piece_kind (cell b (to m)) ->
  enpassant info
  = (shift_pieces X side m (cell b (from m)) (cell b (to m))).2 ->
  exists c', tracks (unshift_pieces Y side m info) b c'
             /\ forall pc, c' pc = c pc.
Proof.
  intros HX Hshape Hc HY Hcap Hep.
  pose proof (tracks_board_length _ _ _ HX) as Hlen.
  pose proof (from_range m) as Hfrom. pose proof (to_range m) as Hto.
  unfold unshift_pieces. rewrite Hc, Hcap, Hep. cbn [Z.eqb negb NO_CASTLING].
  unfold ordinary_shape in Hshape. cbn zeta in Hshape.
  apply andb_true_iff in Hshape as [Hown Hshape].
  apply bool_decide_eq_true in Hown as [Hmoved Hside].
  revert HY. unfold shift_pieces.
  destruct (bool_decide (get_piece_kind (cell b (from m)) = PAWN)
            && (to m =? _enpassant_square X)).
  - (* en passant *)
    apply bool_decide_eq_true in Hshape as (Hempty & Hpromo & Hcsq & Hpawn).
    cbn [fst snd]. intros HY. rewrite Hpromo, Hempty.
    cbn [make_piece_kind]. rewrite make_piece_none.
    rewrite (bool_decide_eq_false_2 (NO_PIECE_KIND <> NO_PIECE_KIND))
      by (intros H; by apply H).
    rewrite (bool_decide_eq_false_2 (NO_PIECE <> NO_PIECE))
      by (intros H; by apply H).
    set (csq := to m + pawn_step_back side) in *.
    assert (Hne : make_piece (opp side) PAWN <> NO_PIECE)
      by (destruct side; discriminate).
    assert (Hcf : csq <> from m).
    { intros E. rewrite E in Hpawn.
      rewrite Hpawn in Hside. rewrite get_color_make_piece in Hside by done.
      by apply (opp_ne side). }
    assert (Hct : csq <> to m)
      by (subst csq; destruct side; cbn [pawn_step_back]; lia).
    assert (Hft : from m <> to m).
    { intros E. rewrite E in Hmoved. done. }
    clearbody csq.
    pose proof (tracks_move _ _ _ (from m) (to m) HX Hfrom Hto Hmoved Hempty)
      as H1.
    pose proof (tracks_remove _ _ _ csq H1 Hcsq ltac:(cells)) as H2.
    pose proof (tracks_same _ _ _ _ HY H2) as H3.
    pose proof (tracks_count_bound _ _ _ (make_piece (opp side) PAWN) HX)
      as Hbound.
    pose proof (tracks_add _ _ _ (make_piece (opp side) PAWN) csq H3
                  Hne Hcsq ltac:(cells) ltac:(cells)) as H4.
    pose proof (tracks_move _ _ _ (to m) (from m) H4 Hto Hfrom
                  ltac:(cells) ltac:(cells)) as H5.
    board_back H5.
  - (* capture or quiet move, promotion or not *)
    apply andb_true_iff in Hshape as [Htarget Hpromo].
    apply bool_decide_eq_true in Htarget.
    apply bool_decide_eq_true in Hpromo.
    cbn [fst snd]. intros HY.
    assert (Hft : from m <> to m).
    { intros E. rewrite E in *.
      destruct Htarget as [Ht|Ht]; [done|].
      rewrite Ht in Hside. by apply (opp_ne side). }
    assert (Hcapd : make_piece (opp side) (make_piece_kind (cell b (to m)))
                    = cell b (to m)).
    { destruct Htarget as [->|Ht]; [apply make_piece_none|].
      destruct (decide (cell b (to m) = NO_PIECE)) as [->|Hn];
        [apply make_piece_none|].
      rewrite <- Ht. by apply make_piece_of_piece. }
    rewrite Hcapd.
    pose proof (same_placement_trans _ _ _ HY
                  (same_placement_update_rights _ _ _ _ _)) as HY'.
    clear HY. revert HY'.
    pose proof (tracks_count_bound _ _ _ (cell b (to m)) HX) as Hbc.
    pose proof (tracks_count_bound _ _ _ (make_piece side PAWN) HX) as Hbp.
    assert (Hpn : make_piece side PAWN <> NO_PIECE)
      by (destruct side; discriminate).
    assert (Hcm : cell b (to m) <> NO_PIECE ->
                  cell b (to m) <> cell b (from m)).
    { intros Hn E. destruct Htarget as [Ht|Ht]; [done|].
      rewrite E, Hside in Ht. by apply (opp_ne side). }
    assert (Hcp : cell b (to m) <> NO_PIECE ->
                  cell b (to m) <> make_piece side PAWN).
    { intros Hn E. destruct Htarget as [Ht|Ht]; [done|].
      rewrite E, get_color_make_piece in Ht by done.
      by apply (opp_ne side). }
    destruct (bool_decide_reflect (cell b (to m) <> NO_PIECE)) as [Hn|Hn],
             (bool_decide_reflect (promotion m <> NO_PIECE_KIND)) as [Hq|Hq].
    + (* capture with promotion *)
      intros HY. destruct (Hpromo Hq) as (Hq7 & Hpawn & Hroom).
      assert (Hqn : make_piece side (promotion m) <> NO_PIECE)
        by (intros E; by apply make_piece_is_none in E).
      assert (Hcq : cell b (to m) <> make_piece side (promotion m)).
      { intros E. destruct Htarget as [Ht|Ht]; [done|].
        rewrite E, get_color_make_piece in Ht by done.
        by apply (opp_ne side). }
      pose proof (tracks_remove _ _ _ (to m) HX Hto Hn) as H1.
      pose proof (tracks_remove _ _ _ (from m) H1 Hfrom ltac:(cells)) as H2.
      pose proof (tracks_add _ _ _ (make_piece side (promotion m)) (to m) H2
                    Hqn Hto ltac:(cells) ltac:(cells)) as H3.
      pose proof (tracks_same _ _ _ _ HY H3) as H4.
      pose proof (tracks_add _ _ _ (make_piece side PAWN) (from m) H4
                    Hpn Hfrom ltac:(cells) ltac:(cells)) as H5.
      pose proof (tracks_remove _ _ _ (to m) H5 Hto ltac:(cells)) as H6.
      pose proof (tracks_add _ _ _ (cell b (to m)) (to m) H6
                    Hn Hto ltac:(cells) ltac:(cells)) as H7.
      board_back H7.
    + (* capture *)
      intros HY.
      pose proof (tracks_remove _ _ _ (to m) HX Hto Hn) as H1.
      pose proof (tracks_move _ _ _ (from m) (to m) H1 Hfrom Hto
                    ltac:(cells) ltac:(cells)) as H2.
      pose proof (tracks_same _ _ _ _ HY H2) as H3.
      pose proof (tracks_move _ _ _ (to m) (from m) H3 Hto Hfrom
                    ltac:(cells) ltac:(cells)) as H4.
      pose proof (tracks_add _ _ _ (cell b (to m)) (to m) H4
                    Hn Hto ltac:(cells) ltac:(cells)) as H5.
      board_back H5.
    + (* promotion *)
      intros HY. destruct (Hpromo Hq) as (Hq7 & Hpawn & Hroom).
      assert (Hempty : cell b (to m) = NO_PIECE)
        by (destruct (decide (cell b (to m) = NO_PIECE)); tauto).
      assert (Hqn : make_piece side (promotion m) <> NO_PIECE)
        by (intros E; by apply make_piece_is_none in E).
      pose proof (tracks_remove _ _ _ (from m) HX Hfrom Hmoved) as H1.
      pose proof (tracks_add _ _ _ (make_piece side (promotion m)) (to m) H1
                    Hqn Hto ltac:(cells) ltac:(cells)) as H2.
      pose proof (tracks_same _ _ _ _ HY H2) as H3.
      pose proof (tracks_add _ _ _ (make_piece side PAWN) (from m) H3
                    Hpn Hfrom ltac:(cells) ltac:(cells)) as H4.
      pose proof (tracks_remove _ _ _ (to m) H4 Hto ltac:(cells)) as H5.
      board_back H5.
    + (* quiet move *)
      intros HY.
      assert (Hempty : cell b (to m) = NO_PIECE)
        by (destruct (decide (cell b (to m) = NO_PIECE)); tauto).
      pose proof (tracks_move _ _ _ (from m) (to m) HX Hfrom Hto
                    Hmoved Hempty) as H1.
      pose proof (tracks_same _ _ _ _ HY H1) as H2.
      pose proof (tracks_move _ _ _ (to m) (from m) H2 Hto Hfrom
                    ltac:(cells) ltac:(cells)) as H3.
      board_back H3.
Qed.
End UndoneOrdinary.

(** ** The invariant of a position, as a check that runs *)

Section Consistent.
Context {T : ZobristTable}.

End Consistent.

Lemma testbit_bb_where pred b s :
  Z.testbit (bb_where pred b) s
  = bool_decide (0 <= s < 64) && pred (cell b s).
Proof.
  unfold bb_where.
  assert (H : forall L, Forall (fun x => 0 <= x) L ->
    Z.testbit
      (foldr (fun s acc => if pred (cell b s) then Z.lor acc (square_bb s)
                           else acc) 0 L) s
    = bool_decide (s ∈ L) && pred (cell b s)).
  { induction L as [|x L IH]; intros HL.
    - cbn [foldr]. rewrite Z.bits_0.
      rewrite bool_decide_eq_false_2; [done|]. apply not_elem_of_nil.
    - apply Forall_cons in HL as [Hx HL]. cbn [foldr].
      destruct (pred (cell b x)) eqn:Ep.
      + rewrite Z.lor_spec, IH, testbit_square_bb by done.
        destruct (decide (s = x)) as [->|Hne].
        * rewrite (bool_decide_eq_true_2 (x = x)) by done.
          rewrite (bool_decide_eq_true_2 (x ∈ x :: L)) by (apply elem_of_cons; by left).
          rewrite Ep. by rewrite orb_true_r.
        * rewrite (bool_decide_eq_false_2 (s = x)) by done.
          rewrite orb_false_r. f_equal. apply bool_decide_ext.
          rewrite elem_of_cons. tauto.
      + rewrite IH by done.
        destruct (decide (s = x)) as [->|Hne].
        * rewrite Ep. by rewrite !andb_false_r.
        * f_equal. apply bool_decide_ext. rewrite elem_of_cons. tauto. }
  rewrite H.
  - f_equal. apply bool_decide_ext. apply elem_of_all_squares.
  - apply Forall_forall. intros x Hx. apply elem_of_all_squares in Hx. lia.
Qed.

Lemma all_pieces_spec pc : pc <> NO_PIECE -> pc ∈ all_pieces.
Proof.
  intros H. unfold all_pieces. destruct pc; try done;
    apply (bool_decide_unpack _); vm_compute; exact I.
Qed.

Lemma forallb_elem {A} (f : A -> bool) (l : list A) x :
  forallb f l = true -> x ∈ l -> f x = true.
Proof.
  intros H Hx. rewrite forallb_forall in H. apply H.
  by apply list_elem_of_In.
Qed.

Lemma enpassant_square_ok_range sq :
  enpassant_square_ok sq = true -> 0 <= sq <= 64.
Proof.
  unfold enpassant_square_ok, rank, NO_SQUARE, RANK_3, RANK_6.
  rewrite !orb_true_iff, !Z.eqb_eq, !Z.shiftr_div_pow2 by lia.
  change (2 ^ 3) with 8. intros [[H|H]|H];
    Z.to_euclidean_division_equations; lia.
Qed.

Section ConsistentSound.
Context {T : ZobristTable}.

Lemma lists_ok_listed P :
  length (_board P) = 64%nat -> lists_ok P = true -> listed P.
Proof.
  intros Hlen H. unfold lists_ok in H.
  apply andb_true_iff in H as [H Hall]. apply andb_true_iff in H as [Hl0 Hc0].
  apply bool_decide_eq_true in Hl0. apply Z.eqb_eq in Hc0.
  assert (Hpc : forall pc, pc <> NO_PIECE -> list_ok P pc = true).
  { intros pc Hn. apply (forallb_elem _ _ _ Hall). by apply all_pieces_spec. }
  assert (Hget : forall pc, pc <> NO_PIECE ->
    length (_piece_position P pc) = 10%nat
    /\ 0 <= _piece_count P pc <= 10
    /\ NoDup (live P pc)
    /\ (forall s, s ∈ live P pc -> 0 <= s < 64 /\ cell (_board P) s = pc)
    /\ (forall s, 0 <= s < 64 -> cell (_board P) s = pc -> s ∈ live P pc)).
  { intros pc Hn. specialize (Hpc pc Hn). unfold list_ok in Hpc.
    apply andb_true_iff in Hpc as [Hpc Hback].
    apply andb_true_iff in Hpc as [Hpc Hfwd].
    apply andb_true_iff in Hpc as [Hpc Hnd].
    apply andb_true_iff in Hpc as [Hpc Hhi].
    apply andb_true_iff in Hpc as [Hpc Hlo].
    apply bool_decide_eq_true_1 in Hpc, Hnd.
    assert (Hmem : forall s, s ∈ live P pc ->
                   0 <= s < 64 /\ cell (_board P) s = pc).
    { intros s Hs. pose proof (forallb_elem _ _ s Hfwd Hs) as Hx.
      cbn beta in Hx. apply andb_true_iff in Hx as [Hx Hcell].
      apply andb_true_iff in Hx as [Hx1 Hx2].
      apply bool_decide_eq_true_1 in Hcell. split; [lia|done]. }
    split; [done|]. split; [lia|]. split; [done|]. split; [done|].
    intros s Hs Hcell.
    assert (Hin : s ∈ all_squares) by by apply elem_of_all_squares.
    pose proof (forallb_elem _ _ s Hback Hin) as Hi. cbn beta in Hi.
    rewrite (bool_decide_eq_true_2 _ Hcell) in Hi. cbn [implb] in Hi.
    by apply bool_decide_eq_true_1 in Hi. }
  split.
  - exact Hlen.
  - intros pc. destruct (decide (pc = NO_PIECE)) as [->|Hn]; [done|].
    by destruct (Hget pc Hn).
  - intros pc. destruct (decide (pc = NO_PIECE)) as [->|Hn]; [lia|].
    by destruct (Hget pc Hn) as (_ & ? & _).
  - exact Hc0.
  - intros pc. destruct (decide (pc = NO_PIECE)) as [->|Hn].
    + unfold live_of. rewrite Hc0. cbn. apply NoDup_nil_2.
    + by destruct (Hget pc Hn) as (_ & _ & ? & _).
  - intros pc sq Hn. destruct (Hget pc Hn) as (_ & _ & _ & H1 & H2).
    split; [apply H1|]. intros [? ?]. by apply H2.
Qed.

Lemma bitboards_ok_mapped P :
  bitboards_ok P = true ->
  mapped_on get_color (_board P) (_by_color_bb P)
  /\ mapped_on make_piece_kind (_board P) (_by_piece_kind_bb P).
Proof.
  intros H. apply andb_true_iff in H as [Hc Hk]. split.
  - intros a s.
    assert (Ha : a ∈ all_colors)
      by (destruct a; apply (bool_decide_unpack _); vm_compute; exact I).
    pose proof (forallb_elem _ _ a Hc Ha) as E. cbn beta in E.
    apply Z.eqb_eq in E. rewrite E, testbit_bb_where.
    destruct (decide (0 <= s < 64)) as [Hs|Hs].
    + rewrite (bool_decide_eq_true_2 _ Hs). cbn [andb].
      apply bool_decide_ext. tauto.
    + rewrite (bool_decide_eq_false_2 _ Hs). cbn [andb]. symmetry.
      apply bool_decide_eq_false_2. tauto.
  - intros a s.
    assert (Ha : a ∈ all_kinds)
      by (destruct a; apply (bool_decide_unpack _); vm_compute; exact I).
    pose proof (forallb_elem _ _ a Hk Ha) as E. cbn beta in E.
    apply Z.eqb_eq in E. rewrite E, testbit_bb_where.
    destruct (decide (0 <= s < 64)) as [Hs|Hs].
    + rewrite (bool_decide_eq_true_2 _ Hs). cbn [andb].
      apply bool_decide_ext. tauto.
    + rewrite (bool_decide_eq_false_2 _ Hs). cbn [andb]. symmetry.
      apply bool_decide_eq_false_2. tauto.
Qed.

Lemma consistent_sound P : consistent P = true -> consistent_facts P.
Proof.
  unfold consistent. intros H.
  apply andb_true_iff in H as [H Hep].
  apply andb_true_iff in H as [H Hhm2]. apply andb_true_iff in H as [H Hhm1].
  apply andb_true_iff in H as [H Hr2]. apply andb_true_iff in H as [H Hr1].
  apply andb_true_iff in H as [H Hkeys]. apply andb_true_iff in H as [H Hbb].
  apply andb_true_iff in H as [Hlen Hlists].
  apply bool_decide_eq_true_1 in Hlen.
  unfold keys_ok in Hkeys. cbn zeta in Hkeys.
  apply andb_true_iff in Hkeys as [Hkeys Hcol].
  apply andb_true_iff in Hkeys as [Hkeys Hepk].
  apply andb_true_iff in Hkeys as [Hkeys Hcas].
  apply andb_true_iff in Hkeys as [Hpawn Hpiece].
  apply Z.eqb_eq in Hcol, Hepk, Hcas, Hpawn, Hpiece.
  destruct (bitboards_ok_mapped P Hbb) as [Hc Hk].
  split; try done; try lia.
  - split; [by apply lists_ok_listed|done|done|by split].
  - by apply enpassant_square_ok_range.
Qed.
End ConsistentSound.

(** ** The undo record read back *)

Lemma lor_disjoint a b k :
  0 <= k -> 0 <= b < 2 ^ k -> a mod 2 ^ k = 0 -> Z.lor a b = a + b.
Proof.
  intros Hk Hb Ha.
  assert (Hland : Z.land a b = 0).
  { apply Z.bits_inj'. intros n Hn. rewrite Z.land_spec, Z.bits_0.
    destruct (Z.lt_ge_cases n k) as [Hlt|Hge].
    - replace a with (a / 2 ^ k * 2 ^ k)
        by (pose proof (Z.div_mod a (2 ^ k)); lia).
      by rewrite Z.mul_pow2_bits_low.
    - replace (Z.testbit b n) with false; [apply andb_false_r|].
      symmetry. destruct (Z.eq_dec b 0) as [->|Hb0]; [apply Z.bits_0|].
      apply Z.bits_above_log2; [lia|].
      apply Z.lt_le_trans with k; [|lia]. apply Z.log2_lt_pow2; lia. }
  rewrite <- Z.lxor_lor by assumption.
  symmetry. by apply Z.add_nocarry_lxor.
Qed.

Lemma pk_code_range k : 0 <= pk_code k < 8.
Proof. destruct k; cbn; lia. Qed.

Lemma pk_of_code_code k : pk_of_code (pk_code k) = k.
Proof. by destruct k. Qed.

(** The undo record as a sum, for in-range fields. *)
Lemma create_moveinfo_value captured rights ep e hm :
  0 <= rights < 16 -> 0 <= ep <= 64 -> 0 <= hm < 256 ->
  create_moveinfo captured rights ep e hm
  = hm * 32768 + Z.b2z e * 16384
    + (if ep =? NO_SQUARE then 0 else 8192 + ep * 128)
    + rights * 8 + pk_code captured.
Proof.
  intros Hr Hep Hhm. unfold create_moveinfo.
  pose proof (pk_code_range captured) as Hpk.
  assert (He : 0 <= Z.b2z e <= 1) by (destruct e; cbn; lia).
  rewrite !Z.shiftl_mul_pow2 by lia.
  change (2 ^ 15) with 32768. change (2 ^ 14) with 16384.
  change (2 ^ 13) with 8192. change (2 ^ 7) with 128. change (2 ^ 3) with 8.
  destruct (Z.eqb_spec ep NO_SQUARE) as [E|E]; cbn [negb].
  - rewrite (lor_disjoint (hm * 32768) _ 15) by (rewrite ?Z.mod_mul; lia).
    rewrite (lor_disjoint _ (rights * 8) 14); [|lia|lia|].
    2:{ replace (hm * 32768 + Z.b2z e * 16384)
          with ((hm * 2 + Z.b2z e) * 2 ^ 14) by lia. apply Z.mod_mul. lia. }
    rewrite (lor_disjoint _ (pk_code captured) 3); [lia|lia|lia|].
    replace (hm * 32768 + Z.b2z e * 16384 + rights * 8)
      with ((hm * 4096 + Z.b2z e * 2048 + rights) * 2 ^ 3) by lia.
    apply Z.mod_mul. lia.
  - unfold NO_SQUARE in E.
    rewrite (lor_disjoint (hm * 32768) _ 15) by (rewrite ?Z.mod_mul; lia).
    rewrite (lor_disjoint _ (1 * 8192) 14); [|lia|lia|].
    2:{ replace (hm * 32768 + Z.b2z e * 16384)
          with ((hm * 2 + Z.b2z e) * 2 ^ 14) by lia. apply Z.mod_mul. lia. }
    rewrite (lor_disjoint _ (ep * 128) 13); [|lia|lia|].
    2:{ replace (hm * 32768 + Z.b2z e * 16384 + 1 * 8192)
          with ((hm * 4 + Z.b2z e * 2 + 1) * 2 ^ 13) by lia.
        apply Z.mod_mul. lia. }
    rewrite (lor_disjoint _ (rights * 8) 7); [|lia|lia|].
    2:{ replace (hm * 32768 + Z.b2z e * 16384 + 1 * 8192 + ep * 128)
          with ((hm * 256 + Z.b2z e * 128 + 64 + ep) * 2 ^ 7) by lia.
        apply Z.mod_mul. lia. }
    rewrite (lor_disjoint _ (pk_code captured) 3); [lia|lia|lia|].
    replace (hm * 32768 + Z.b2z e * 16384 + 1 * 8192 + ep * 128 + rights * 8)
      with ((hm * 4096 + Z.b2z e * 2048 + 1024 + ep * 16 + rights) * 2 ^ 3)
      by lia.
    apply Z.mod_mul. lia.
Qed.

Lemma land_ones_mod x n : 0 <= n -> Z.land x (Z.ones n) = x mod 2 ^ n.
Proof. intros. by apply Z.land_ones. Qed.

Section ReadBack.
Variables (captured : PieceKind) (rights ep hm : Z) (e : bool).
Hypothesis Hrights : 0 <= rights < 16.
Hypothesis Hep : 0 <= ep <= 64.
Hypothesis Hhm : 0 <= hm < 256.

Abbreviation info := (create_moveinfo captured rights ep e hm).

Ltac read_field :=
  rewrite create_moveinfo_value by assumption;
  pose proof (pk_code_range captured);
  assert (0 <= Z.b2z e <= 1) by (destruct e; cbn; lia);
  destruct (Z.eqb_spec ep NO_SQUARE); unfold NO_SQUARE in *;
  rewrite ?Z.shiftr_div_pow2 by lia;
  repeat match goal with
  | |- context [Z.land ?x 7] =>
      change (Z.land x 7) with (Z.land x (Z.ones 3)); rewrite land_ones_mod by lia
  | |- context [Z.land ?x 15] =>
      change (Z.land x 15) with (Z.land x (Z.ones 4)); rewrite land_ones_mod by lia
  | |- context [Z.land ?x 63] =>
      change (Z.land x 63) with (Z.land x (Z.ones 6)); rewrite land_ones_mod by lia
  | |- context [Z.land ?x 255] =>
      change (Z.land x 255) with (Z.land x (Z.ones 8)); rewrite land_ones_mod by lia
  | |- context [Z.land ?x 1] =>
      change (Z.land x 1) with (Z.land x (Z.ones 1)); rewrite land_ones_mod by lia
  end;
  change (2 ^ 15) with 32768; change (2 ^ 14) with 16384;
  change (2 ^ 13) with 8192; change (2 ^ 7) with 128; change (2 ^ 3) with 8;
  change (2 ^ 4) with 16; change (2 ^ 6) with 64; change (2 ^ 8) with 256;
  change (2 ^ 1) with 2.

Lemma captured_piece_create : captured_piece info = captured.
Proof.
  unfold captured_piece.
  replace (Z.land info 7) with (pk_code captured);
    [apply pk_of_code_code|].
  read_field; Z.to_euclidean_division_equations; lia.
Qed.

Lemma last_castling_create : last_castling info = rights.
Proof. unfold last_castling. read_field; Z.to_euclidean_division_equations; lia. Qed.

Lemma half_move_counter_create : half_move_counter info = hm.
Proof. unfold half_move_counter. read_field; Z.to_euclidean_division_equations; lia. Qed.

Lemma enpassant_create : enpassant info = e.
Proof.
  unfold enpassant.
  replace (Z.land (Z.shiftr info 14) 1) with (Z.b2z e);
    [by destruct e|].
  read_field; Z.to_euclidean_division_equations; lia.
Qed.

Lemma last_enpassant_create : last_enpassant info = negb (ep =? NO_SQUARE).
Proof.
  unfold last_enpassant.
  replace (Z.land (Z.shiftr info 13) 1)
    with (if ep =? NO_SQUARE then 0 else 1);
    [by destruct (ep =? NO_SQUARE)|].
  read_field; Z.to_euclidean_division_equations; lia.
Qed.

(** The square read back is the stored one, and A1 when none was stored. *)
Lemma last_enpassant_square_create :
  last_enpassant_square info = if ep =? NO_SQUARE then SQ_A1 else ep.
Proof.
  unfold last_enpassant_square, SQ_A1.
  read_field; Z.to_euclidean_division_equations; lia.
Qed.
End ReadBack.

(** The fields of a move built from two squares and a promotion kind. *)
Lemma create_promotion_value f t k :
  0 <= f < 64 -> 0 <= t < 64 ->
  create_promotion f t k = pk_code k * 4096 + t * 64 + f.
Proof.
  intros Hf Ht. unfold create_promotion.
  pose proof (pk_code_range k) as Hk.
  rewrite !Z.shiftl_mul_pow2 by lia.
  change (2 ^ 12) with 4096. change (2 ^ 6) with 64.
  rewrite (lor_disjoint (pk_code k * 4096) (t * 64) 12); [|lia|lia|].
  2:{ change 4096 with (2 ^ 12). apply Z.mod_mul. lia. }
  rewrite (lor_disjoint _ f 6); [lia|lia|lia|].
  replace (pk_code k * 4096 + t * 64) with ((pk_code k * 64 + t) * 2 ^ 6)
    by lia.
  apply Z.mod_mul. lia.
Qed.

Lemma from_create_promotion f t k :
  0 <= f < 64 -> 0 <= t < 64 -> from (create_promotion f t k) = f.
Proof.
  intros Hf Ht. pose proof (pk_code_range k) as Hk.
  unfold from. rewrite create_promotion_value by done.
  change 63 with (Z.ones 6). rewrite Z.land_ones by lia.
  change (2 ^ 6) with 64. Z.to_euclidean_division_equations; lia.
Qed.

Lemma to_create_promotion f t k :
  0 <= f < 64 -> 0 <= t < 64 -> to (create_promotion f t k) = t.
Proof.
  intros Hf Ht. pose proof (pk_code_range k) as Hk.
  unfold to. rewrite create_promotion_value by done.
  rewrite Z.shiftr_div_pow2 by lia.
  change 63 with (Z.ones 6). rewrite Z.land_ones by lia.
  change (2 ^ 6) with 64. Z.to_euclidean_division_equations; lia.
Qed.

Lemma promotion_create_promotion f t k :
  0 <= f < 64 -> 0 <= t < 64 -> promotion (create_promotion f t k) = k.
Proof.
  intros Hf Ht. pose proof (pk_code_range k) as Hk.
  unfold promotion. rewrite create_promotion_value by done.
  rewrite Z.shiftr_div_pow2 by lia.
  change 7 with (Z.ones 3). rewrite Z.land_ones by lia.
  change (2 ^ 12) with 4096. change (2 ^ 3) with 8.
  replace ((pk_code k * 4096 + t * 64 + f) / 4096 mod 8) with (pk_code k)
    by (Z.to_euclidean_division_equations; lia).
  apply pk_of_code_code.
Qed.

Lemma castling_create_promotion f t k :
  0 <= f < 64 -> 0 <= t < 64 ->
  castling (create_promotion f t k) = NO_CASTLING.
Proof.
  intros Hf Ht. pose proof (pk_code_range k) as Hk.
  unfold castling. cbn zeta. rewrite create_promotion_value by done.
  rewrite Z.shiftr_div_pow2 by lia.
  change 3 with (Z.ones 2). rewrite Z.land_ones by lia.
  change (2 ^ 15) with 32768. change (2 ^ 2) with 4.
  replace ((pk_code k * 4096 + t * 64 + f) / 32768 mod 4) with 0
    by (Z.to_euclidean_division_equations; lia).
  reflexivity.
Qed.

(** ** Equality of positions *)

Lemma all_squares_spec sq : In sq all_squares <-> 0 <= sq < 64.
Proof.
  unfold all_squares. rewrite in_map_iff. split.
  - intros (n & <- & Hn). apply in_seq in Hn. lia.
  - intros H. exists (Z.to_nat sq). split; [lia|]. apply in_seq. lia.
Qed.

Lemma Position_eq_spec P Q : Position_eq P Q = true <-> same_compared P Q.
Proof.
  unfold Position_eq, same_compared.
  destruct (Z.eqb_spec (get_key (_zobrist_hash P)) (get_key (_zobrist_hash Q)));
    cbn [negb]; [|split; [discriminate|tauto]].
  destruct (bool_decide_reflect (_current_side P = _current_side Q));
    cbn [negb]; [|split; [discriminate|tauto]].
  destruct (Z.eqb_spec (_castling_rights P) (_castling_rights Q));
    cbn [negb]; [|split; [discriminate|tauto]].
  destruct (Z.eqb_spec (_enpassant_square P) (_enpassant_square Q));
    cbn [negb]; [|split; [discriminate|tauto]].
  rewrite forallb_forall. split.
  - intros H. repeat split; try assumption. intros sq Hsq.
    apply all_squares_spec in Hsq. apply H in Hsq.
    by apply bool_decide_eq_true in Hsq.
  - intros (_ & _ & _ & _ & H) sq Hsq. apply bool_decide_eq_true.
    apply H. by apply all_squares_spec.
Qed.

(** C10. [operator==] holds exactly when the composed key, the side to move,
    the castling rights, the en-passant square and the 64 board cells agree;
    so changing the half-move counter, the ply counter and the history of a
    position gives a position that compares equal to it. *)
Theorem Position_eq_ignores_counters :
  (forall P Q, Position_eq P Q = true <-> same_compared P Q)
  /\ (forall P hm ply h n,
        Position_eq P
          (set_history (set_ply_counter (set_half_move_counter P hm) ply) h n)
        = true).
Proof.
  split; [apply Position_eq_spec|].
  intros P hm ply h n. apply Position_eq_spec. by repeat split.
Qed.

(** ** What [do_move] and [undo_move] do to the other fields *)

Section Scalars.
Context {T : ZobristTable}.

Lemma same_stable_refl X : same_stable X X.
Proof. by repeat split. Qed.

Lemma same_stable_trans X Y Z :
  same_stable X Y -> same_stable Y Z -> same_stable X Z.
Proof. unfold same_stable. intuition congruence. Qed.

Lemma same_scalars_refl X : same_scalars X X.
Proof. by repeat split. Qed.

Lemma same_scalars_trans X Y Z :
  same_scalars X Y -> same_scalars Y Z -> same_scalars X Z.
Proof. unfold same_scalars, same_stable. intuition congruence. Qed.

Lemma same_scalars_stable X Y : same_scalars X Y -> same_stable X Y.
Proof. by intros [H _]. Qed.

Ltac piece_frame :=
  unfold same_scalars, same_stable; frame;
  rewrite ?zob_add_piece, ?zob_remove_piece, ?zob_move_piece;
  unfold hash_move_piece, toggle_piece; repeat case_decide;
  repeat split; reflexivity.

Lemma same_scalars_add_piece X pc sq : same_scalars (add_piece X pc sq) X.
Proof. piece_frame. Qed.

Lemma same_scalars_remove_piece X sq : same_scalars (remove_piece X sq) X.
Proof. piece_frame. Qed.

Lemma same_scalars_move_piece X a b : same_scalars (move_piece X a b) X.
Proof. piece_frame. Qed.

Ltac through_pieces :=
  repeat match goal with
  | |- same_scalars ?X ?X => apply same_scalars_refl
  | |- same_scalars (add_piece _ _ _) _ =>
      eapply same_scalars_trans; [apply same_scalars_add_piece|]
  | |- same_scalars (remove_piece _ _) _ =>
      eapply same_scalars_trans; [apply same_scalars_remove_piece|]
  | |- same_scalars (move_piece _ _ _) _ =>
      eapply same_scalars_trans; [apply same_scalars_move_piece|]
  end.

Lemma same_scalars_unshift_pieces Y side m info :
  same_scalars (unshift_pieces Y side m info) Y.
Proof. unfold unshift_pieces. repeat case_match; through_pieces. Qed.

Lemma same_stable_update_rights X side mp cp m :
  same_stable (update_rights X side mp cp m) X.
Proof. unfold same_stable, update_rights. by frame. Qed.

Lemma same_stable_shift_pieces X side m mp cp :
  same_stable (shift_pieces X side m mp cp).1 X.
Proof.
  unfold shift_pieces. repeat case_match; cbn [fst];
    try (eapply same_stable_trans; [apply same_stable_update_rights|]);
    apply same_scalars_stable; through_pieces.
Qed.

Lemma same_stable_mark_enpassant X side m mp :
  same_stable (mark_enpassant X side m mp) X.
Proof. unfold mark_enpassant. case_match; by repeat split. Qed.

Lemma same_stable_tick_half_move X mp cp :
  same_stable (tick_half_move X mp cp) X.
Proof. unfold tick_half_move. case_match; by repeat split. Qed.

Lemma same_stable_do_castling X side m : same_stable (do_castling X side m) X.
Proof.
  unfold do_castling. cbn zeta.
  apply same_stable_trans with
    (if castling m =? KING_CASTLING
     then move_piece
            (move_piece (set_half_move_counter X 0)
               (make_square (home_rank side) FILE_E)
               (make_square (home_rank side) FILE_G))
            (make_square (home_rank side) FILE_H)
            (make_square (home_rank side) FILE_F)
     else move_piece
            (move_piece (set_half_move_counter X 0)
               (make_square (home_rank side) FILE_E)
               (make_square (home_rank side) FILE_C))
            (make_square (home_rank side) FILE_A)
            (make_square (home_rank side) FILE_D)); [by repeat split|].
  apply same_stable_trans with (set_half_move_counter X 0);
    [|by repeat split].
  apply same_scalars_stable. case_match; through_pieces.
Qed.
End Scalars.

(** ** The half-move clock and the history count under [do_move] *)

Section Counters.
Context {T : ZobristTable}.

Lemma hm_update_rights P side mp cp m :
  _half_move_counter (update_rights P side mp cp m) = _half_move_counter P.
Proof. unfold update_rights. by frame. Qed.

Lemma hcount_update_rights P side mp cp m :
  _history_counter (update_rights P side mp cp m) = _history_counter P.
Proof. unfold update_rights. by frame. Qed.

Lemma hm_shift_pieces P side m mp cp :
  _half_move_counter (shift_pieces P side m mp cp).1 = _half_move_counter P.
Proof.
  unfold shift_pieces.
  repeat case_match; cbn [fst]; rewrite ?hm_update_rights; by frame.
Qed.

Lemma hcount_shift_pieces P side m mp cp :
  _history_counter (shift_pieces P side m mp cp).1 = _history_counter P.
Proof.
  unfold shift_pieces.
  repeat case_match; cbn [fst]; rewrite ?hcount_update_rights; by frame.
Qed.

Lemma hm_mark_enpassant P side m mp :
  _half_move_counter (mark_enpassant P side m mp) = _half_move_counter P.
Proof. unfold mark_enpassant. by repeat case_match. Qed.

Lemma hcount_mark_enpassant P side m mp :
  _history_counter (mark_enpassant P side m mp) = _history_counter P.
Proof. unfold mark_enpassant. by repeat case_match. Qed.

Lemma hm_do_ordinary P side m :
  _half_move_counter (do_ordinary P side m).1.1 =
    if bool_decide (get_piece_kind (piece_at P (from m)) <> PAWN)
       && bool_decide (make_piece_kind (piece_at P (to m)) = NO_PIECE_KIND)
    then u8 (_half_move_counter P + 1) else 0.
Proof.
  unfold do_ordinary, piece_at.
  destruct (shift_pieces _ _ _ _ _) as [P' e] eqn:E. cbn [fst].
  rewrite hm_mark_enpassant.
  change P' with (P', e).1. rewrite <- E, hm_shift_pieces.
  unfold tick_half_move. by case_match.
Qed.

Lemma hcount_do_ordinary P side m :
  _history_counter (do_ordinary P side m).1.1 = _history_counter P.
Proof.
  unfold do_ordinary.
  destruct (shift_pieces _ _ _ _ _) as [P' e] eqn:E. cbn [fst].
  rewrite hcount_mark_enpassant.
  change P' with (P', e).1. rewrite <- E, hcount_shift_pieces.
  unfold tick_half_move. by case_match.
Qed.

Lemma hm_do_castling P side m : _half_move_counter (do_castling P side m) = 0.
Proof. unfold do_castling. case_match; by frame. Qed.

Lemma hcount_do_castling P side m :
  _history_counter (do_castling P side m) = _history_counter P.
Proof. unfold do_castling. case_match; by frame. Qed.

(** C5 (as amended). [do_move] raises the history count by one. It sets the
    half-move counter to 0 when the move is a castling move, a pawn move or
    a capture, and otherwise adds one to it (in eight bits). *)
Theorem do_move_counters P m :
  _history_counter (do_move P m).1 = _history_counter P + 1
  /\ _half_move_counter (do_move P m).1 =
       if negb (castling m =? NO_CASTLING) then 0
       else if is_pawn_move P m || move_is_capture P m then 0
       else u8 (_half_move_counter P + 1).
Proof.
  unfold do_move.
  destruct (negb (castling m =? NO_CASTLING)) eqn:Hc.
  - cbn [fst]. frame. by rewrite hm_do_castling, hcount_do_castling.
  - match goal with |- context [do_ordinary ?Q ?s m] =>
      pose proof (hm_do_ordinary Q s m) as Hhm;
      pose proof (hcount_do_ordinary Q s m) as Hhc;
      destruct (do_ordinary Q s m) as [[P' cap] e]
    end.
    cbn [fst] in Hhm, Hhc |- *. frame. rewrite Hhm, Hhc.
    autorewrite with frame. split; [done|].
    unfold is_pawn_move, move_is_capture, piece_at, enpassant_square.
    apply negb_false_iff in Hc. rewrite Hc. cbn [andb].
    unfold get_piece_kind.
    destruct (bool_decide_reflect
                (make_piece_kind (_board P !!! Z.to_nat (from m)) = PAWN))
      as [Hp|Hp].
    + rewrite bool_decide_eq_false_2 by tauto. reflexivity.
    + rewrite bool_decide_eq_true_2 by assumption. cbn [andb orb].
      destruct (_board P !!! Z.to_nat (to m)); reflexivity.
Qed.
End Counters.

(** C5, the case the claim gets wrong: a castling move is neither a pawn move
    nor a capture, and [do_move] resets the half-move counter on it. *)
Lemma castling_resets_half_move_counter :
  castling KING_CASTLING_MOVE <> NO_CASTLING
  /\ is_pawn_move castling_position KING_CASTLING_MOVE = false
  /\ move_is_capture castling_position KING_CASTLING_MOVE = false
  /\ _half_move_counter castling_position = 3
  /\ _half_move_counter
       (do_move (T := example_table) castling_position KING_CASTLING_MOVE).1
     <> _half_move_counter castling_position + 1.
Proof. vm_compute. repeat split; discriminate. Qed.

(** ** Castling rights under [do_move] *)

Lemma has_right_land r mask R :
  has_right (Z.land r (castling_not mask)) (right_flag R)
  = has_right r (right_flag R) && negb (has_right mask (right_flag R)).
Proof.
  assert (Hbit : forall x i, 0 <= i ->
            has_right x (2 ^ i) = Z.testbit x i).
  { intros x i Hi. unfold has_right.
    destruct (Z.testbit x i) eqn:Hx.
    - destruct (Z.eqb_spec (Z.land x (2 ^ i)) 0) as [E|]; [|done].
      exfalso. apply (f_equal (fun z => Z.testbit z i)) in E.
      rewrite Z.land_spec, Hx, Z.pow2_bits_true, Z.bits_0 in E by done.
      discriminate.
    - destruct (Z.eqb_spec (Z.land x (2 ^ i)) 0) as [|N]; [done|].
      exfalso. apply N. apply Z.bits_inj'. intros n Hn.
      rewrite Z.land_spec, Z.bits_0, Z.pow2_bits_eqb by done.
      destruct (Z.eqb_spec i n) as [->|]; [by rewrite Hx|].
      apply andb_false_r. }
  assert (HR : exists i, 0 <= i < 4 /\ right_flag R = 2 ^ i).
  { destruct R; [exists 0|exists 1|exists 2|exists 3]; by split. }
  destruct HR as (i & Hi & ->).
  rewrite !Hbit by lia. unfold castling_not.
  rewrite Z.land_spec, Z.lxor_spec.
  replace (Z.testbit 15 i) with true; [by rewrite xorb_true_r|].
  assert (i = 0 \/ i = 1 \/ i = 2 \/ i = 3) as [->|[->|[->| ->]]] by lia;
    reflexivity.
Qed.

Lemma bool_decide_kind_piece p c k :
  k = KING \/ k = ROOK ->
  p = NO_PIECE \/ get_color p = c ->
  bool_decide (make_piece_kind p = k) = bool_decide (p = make_piece c k).
Proof.
  intros Hk Hp.
  destruct (bool_decide_reflect (p = make_piece c k)) as [->|N].
  - apply bool_decide_eq_true. destruct Hk as [-> | ->], c; reflexivity.
  - apply bool_decide_eq_false. intros E. apply N.
    destruct Hp as [-> | <-]; [by destruct Hk as [-> | ->]|].
    destruct p; cbn in E; subst k; try reflexivity;
      destruct Hk; discriminate.
Qed.

Section Rights.
Context {T : ZobristTable}.

Lemma holds_clear_rights_if b P mask R :
  holds (clear_rights_if b P mask) R
  = holds P R && negb (b && has_right mask (right_flag R)).
Proof.
  unfold holds. destruct b; cbn [andb negb clear_rights_if].
  - unfold clear_rights. frame. apply has_right_land.
  - by rewrite andb_true_r.
Qed.

Lemma rights_update_rights P side mp cp m R :
  holds (update_rights P side mp cp m) R
  = holds P R
    && negb (bool_decide (get_piece_kind mp = KING)
             && has_right (CASTLING_RIGHTS side) (right_flag R))
    && negb (bool_decide (get_piece_kind mp = ROOK)
             && (from m =? KING_SIDE_ROOK_SQUARE side)
             && has_right (Z.land (CASTLING_RIGHTS side) KING_CASTLING)
                  (right_flag R))
    && negb (bool_decide (get_piece_kind mp = ROOK)
             && (from m =? QUEEN_SIDE_ROOK_SQUARE side)
             && has_right (Z.land (CASTLING_RIGHTS side) QUEEN_CASTLING)
                  (right_flag R))
    && negb (bool_decide (make_piece_kind cp = ROOK)
             && (to m =? KING_SIDE_ROOK_SQUARE (opp side))
             && has_right (Z.land (CASTLING_RIGHTS (opp side)) KING_CASTLING)
                  (right_flag R))
    && negb (bool_decide (make_piece_kind cp = ROOK)
             && (to m =? QUEEN_SIDE_ROOK_SQUARE (opp side))
             && has_right (Z.land (CASTLING_RIGHTS (opp side)) QUEEN_CASTLING)
                  (right_flag R)).
Proof.
  unfold update_rights.
  unfold holds at 1. frame. fold (holds
    (clear_rights_if
       (bool_decide (make_piece_kind cp = ROOK)
        && (to m =? QUEEN_SIDE_ROOK_SQUARE (opp side)))
       (clear_rights_if
          (bool_decide (make_piece_kind cp = ROOK)
           && (to m =? KING_SIDE_ROOK_SQUARE (opp side)))
          (clear_rights_if
             (bool_decide (get_piece_kind mp = ROOK)
              && (from m =? QUEEN_SIDE_ROOK_SQUARE side))
             (clear_rights_if
                (bool_decide (get_piece_kind mp = ROOK)
                 && (from m =? KING_SIDE_ROOK_SQUARE side))
                (clear_rights_if (bool_decide (get_piece_kind mp = KING)) P
                   (CASTLING_RIGHTS side))
                (Z.land (CASTLING_RIGHTS side) KING_CASTLING))
             (Z.land (CASTLING_RIGHTS side) QUEEN_CASTLING))
          (Z.land (CASTLING_RIGHTS (opp side)) KING_CASTLING))
       (Z.land (CASTLING_RIGHTS (opp side)) QUEEN_CASTLING)) R).
  by rewrite !holds_clear_rights_if.
Qed.
End Rights.

Section RightsMove.
Context {T : ZobristTable}.

Lemma rights_mark_enpassant P side m mp :
  _castling_rights (mark_enpassant P side m mp) = _castling_rights P.
Proof. unfold mark_enpassant. by case_match; frame. Qed.

Lemma rights_tick_half_move P mp cp :
  _castling_rights (tick_half_move P mp cp) = _castling_rights P.
Proof. unfold tick_half_move. by case_match. Qed.

Lemma ep_tick_half_move P mp cp :
  _enpassant_square (tick_half_move P mp cp) = _enpassant_square P.
Proof. unfold tick_half_move. by case_match. Qed.

Lemma holds_do_castling P side m R :
  holds (do_castling P side m) R
  = holds P R && negb (has_right (CASTLING_RIGHTS side) (right_flag R)).
Proof.
  unfold holds, do_castling. case_match; frame; apply has_right_land.
Qed.

Lemma holds_ext (Q Q' : Position) R :
  _castling_rights Q = _castling_rights Q' -> holds Q R = holds Q' R.
Proof. intros H. unfold holds. by rewrite H. Qed.

Lemma holds_do_ordinary P side m R :
  holds (do_ordinary P side m).1.1 R
  = let mp := piece_at P (from m) in
    let cp := piece_at P (to m) in
    if bool_decide (get_piece_kind mp = PAWN) && (to m =? _enpassant_square P)
    then holds P R
    else holds (update_rights P side mp cp m) R.
Proof.
  unfold do_ordinary, piece_at. cbn zeta.
  destruct (shift_pieces _ _ _ _ _) as [P' e] eqn:E. cbn [fst].
  rewrite (holds_ext _ P' R (rights_mark_enpassant _ _ _ _)).
  unfold shift_pieces in E. rewrite ep_tick_half_move in E.
  destruct (bool_decide _ && (to m =? _enpassant_square P)).
  - injection E as <- <-. apply holds_ext. frame.
    apply rights_tick_half_move.
  - injection E as <- <-.
    rewrite !rights_update_rights.
    f_equal. f_equal. f_equal. f_equal. f_equal. apply holds_ext.
    repeat case_match; frame; by rewrite rights_tick_half_move.
Qed.

(** C4. For a move of a piece of the side to move, in a position whose
    en-passant square is none or on the third or sixth rank and in which a
    side holding a right has its king at home: after [do_move] a right is held
    exactly when it was held before and the move is none of those that clear
    it (the king or the right's rook leaving its home square, castling
    included, or the opponent's rook of the right being captured at home). *)
Theorem do_move_castling_rights P m R :
  enpassant_square_ok (_enpassant_square P) = true ->
  kings_at_home P = true ->
  (castling m = NO_CASTLING -> moves_own_piece P m = true) ->
  holds (do_move P m).1 R = holds P R && negb (clears P m R).
Proof.
  intros Hep Hkings Hown.
  assert (Hfrom : 0 <= from m < 64).
  { unfold from. change 63 with (Z.ones 6). rewrite Z.land_ones by lia.
    apply Z.mod_pos_bound. lia. }
  assert (Hto : 0 <= to m < 64).
  { unfold to. change 63 with (Z.ones 6). rewrite Z.land_ones by lia.
    apply Z.mod_pos_bound. lia. }
  unfold do_move, clears, color.
  destruct (Z.eqb_spec (castling m) NO_CASTLING) as [Hc|Hc]; cbn [negb].
  2:{ cbn [fst].
      rewrite (holds_ext _ _ R (rights_push_history _)).
      rewrite holds_do_castling. unfold holds. frame.
      f_equal. f_equal. by destruct (_current_side P), R. }
  specialize (Hown Hc).
  match goal with |- context [do_ordinary ?Q ?s m] =>
    pose proof (holds_do_ordinary Q s m R) as Hh;
    destruct (do_ordinary Q s m) as [[P' cap] e]
  end.
  cbn [fst] in Hh |- *.
  rewrite (holds_ext _ _ R (rights_push_history _)).
  rewrite Hh. clear Hh. cbn zeta.
  rewrite (holds_ext (zobrist_clear_enpassant _) P R) by (by frame).
  unfold piece_at. frame. fold (piece_at P (from m)) (piece_at P (to m)).
  unfold moves_own_piece, color in Hown.
  apply andb_prop in Hown as [Hown Hcap].
  apply andb_prop in Hown as [Hne Hcol].
  apply bool_decide_eq_true in Hne, Hcol.
  assert (Hcap' : piece_at P (to m) = NO_PIECE
                  \/ get_color (piece_at P (to m)) = opp (_current_side P)).
  { apply orb_prop in Hcap as [H|H]; apply bool_decide_eq_true in H; tauto. }
  clear Hcap.
  set (side := _current_side P) in *.
  set (mp := piece_at P (from m)) in *.
  set (cp := piece_at P (to m)) in *.
  destruct (bool_decide (get_piece_kind mp = PAWN)
            && (to m =? _enpassant_square P)) eqn:Hpawn.
  - (* a pawn stepping onto the en-passant square clears nothing *)
    apply andb_prop in Hpawn as [Hk Ht].
    apply bool_decide_eq_true in Hk. apply Z.eqb_eq in Ht.
    assert (Hrank : rank (to m) = 2 \/ rank (to m) = 5).
    { rewrite Ht. unfold enpassant_square_ok in Hep.
      rewrite <- Ht in Hep.
      destruct (Z.eqb_spec (to m) NO_SQUARE) as [E|_];
        [unfold NO_SQUARE in E; lia|].
      cbn [orb] in Hep. rewrite <- Ht.
      apply orb_prop in Hep as [H|H]; apply Z.eqb_eq in H;
        [left|right]; exact H. }
    replace (negb _) with true; [by rewrite andb_true_r|].
    symmetry. apply negb_true_iff, orb_false_iff. split.
    + apply andb_false_iff. right. apply orb_false_iff.
      split; apply andb_false_iff; left; apply bool_decide_eq_false;
        intros E; rewrite E in Hk; destruct side; discriminate.
    + apply andb_false_iff. right.
      apply Z.eqb_neq. intros E. unfold rank in Hrank. rewrite E in Hrank.
      destruct R; vm_compute in Hrank; lia.
  - rewrite rights_update_rights.
    rewrite (holds_ext (zobrist_clear_enpassant _) P R) by (by frame).
    unfold get_piece_kind.
    rewrite (bool_decide_kind_piece mp side KING) by tauto.
    rewrite (bool_decide_kind_piece mp side ROOK) by tauto.
    rewrite (bool_decide_kind_piece cp (opp side) ROOK) by tauto.
    destruct (holds P R) eqn:Hheld; [|reflexivity]. cbn [andb].
    (* with the right held, a king of its colour stands at home *)
    assert (Hking : right_color R = side -> mp = make_piece side KING ->
                    from m = king_home side).
    { intros HR Hmp. unfold kings_at_home in Hkings.
      rewrite forallb_forall in Hkings.
      assert (HinR : In R [R_W_OO; R_W_OOO; R_B_OO; R_B_OOO])
        by (destruct R; cbn; tauto).
      apply Hkings in HinR. rewrite Hheld in HinR. cbn [negb orb] in HinR.
      rewrite forallb_forall in HinR.
      specialize (HinR (from m) (proj2 (all_squares_spec _) Hfrom)).
      fold mp in HinR. rewrite HR, Hmp in HinR.
      rewrite bool_decide_eq_true_2 in HinR by done.
      by apply Z.eqb_eq in HinR. }
    destruct (bool_decide_reflect (mp = make_piece side KING)) as [Hmk|Hmk].
    + destruct (decide (right_color R = side)) as [HR|HR].
      * rewrite (Hking HR Hmk), Z.eqb_refl.
        rewrite (bool_decide_eq_true_2 _ HR). cbn [andb orb negb].
        replace (has_right (CASTLING_RIGHTS side) (right_flag R)) with true
          by (by destruct side, R). reflexivity.
      * rewrite (bool_decide_eq_false_2 _ HR). cbn [andb orb negb].
        replace (has_right (CASTLING_RIGHTS side) (right_flag R)) with false
          by (by destruct side, R).
        rewrite Hmk.
        replace (bool_decide (make_piece side KING = make_piece side ROOK))
          with false by (by destruct side).
        cbn [andb negb].
        destruct (bool_decide (cp = make_piece (opp side) ROOK));
          cbn [andb negb]; [|by destruct side, R].
        destruct side, R; try done; cbv -[Z.eqb to from];
          repeat (match goal with
                  | |- context [?a =? ?b] => destruct (Z.eqb_spec a b)
                  end; cbn [andb negb orb]); try reflexivity; try lia.
    + cbn [andb negb].
      destruct (bool_decide (mp = make_piece side ROOK));
      destruct (bool_decide (cp = make_piece (opp side) ROOK));
      cbn [andb negb orb]; destruct side, R; cbv -[Z.eqb to from];
        repeat (match goal with
                | |- context [?a =? ?b] => destruct (Z.eqb_spec a b)
                end; cbn [andb negb orb]); try reflexivity; try lia.
Qed.
End RightsMove.

(** C4 at the position of section 8, scenario 5: after the rook move a1a2
    White's queen-side right is gone and the other three rights are kept. *)
Lemma do_move_castling_rights_a1a2 :
  (enpassant_square_ok (_enpassant_square rooks_and_kings) = true
   /\ kings_at_home rooks_and_kings = true
   /\ moves_own_piece rooks_and_kings (uci_move "a1a2") = true)
  /\ holds (do_move (T := example_table) rooks_and_kings
              (uci_move "a1a2")).1 R_W_OOO = false
  /\ holds (do_move (T := example_table) rooks_and_kings
              (uci_move "a1a2")).1 R_W_OO = true
  /\ holds (do_move (T := example_table) rooks_and_kings
              (uci_move "a1a2")).1 R_B_OO = true
  /\ holds (do_move (T := example_table) rooks_and_kings
              (uci_move "a1a2")).1 R_B_OOO = true.
Proof.
  split; [by vm_compute|].
  assert (H : forall R,
            holds (do_move (T := example_table) rooks_and_kings
                     (uci_move "a1a2")).1 R
            = holds rooks_and_kings R
              && negb (clears rooks_and_kings (uci_move "a1a2") R))
    by (intros R; apply do_move_castling_rights; by vm_compute).
  rewrite !H. by vm_compute.
Defined.

(** ** Draw detection *)

Lemma occurrences_S h key n :
  occurrences h key (S n)
  = occurrences h key n + (if h !!! n =? key then 1 else 0).
Proof.
  unfold occurrences. rewrite seq_S, filter_app, length_app. cbn [Nat.add].
  rewrite filter_cons, filter_nil.
  destruct (Z.eqb_spec (h !!! n) key) as [E|E].
  - rewrite decide_True by done. cbn [length]. lia.
  - rewrite decide_False by done. cbn [length]. lia.
Qed.

Lemma occurrences_nonneg h key n : 0 <= occurrences h key n.
Proof. unfold occurrences. lia. Qed.

Lemma threefold_loop_spec h key n count :
  count < 3 ->
  threefold_loop h key n count = (3 <=? count + occurrences h key n).
Proof.
  revert count. induction n as [|n IH]; intros count Hc.
  - cbn. symmetry. apply Z.leb_gt. unfold occurrences. cbn. lia.
  - cbn [threefold_loop]. rewrite occurrences_S.
    pose proof (occurrences_nonneg h key n).
    destruct (Z.eqb_spec (h !!! n) key) as [E|E].
    + destruct (Z.eqb_spec (count + 1) 3) as [E3|E3].
      * symmetry. apply Z.leb_le. lia.
      * rewrite IH by lia. f_equal. lia.
    + rewrite IH by lia. f_equal. lia.
Qed.

Lemma threefold_repetition_spec P :
  threefold_repetition P
  = (2 <=? occurrences (_history P) (hash P)
             (Z.to_nat (_history_counter P - 1))).
Proof.
  unfold threefold_repetition. rewrite threefold_loop_spec by lia.
  unfold hash.
  destruct (Z.leb_spec 3 (1 + occurrences (_history P)
     (get_key (_zobrist_hash P)) (Z.to_nat (_history_counter P - 1))));
  symmetry; [apply Z.leb_le|apply Z.leb_gt]; lia.
Qed.

Lemma enough_material_spec P :
  enough_material P = false <-> bare_or_one_minor P.
Proof.
  unfold enough_material, bare_or_one_minor. rewrite negb_false_iff.
  rewrite existsb_exists. unfold pcv_eqb, get_pcv, create_pcv. cbn zeta.
  split.
  - intros (x & Hin & Hx). apply bool_decide_eq_true in Hx.
    unfold notEnoughMaterialPCV, create_pcv in Hin. cbn [In] in Hin.
    destruct Hin as [<-|[<-|[<-|[<-|[<-|[]]]]]]; injection Hx;
      intros; repeat split; try assumption; tauto.
  - intros (H1 & H2 & H3 & H4 & H5 & H6 & H).
    rewrite H1, H2, H3, H4, H5, H6.
    unfold notEnoughMaterialPCV, create_pcv.
    destruct H as [(-> & -> & -> & ->)|[(-> & -> & -> & ->)|[(-> & -> & -> & ->)
                  |[(-> & -> & -> & ->)|(-> & -> & -> & ->)]]]];
      eexists; (split; [|apply bool_decide_eq_true; reflexivity]);
      cbn [In]; tauto.
Qed.

(** C6. [is_draw] holds exactly when the half-move counter is at least 100,
    or the current key stands in at least two of the history cells before the
    last one, or the material is insufficient; and [enough_material] fails
    exactly on bare kings and on one knight or one bishop against a bare
    king, on either side. *)
Theorem is_draw_spec P :
  (is_draw P = true <->
     100 <= _half_move_counter P
     \/ 2 <= occurrences (_history P) (hash P)
               (Z.to_nat (_history_counter P - 1))
     \/ enough_material P = false)
  /\ (enough_material P = false <-> bare_or_one_minor P).
Proof.
  split; [|apply enough_material_spec].
  unfold is_draw, rule50. rewrite threefold_repetition_spec.
  rewrite !orb_true_iff, !Z.leb_le, negb_true_iff. tauto.
Qed.

(** ** The beta cutoff of the search *)

Section Cutoff.
Context {T : ZobristTable}.
Variable search_rec :
  Position -> SearchInfo -> Z -> Z -> Z -> Z * MoveList * Position * SearchInfo.


End Cutoff.



(** ** The move-string parsers *)

Lemma san_scan_acc (test : Move -> bool) (moves : list Move) (acc : Move * Z) :
  fold_left (fun acc move => if test move then (move, snd acc + 1) else acc)
    moves acc
  = (match last (List.filter test moves) with
     | Some m => m | None => fst acc
     end,
     snd acc + Z.of_nat (length (List.filter test moves))).
Proof.
  revert acc. induction moves as [|m moves IH]; intros [a n].
  - cbn. f_equal. lia.
  - cbn [fold_left List.filter]. destruct (test m) eqn:Hm.
    + rewrite IH. cbn [fst snd length]. f_equal.
      * rewrite last_cons. by destruct (last (List.filter test moves)).
      * lia.
    + by rewrite IH.
Qed.

Lemma san_scan_spec (test : Move -> bool) (moves : list Move) :
  san_scan test moves
  = (match last (List.filter test moves) with
     | Some m => m | None => NO_MOVE
     end,
     Z.of_nat (length (List.filter test moves))).
Proof. unfold san_scan. by rewrite san_scan_acc. Qed.

Lemma last_In {A} (l : list A) x : last l = Some x -> In x l.
Proof.
  intros H. apply last_Some in H as (l' & ->). apply in_or_app. right.
  by left.
Qed.

Lemma is_member_In m moves : is_member m moves = true <-> In m moves.
Proof.
  unfold is_member. rewrite existsb_exists. split.
  - intros (x & Hin & Hx). apply Z.eqb_eq in Hx. by subst.
  - intros Hin. exists m. split; [done|apply Z.eqb_refl].
Qed.

Lemma ascii_list_eqb_eq a b : ascii_list_eqb a b = true <-> a = b.
Proof.
  revert b. induction a as [|x a IH]; intros [|y b]; cbn; try done.
  rewrite andb_true_iff, IH, Ascii.eqb_eq. split.
  - by intros [-> ->].
  - intros E. by injection E.
Qed.

Lemma opt_item_spec cls s w r :
  (w, r) ∈ opt_item cls s <-> s = w ++ r /\ opt_of cls w.
Proof.
  unfold opt_item, opt_of. destruct s as [|c s].
  - rewrite list_elem_of_singleton. split.
    + intros E. injection E as -> ->. by split; [|left].
    + intros [E _]. symmetry in E. apply app_eq_nil in E as [-> ->]. done.
  - destruct (cls c) eqn:Hc.
    + rewrite elem_of_cons, list_elem_of_singleton. split.
      * intros [E|E]; injection E as -> ->; (split; [done|]).
        -- right. by exists c.
        -- by left.
      * intros [E [->|(c' & -> & Hc')]]; cbn in E.
        -- right. by rewrite E.
        -- left. by injection E as -> ->.
    + rewrite list_elem_of_singleton. split.
      * intros E. injection E as -> ->. by split; [|left].
      * intros [E [->|(c' & -> & Hc')]]; cbn in E.
        -- by rewrite E.
        -- injection E as -> ->. congruence.
Qed.

Lemma san_matches_spec str g : g ∈ san_matches str <-> san_text str g.
Proof.
  unfold san_matches, san_text. split.
  - intros H.
    apply list_elem_of_bind in H as ([g1 s1] & H & H1).
    apply opt_item_spec in H1 as [E1 O1].
    apply list_elem_of_bind in H as ([g2 s2] & H & H2).
    apply opt_item_spec in H2 as [E2 O2].
    apply list_elem_of_bind in H as ([g3 s3] & H & H3).
    apply opt_item_spec in H3 as [E3 O3].
    apply list_elem_of_bind in H as ([x s4] & H & H4).
    apply opt_item_spec in H4 as [E4 O4].
    destruct s4 as [|f [|r s5]]; [by apply elem_of_nil in H..|].
    destruct (is_char "abcdefgh" f) eqn:Hf; [|by apply elem_of_nil in H].
    destruct (is_char "12345678" r) eqn:Hr; [|by apply elem_of_nil in H].
    cbn [andb] in H.
    apply list_elem_of_bind in H as ([e s6] & H & H6).
    apply opt_item_spec in H6 as [E6 O6].
    apply list_elem_of_bind in H as ([g5 s7] & H & H7).
    apply opt_item_spec in H7 as [E7 O7].
    apply list_elem_of_bind in H as ([s s8] & H & H8).
    apply opt_item_spec in H8 as [E8 O8].
    destruct s8; [|by apply elem_of_nil in H].
    apply list_elem_of_singleton in H. subst g. cbn.
    exists x, e, s, f, r. subst. rewrite app_nil_r. done.
  - intros (x & e & s & f & r & E & O1 & O2 & O3 & O4 & Et & Hf & Hr
            & O6 & O7 & O8).
    destruct g as [g1 g2 g3 g4 g5]. cbn in *. subst g4.
    apply list_elem_of_bind. eexists (g1, _). split;
      [|apply opt_item_spec; split; [exact E|exact O1]].
    apply list_elem_of_bind. eexists (g2, _). split;
      [|apply opt_item_spec; split; [reflexivity|exact O2]].
    apply list_elem_of_bind. eexists (g3, _). split;
      [|apply opt_item_spec; split; [reflexivity|exact O3]].
    apply list_elem_of_bind. eexists (x, _). split;
      [|apply opt_item_spec; split; [reflexivity|exact O4]].
    cbn [app]. rewrite Hf, Hr. cbn [andb].
    apply list_elem_of_bind. eexists (e, _). split;
      [|apply opt_item_spec; split; [reflexivity|exact O6]].
    apply list_elem_of_bind. eexists (g5, _). split;
      [|apply opt_item_spec; split; [reflexivity|exact O7]].
    apply list_elem_of_bind. eexists (s, []). split;
      [|apply opt_item_spec; split; [by rewrite app_nil_r|exact O8]].
    apply list_elem_of_singleton. done.
Qed.

Lemma san_regex_match_some str g :
  san_regex_match str = Some g -> san_text str g.
Proof.
  unfold san_regex_match. intros H. apply san_matches_spec.
  destruct (san_matches str) as [|g' l]; [done|].
  injection H as ->. by left.
Qed.

Lemma san_regex_match_none str :
  san_regex_match str = None <-> forall g, ~ san_text str g.
Proof.
  unfold san_regex_match. split.
  - intros H g Hg. apply san_matches_spec in Hg.
    destruct (san_matches str); [by apply elem_of_nil in Hg|done].
  - intros H. destruct (san_matches str) as [|g l] eqn:E; [done|].
    exfalso. apply (H g), san_matches_spec. rewrite E. by left.
Qed.

Lemma san_test_fits P g m : san_test P g m = true <-> san_fits P g m.
Proof.
  unfold san_test, san_move_matches, san_fits.
  rewrite !andb_true_iff, bool_decide_eq_true, Z.eqb_eq.
  split.
  - intros ((((H1 & H2) & H3) & H4) & H5). split; [done|].
    split; [|split; [|split; [done|]]].
    + intros c rest E. rewrite E in H2. cbn in H2. by apply Z.eqb_eq.
    + intros c rest E. rewrite E in H3. cbn in H3. by apply Z.eqb_eq.
    + intros Hn. destruct (g_promotion g); [done|].
      cbn in H5. by apply bool_decide_eq_true in H5.
  - intros (H1 & H2 & H3 & H4 & H5). repeat split; try done.
    + destruct (g_file g) as [|c rest]; [done|].
      cbn. apply Z.eqb_eq. by apply (H2 c rest).
    + destruct (g_rank g) as [|c rest]; [done|].
      cbn. apply Z.eqb_eq. by apply (H3 c rest).
    + destruct (g_promotion g) as [|c rest] eqn:E; [done|].
      cbn. apply bool_decide_eq_true. by apply H5.
Qed.

Section Parsers.
Variable generate_moves : Position -> Color -> list Move.

Lemma parse_san_king_side P str :
  str = list_ascii_of_string "0-0" \/ str = list_ascii_of_string "O-O" ->
  (In KING_CASTLING_MOVE (generate_moves P (color P)) ->
   parse_san generate_moves P str = KING_CASTLING_MOVE)
  /\ (~ In KING_CASTLING_MOVE (generate_moves P (color P)) ->
      parse_san generate_moves P str = NO_MOVE).
Proof.
  intros Hs. unfold parse_san.
  assert (E : ascii_list_eqb str (list_ascii_of_string "0-0")
              || ascii_list_eqb str (list_ascii_of_string "O-O") = true).
  { apply orb_true_iff. destruct Hs as [->| ->]; [by left|by right]. }
  rewrite E. split; intros H.
  - apply is_member_In in H. by rewrite H.
  - destruct (is_member KING_CASTLING_MOVE _) eqn:M; [|done].
    by apply is_member_In in M.
Qed.

Lemma parse_san_queen_side P str :
  str = list_ascii_of_string "0-0-0" \/ str = list_ascii_of_string "O-O-O" ->
  (In QUEEN_CASTLING_MOVE (generate_moves P (color P)) ->
   parse_san generate_moves P str = QUEEN_CASTLING_MOVE)
  /\ (~ In QUEEN_CASTLING_MOVE (generate_moves P (color P)) ->
      parse_san generate_moves P str = NO_MOVE).
Proof.
  intros Hs. unfold parse_san.
  assert (E0 : ascii_list_eqb str (list_ascii_of_string "0-0")
              || ascii_list_eqb str (list_ascii_of_string "O-O") = false).
  { by destruct Hs as [->| ->]. }
  assert (E : ascii_list_eqb str (list_ascii_of_string "0-0-0")
              || ascii_list_eqb str (list_ascii_of_string "O-O-O") = true).
  { apply orb_true_iff. destruct Hs as [->| ->]; [by left|by right]. }
  rewrite E0, E. split; intros H.
  - apply is_member_In in H. by rewrite H.
  - destruct (is_member QUEEN_CASTLING_MOVE _) eqn:M; [|done].
    by apply is_member_In in M.
Qed.

(** On any other text [parse_san] is decided by the grammar and by the legal
    moves that fit the text. *)
Lemma parse_san_grammar P str :
  is_castling_text str = false ->
  parse_san generate_moves P str
  = match san_regex_match str with
    | None => NO_MOVE
    | Some g =>
        if san_refused g then NO_MOVE
        else match List.filter (san_test P g) (generate_moves P (color P)) with
             | [m] => m
             | _ => NO_MOVE
             end
    end.
Proof.
  unfold is_castling_text, parse_san. intros Hc.
  rewrite <- orb_assoc in Hc. apply orb_false_elim in Hc as [Hc1 Hc2].
  apply orb_false_elim in Hc1 as [-> ->].
  apply orb_false_elim in Hc2 as [-> ->]. cbn [orb].
  destruct (san_regex_match str) as [g|]; [|done].
  change (san_move_matches P _ _ _ _ _) with (san_test P g).
  rewrite san_scan_spec. unfold san_refused.
  assert (Hscan :
    (if negb (Z.of_nat (length (List.filter (san_test P g)
                                  (generate_moves P (color P)))) =? 1)
     then NO_MOVE
     else match last (List.filter (san_test P g)
                        (generate_moves P (color P))) with
          | Some m => m | None => NO_MOVE
          end)
    = match List.filter (san_test P g) (generate_moves P (color P)) with
      | [m] => m | _ => NO_MOVE
      end).
  { destruct (List.filter _ _) as [|m [|m' l]]; [done..|].
    destruct (Z.eqb_spec (Z.of_nat (length (m :: m' :: l))) 1) as [E|E];
      [cbn [length] in E; lia|done]. }
  destruct (g_promotion g) as [|c rest]; [exact Hscan|].
  destruct (bool_decide_reflect (parse_piece_kind (c :: rest) = PAWN))
    as [Hp|Hp],
    (bool_decide_reflect (parse_piece_kind (c :: rest) = KING)) as [Hk|Hk],
    (bool_decide_reflect (parse_piece_kind (c :: rest) = PAWN
                          \/ parse_piece_kind (c :: rest) = KING))
      as [Hpk|Hpk]; cbn [orb]; first [done | tauto | exact Hscan].
Qed.

Lemma parse_san_member P str :
  parse_san generate_moves P str <> NO_MOVE ->
  In (parse_san generate_moves P str) (generate_moves P (color P)).
Proof.
  destruct (is_castling_text str) eqn:Hc.
  - unfold is_castling_text in Hc. rewrite <- orb_assoc in Hc.
    apply orb_true_iff in Hc as [Hc|Hc]; apply orb_true_iff in Hc;
      rewrite !ascii_list_eqb_eq in Hc.
    + destruct (parse_san_king_side P str Hc) as [H1 H2].
      destruct (in_dec Z.eq_dec KING_CASTLING_MOVE
                  (generate_moves P (color P))) as [Hin|Hin].
      * by rewrite (H1 Hin).
      * by rewrite (H2 Hin).
    + destruct (parse_san_queen_side P str Hc) as [H1 H2].
      destruct (in_dec Z.eq_dec QUEEN_CASTLING_MOVE
                  (generate_moves P (color P))) as [Hin|Hin].
      * by rewrite (H1 Hin).
      * by rewrite (H2 Hin).
  - rewrite (parse_san_grammar P str Hc).
    destruct (san_regex_match str) as [g|]; [|done].
    destruct (san_refused g); [done|].
    destruct (List.filter _ _) as [|m [|m' l]] eqn:E; [done| |done].
    intros _. assert (Hm : In m (List.filter (san_test P g)
                                  (generate_moves P (color P))))
      by (rewrite E; by left).
    by apply filter_In in Hm as [Hm _].
Qed.
End Parsers.

Lemma is_castling_text_spec str :
  is_castling_text str = true
  <-> str = list_ascii_of_string "0-0" \/ str = list_ascii_of_string "O-O"
      \/ str = list_ascii_of_string "0-0-0"
      \/ str = list_ascii_of_string "O-O-O".
Proof.
  unfold is_castling_text. rewrite !orb_true_iff, !ascii_list_eqb_eq. tauto.
Qed.

Lemma parse_uci_exact P str :
  parse_uci P str
  = match uci_promotion str with
    | None => Thrown (list_ascii_of_string "Unknown promotion piece: "
                      ++ drop 4 str)
    | Some k => Returned (uci_reading P str k)
    end.
Proof.
  assert (Hret : forall k,
    Returned
      (let from := make_square (code (char_at str 1) - code "1")
                     (code (char_at str 0) - code "a") in
       let to := make_square (code (char_at str 3) - code "1")
                   (code (char_at str 2) - code "a") in
       let move := create_promotion from to k in
       let king := bool_decide (make_piece_kind (_board P !!! Z.to_nat from)
                                = KING) in
       let move := if king && (from =? SQ_E1) && (to =? SQ_G1)
                   then create_castling KING_CASTLING else move in
       let move := if king && (from =? SQ_E1) && (to =? SQ_C1)
                   then create_castling QUEEN_CASTLING else move in
       let move := if king && (from =? SQ_E8) && (to =? SQ_G8)
                   then create_castling KING_CASTLING else move in
       let move := if king && (from =? SQ_E8) && (to =? SQ_C8)
                   then create_castling QUEEN_CASTLING else move in
       move) = Returned (uci_reading P str k)).
  { intros k. f_equal. unfold uci_reading. cbv zeta.
    generalize (make_square (code (char_at str 1) - code "1")
                  (code (char_at str 0) - code "a")) as f.
    generalize (make_square (code (char_at str 3) - code "1")
                  (code (char_at str 2) - code "a")) as t.
    intros t f.
    fold KING_CASTLING_MOVE QUEEN_CASTLING_MOVE.
    destruct (bool_decide_reflect
                (make_piece_kind (_board P !!! Z.to_nat f) = KING)) as [K|K];
      cbn [andb].
    - destruct (Z.eqb_spec f SQ_E1), (Z.eqb_spec f SQ_E8),
        (Z.eqb_spec t SQ_G1), (Z.eqb_spec t SQ_C1),
        (Z.eqb_spec t SQ_G8), (Z.eqb_spec t SQ_C8); cbn [andb];
        repeat case_bool_decide;
        first [reflexivity
              | exfalso; unfold SQ_E1, SQ_E8, SQ_G1, SQ_C1, SQ_G8, SQ_C8 in *;
                first [lia | tauto | intuition lia]].
    - rewrite !bool_decide_eq_false_2 by tauto. reflexivity. }
  unfold uci_promotion, parse_uci.
  destruct (4 <? Z.of_nat (length str)); [|apply Hret].
  destruct (is_char "nN" (char_at str 4)); [apply Hret|].
  destruct (is_char "bB" (char_at str 4)); [apply Hret|].
  destruct (is_char "rR" (char_at str 4)); [apply Hret|].
  destruct (is_char "qQ" (char_at str 4)); [apply Hret|].
  reflexivity.
Qed.

Lemma create_promotion_is_no_move f t k :
  create_promotion f t k = NO_MOVE <-> f = 0 /\ t = 0 /\ k = NO_PIECE_KIND.
Proof.
  unfold create_promotion, NO_MOVE.
  rewrite !Z.lor_eq_0_iff, !Z.shiftl_eq_0_iff by lia.
  split.
  - intros [[Hk ->] ->]. by destruct k.
  - intros (-> & -> & ->). done.
Qed.

(** [parse_uci] answers [NO_MOVE] on the texts that read as a1a1 only. *)
Lemma parse_uci_no_move P str :
  parse_uci P str = Returned NO_MOVE
  <-> (length str <= 4)%nat
      /\ make_square (code (char_at str 1) - code "1")
           (code (char_at str 0) - code "a") = 0
      /\ make_square (code (char_at str 3) - code "1")
           (code (char_at str 2) - code "a") = 0.
Proof.
  rewrite parse_uci_exact. unfold uci_promotion, uci_reading. cbv zeta.
  generalize (make_square (code (char_at str 1) - code "1")
                (code (char_at str 0) - code "a")) as f.
  generalize (make_square (code (char_at str 3) - code "1")
                (code (char_at str 2) - code "a")) as t.
  intros t f.
  assert (Hgen : forall k,
    Returned
      (if bool_decide
            (make_piece_kind (_board P !!! Z.to_nat f) = KING
             /\ (f = SQ_E1 /\ t = SQ_C1 \/ f = SQ_E8 /\ t = SQ_C8))
       then QUEEN_CASTLING_MOVE
       else if bool_decide
                 (make_piece_kind (_board P !!! Z.to_nat f) = KING
                  /\ (f = SQ_E1 /\ t = SQ_G1 \/ f = SQ_E8 /\ t = SQ_G8))
       then KING_CASTLING_MOVE
       else create_promotion f t k) = Returned NO_MOVE
    <-> f = 0 /\ t = 0 /\ k = NO_PIECE_KIND).
  { intros k. repeat case_bool_decide.
    - split; [done|]. intros (-> & -> & _).
      unfold SQ_E1, SQ_E8 in *. lia.
    - split; [done|]. intros (-> & -> & _).
      unfold SQ_E1, SQ_E8 in *. lia.
    - rewrite <- create_promotion_is_no_move. split.
      + intros E. by injection E.
      + by intros ->. }
  destruct (Z.ltb_spec 4 (Z.of_nat (length str))) as [Hl|Hl].
  - destruct (is_char "nN" (char_at str 4));
      [rewrite Hgen; split; [by intros (_ & _ & ?)|lia]|].
    destruct (is_char "bB" (char_at str 4));
      [rewrite Hgen; split; [by intros (_ & _ & ?)|lia]|].
    destruct (is_char "rR" (char_at str 4));
      [rewrite Hgen; split; [by intros (_ & _ & ?)|lia]|].
    destruct (is_char "qQ" (char_at str 4));
      [rewrite Hgen; split; [by intros (_ & _ & ?)|lia]|].
    split; [done|lia].
  - rewrite Hgen. split.
    + intros (-> & -> & _). split; [lia|done].
    + intros (_ & -> & ->). done.
Qed.

(** [parse_uci] throws exactly on a text with a fifth character that is no
    promotion letter. *)
Lemma parse_uci_throws P str :
  (exists what, parse_uci P str = Thrown what)
  <-> (4 < length str)%nat /\ is_char "nNbBrRqQ" (char_at str 4) = false.
Proof.
  rewrite parse_uci_exact. unfold uci_promotion.
  assert (Hc : is_char "nNbBrRqQ" (char_at str 4)
               = is_char "nN" (char_at str 4) || is_char "bB" (char_at str 4)
                 || is_char "rR" (char_at str 4)
                 || is_char "qQ" (char_at str 4)).
  { unfold is_char. cbn [list_ascii_of_string existsb].
    generalize (char_at str 4). intros c.
    by destruct (Ascii.eqb c "n"), (Ascii.eqb c "N"), (Ascii.eqb c "b"),
      (Ascii.eqb c "B"), (Ascii.eqb c "r"), (Ascii.eqb c "R"),
      (Ascii.eqb c "q"), (Ascii.eqb c "Q"). }
  rewrite Hc. clear Hc.
  destruct (Z.ltb_spec 4 (Z.of_nat (length str))) as [Hl|Hl].
  - destruct (is_char "nN" (char_at str 4));
      [split; [by intros [? ?]|by intros [_ ?]]|].
    destruct (is_char "bB" (char_at str 4));
      [split; [by intros [? ?]|by intros [_ ?]]|].
    destruct (is_char "rR" (char_at str 4));
      [split; [by intros [? ?]|by intros [_ ?]]|].
    destruct (is_char "qQ" (char_at str 4));
      [split; [by intros [? ?]|by intros [_ ?]]|].
    split; [intros _; split; [lia|done]|intros _; by eexists].
  - split; [by intros [? ?]|lia].
Qed.

Section ParserAnswers.
Variable generate_moves : Position -> Color -> list Move.

(** C9 (as amended). [parse_san] answers with a legal move or with
    [NO_MOVE], whatever the text. On a castling text it answers with the
    castling move if that move is among the legal moves and with [NO_MOVE]
    if it is not. On any other text outside the grammar of [SAN_REGEX] it
    answers [NO_MOVE]. On a text of the grammar it answers [NO_MOVE] when
    the promotion letter names a king, and otherwise it answers with the
    legal move that fits the text when there is exactly one in the list of
    legal moves, and with [NO_MOVE] when there is none or more than one.
    [parse_uci] does not look at the legal moves: on a fifth character that
    is no promotion letter it throws, and otherwise it returns the move read
    off the squares and the letter, or the castling move when a king stands
    on the origin and the squares are those of a castling; its answer is
    [NO_MOVE] only on a text that reads as a1a1 without promotion. *)
Theorem parsers_on_illegal_text P str :
  let legal := generate_moves P (color P) in
  let castling_text :=
    str = list_ascii_of_string "0-0" \/ str = list_ascii_of_string "O-O"
    \/ str = list_ascii_of_string "0-0-0"
    \/ str = list_ascii_of_string "O-O-O" in
  (str = list_ascii_of_string "0-0" \/ str = list_ascii_of_string "O-O" ->
   (In KING_CASTLING_MOVE legal ->
    parse_san generate_moves P str = KING_CASTLING_MOVE)
   /\ (~ In KING_CASTLING_MOVE legal ->
       parse_san generate_moves P str = NO_MOVE))
  /\ (str = list_ascii_of_string "0-0-0"
      \/ str = list_ascii_of_string "O-O-O" ->
      (In QUEEN_CASTLING_MOVE legal ->
       parse_san generate_moves P str = QUEEN_CASTLING_MOVE)
      /\ (~ In QUEEN_CASTLING_MOVE legal ->
          parse_san generate_moves P str = NO_MOVE))
  /\ (~ castling_text -> (forall g, ~ san_text str g) ->
      parse_san generate_moves P str = NO_MOVE)
  /\ (~ castling_text -> (exists g, san_text str g) ->
      exists g,
        san_regex_match str = Some g /\ san_text str g
        /\ parse_san generate_moves P str
           = if san_refused g then NO_MOVE
             else match List.filter (san_test P g) legal with
                  | [m] => m
                  | _ => NO_MOVE
                  end)
  /\ (forall g m, san_test P g m = true <-> san_fits P g m)
  /\ (parse_san generate_moves P str <> NO_MOVE ->
      In (parse_san generate_moves P str) legal)
  /\ parse_uci P str
     = match uci_promotion str with
       | None => Thrown (list_ascii_of_string "Unknown promotion piece: "
                         ++ drop 4 str)
       | Some k => Returned (uci_reading P str k)
       end
  /\ ((exists what, parse_uci P str = Thrown what)
      <-> (4 < length str)%nat
          /\ is_char "nNbBrRqQ" (char_at str 4) = false)
  /\ (parse_uci P str = Returned NO_MOVE
      <-> (length str <= 4)%nat
          /\ make_square (code (char_at str 1) - code "1")
               (code (char_at str 0) - code "a") = 0
          /\ make_square (code (char_at str 3) - code "1")
               (code (char_at str 2) - code "a") = 0).
Proof.
  cbv zeta.
  assert (Hct : ~ (str = list_ascii_of_string "0-0"
                   \/ str = list_ascii_of_string "O-O"
                   \/ str = list_ascii_of_string "0-0-0"
                   \/ str = list_ascii_of_string "O-O-O")
                -> is_castling_text str = false).
  { intros H. destruct (is_castling_text str) eqn:E; [|done].
    by apply is_castling_text_spec in E. }
  split; [apply parse_san_king_side|].
  split; [apply parse_san_queen_side|].
  split.
  { intros Hc Hg. rewrite (parse_san_grammar _ P str (Hct Hc)).
    apply san_regex_match_none in Hg. by rewrite Hg. }
  split.
  { intros Hc [g Hg]. rewrite (parse_san_grammar _ P str (Hct Hc)).
    destruct (san_regex_match str) as [g'|] eqn:E.
    - exists g'. split; [done|]. split; [by apply san_regex_match_some|done].
    - exfalso. by apply (proj1 (san_regex_match_none str) E g). }
  split; [apply san_test_fits|].
  split; [apply parse_san_member|].
  split; [apply parse_uci_exact|].
  split; [apply parse_uci_throws|apply parse_uci_no_move].
Qed.
End ParserAnswers.

(** [parse_san] at work: a move named without its origin, the same move made
    unique by its file, a text that fits two moves, a text that fits none, a
    castling text when castling is not legal, and a text outside the
    grammar. *)
Lemma parse_san_answers :
  let at_text s := parse_san two_knights_moves two_knights
                     (list_ascii_of_string s) in
  at_text "Nc3"%string = uci_move "b1c3"
  /\ at_text "Nbd2"%string = uci_move "b1d2"
  /\ at_text "Nfd2+"%string = uci_move "f1d2"
  /\ at_text "Nd2"%string = NO_MOVE
  /\ at_text "Ke2"%string = uci_move "e1e2"
  /\ at_text "e4"%string = NO_MOVE
  /\ at_text "O-O"%string = NO_MOVE
  /\ at_text "0-0-0"%string = NO_MOVE
  /\ at_text "knight to c3"%string = NO_MOVE
  /\ at_text "Nc3=K"%string = NO_MOVE.
Proof. by vm_compute. Qed.

(** C9, where the claim fails. In the starting position e4 is empty, so
    "e4e5" names no legal move, and "e7e8x" is no move text at all; yet
    [parse_uci] returns a move other than [NO_MOVE] on the first and throws
    on the second. *)
Lemma parse_uci_returns_illegal_move :
  piece_at startpos (from (uci_move "e4e5")) = NO_PIECE
  /\ parse_uci startpos (list_ascii_of_string "e4e5")
     = Returned (uci_move "e4e5")
  /\ uci_move "e4e5" <> NO_MOVE
  /\ parse_uci startpos (list_ascii_of_string "e7e8x")
     = Thrown (list_ascii_of_string "Unknown promotion piece: x").
Proof. by vm_compute. Qed.

(** ** [do_move] then [undo_move] *)

Section Restore.
Context {T : ZobristTable}.

(** The board fixes the bitboards, the counts, the filled parts of the
    piece lists up to their order, and the two placement subkeys. *)
Lemma placement_determined P Q :
  placed P -> placed Q -> _board Q = _board P ->
  (forall c, _by_color_bb Q c = _by_color_bb P c)
  /\ (forall k, _by_piece_kind_bb Q k = _by_piece_kind_bb P k)
  /\ (forall pc, _piece_count Q pc = _piece_count P pc)
  /\ (forall pc, pc <> NO_PIECE -> live Q pc ≡ₚ live P pc)
  /\ _pawn_key (_zobrist_hash Q) = _pawn_key (_zobrist_hash P)
  /\ _piece_key (_zobrist_hash Q) = _piece_key (_zobrist_hash P).
Proof.
  intros [HlP HcP HkP [HpP HoP]] [HlQ HcQ HkQ [HpQ HoQ]] Hb.
  rewrite Hb in *.
  assert (Hperm : forall pc, pc <> NO_PIECE -> live Q pc ≡ₚ live P pc).
  { intros pc Hpc. etransitivity; [by apply (live_perm _ _ _ _ HlQ)|].
    symmetry. by apply (live_perm _ _ _ _ HlP). }
  repeat split.
  - intros c. by apply (mapped_on_unique get_color (_board P)).
  - intros k. by apply (mapped_on_unique make_piece_kind (_board P)).
  - intros pc. destruct (decide (pc = NO_PIECE)) as [->|Hpc].
    + by rewrite (lo_none _ _ _ HlP), (lo_none _ _ _ HlQ).
    + pose proof (Permutation_length (Hperm pc Hpc)) as Hlen.
      unfold live in Hlen.
      pose proof (live_of_length _ _ pc (lo_len _ _ _ HlP pc)
                    (lo_count _ _ _ HlP pc)) as H1.
      pose proof (live_of_length _ _ pc (lo_len _ _ _ HlQ pc)
                    (lo_count _ _ _ HlQ pc)) as H2.
      unfold live_of in H1, H2.
      pose proof (lo_count _ _ _ HlP pc). pose proof (lo_count _ _ _ HlQ pc).
      lia.
  - exact Hperm.
  - congruence.
  - congruence.
Qed.

Lemma do_move_castling_eq P m :
  castling m <> NO_CASTLING ->
  do_move P m
  = (push_history (do_castling (entered P) (_current_side P) m),
     create_moveinfo NO_PIECE_KIND (_castling_rights P)
       (_enpassant_square P) false (_half_move_counter P)).
Proof.
  intros H. unfold do_move.
  destruct (Z.eqb_spec (castling m) NO_CASTLING); [done|]. reflexivity.
Qed.

Lemma do_move_ordinary_eq P m :
  castling m = NO_CASTLING ->
  let moved := cell (_board P) (from m) in
  let captured := cell (_board P) (to m) in
  let S := shift_pieces (tick_half_move (entered P) moved captured)
             (_current_side P) m moved captured in
  do_move P m
  = (push_history (mark_enpassant S.1 (_current_side P) m moved),
     create_moveinfo (make_piece_kind captured) (_castling_rights P)
       (_enpassant_square P) S.2 (_half_move_counter P)).
Proof.
  intros H moved captured S. unfold do_move, do_ordinary.
  rewrite H. cbn [negb Z.eqb NO_CASTLING].
  change (_board (zobrist_clear_enpassant
            (set_ply_counter (change_current_side P)
               (_ply_counter (change_current_side P) + 1)))
          !!! Z.to_nat (from m)) with moved.
  change (_board (zobrist_clear_enpassant
            (set_ply_counter (change_current_side P)
               (_ply_counter (change_current_side P) + 1)))
          !!! Z.to_nat (to m)) with captured.
  change (zobrist_clear_enpassant
            (set_ply_counter (change_current_side P)
               (_ply_counter (change_current_side P) + 1)))
    with (entered P).
  fold S. destruct S as [S1 e]. reflexivity.
Qed.

Lemma undo_move_eq Q m info :
  let U := unshift_pieces
             (restore_scalars
                (set_ply_counter (change_current_side Q) (_ply_counter Q - 1))
                info)
             (opp (_current_side Q)) m info in
  undo_move Q m info = set_history U (_history U) (_history_counter U - 1).
Proof. reflexivity. Qed.

Lemma restore_scalars_fields Z info :
  let Y := restore_scalars Z info in
  same_stable Y Z
  /\ _castling_rights Y = last_castling info
  /\ _enpassant_square Y = last_enpassant_square info
  /\ _half_move_counter Y = half_move_counter info
  /\ _enpassant_key (_zobrist_hash Y)
     = (if last_enpassant_square info =? NO_SQUARE then 0
        else HASH_ENPASSANT (file (last_enpassant_square info)))
  /\ _castling_key (_zobrist_hash Y) = castling_key_of (last_castling info).
Proof.
  unfold restore_scalars. cbn zeta. rewrite ep_set_enpassant_square.
  destruct (last_enpassant_square info =? NO_SQUARE); by repeat split.
Qed.

(** The fields [undo_move] computes without looking at the pieces. *)
Lemma undo_move_fields Q m info :
  let P' := undo_move Q m info in
  _current_side P' = opp (_current_side Q)
  /\ _ply_counter P' = _ply_counter Q - 1
  /\ _history P' = _history Q
  /\ _history_counter P' = _history_counter Q - 1
  /\ _color_key (_zobrist_hash P')
     = Z.lxor (_color_key (_zobrist_hash Q)) HASH_TURN
  /\ _castling_rights P' = last_castling info
  /\ _enpassant_square P' = last_enpassant_square info
  /\ _half_move_counter P' = half_move_counter info
  /\ _enpassant_key (_zobrist_hash P')
     = (if last_enpassant_square info =? NO_SQUARE then 0
        else HASH_ENPASSANT (file (last_enpassant_square info)))
  /\ _castling_key (_zobrist_hash P') = castling_key_of (last_castling info).
Proof.
  cbn zeta. rewrite undo_move_eq. cbn zeta.
  destruct (same_scalars_unshift_pieces
              (restore_scalars
                 (set_ply_counter (change_current_side Q)
                    (_ply_counter Q - 1)) info)
              (opp (_current_side Q)) m info)
    as ((U1 & U2 & U3 & U4 & U5) & U6 & U7 & U8 & U9 & U10).
  destruct (restore_scalars_fields
              (set_ply_counter (change_current_side Q) (_ply_counter Q - 1))
              info)
    as ((R1 & R2 & R3 & R4 & R5) & R6 & R7 & R8 & R9 & R10).
  frame.
  rewrite U1, U2, U3, U4, U5, U6, U7, U8, U9, U10.
  rewrite R1, R2, R3, R4, R5, R6, R7, R8, R9, R10.
  by repeat split.
Qed.

Lemma same_placement_entered P : same_placement (entered P) P.
Proof. by repeat split. Qed.

Lemma entered_fields P :
  _current_side (entered P) = opp (_current_side P)
  /\ _ply_counter (entered P) = _ply_counter P + 1
  /\ _history (entered P) = _history P
  /\ _history_counter (entered P) = _history_counter P
  /\ _color_key (_zobrist_hash (entered P))
     = Z.lxor (_color_key (_zobrist_hash P)) HASH_TURN.
Proof. by repeat split. Qed.

(** The same for [do_move], once its branch [R] has left those fields as
    they were on entry. *)
Lemma pushed_fields P R :
  same_stable R (entered P) ->
  let Q := push_history R in
  _current_side Q = opp (_current_side P)
  /\ _ply_counter Q = _ply_counter P + 1
  /\ _history Q
     = <[Z.to_nat (_history_counter P) := get_key (_zobrist_hash R)]>
         (_history P)
  /\ _history_counter Q = _history_counter P + 1
  /\ _color_key (_zobrist_hash Q)
     = Z.lxor (_color_key (_zobrist_hash P)) HASH_TURN.
Proof.
  intros (E1 & E2 & E3 & E4 & E5).
  destruct (entered_fields P) as (F1 & F2 & F3 & F4 & F5).
  cbn zeta. unfold push_history. frame.
  rewrite E1, E2, E3, E4, E5, F1, F2, F3, F4, F5. by repeat split.
Qed.

Lemma same_placement_push_history X : same_placement (push_history X) X.
Proof. by repeat split. Qed.

Lemma same_placement_undo_entry Q info :
  same_placement
    (restore_scalars
       (set_ply_counter (change_current_side Q) (_ply_counter Q - 1)) info) Q.
Proof.
  eapply same_placement_trans; [apply same_placement_restore_scalars|].
  by repeat split.
Qed.

Lemma same_placement_do_castling X side m :
  same_placement (do_castling X side m)
    (let r := home_rank side in
     if castling m =? KING_CASTLING then
       move_piece
         (move_piece (set_half_move_counter X 0)
            (make_square r FILE_E) (make_square r FILE_G))
         (make_square r FILE_H) (make_square r FILE_F)
     else
       move_piece
         (move_piece (set_half_move_counter X 0)
            (make_square r FILE_E) (make_square r FILE_C))
         (make_square r FILE_A) (make_square r FILE_D)).
Proof. unfold do_castling. cbn zeta. by repeat split. Qed.

(** From the board and the other fields to the whole statement. *)
Lemma restored_intro P R m info c' :
  consistent_facts P ->
  same_stable R (entered P) ->
  tracks (undo_move (push_history R) m info) (_board P) c' ->
  last_castling info = _castling_rights P ->
  half_move_counter info = _half_move_counter P ->
  (_enpassant_square P <> NO_SQUARE ->
   last_enpassant_square info = _enpassant_square P) ->
  restored P (undo_move (push_history R) m info).
Proof.
  intros [Hpl Hr Hhm Hep Hepok Hck Hek Hcol] Hst (Hpl' & Hb & _) Hlc Hhc Hle.
  destruct (placement_determined P _ Hpl Hpl' Hb)
    as (Hbc & Hbk & Hcnt & Hperm & Hpk & Hok).
  destruct (undo_move_fields (push_history R) m info)
    as (S1 & S2 & S3 & S4 & S5 & S6 & S7 & S8 & S9 & S10).
  destruct (pushed_fields P R Hst) as (Q1 & Q2 & Q3 & Q4 & Q5).
  cbn zeta in *.
  rewrite Q1, opp_opp in S1. rewrite Q2 in S2. rewrite Q3 in S3.
  rewrite Q4 in S4. rewrite Q5 in S5. rewrite Hlc in S6, S10.
  rewrite Hhc in S8. rewrite <- Hck in S10.
  assert (Hcolor : _color_key (_zobrist_hash (undo_move (push_history R) m info))
                   = _color_key (_zobrist_hash P))
    by (rewrite S5; xor_ring).
  assert (Hepk : _enpassant_square P <> NO_SQUARE ->
            _enpassant_key (_zobrist_hash (undo_move (push_history R) m info))
            = _enpassant_key (_zobrist_hash P)).
  { intros H. rewrite S9, Hek, (Hle H).
    by destruct (Z.eqb_spec (_enpassant_square P) NO_SQUARE). }
  unfold restored. repeat split; try done; try lia.
  - rewrite S3, take_insert. by rewrite decide_False by lia.
  - unfold hash, get_key. rewrite Hok, Hpk, S10, Hcolor. by rewrite Hepk.
  - apply Position_eq_spec. unfold same_compared, piece_at.
    rewrite Hb, S1, S6, S7, Hle by done. repeat split; try done.
    unfold get_key. rewrite Hok, Hpk, S10, Hcolor. by rewrite Hepk.
Qed.
End Restore.

Section RestoreMain.
Context {T : ZobristTable}.

Lemma ep_tick_entered P mp cp :
  _enpassant_square (tick_half_move (entered P) mp cp) = _enpassant_square P.
Proof. unfold tick_half_move. by case_match. Qed.

Lemma tracks_undo_move Q m info b c :
  tracks
    (unshift_pieces
       (restore_scalars
          (set_ply_counter (change_current_side Q) (_ply_counter Q - 1)) info)
       (opp (_current_side Q)) m info) b c ->
  tracks (undo_move Q m info) b c.
Proof.
  intros H. rewrite undo_move_eq. cbn zeta.
  eapply tracks_same; [|exact H]. by repeat split.
Qed.

(** C1 (as amended). On a consistent position, for a move of the shape
    [do_move] expects, [do_move] followed by [undo_move] brings back the
    board, the bitboards, the piece counts, the filled part of every piece
    list up to the order of its squares, the side to move, the castling
    rights, the half-move, ply and history counters, the history below the
    history count, and the piece, pawn, castling and colour subkeys. When the
    position had an en-passant square, that square, its subkey and the
    composed key come back as well, and the result compares equal to the
    position under [operator==]. *)
Theorem do_undo_restores P m :
  consistent P = true -> move_shape P m = true ->
  restored P (undo_move (do_move P m).1 m (do_move P m).2).
Proof.
  intros Hc Hs. pose proof (consistent_sound P Hc) as HF.
  pose proof (cf_placed _ HF) as Hpl.
  pose proof (cf_rights _ HF) as Hr. pose proof (cf_hm _ HF) as Hhm.
  pose proof (cf_ep _ HF) as Hep.
  assert (HT : tracks P (_board P) (_piece_count P))
    by (split; [exact Hpl|split; [reflexivity|intros; reflexivity]]).
  unfold move_shape in Hs.
  destruct (Z.eqb_spec (castling m) NO_CASTLING) as [E|E]; cbn [negb] in Hs.
  - rewrite (do_move_ordinary_eq P m E). cbn zeta. cbn [fst snd].
    set (moved := cell (_board P) (from m)) in *.
    set (captured := cell (_board P) (to m)) in *.
    set (X := tick_half_move (entered P) moved captured).
    set (S := shift_pieces X (_current_side P) m moved captured).
    set (R := mark_enpassant S.1 (_current_side P) m moved).
    set (info := create_moveinfo (make_piece_kind captured)
                   (_castling_rights P) (_enpassant_square P) S.2
                   (_half_move_counter P)).
    assert (HX : tracks X (_board P) (_piece_count P)).
    { eapply tracks_same; [|exact HT].
      eapply same_placement_trans; [apply same_placement_tick_half_move|].
      apply same_placement_entered. }
    assert (Hst : same_stable R (entered P)).
    { eapply same_stable_trans; [apply same_stable_mark_enpassant|].
      eapply same_stable_trans; [apply same_stable_shift_pieces|].
      apply same_stable_tick_half_move. }
    destruct (pushed_fields P R Hst) as (Q1 & _). cbn zeta in Q1.
    destruct (ordinary_undone X
                (restore_scalars
                   (set_ply_counter (change_current_side (push_history R))
                      (_ply_counter (push_history R) - 1)) info)
                (_current_side P) m (_board P) (_piece_count P) info)
      as (c' & Hc' & _).
    + exact HX.
    + subst X. rewrite ep_tick_entered. exact Hs.
    + exact E.
    + eapply same_placement_trans; [apply same_placement_undo_entry|].
      eapply same_placement_trans; [apply same_placement_push_history|].
      apply same_placement_mark_enpassant.
    + by apply captured_piece_create.
    + by apply enpassant_create.
    + apply (restored_intro P R m info c' HF Hst).
      * apply tracks_undo_move. by rewrite Q1, opp_opp.
      * by apply last_castling_create.
      * by apply half_move_counter_create.
      * intros Hne. subst info. rewrite last_enpassant_square_create by done.
        by destruct (Z.eqb_spec (_enpassant_square P) NO_SQUARE).
  - rewrite (do_move_castling_eq P m E). cbn [fst snd].
    set (R := do_castling (entered P) (_current_side P) m).
    set (info := create_moveinfo NO_PIECE_KIND (_castling_rights P)
                   (_enpassant_square P) false (_half_move_counter P)).
    assert (Hst : same_stable R (entered P))
      by apply same_stable_do_castling.
    destruct (pushed_fields P R Hst) as (Q1 & _). cbn zeta in Q1.
    apply (restored_intro P R m info (_piece_count P) HF Hst).
    + apply tracks_undo_move. rewrite Q1, opp_opp.
      eapply (castling_undone (set_half_move_counter (entered P) 0)).
      * eapply tracks_same; [|exact HT]. by repeat split.
      * exact Hs.
      * eapply same_placement_trans; [apply same_placement_undo_entry|].
        eapply same_placement_trans; [apply same_placement_push_history|].
        apply same_placement_do_castling.
      * exact E.
    + by apply last_castling_create.
    + by apply half_move_counter_create.
    + intros Hne. subst info. rewrite last_enpassant_square_create by done.
      by destruct (Z.eqb_spec (_enpassant_square P) NO_SQUARE).
Qed.
End RestoreMain.

Lemma do_undo_restores_witness :
  consistent (T := example_table) rook_takes_rook = true
  /\ move_shape rook_takes_rook (uci_move "a1a8") = true
  /\ restored rook_takes_rook
       (undo_move (T := example_table)
          (do_move (T := example_table) rook_takes_rook (uci_move "a1a8")).1
          (uci_move "a1a8")
          (do_move (T := example_table) rook_takes_rook (uci_move "a1a8")).2).
Proof.
  split; [vm_compute; reflexivity|]. split; [vm_compute; reflexivity|].
  apply (do_undo_restores (T := example_table) rook_takes_rook
           (uci_move "a1a8")); vm_compute; reflexivity.
Defined.

(** C1, the case the claim gets wrong: after the capture of a rook that is
    not the last of its list and the undo, the list of black rooks holds the
    same squares in another order. *)
Lemma undo_move_reorders_piece_list :
  let P := rook_takes_rook in
  let m := uci_move "a1a8" in
  let P' := undo_move (T := example_table)
              (do_move (T := example_table) P m).1 m
              (do_move (T := example_table) P m).2 in
  consistent (T := example_table) P = true
  /\ move_shape P m = true
  /\ live P B_ROOK = [SQ_A8; SQ_H8]
  /\ live P' B_ROOK = [SQ_H8; SQ_A8]
  /\ _piece_position P' B_ROOK <> _piece_position P B_ROOK.
Proof. vm_compute. repeat split; discriminate. Qed.

(** ** The incremental key and the key computed from scratch *)

Section HashCompare.
Context {T : ZobristTable}.

Lemma castling_key_fold k c :
  (let key := k in
   let key := if has_right c W_OO
              then Z.lxor key HASH_CASTLING_WHITE_SHORT else key in
   let key := if has_right c W_OOO
              then Z.lxor key HASH_CASTLING_WHITE_LONG else key in
   let key := if has_right c B_OO
              then Z.lxor key HASH_CASTLING_BLACK_SHORT else key in
   let key := if has_right c B_OOO
              then Z.lxor key HASH_CASTLING_BLACK_LONG else key in
   key)
  = Z.lxor k (castling_key_of c).
Proof.
  unfold castling_key_of. cbn zeta.
  destruct (has_right c W_OO), (has_right c W_OOO), (has_right c B_OO),
    (has_right c B_OOO); xor_ring.
Qed.

Lemma pieces_key_fold P :
  listed P ->
  fold_left (fun key piece => xor_squares piece (live P piece) key)
    all_pieces 0
  = Z.lxor (board_key (_board P) officer_pieces)
      (board_key (_board P) pawn_pieces).
Proof.
  intros Hl. unfold all_pieces. cbn [fold_left].
  rewrite !xor_squares_xor_list.
  change (live P) with (live_of (_piece_count P) (_piece_position P)).
  rewrite !(xor_list_live (_board P)) by (done || discriminate).
  unfold board_key, officer_pieces, pawn_pieces. cbn [foldr]. xor_ring.
Qed.

(** C2. On a consistent position the incremental key is the from-scratch
    key of [hash_position], except that it also carries the en-passant
    constant when an en-passant square is set that no pawn of the side to
    move attacks: the two keys then differ by exactly that constant. *)
Theorem hash_and_hash_position P :
  consistent P = true ->
  hash P
  = Z.lxor (hash_position P)
      (if negb (enpassant_square P =? NO_SQUARE)
          && negb (enpassant_capturable P)
       then HASH_ENPASSANT (file (enpassant_square P)) else 0).
Proof.
  intros Hc. destruct (consistent_sound P Hc)
    as [[Hl _ _ [Hpk Hok]] _ _ _ _ Hck Hek Hcol].
  unfold hash, get_key, hash_position, enpassant_capturable.
  rewrite Hpk, Hok, Hck, Hek, Hcol. cbn zeta.
  rewrite (pieces_key_fold P Hl).
  change (if has_right (castling_rights P) B_OOO
          then Z.lxor
                 (if has_right (castling_rights P) B_OO
                  then Z.lxor
                         (if has_right (castling_rights P) W_OOO
                          then Z.lxor
                                 (if has_right (castling_rights P) W_OO
                                  then Z.lxor
                                         (Z.lxor
                                            (board_key (_board P) officer_pieces)
                                            (board_key (_board P) pawn_pieces))
                                         HASH_CASTLING_WHITE_SHORT
                                  else Z.lxor
                                         (board_key (_board P) officer_pieces)
                                         (board_key (_board P) pawn_pieces))
                                 HASH_CASTLING_WHITE_LONG
                          else if has_right (castling_rights P) W_OO
                               then Z.lxor
                                      (Z.lxor
                                         (board_key (_board P) officer_pieces)
                                         (board_key (_board P) pawn_pieces))
                                      HASH_CASTLING_WHITE_SHORT
                               else Z.lxor
                                      (board_key (_board P) officer_pieces)
                                      (board_key (_board P) pawn_pieces))
                         HASH_CASTLING_BLACK_SHORT
                  else _)
                 HASH_CASTLING_BLACK_LONG
          else _)
    with (let key := Z.lxor (board_key (_board P) officer_pieces)
                       (board_key (_board P) pawn_pieces) in
          let key := if has_right (castling_rights P) W_OO
                     then Z.lxor key HASH_CASTLING_WHITE_SHORT else key in
          let key := if has_right (castling_rights P) W_OOO
                     then Z.lxor key HASH_CASTLING_WHITE_LONG else key in
          let key := if has_right (castling_rights P) B_OO
                     then Z.lxor key HASH_CASTLING_BLACK_SHORT else key in
          let key := if has_right (castling_rights P) B_OOO
                     then Z.lxor key HASH_CASTLING_BLACK_LONG else key in
          key).
  rewrite castling_key_fold.
  unfold enpassant_square, castling_rights, color.
  destruct (_enpassant_square P =? NO_SQUARE); cbn [negb andb];
    [|destruct (Z.land _ _ =? 0); cbn [negb]];
    destruct (decide (_current_side P = WHITE)); xor_ring.
Qed.
End HashCompare.

Lemma hash_after_double_push :
  consistent (T := example_table) after_e2e4 = true
  /\ enpassant_square after_e2e4 = make_square RANK_3 FILE_E
  /\ enpassant_capturable after_e2e4 = false
  /\ hash after_e2e4 <> hash_position (T := example_table) after_e2e4
  /\ hash after_e2e4 <> polyglot_hash (T := example_table) after_e2e4
  /\ Z.lxor (hash after_e2e4) (hash_position (T := example_table) after_e2e4)
     = HASH_ENPASSANT (ZobristTable := example_table) FILE_E.
Proof. vm_compute. repeat split; discriminate. Qed.

Lemma hash_and_hash_position_witness :
  consistent (T := example_table) after_e2e4 = true
  /\ hash after_e2e4
     = Z.lxor (hash_position (T := example_table) after_e2e4)
         (HASH_ENPASSANT (ZobristTable := example_table) FILE_E).
Proof.
  split; [vm_compute; reflexivity|].
  rewrite (hash_and_hash_position (T := example_table) after_e2e4)
    by (vm_compute; reflexivity).
  reflexivity.
Defined.

(** ** Static exchange evaluation *)

Lemma testbit_ones_64 s : Z.testbit (Z.ones 64) s = bool_decide (0 <= s < 64).
Proof.
  destruct (decide (0 <= s < 64)) as [H|H].
  - rewrite Z.ones_spec_low by lia. by rewrite bool_decide_eq_true_2.
  - rewrite bool_decide_eq_false_2 by done.
    destruct (Z.lt_ge_cases s 0); [by apply Z.testbit_neg_r|].
    apply Z.ones_spec_high. lia.
Qed.

Lemma testbit_bb_clear bb sq s :
  0 <= sq < 64 ->
  Z.testbit (bb_clear bb sq) s
  = Z.testbit bb s && bool_decide (0 <= s < 64) && negb (bool_decide (s = sq)).
Proof.
  intros Hsq. unfold bb_clear.
  rewrite Z.land_spec, Z.lxor_spec, testbit_ones_64, testbit_square_bb by lia.
  destruct (Z.testbit bb s), (decide (0 <= s < 64)) as [H|H],
    (decide (s = sq)) as [E|E];
    rewrite ?(bool_decide_eq_true_2 _ H), ?(bool_decide_eq_false_2 _ H),
      ?(bool_decide_eq_true_2 _ E), ?(bool_decide_eq_false_2 _ E);
    try reflexivity.
  lia.
Qed.

Lemma elem_of_squares_of bb s :
  s ∈ squares_of bb <-> 0 <= s < 64 /\ Z.testbit bb s = true.
Proof.
  unfold squares_of. rewrite list_elem_of_filter, elem_of_all_squares.
  rewrite Is_true_true. tauto.
Qed.

Lemma squares_of_nil bb :
  squares_of bb = [] -> forall s, 0 <= s < 64 -> Z.testbit bb s = false.
Proof.
  intros E s Hs. destruct (Z.testbit bb s) eqn:Hb; [|done].
  assert (H : s ∈ squares_of bb) by by apply elem_of_squares_of.
  rewrite E in H. by apply elem_of_nil in H.
Qed.

(** The square [pop_lsb] yields belongs to the bitboard. *)
Lemma lsb_spec bb :
  bb <> 0 -> (forall s, Z.testbit bb s = true -> 0 <= s < 64) ->
  0 <= lsb bb < 64 /\ Z.testbit bb (lsb bb) = true.
Proof.
  intros Hne Hr. unfold lsb. destruct (squares_of bb) as [|s l] eqn:E.
  - exfalso. apply Hne. apply Z.bits_inj_0. intros s.
    destruct (Z.testbit bb s) eqn:Hb; [|done].
    rewrite (squares_of_nil bb E s) in Hb; [done|by apply Hr].
  - apply elem_of_squares_of. rewrite E. apply elem_of_cons. by left.
Qed.

Lemma squares_of_bb_clear occ s :
  0 <= s < 64 -> Z.testbit occ s = true ->
  (length (squares_of (bb_clear occ s)) < length (squares_of occ))%nat.
Proof.
  intros Hs Hb. unfold squares_of.
  apply (filter_length_lt _ _ _ s).
  - intros x _ Hx. apply Is_true_true in Hx. apply Is_true_true.
    rewrite testbit_bb_clear in Hx by done.
    by destruct (Z.testbit occ x).
  - by apply elem_of_all_squares.
  - by apply Is_true_true.
  - intros Hx. apply Is_true_true in Hx.
    rewrite testbit_bb_clear in Hx by done.
    rewrite (bool_decide_eq_true_2 (s = s)) in Hx by done.
    by rewrite andb_false_r in Hx.
Qed.

Section SeeFixed.
Variable PIECE_VALUE_eg : PieceKind -> Z.
Variable P : Position.

Lemma pick_attacker_some c a occ kinds pk s :
  pick_attacker P c a occ kinds = Some (pk, s) ->
  pk ∈ kinds
  /\ Z.land (Z.land a (pieces_cp P c pk)) occ <> 0
  /\ s = lsb (Z.land (Z.land a (pieces_cp P c pk)) occ).
Proof.
  induction kinds as [|k kinds IH]; [done|]. cbn [pick_attacker].
  destruct (Z.eqb_spec (Z.land (Z.land a (pieces_cp P c k)) occ) 0)
    as [E|E]; cbn [negb].
  - intros H. destruct (IH H) as (Hin & Hne & Hs).
    split; [|done]. apply elem_of_cons. by right.
  - intros [= <- <-]. split; [|done]. apply elem_of_cons. by left.
Qed.

Lemma pick_attacker_none c a occ kinds :
  pick_attacker P c a occ kinds = None ->
  forall pk, pk ∈ kinds -> Z.land (Z.land a (pieces_cp P c pk)) occ = 0.
Proof.
  induction kinds as [|k kinds IH]; intros H pk Hpk;
    [by apply elem_of_nil in Hpk|].
  cbn [pick_attacker] in H.
  destruct (Z.eqb_spec (Z.land (Z.land a (pieces_cp P c k)) occ) 0)
    as [E|E]; cbn [negb] in H; [|done].
  apply elem_of_cons in Hpk as [->|Hpk]; [done|]. by apply IH.
Qed.

Lemma pick_attacker_zero c occ kinds :
  pick_attacker P c 0 occ kinds = None.
Proof. induction kinds as [|k kinds IH]; [done|]. cbn. exact IH. Qed.

Lemma fixed_ok_pick_none att occ c :
  fixed_ok P att occ ->
  pick_attacker P c (att c) occ see_kinds = None -> att c = 0.
Proof.
  intros (_ & Hatt & _) Hnone. apply Z.bits_inj_0. intros s.
  destruct (Z.testbit (att c) s) eqn:Hb; [|done].
  destruct (Hatt c s Hb) as (Hocc & pk & Hpk & Hbit).
  pose proof (pick_attacker_none _ _ _ _ Hnone pk Hpk) as Hz.
  apply (f_equal (fun z => Z.testbit z s)) in Hz.
  rewrite !Z.land_spec, Hb, Hbit, Hocc, Z.bits_0 in Hz. done.
Qed.

Lemma pieces_cp_color c pk s :
  Z.testbit (pieces_cp P c pk) s = true -> Z.testbit (_by_color_bb P c) s = true.
Proof.
  unfold pieces_cp. rewrite Z.land_spec. by intros [? _]%andb_true_iff.
Qed.

Lemma fixed_ok_pick_some att occ c pk s :
  fixed_ok P att occ ->
  pick_attacker P c (att c) occ see_kinds = Some (pk, s) ->
  0 <= s < 64 /\ Z.testbit occ s = true
  /\ fixed_ok P (arr_set att c (bb_clear (att c) s)) (bb_clear occ s).
Proof.
  intros (Hocc & Hatt & Hdis) Hpick.
  destruct (pick_attacker_some _ _ _ _ _ _ Hpick) as (Hpk & Hne & ->).
  set (temp := Z.land (Z.land (att c) (pieces_cp P c pk)) occ) in *.
  assert (Htemp : forall x, Z.testbit temp x = true ->
            Z.testbit (att c) x = true
            /\ Z.testbit (pieces_cp P c pk) x = true
            /\ Z.testbit occ x = true).
  { intros x. unfold temp. rewrite !Z.land_spec, !andb_true_iff. tauto. }
  destruct (lsb_spec temp Hne) as [Hs Hb].
  { intros x Hx. apply Hocc. by apply Htemp. }
  destruct (Htemp _ Hb) as (Ha & Hp & Ho).
  split; [done|]. split; [done|]. split; [|split; [|done]].
  - intros x. rewrite testbit_bb_clear by done.
    intros [[H _]%andb_true_iff _]%andb_true_iff. by apply Hocc.
  - intros c' x. unfold arr_set. rewrite (testbit_bb_clear occ) by done.
    destruct (decide (c' = c)) as [->|Hc].
    + rewrite testbit_bb_clear by done.
      intros [[H Hr]%andb_true_iff Hx]%andb_true_iff.
      destruct (Hatt c x H) as (Hox & Hk). rewrite Hox, Hr, Hx. done.
    + intros H. destruct (Hatt c' x H) as (Hox & pk' & Hpk' & Hbit).
      rewrite Hox. rewrite (bool_decide_eq_true_2 _ (Hocc x Hox)).
      rewrite bool_decide_eq_false_2.
      * split; [done|]. by exists pk'.
      * intros ->. apply pieces_cp_color in Hbit, Hp.
        destruct c, c'; try done; by apply (Hdis (lsb temp)).
Qed.

Lemma see_unwind_app l1 l2 v :
  see_unwind PIECE_VALUE_eg (l1 ++ l2) v
  = see_unwind PIECE_VALUE_eg l2 (see_unwind PIECE_VALUE_eg l1 v).
Proof. revert v. induction l1 as [|x l1 IH]; intros v; [done|]. cbn. apply IH. Qed.

(** The loop of [see] ends, and unwinding the stack it leaves gives the
    value of the exchange played on the fixed attacker sets. *)
Lemma see_loop_fixed n :
  forall side att occ pks cur fuel fuel',
    fixed_ok P att occ ->
    (length (squares_of occ) <= n)%nat -> (n < fuel)%nat -> (n < fuel')%nat ->
    exists upper,
      see_loop fuel P side att occ pks cur = Some (pks ++ upper)
      /\ see_unwind PIECE_VALUE_eg (rev upper) 0
         = swap_fixed PIECE_VALUE_eg fuel' P (opp side) att occ cur.
Proof.
  induction n as [|n IH]; intros side att occ pks cur fuel fuel' Hok Hn Hf Hf'.
  - destruct fuel as [|fuel]; [lia|]. destruct fuel' as [|fuel']; [lia|].
    assert (Hz : att (opp side) = 0).
    { apply Z.bits_inj_0. intros s.
      destruct (Z.testbit (att (opp side)) s) eqn:Hb; [|done].
      destruct Hok as (Hocc & Hatt & _).
      destruct (Hatt _ _ Hb) as (Ho & _).
      rewrite (squares_of_nil occ) in Ho; [done| |by apply Hocc].
      destruct (squares_of occ); [done|cbn in Hn; lia]. }
    exists []. cbn [see_loop swap_fixed]. rewrite Hz, pick_attacker_zero.
    rewrite app_nil_r. done.
  - destruct fuel as [|fuel]; [lia|]. destruct fuel' as [|fuel']; [lia|].
    cbn [see_loop swap_fixed].
    destruct (Z.eqb_spec (att (opp side)) 0) as [Hz|Hz].
    + exists []. rewrite Hz, pick_attacker_zero, app_nil_r. done.
    + destruct (pick_attacker P (opp side) (att (opp side)) occ see_kinds)
        as [[pk s]|] eqn:Hpick.
      2:{ exfalso. apply Hz. by apply fixed_ok_pick_none with occ. }
      destruct (fixed_ok_pick_some _ _ _ _ _ Hok Hpick) as (Hs & Hb & Hok').
      pose proof (squares_of_bb_clear occ s Hs Hb) as Hlt.
      destruct (IH (opp side)
                  (arr_set att (opp side) (bb_clear (att (opp side)) s))
                  (bb_clear occ s) (pks ++ [cur]) pk fuel fuel' Hok')
        as (upper & Hloop & Hval); try lia.
      exists (cur :: upper). split.
      * rewrite Hloop. by rewrite <- app_assoc.
      * cbn [rev]. rewrite see_unwind_app. cbn [see_unwind]. by rewrite Hval.
Qed.
End SeeFixed.

Lemma see_occupied_range P m s :
  Z.testbit (see_occupied P m) s = true -> 0 <= s < 64.
Proof.
  pose proof (from_range m). pose proof (to_range m).
  unfold see_occupied.
  rewrite Z.land_spec, Z.lxor_spec, Z.lor_spec, testbit_ones_64,
    !testbit_square_bb by lia.
  destruct (decide (0 <= s < 64)) as [H1|H1]; [done|].
  rewrite (bool_decide_eq_false_2 _ H1).
  rewrite !bool_decide_eq_false_2 by lia.
  by rewrite andb_false_r.
Qed.

Lemma see_occupied_length P m :
  (length (squares_of (see_occupied P m)) <= 63)%nat.
Proof.
  pose proof (from_range m) as Hf.
  assert (H64 : length (filter (fun _ : Square => True) all_squares) = 64%nat)
    by (vm_compute; reflexivity).
  pose proof (filter_length_lt (fun _ : Square => True)
                (fun s => Is_true (Z.testbit (see_occupied P m) s))
                all_squares (from m)) as Hlt.
  unfold squares_of. rewrite H64 in Hlt.
  assert ((length (filter (fun s => Is_true (Z.testbit (see_occupied P m) s))
                     all_squares) < 64)%nat); [|lia].
  apply Hlt; try done.
  - by apply elem_of_all_squares.
  - intros Hb. apply Is_true_true in Hb. revert Hb. unfold see_occupied.
    rewrite Z.land_spec, Z.lxor_spec, Z.lor_spec, testbit_ones_64,
      !testbit_square_bb by (pose proof (to_range m); lia).
    rewrite (bool_decide_eq_true_2 (0 <= from m < 64)) by done.
    rewrite (bool_decide_eq_true_2 (from m = from m)) by done.
    cbn [orb xorb]. by rewrite andb_false_r.
Qed.

(** *** The choice of the attacker *)

Lemma head_filter_seq (Q : Z -> Prop) `{forall x, Decision (Q x)} a n s :
  s ∈ filter Q (map Z.of_nat (seq a n)) ->
  exists x l, filter Q (map Z.of_nat (seq a n)) = x :: l /\ x <= s.
Proof.
  revert a. induction n as [|n IH]; intros a Hs;
    [by apply elem_of_nil in Hs|].
  cbn [seq map] in *. rewrite filter_cons in *.
  destruct (decide (Q (Z.of_nat a))) as [Hq|Hq].
  - eexists _, _. split; [done|].
    apply elem_of_cons in Hs as [->|Hs]; [lia|].
    apply list_elem_of_filter in Hs as [_ Hs].
    apply list_elem_of_In, in_map_iff in Hs as (y & <- & Hy).
    apply in_seq in Hy. lia.
  - by apply IH.
Qed.

(** The square [pop_lsb] yields is the lowest square of the bitboard. *)
Lemma lsb_least bb s :
  0 <= s < 64 -> Z.testbit bb s = true -> lsb bb <= s.
Proof.
  intros Hs Hb. unfold lsb.
  assert (Hin : s ∈ squares_of bb) by by apply elem_of_squares_of.
  unfold squares_of, all_squares, Square in *.
  destruct (head_filter_seq _ _ _ _ Hin) as (x & l & -> & Hx). done.
Qed.

(** The inner [for] of [see] stops at the first kind, in the order pawn to
    king, of which an attacker is left: no kind before it has one. *)
Lemma pick_attacker_lowest P c a occ pk s :
  pick_attacker P c a occ see_kinds = Some (pk, s) ->
  forall k, k ∈ see_kinds -> kind_rank k < kind_rank pk ->
            Z.land (Z.land a (pieces_cp P c k)) occ = 0.
Proof.
  unfold see_kinds. cbn [pick_attacker].
  destruct (Z.eqb_spec (Z.land (Z.land a (pieces_cp P c PAWN)) occ) 0);
    cbn [negb].
  2:{ intros [= <- <-] k Hk Hr.
      repeat (apply elem_of_cons in Hk as [->|Hk]); cbn in Hr; try lia.
      by apply elem_of_nil in Hk. }
  destruct (Z.eqb_spec (Z.land (Z.land a (pieces_cp P c KNIGHT)) occ) 0);
    cbn [negb].
  2:{ intros [= <- <-] k Hk Hr.
      repeat (apply elem_of_cons in Hk as [->|Hk]); cbn in Hr;
        try lia; try done.
      by apply elem_of_nil in Hk. }
  destruct (Z.eqb_spec (Z.land (Z.land a (pieces_cp P c BISHOP)) occ) 0);
    cbn [negb].
  2:{ intros [= <- <-] k Hk Hr.
      repeat (apply elem_of_cons in Hk as [->|Hk]); cbn in Hr;
        try lia; try done.
      by apply elem_of_nil in Hk. }
  destruct (Z.eqb_spec (Z.land (Z.land a (pieces_cp P c ROOK)) occ) 0);
    cbn [negb].
  2:{ intros [= <- <-] k Hk Hr.
      repeat (apply elem_of_cons in Hk as [->|Hk]); cbn in Hr;
        try lia; try done.
      by apply elem_of_nil in Hk. }
  destruct (Z.eqb_spec (Z.land (Z.land a (pieces_cp P c QUEEN)) occ) 0);
    cbn [negb].
  2:{ intros [= <- <-] k Hk Hr.
      repeat (apply elem_of_cons in Hk as [->|Hk]); cbn in Hr;
        try lia; try done.
      by apply elem_of_nil in Hk. }
  destruct (Z.eqb_spec (Z.land (Z.land a (pieces_cp P c KING)) occ) 0);
    cbn [negb]; [done|].
  intros [= <- <-] k Hk Hr.
  repeat (apply elem_of_cons in Hk as [->|Hk]); cbn in Hr;
    try lia; try done.
  by apply elem_of_nil in Hk.
Qed.

Lemma kind_rank_inj k k' : kind_rank k = kind_rank k' -> k = k'.
Proof. by destruct k, k'. Qed.

Lemma weaker_total P s s' : weaker P s s' = false -> weaker P s' s = true.
Proof.
  unfold weaker. cbv zeta.
  intros [H1 H2]%orb_false_elim. apply orb_true_iff.
  apply Z.ltb_ge in H1. apply andb_false_iff in H2.
  destruct (Z.ltb_spec (kind_rank (make_piece_kind (piece_at P s')))
              (kind_rank (make_piece_kind (piece_at P s)))) as [Hlt|Hge];
    [by left|right].
  apply andb_true_iff. split; [apply Z.eqb_eq; lia|].
  destruct H2 as [H2|H2]; [apply Z.eqb_neq in H2; lia|].
  apply Z.leb_gt in H2. apply Z.leb_le. lia.
Qed.

Lemma weaker_trans P a b c :
  weaker P a b = true -> weaker P b c = true -> weaker P a c = true.
Proof.
  unfold weaker. cbv zeta. rewrite !orb_true_iff, !andb_true_iff,
    !Z.ltb_lt, !Z.eqb_eq, !Z.leb_le. lia.
Qed.

Lemma weaker_antisym P a b :
  weaker P a b = true -> weaker P b a = true -> a = b.
Proof.
  unfold weaker. cbv zeta. rewrite !orb_true_iff, !andb_true_iff,
    !Z.ltb_lt, !Z.eqb_eq, !Z.leb_le. lia.
Qed.

Lemma weaker_refl P a : weaker P a a = true.
Proof.
  unfold weaker. cbv zeta. rewrite orb_true_iff, andb_true_iff,
    Z.eqb_eq, Z.leb_le. right. lia.
Qed.

(** [weakest] yields a square of the list that is taken before every other
    square of the list, and it is the only such square. *)
Lemma weakest_min P l s :
  weakest P l = Some s -> s ∈ l /\ forall y, y ∈ l -> weaker P s y = true.
Proof.
  revert s. induction l as [|x l IH]; intros s; [done|]. cbn [weakest].
  destruct (weakest P l) as [s'|] eqn:E.
  - destruct (IH s' eq_refl) as [Hin Hmin].
    destruct (weaker P x s') eqn:W; intros [= <-].
    + split; [by left|]. intros y [->|Hy]%elem_of_cons;
        [apply weaker_refl|].
      apply weaker_trans with s'; [done|by apply Hmin].
    + split; [by right|]. intros y [->|Hy]%elem_of_cons;
        [by apply weaker_total|by apply Hmin].
  - intros [= <-]. destruct l as [|y l];
      [|cbn in E; destruct (weakest P l); [destruct (weaker P y _)|]; done].
    split; [by left|]. intros y [->|Hy]%elem_of_cons; [apply weaker_refl|].
    by apply elem_of_nil in Hy.
Qed.

Lemma weakest_none P l : weakest P l = None <-> l = [].
Proof.
  destruct l as [|x l]; [done|]. cbn.
  split; [|done]. destruct (weakest P l) as [s'|]; [|done].
  by destruct (weaker P x s').
Qed.

Lemma weakest_unique P l s :
  s ∈ l -> (forall y, y ∈ l -> weaker P s y = true) -> weakest P l = Some s.
Proof.
  intros Hin Hmin. destruct (weakest P l) as [s'|] eqn:E.
  - destruct (weakest_min P l s' E) as [Hin' Hmin']. f_equal.
    apply (weaker_antisym P); [by apply Hmin'|by apply Hmin].
  - apply weakest_none in E. subst. by apply elem_of_nil in Hin.
Qed.

(** *** The attackers of a square *)

Lemma testbit_fold_lor l acc s :
  Z.testbit (fold_left Z.lor l acc) s = true
  <-> Z.testbit acc s = true \/ exists b, b ∈ l /\ Z.testbit b s = true.
Proof.
  revert acc. induction l as [|x l IH]; intros acc; cbn [fold_left].
  - split; [by left|]. intros [H|(b & Hb & _)]; [done|].
    by apply elem_of_nil in Hb.
  - rewrite IH, Z.lor_spec, orb_true_iff. split.
    + intros [[H|H]|(b & Hb & H)]; [by left| |].
      * right. exists x. split; [by left|done].
      * right. exists b. split; [by right|done].
    + intros [H|(b & [->|Hb]%elem_of_cons & H)]; [by left; left| |].
      * left. by right.
      * right. by exists b.
Qed.

Lemma testbit_bb_union l s :
  Z.testbit (bb_union l) s = true <-> exists b, b ∈ l /\ Z.testbit b s = true.
Proof.
  unfold bb_union. rewrite testbit_fold_lor, Z.bits_0. split.
  - by intros [H|H].
  - by right.
Qed.

(** A ray on a board with blockers is part of the ray on the empty board. *)
Lemma ray_blockers fuel f r df dr blockers s :
  Z.testbit (ray fuel f r df dr blockers) s = true ->
  Z.testbit (ray fuel f r df dr 0) s = true.
Proof.
  revert f r. induction fuel as [|fuel IH]; intros f r; [done|].
  cbn [ray]. destruct (on_board (f + df) (r + dr)); [|done].
  rewrite !Z.lor_spec, !orb_true_iff, Z.bits_0.
  intros [H|H]; [by left|].
  destruct (Z.testbit blockers _); [by rewrite Z.bits_0 in H|].
  right. by apply IH.
Qed.

Lemma slider_attack_blockers k sq blockers s :
  Z.testbit (slider_attack k sq blockers) s = true ->
  Z.testbit (slider_attack k sq 0) s = true.
Proof.
  assert (Hrays : forall dirs,
    Z.testbit (rays dirs sq blockers) s = true ->
    Z.testbit (rays dirs sq 0) s = true).
  { intros dirs. unfold rays. rewrite !testbit_bb_union.
    intros (b & Hb & H).
    apply list_elem_of_In, in_map_iff in Hb as (d & <- & Hd).
    eexists. split; [|exact (ray_blockers _ _ _ _ _ blockers s H)].
    apply list_elem_of_In, in_map_iff. by exists d. }
  destruct k; cbn [slider_attack]; first [apply Hrays | intros H; exact H].
Qed.

(** No mask of a square holds the square itself. *)
Lemma masks_without_origin :
  forallb (fun sq =>
             negb (Z.testbit (pawn_attacks (square_bb sq) WHITE) sq)
             && negb (Z.testbit (pawn_attacks (square_bb sq) BLACK) sq)
             && negb (Z.testbit (KNIGHT_MASK sq) sq)
             && negb (Z.testbit (KING_MASK sq) sq)
             && negb (Z.testbit (slider_attack BISHOP sq 0) sq)
             && negb (Z.testbit (slider_attack ROOK sq 0) sq))
    all_squares = true.
Proof. by vm_compute. Qed.

Lemma square_attackers_not_self P sq c :
  0 <= sq < 64 -> Z.testbit (square_attackers P sq c) sq = false.
Proof.
  intros Hsq.
  assert (Hin : sq ∈ all_squares) by by apply elem_of_all_squares.
  pose proof (forallb_elem _ _ sq masks_without_origin Hin) as H.
  cbn beta in H.
  apply andb_true_iff in H as [H H6]. apply andb_true_iff in H as [H H5].
  apply andb_true_iff in H as [H H4]. apply andb_true_iff in H as [H H3].
  apply andb_true_iff in H as [H1 H2].
  apply negb_true_iff in H1, H2, H3, H4, H5, H6.
  unfold square_attackers. cbv zeta.
  rewrite !Z.lor_spec, !Z.land_spec, Z.bits_0.
  assert (Hp : Z.testbit (pawn_attacks (square_bb sq) (opp c)) sq = false)
    by (by destruct c).
  assert (Hb : Z.testbit (slider_attack BISHOP sq (pieces P)) sq = false).
  { destruct (Z.testbit (slider_attack BISHOP sq (pieces P)) sq) eqn:E;
      [|reflexivity].
    apply slider_attack_blockers in E. congruence. }
  assert (Hr : Z.testbit (slider_attack ROOK sq (pieces P)) sq = false).
  { destruct (Z.testbit (slider_attack ROOK sq (pieces P)) sq) eqn:E;
      [|reflexivity].
    apply slider_attack_blockers in E. congruence. }
  rewrite Hp, Hb, Hr, H3, H4. reflexivity.
Qed.

(** Every attacker is a pawn, knight, bishop, rook, queen or king of its
    colour, by the bitboards. *)
Lemma square_attackers_pieces P sq c s :
  Z.testbit (square_attackers P sq c) s = true ->
  exists k, k ∈ see_kinds /\ Z.testbit (pieces_cp P c k) s = true.
Proof.
  unfold square_attackers, pieces_cpp, see_kinds. cbv zeta.
  rewrite !Z.lor_spec, !Z.land_spec, Z.bits_0. intros H.
  repeat match type of H with
         | (_ || _) = true => apply orb_true_iff in H as [H|H]
         end;
    try discriminate H;
    apply andb_true_iff in H as [_ H];
    try (rewrite Z.lor_spec in H; apply orb_true_iff in H as [H|H]);
    (eexists; split; [|exact H]);
    apply (bool_decide_unpack _); by vm_compute.
Qed.

(** *** [square_attackers], read on the board *)

Lemma testbit_ray B df dr fuel :
  forall f r x,
    Z.testbit (ray fuel f r df dr B) x = true
    <-> exists n,
          1 <= n <= Z.of_nat fuel
          /\ x = make_square (r + n * dr) (f + n * df)
          /\ (forall k, 1 <= k <= n ->
                on_board (f + k * df) (r + k * dr) = true)
          /\ (forall k, 1 <= k < n ->
                Z.testbit B (make_square (r + k * dr) (f + k * df)) = false).
Proof.
  induction fuel as [|fuel IH]; intros f r x.
  - cbn [ray]. rewrite Z.bits_0. split; [done|]. intros (n & Hn & _). lia.
  - cbn [ray].
    destruct (on_board (f + df) (r + dr)) eqn:Hon.
    2:{ rewrite Z.bits_0. split; [done|].
        intros (n & Hn & _ & Hb & _). specialize (Hb 1 ltac:(lia)).
        replace (f + 1 * df) with (f + df) in Hb by lia.
        replace (r + 1 * dr) with (r + dr) in Hb by lia. congruence. }
    assert (Hq : 0 <= make_square (r + dr) (f + df)).
    { unfold on_board in Hon. unfold make_square.
      apply andb_true_iff in Hon as [Hon H4].
      apply andb_true_iff in Hon as [Hon H3].
      apply andb_true_iff in Hon as [H1 H2]. lia. }
    rewrite Z.lor_spec, orb_true_iff, testbit_square_bb by exact Hq.
    rewrite bool_decide_eq_true. split.
    + intros [->|H].
      * exists 1. split; [lia|]. split; [f_equal; lia|]. split.
        -- intros k Hk. replace k with 1 by lia.
           rewrite <- Hon. f_equal; lia.
        -- intros k Hk. lia.
      * destruct (Z.testbit B (make_square (r + dr) (f + df))) eqn:HB;
          [by rewrite Z.bits_0 in H|].
        apply IH in H as (n & Hn & -> & Hb & Hc).
        exists (n + 1). split; [lia|]. split; [f_equal; lia|]. split.
        -- intros k Hk. destruct (decide (k = 1)) as [->|Hk1].
           ++ rewrite <- Hon. f_equal; lia.
           ++ rewrite <- (Hb (k - 1)) by lia. f_equal; lia.
        -- intros k Hk. destruct (decide (k = 1)) as [->|Hk1].
           ++ rewrite <- HB. do 2 f_equal; lia.
           ++ rewrite <- (Hc (k - 1)) by lia. do 2 f_equal; lia.
    + intros (n & Hn & -> & Hb & Hc).
      destruct (decide (n = 1)) as [->|Hn1].
      * left. f_equal; lia.
      * right.
        assert (HB : Z.testbit B (make_square (r + dr) (f + df)) = false).
        { rewrite <- (Hc 1) by lia. do 2 f_equal; lia. }
        rewrite HB. apply IH. exists (n - 1). split; [lia|].
        split; [f_equal; lia|]. split.
        -- intros k Hk. rewrite <- (Hb (k + 1)) by lia. f_equal; lia.
        -- intros k Hk. rewrite <- (Hc (k + 1)) by lia. do 2 f_equal; lia.
Qed.

Lemma square_coords q :
  0 <= q < 64 ->
  0 <= file q < 8 /\ 0 <= rank q < 8 /\ q = make_square (rank q) (file q).
Proof.
  intros Hq. unfold file, rank, make_square.
  change 7 with (Z.ones 3). rewrite Z.land_ones, Z.shiftr_div_pow2 by lia.
  change (2 ^ 3) with 8. Z.to_euclidean_division_equations; lia.
Qed.

Lemma make_square_coords r f :
  on_board f r = true ->
  0 <= make_square r f < 64
  /\ file (make_square r f) = f /\ rank (make_square r f) = r.
Proof.
  unfold on_board. intros H.
  apply andb_true_iff in H as [H H4]. apply andb_true_iff in H as [H H3].
  apply andb_true_iff in H as [H1 H2].
  unfold file, rank, make_square.
  change 7 with (Z.ones 3). rewrite Z.land_ones, Z.shiftr_div_pow2 by lia.
  change (2 ^ 3) with 8. Z.to_euclidean_division_equations; lia.
Qed.

Lemma on_board_iff f r : on_board f r = true <-> 0 <= f < 8 /\ 0 <= r < 8.
Proof.
  unfold on_board. rewrite !andb_true_iff, !Z.leb_le, !Z.ltb_lt. lia.
Qed.

Lemma in_line_steps n : In n line_steps <-> 1 <= n <= 7.
Proof. unfold line_steps. cbn [In]. lia. Qed.

Lemma reaches_spec P s t d :
  reaches P s t d = true
  <-> exists n,
        1 <= n <= 7
        /\ file t = file s + n * fst d /\ rank t = rank s + n * snd d
        /\ (forall k, 1 <= k < n ->
              piece_at P (make_square (rank s + k * snd d)
                            (file s + k * fst d)) = NO_PIECE).
Proof.
  unfold reaches. rewrite existsb_exists. split.
  - intros (n & Hn & H). apply in_line_steps in Hn.
    apply andb_true_iff in H as [H Hk]. apply andb_true_iff in H as [Hf Hr].
    apply Z.eqb_eq in Hf, Hr. exists n. repeat split; try done; try lia.
    intros k Hkn. rewrite forallb_forall in Hk.
    specialize (Hk k (proj2 (in_line_steps k) ltac:(lia))).
    apply orb_true_iff in Hk as [Hk|Hk]; [apply Z.leb_le in Hk; lia|].
    by apply bool_decide_eq_true in Hk.
  - intros (n & Hn & Hf & Hr & Hk). exists n.
    split; [by apply in_line_steps|].
    rewrite !andb_true_iff, !Z.eqb_eq. repeat split; try done.
    apply forallb_forall. intros k Hkn. apply in_line_steps in Hkn.
    apply orb_true_iff. destruct (Z.leb_spec n k) as [Hle|Hlt]; [by left|].
    right. apply bool_decide_eq_true. apply Hk. lia.
Qed.

Section OnBoard.
Context {T : ZobristTable}.
Variable P : Position.
Hypothesis Hc : consistent P = true.

Lemma testbit_pieces q :
  Z.testbit (pieces P) q = true <-> 0 <= q < 64 /\ piece_at P q <> NO_PIECE.
Proof.
  destruct (consistent_sound P Hc) as [[_ Hco _ _] _ _ _ _ _ _ _].
  unfold pieces. rewrite Z.lor_spec, orb_true_iff, (Hco WHITE q), (Hco BLACK q).
  rewrite !bool_decide_eq_true. unfold piece_at. fold (cell (_board P) q).
  destruct (get_color (cell (_board P) q)); intuition congruence.
Qed.

Lemma testbit_pieces_cp c k s :
  Z.testbit (pieces_cp P c k) s = true
  <-> 0 <= s < 64 /\ piece_at P s <> NO_PIECE
      /\ get_color (piece_at P s) = c /\ make_piece_kind (piece_at P s) = k.
Proof.
  destruct (consistent_sound P Hc) as [[_ Hco Hki _] _ _ _ _ _ _ _].
  unfold pieces_cp. rewrite Z.land_spec, andb_true_iff, (Hco c s), (Hki k s).
  rewrite !bool_decide_eq_true. unfold piece_at. fold (cell (_board P) s).
  tauto.
Qed.

(** A square on a ray from [t], seen from the piece that stands on it. *)
Lemma ray_reaches s t df dr :
  0 <= s < 64 -> 0 <= t < 64 ->
  In (df, dr) (diagonals ++ straights) ->
  Z.testbit (ray 7 (file t) (rank t) df dr (pieces P)) s = true
  <-> reaches P s t (- df, - dr) = true.
Proof.
  intros Hs Ht Hd.
  destruct (square_coords s Hs) as (Hfs & Hrs & Es).
  destruct (square_coords t Ht) as (Hft & Hrt & Et).
  rewrite testbit_ray, reaches_spec. cbn [fst snd].
  change (Z.of_nat 7) with 7.
  assert (Hdir : (df = 1 \/ df = 0 \/ df = -1) /\ (dr = 1 \/ dr = 0 \/ dr = -1)).
  { unfold diagonals, straights in Hd. cbn [app In] in Hd.
    repeat (destruct Hd as [Hd|Hd]; [injection Hd as <- <-; lia|]). done. }
  split.
  - intros (n & Hn & Hx & Hon & Hbl).
    destruct (make_square_coords _ _ (Hon n ltac:(lia))) as (_ & Hf & Hr).
    rewrite <- Hx in Hf, Hr.
    exists n. split; [done|]. split; [lia|]. split; [lia|].
    intros k Hk.
    pose proof (Hbl (n - k) ltac:(lia)) as Hb.
    pose proof (Hon (n - k) ltac:(lia)) as Ho.
    destruct (make_square_coords _ _ Ho) as (Hq & _ & _).
    replace (make_square (rank s + k * - dr) (file s + k * - df))
      with (make_square (rank t + (n - k) * dr) (file t + (n - k) * df))
      by (f_equal; lia).
    destruct (decide (piece_at P (make_square (rank t + (n - k) * dr)
                                    (file t + (n - k) * df)) = NO_PIECE))
      as [E|E]; [done|].
    exfalso. assert (Hone : Z.testbit (pieces P) (make_square
               (rank t + (n - k) * dr) (file t + (n - k) * df)) = true)
      by (by apply testbit_pieces).
    congruence.
  - intros (n & Hn & Hf & Hr & Hk). exists n. split; [done|].
    split; [rewrite Es at 1; f_equal; lia|]. split.
    + intros k Hkn. apply on_board_iff.
      destruct Hdir as [[->|[->| ->]] [->|[->| ->]]]; lia.
    + intros k Hkn.
      destruct (Z.testbit (pieces P) (make_square (rank t + k * dr)
                                        (file t + k * df))) eqn:Hb; [|done].
      apply testbit_pieces in Hb as [_ Hb]. exfalso. apply Hb.
      rewrite <- (Hk (n - k)) by lia. f_equal. f_equal; lia.
Qed.
End OnBoard.

(** The masks of the leaping pieces and of the pawns, square by square. *)
Lemma masks_geometry :
  forallb (fun t =>
    forallb (fun s =>
      Bool.eqb (Z.testbit (KNIGHT_MASK t) s) (knight_hits s t)
      && Bool.eqb (Z.testbit (KING_MASK t) s) (king_hits s t)
      && Bool.eqb (Z.testbit (pawn_attacks (square_bb t) BLACK) s)
           (pawn_hits WHITE s t)
      && Bool.eqb (Z.testbit (pawn_attacks (square_bb t) WHITE) s)
           (pawn_hits BLACK s t))
      all_squares)
    all_squares = true.
Proof. by vm_compute. Qed.

Lemma masks_hits s t :
  0 <= s < 64 -> 0 <= t < 64 ->
  Z.testbit (KNIGHT_MASK t) s = knight_hits s t
  /\ Z.testbit (KING_MASK t) s = king_hits s t
  /\ (forall c, Z.testbit (pawn_attacks (square_bb t) (opp c)) s
                = pawn_hits c s t).
Proof.
  intros Hs Ht.
  pose proof (forallb_elem _ _ t masks_geometry
                (proj2 (elem_of_all_squares t) Ht)) as H.
  cbn beta in H.
  pose proof (forallb_elem _ _ s H (proj2 (elem_of_all_squares s) Hs)) as H'.
  cbn beta in H'. clear H.
  apply andb_true_iff in H' as [H' H4]. apply andb_true_iff in H' as [H' H3].
  apply andb_true_iff in H' as [H1 H2].
  apply Bool.eqb_prop in H1, H2, H3, H4.
  split; [done|]. split; [done|]. by intros [].
Qed.

Section AttackersOnBoard.
Context {T : ZobristTable}.
Variable P : Position.
Hypothesis Hc : consistent P = true.

Lemma ray_reaches_eq s t df dr :
  0 <= s < 64 -> 0 <= t < 64 ->
  In (df, dr) (diagonals ++ straights) ->
  Z.testbit (ray 7 (file t) (rank t) df dr (pieces P)) s
  = reaches P s t (- df, - dr).
Proof.
  intros Hs Ht Hd. apply eq_true_iff_eq. by apply ray_reaches.
Qed.

Lemma slider_attack_reaches s t :
  0 <= s < 64 -> 0 <= t < 64 ->
  Z.testbit (slider_attack BISHOP t (pieces P)) s
  = existsb (reaches P s t) diagonals
  /\ Z.testbit (slider_attack ROOK t (pieces P)) s
     = existsb (reaches P s t) straights.
Proof.
  intros Hs Ht. unfold slider_attack, rays, bb_union.
  cbn [map fold_left fst snd existsb diagonals straights].
  rewrite !Z.lor_spec, Z.bits_0.
  rewrite !ray_reaches_eq by (try done; cbn; tauto).
  change (- (1)) with (-1). change (- (-1)) with 1. change (- 0) with 0.
  split.
  - by destruct (reaches P s t (1, 1)), (reaches P s t (1, -1)),
      (reaches P s t (-1, 1)), (reaches P s t (-1, -1)).
  - by destruct (reaches P s t (1, 0)), (reaches P s t (-1, 0)),
      (reaches P s t (0, 1)), (reaches P s t (0, -1)).
Qed.

(** [square_attackers] marks the squares of the pieces of the colour that
    attack the square, and nothing else. *)
Lemma square_attackers_board t c s :
  0 <= t < 64 ->
  Z.testbit (square_attackers P t c) s = true
  <-> 0 <= s < 64 /\ piece_at P s <> NO_PIECE
      /\ get_color (piece_at P s) = c /\ attacks P s t = true.
Proof.
  intros Ht. unfold square_attackers, pieces_cpp. cbv zeta.
  rewrite !Z.lor_spec, !Z.land_spec, !Z.lor_spec, Z.bits_0. cbn [orb].
  destruct (decide (0 <= s < 64)) as [Hs|Hs].
  2:{ split; [|tauto]. intros H. exfalso. apply Hs.
      repeat match type of H with
             | (_ || _) = true => apply orb_true_iff in H as [H|H]
             end;
        apply andb_true_iff in H as [_ H];
        try (apply orb_true_iff in H as [H|H]);
        by apply testbit_pieces_cp in H as [H _]. }
  destruct (masks_hits s t Hs Ht) as (Hn & Hk & Hp).
  destruct (slider_attack_reaches s t Hs Ht) as [Hb Hr].
  rewrite Hn, Hk, Hp, Hb, Hr.
  assert (Hbit : forall k,
    Z.testbit (pieces_cp P c k) s
    = bool_decide (piece_at P s <> NO_PIECE /\ get_color (piece_at P s) = c
                   /\ make_piece_kind (piece_at P s) = k)).
  { intros k. apply eq_true_iff_eq. rewrite testbit_pieces_cp by done.
    rewrite bool_decide_eq_true. tauto. }
  rewrite !Hbit. unfold attacks.
  destruct (decide (piece_at P s = NO_PIECE)) as [E|E].
  { rewrite !bool_decide_eq_false_2 by tauto.
    rewrite !andb_false_r. cbn [orb]. split; [done|tauto]. }
  destruct (decide (get_color (piece_at P s) = c)) as [Ec|Ec].
  2:{ rewrite !bool_decide_eq_false_2 by tauto.
      rewrite !andb_false_r. cbn [orb]. split; [done|tauto]. }
  rewrite Ec. rewrite existsb_app.
  destruct (make_piece_kind (piece_at P s)) eqn:Ek;
    repeat match goal with
    | |- context [bool_decide ?Q] =>
        first [rewrite (bool_decide_eq_true_2 Q) by done
              | rewrite (bool_decide_eq_false_2 Q) by (intros (_ & _ & ?); done)]
    end;
    rewrite ?andb_true_r, ?andb_false_r, ?orb_false_r; cbn [orb];
    try (split; [done|tauto]);
    try (split; [intros ->; tauto|tauto]).
Qed.
End AttackersOnBoard.

(** *** The value of [see] is the value of the exchange *)

Section SeeExchange.
Context {T : ZobristTable}.
Variable PIECE_VALUE_eg : PieceKind -> Z.

(** A bit of the bitboard of a colour and a kind, read on the board. *)
Lemma pieces_cp_board P c k s :
  consistent P = true ->
  Z.testbit (pieces_cp P c k) s = true ->
  0 <= s < 64 /\ piece_at P s <> NO_PIECE
  /\ get_color (piece_at P s) = c /\ make_piece_kind (piece_at P s) = k.
Proof.
  intros Hc. destruct (consistent_sound P Hc) as [[Hl Hco Hki _] _ _ _ _ _ _ _].
  unfold pieces_cp. rewrite Z.land_spec. intros [H1 H2]%andb_true_iff.
  rewrite (Hco c s) in H1. rewrite (Hki k s) in H2.
  apply bool_decide_eq_true in H1, H2. unfold piece_at.
  fold (cell (_board P) s). tauto.
Qed.

Lemma see_start_ok P m :
  consistent P = true -> plain_capture P m = true ->
  fixed_ok P (see_attackers P m) (see_occupied P m).
Proof.
  intros Hc Hm. unfold plain_capture in Hm.
  apply andb_true_iff in Hm as [Hm Hto]. apply andb_true_iff in Hm as [_ Hfrom].
  apply bool_decide_eq_true in Hto as [Hto1 Hto2].
  apply bool_decide_eq_true in Hfrom as [Hfrom1 Hfrom2].
  pose proof (from_range m) as Hfr. pose proof (to_range m) as Htr.
  assert (Hatt : forall c s,
    Z.testbit (see_attackers P m c) s = true ->
    Z.testbit (square_attackers P (to m) c) s = true
    /\ (c = color P -> s <> from m)).
  { intros c s. unfold see_attackers, arr_set.
    destruct (decide (c = color P)) as [->|Hne].
    - rewrite testbit_bb_clear by done.
      intros [[H _]%andb_true_iff Hs]%andb_true_iff.
      split; [done|]. intros _ ->.
      by rewrite (bool_decide_eq_true_2 (from m = from m)) in Hs.
    - intros H. split; [done|]. intros E. done. }
  split; [apply see_occupied_range|]. split.
  - intros c s Hb. destruct (Hatt c s Hb) as [Hsa Hnf].
    destruct (square_attackers_pieces P (to m) c s Hsa) as (k & Hk & Hbit).
    split; [|by exists k].
    destruct (pieces_cp_board P c k s Hc Hbit) as (Hs & Hne & Hcol & _).
    assert (Hsf : s <> from m).
    { destruct (decide (c = color P)) as [E|E]; [by apply Hnf|].
      intros ->. congruence. }
    assert (Hst : s <> to m).
    { intros ->.
      by rewrite (square_attackers_not_self P (to m) c Htr) in Hsa. }
    unfold see_occupied, pieces.
    rewrite Z.land_spec, Z.lxor_spec, !Z.lor_spec, testbit_ones_64,
      !testbit_square_bb by lia.
    rewrite (bool_decide_eq_true_2 (0 <= s < 64)) by done.
    rewrite (bool_decide_eq_false_2 (s = from m)) by done.
    rewrite (bool_decide_eq_false_2 (s = to m)) by done.
    cbn [orb xorb]. rewrite andb_true_r.
    apply pieces_cp_color in Hbit. destruct c; rewrite Hbit; [done|].
    apply orb_true_r.
  - intros s Hw Hb.
    destruct (consistent_sound P Hc) as [[_ Hco _ _] _ _ _ _ _ _ _].
    rewrite (Hco WHITE s) in Hw. rewrite (Hco BLACK s) in Hb.
    apply bool_decide_eq_true in Hw, Hb. destruct Hw as (_ & _ & Hw).
    destruct Hb as (_ & _ & Hb). congruence.
Qed.

(** The choice the loop of [see] makes is the weakest attacker left. *)
Lemma pick_attacker_weakest P att occ c pk s :
  consistent P = true -> fixed_ok P att occ ->
  pick_attacker P c (att c) occ see_kinds = Some (pk, s) ->
  weakest P (filter (fun x => Z.testbit (att c) x = true) all_squares)
  = Some s
  /\ make_piece_kind (piece_at P s) = pk.
Proof.
  intros Hc Hok Hpick.
  pose proof (pick_attacker_lowest _ _ _ _ _ _ Hpick) as Hlow.
  destruct (pick_attacker_some _ _ _ _ _ _ _ Hpick) as (Hpk & Hne & Hs).
  destruct Hok as (Hocc & Hatt & _).
  set (temp := Z.land (Z.land (att c) (pieces_cp P c pk)) occ) in *.
  assert (Htemp : forall x, Z.testbit temp x = true <->
            Z.testbit (att c) x = true
            /\ Z.testbit (pieces_cp P c pk) x = true
            /\ Z.testbit occ x = true).
  { intros x. unfold temp. rewrite !Z.land_spec, !andb_true_iff. tauto. }
  destruct (lsb_spec temp Hne) as [Hsr Hsb].
  { intros x Hx. apply Hocc. by apply Htemp. }
  rewrite <- Hs in Hsr, Hsb.
  destruct (proj1 (Htemp s) Hsb) as (Hsa & Hsp & Hso).
  destruct (pieces_cp_board P c pk s Hc Hsp) as (_ & _ & _ & Hkind).
  split; [|exact Hkind].
  apply weakest_unique.
  - apply list_elem_of_filter. split; [done|by apply elem_of_all_squares].
  - intros y [Hya Hyr]%list_elem_of_filter.
    apply elem_of_all_squares in Hyr.
    destruct (Hatt c y Hya) as (Hyo & ky & Hky & Hyp).
    destruct (pieces_cp_board P c ky y Hc Hyp) as (_ & _ & _ & Hykind).
    unfold weaker. cbv zeta. rewrite Hkind, Hykind.
    apply orb_true_iff.
    destruct (Z.lt_trichotomy (kind_rank pk) (kind_rank ky)) as [Hlt|[E|Hgt]].
    + left. by apply Z.ltb_lt.
    + right. apply andb_true_iff. split; [by apply Z.eqb_eq|].
      apply kind_rank_inj in E. apply Z.leb_le. rewrite Hs.
      apply lsb_least; [done|]. apply Htemp. rewrite E. by repeat split.
    + exfalso. pose proof (Hlow ky Hky Hgt) as Hz.
      apply (f_equal (fun z => Z.testbit z y)) in Hz.
      rewrite !Z.land_spec, Hya, Hyp, Hyo, Z.bits_0 in Hz. done.
Qed.

Lemma filter_ext_elem {A} (Q Q' : A -> Prop) `{forall x, Decision (Q x)}
    `{forall x, Decision (Q' x)} (l : list A) :
  (forall x, x ∈ l -> (Q x <-> Q' x)) -> filter Q l = filter Q' l.
Proof.
  induction l as [|x l IH]; intros Hl; [done|].
  rewrite !filter_cons.
  assert (Hx : Q x <-> Q' x) by (apply Hl; by left).
  rewrite IH by (intros y Hy; apply Hl; by right).
  destruct (decide (Q x)), (decide (Q' x)); tauto.
Qed.

Lemma filter_cleared a s :
  0 <= s < 64 ->
  filter (fun x => Z.testbit (bb_clear a s) x = true) all_squares
  = filter (fun x => x <> s)
      (filter (fun x => Z.testbit a x = true) all_squares).
Proof.
  intros Hs. rewrite list_filter_filter. apply filter_ext_elem.
  intros x Hx. apply elem_of_all_squares in Hx.
  rewrite testbit_bb_clear by done.
  rewrite (bool_decide_eq_true_2 (0 <= x < 64)) by done.
  rewrite andb_true_r, andb_true_iff, negb_true_iff.
  rewrite bool_decide_eq_false. tauto.
Qed.

(** The loop of [see], read as a recursion, is the exchange: at every
    state the loop can reach, what the loop goes on to compute is what the
    exchange from the attackers left is worth. *)
Lemma swap_fixed_swap_off P fuel :
  consistent P = true ->
  forall side att occ left standing,
    fixed_ok P att occ ->
    (forall c, left c
               = filter (fun x => Z.testbit (att c) x = true) all_squares) ->
    swap_fixed PIECE_VALUE_eg fuel P side att occ standing
    = swap_off PIECE_VALUE_eg fuel P side left standing.
Proof.
  intros Hc. induction fuel as [|fuel IH];
    intros side att occ left standing Hok Hleft; [done|].
  cbn [swap_fixed swap_off].
  destruct (pick_attacker P side (att side) occ see_kinds) as [[pk s]|]
    eqn:Hpick.
  - destruct (pick_attacker_weakest P att occ side pk s Hc Hok Hpick)
      as [Hw Hkind].
    destruct (fixed_ok_pick_some PIECE_VALUE_eg _ _ _ _ _ _ Hok Hpick)
      as (Hs & _ & Hok').
    rewrite (Hleft side), Hw, Hkind. f_equal. f_equal.
    apply IH; [exact Hok'|].
    intros c. unfold arr_set. destruct (decide (c = side)) as [->|Hne].
    + by rewrite filter_cleared.
    + apply Hleft.
  - pose proof (fixed_ok_pick_none _ _ _ _ Hok Hpick) as Hz.
    rewrite (Hleft side), Hz.
    replace (filter (fun x => Z.testbit 0 x = true) all_squares)
      with (@nil Square); [done|].
    symmetry. rewrite (filter_ext_elem _ (fun _ => False)).
    + generalize all_squares. intros l.
      induction l as [|x l IHl]; [done|].
      rewrite filter_cons. by destruct (decide False).
    + intros x _. by rewrite Z.bits_0.
Qed.

(** C7 (as amended). Let [P] be a consistent position and [m] a capture of
    the piece on the destination square by a piece of the side to move,
    without promotion. Then the capture loop of [see] ends within 65 rounds
    and [see] returns the value of the swap-off on the destination square
    played with the attackers of the square as they are on the full board
    before the first capture: the first capture is forced and wins the
    piece taken, and from then on the side to move either stops or takes
    with the weakest attacker it has left (lowest kind in the order pawn to
    king, on the lowest square among those), losing the piece that stands
    on the square to the same choice of the other side. Pieces standing
    behind a piece that has captured never join the exchange. *)
Theorem see_is_fixed_exchange P m fuel fuel' :
  consistent P = true -> plain_capture P m = true ->
  (65 <= fuel)%nat -> (64 <= fuel')%nat ->
  see_fuel PIECE_VALUE_eg fuel P m
  = Some (see_swap_off PIECE_VALUE_eg fuel' P m).
Proof.
  intros Hc Hm Hfuel Hfuel'.
  pose proof (see_start_ok P m Hc Hm) as Hok.
  destruct (see_loop_fixed PIECE_VALUE_eg P 63 (color P) (see_attackers P m)
              (see_occupied P m) [get_piece_kind (piece_at P (to m))]
              (get_piece_kind (piece_at P (from m))) fuel fuel' Hok
              (see_occupied_length P m) ltac:(lia) ltac:(lia))
    as (upper & Hloop & Hval).
  unfold see_fuel, see_pks. cbn zeta.
  change (see_loop fuel P (color P) (see_attackers P m) (see_occupied P m)
            [get_piece_kind (piece_at P (to m))]
            (get_piece_kind (piece_at P (from m))))
    with (see_loop fuel P (color P)
            (arr_set (fun c => square_attackers P (to m) c) (color P)
               (bb_clear (square_attackers P (to m) (color P)) (from m)))
            (Z.land (pieces P)
               (Z.lxor (Z.ones 64)
                  (Z.lor (square_bb (from m)) (square_bb (to m)))))
            [get_piece_kind (piece_at P (to m))]
            (get_piece_kind (piece_at P (from m)))) in Hloop.
  rewrite Hloop. cbn [app see_value]. rewrite Hval.
  unfold see_swap_off. cbv zeta. unfold get_piece_kind. do 2 f_equal.
  apply swap_fixed_swap_off; [done|done|].
  assert (Hon : forall c,
    attackers_on P (to m) c
    = filter (fun x => Z.testbit (square_attackers P (to m) c) x = true)
        all_squares).
  { intros c. unfold attackers_on. apply filter_ext_elem. intros x Hx.
    apply elem_of_all_squares in Hx.
    rewrite (square_attackers_board P Hc (to m) c x (to_range m)). tauto. }
  intros c. unfold see_attackers, arr_set. rewrite !Hon.
  destruct (decide (c = color P)) as [->|Hne]; [|done].
  symmetry. apply filter_cleared, from_range.
Qed.
End SeeExchange.

Lemma see_is_fixed_exchange_witness :
  consistent (T := example_table) doubled_rooks = true
  /\ plain_capture doubled_rooks (uci_move "a2a7") = true
  /\ see_fuel example_values 65 doubled_rooks (uci_move "a2a7")
     = Some (see_swap_off example_values 64 doubled_rooks (uci_move "a2a7")).
Proof.
  assert (Hc : consistent (T := example_table) doubled_rooks = true)
    by (vm_compute; reflexivity).
  assert (Hm : plain_capture doubled_rooks (uci_move "a2a7") = true)
    by (vm_compute; reflexivity).
  split; [exact Hc|]. split; [exact Hm|].
  apply (see_is_fixed_exchange (T := example_table) example_values
           doubled_rooks (uci_move "a2a7") 65 64 Hc Hm); lia.
Defined.

Lemma see_misses_xray_attacker :
  see_fuel example_values 65 doubled_rooks (uci_move "a2a7") = Some (-400)
  /\ see_xray example_values doubled_rooks (uci_move "a2a7") = 100.
Proof. vm_compute. split; reflexivity. Qed.

Lemma see_of_enpassant_capture :
  plain_capture enpassant_pawns (uci_move "e5d6") = false
  /\ piece_at enpassant_pawns (to (uci_move "e5d6")) = NO_PIECE
  /\ enpassant
       (do_move (T := example_table) enpassant_pawns (uci_move "e5d6")).2
     = true
  /\ _piece_count enpassant_pawns B_PAWN = 1
  /\ _piece_count
       (do_move (T := example_table) enpassant_pawns (uci_move "e5d6")).1
       B_PAWN = 0
  /\ see_fuel example_values 65 enpassant_pawns (uci_move "e5d6") = Some 0
  /\ plain_capture plain_pawns (uci_move "e4d5") = true
  /\ see_fuel example_values 65 plain_pawns (uci_move "e4d5") = Some 100.
Proof. by vm_compute. Qed.

(** ** Writing a position as FEN and reading it back *)

Lemma piece_char_spec pc :
  pc <> NO_PIECE ->
  is_space (piece_to_char pc) = false
  /\ Ascii.eqb (piece_to_char pc) "/" = false
  /\ is_digit (piece_to_char pc) = false
  /\ char_to_piece (piece_to_char pc) = pc.
Proof. destruct pc; try done; intros _; vm_compute; done. Qed.

Lemma digit_char_spec n :
  0 < n <= 8 ->
  let d := chr (code "0" + n) in
  is_space d = false /\ Ascii.eqb d "/" = false /\ is_digit d = true
  /\ code d - code "0" = n.
Proof.
  intros H. destruct n as [|p|p]; [lia| |lia].
  do 4 (try destruct p as [p|p|]); first [lia | by vm_compute].
Qed.

Lemma fold_left_fen_place_digit Q sq n l :
  0 < n <= 8 ->
  fold_left fen_place (chr (code "0" + n) :: l) (Q, sq)
  = fold_left fen_place l (Q, sq + n).
Proof.
  intros H. destruct (digit_char_spec n H) as (_ & H1 & H2 & H3).
  cbn [fold_left]. unfold fen_place at 2. by rewrite H1, H2, H3.
Qed.

Lemma fold_left_fen_place_piece Q sq pc l :
  pc <> NO_PIECE ->
  fold_left fen_place (piece_to_char pc :: l) (Q, sq)
  = fold_left fen_place l (place_piece Q pc sq, sq + 1).
Proof.
  intros H. destruct (piece_char_spec pc H) as (_ & H1 & H2 & H3).
  cbn [fold_left]. unfold fen_place at 2. by rewrite H1, H2, H3.
Qed.

Lemma fold_left_fen_place_pending Q sq n l :
  0 <= n <= 8 ->
  fold_left fen_place
    ((if 0 <? n then [chr (code "0" + n)] else []) ++ l) (Q, sq)
  = fold_left fen_place l (Q, sq + n).
Proof.
  intros H. destruct (Z.ltb_spec 0 n).
  - cbn [app]. apply fold_left_fen_place_digit. lia.
  - cbn [app]. by replace n with 0 by lia; rewrite Z.add_0_r.
Qed.

Lemma fen_rank_cons P r f files counter :
  fen_rank P r (f :: files) counter
  = if decide (cell (_board P) (make_square r f) = NO_PIECE)
    then fen_rank P r files (counter + 1)
    else (if 0 <? counter then [chr (code "0" + counter)] else [])
         ++ piece_to_char (cell (_board P) (make_square r f))
            :: fen_rank P r files 0.
Proof. reflexivity. Qed.

Lemma placements_of_cons b s L :
  placements_of b (s :: L)
  = if decide (cell b s = NO_PIECE) then placements_of b L
    else (cell b s, s) :: placements_of b L.
Proof.
  unfold placements_of. cbn [omap list_omap].
  by destruct (decide (cell b s = NO_PIECE)).
Qed.

(** Reading the text of one rank. *)
Lemma fen_rank_parse P r n :
  forall f0 counter Q l,
    0 <= counter <= f0 -> f0 + Z.of_nat n = 8 ->
    fold_left fen_place (fen_rank P r (zseq f0 n) counter ++ l)
      (Q, 8 * r + f0 - counter)
    = fold_left fen_place l
        (place_all Q (placements_of (_board P)
                        (map (make_square r) (zseq f0 n))),
         8 * r + 8).
Proof.
  induction n as [|n IH]; intros f0 counter Q l Hc Hf.
  - cbn [zseq fen_rank map]. unfold placements_of, place_all.
    cbn [omap list_omap fold_left].
    rewrite fold_left_fen_place_pending by lia. f_equal. f_equal. lia.
  - cbn [zseq map]. rewrite fen_rank_cons, placements_of_cons.
    destruct (decide (cell (_board P) (make_square r f0) = NO_PIECE))
      as [E|E].
    + replace (8 * r + f0 - counter)
        with (8 * r + (f0 + 1) - (counter + 1)) by lia.
      apply IH; lia.
    + rewrite <- app_assoc. rewrite fold_left_fen_place_pending by lia.
      cbn [app]. rewrite fold_left_fen_place_piece by done.
      replace (8 * r + f0 - counter + counter + 1)
        with (8 * r + (f0 + 1) - 0) by lia.
      rewrite IH by lia. unfold place_all. cbn [fold_left fst snd].
      do 4 f_equal. unfold make_square. lia.
Qed.

Lemma placements_of_app b l1 l2 :
  placements_of b (l1 ++ l2) = placements_of b l1 ++ placements_of b l2.
Proof. apply omap_app. Qed.

Lemma place_all_app Q l1 l2 :
  place_all Q (l1 ++ l2) = place_all (place_all Q l1) l2.
Proof. apply fold_left_app. Qed.

(** Reading the placement field. *)
Lemma fen_ranks_parse P n :
  forall Q sq,
    (n <> O -> sq = 8 * (Z.of_nat n - 1)) -> (n <= 8)%nat ->
    (fold_left fen_place (fen_ranks P (ranks_down n)) (Q, sq)).1
    = place_all Q (placements_of (_board P) (fen_order (ranks_down n))).
Proof.
  induction n as [|n IH]; intros Q sq Hsq Hn; [done|].
  cbn [ranks_down fen_ranks]. unfold fen_order. cbn [map concat].
  fold (fen_order (ranks_down n)).
  rewrite placements_of_app, place_all_app.
  rewrite (Hsq ltac:(done)).
  replace (8 * (Z.of_nat (S n) - 1)) with (8 * Z.of_nat n + 0 - 0) by lia.
  change all_files with (zseq 0 8).
  rewrite (fen_rank_parse P (Z.of_nat n) 8 0 0) by lia.
  destruct (Z.ltb_spec 0 (Z.of_nat n)).
  - cbn [app fold_left]. unfold fen_place at 2.
    cbn [Ascii.eqb eqb Bool.eqb].
    apply IH; [|lia]. intros _. lia.
  - cbn [app]. destruct n; [|lia]. reflexivity.
Qed.

(** ** The placements, one after the other *)

Lemma board_place_piece Q pc sq :
  _board (place_piece Q pc sq) = <[Z.to_nat sq := pc]> (_board Q).
Proof. reflexivity. Qed.

Lemma count_place_piece Q pc sq :
  _piece_count (place_piece Q pc sq)
  = arr_set (_piece_count Q) pc (_piece_count Q pc + 1).
Proof. reflexivity. Qed.

Lemma ppos_place_piece Q pc sq :
  _piece_position (place_piece Q pc sq)
  = arr_set (_piece_position Q) pc
      (<[Z.to_nat (_piece_count Q pc) := sq]> (_piece_position Q pc)).
Proof. reflexivity. Qed.

(** The fields the placements leave alone. *)
Lemma place_all_scalars Q l :
  let Q' := place_all Q l in
  _current_side Q' = _current_side Q
  /\ _castling_rights Q' = _castling_rights Q
  /\ _enpassant_square Q' = _enpassant_square Q
  /\ _ply_counter Q' = _ply_counter Q
  /\ _history Q' = _history Q.
Proof.
  revert Q. induction l as [|[pc sq] l IH]; intros Q; [done|].
  cbn zeta. unfold place_all. cbn [fold_left fst snd].
  destruct (IH (place_piece Q pc sq)) as (H1 & H2 & H3 & H4 & H5).
  unfold place_all in *. cbn zeta in *.
  rewrite H1, H2, H3, H4, H5. done.
Qed.

(** The number of squares holding a piece, and the count of its list. *)
Lemma count_as_filter b cnt pos pc :
  listed_on b cnt pos -> pc <> NO_PIECE ->
  cnt pc = Z.of_nat (length (filter (fun s => cell b s = pc) all_squares)).
Proof.
  intros Hl Hpc.
  rewrite <- (Permutation_length (live_perm b cnt pos pc Hl Hpc)).
  rewrite live_of_length by apply Hl. pose proof (lo_count _ _ _ Hl pc). lia.
Qed.

Section Placing.
Variable b : list Piece.
Hypothesis Hroom : forall pc, pc <> NO_PIECE ->
  (length (filter (fun s => cell b s = pc) all_squares) <= 10)%nat.

Lemma partly_place_piece Q s0 :
  partly b Q -> 0 <= s0 < 64 -> cell (_board Q) s0 = NO_PIECE ->
  cell b s0 <> NO_PIECE ->
  partly b (place_piece Q (cell b s0) s0).
Proof.
  intros [Hl Hsub] Hs0 Hempty Hpc.
  pose proof (lo_board _ _ _ Hl) as Hlen. split.
  - unfold listed.
    rewrite board_place_piece, count_place_piece, ppos_place_piece.
    apply listed_on_add; try done.
    rewrite (count_as_filter _ _ _ _ Hl Hpc).
    specialize (Hroom _ Hpc).
    pose proof (filter_length_lt (fun s => cell b s = cell b s0)
                  (fun s => cell (_board Q) s = cell b s0) all_squares s0)
      as Hlt.
    cut ((length (filter (fun s => cell (_board Q) s = cell b s0) all_squares)
          < length (filter (fun s => cell b s = cell b s0) all_squares))%nat);
      [lia|].
    apply Hlt.
    + intros x Hx Hq. apply elem_of_all_squares in Hx.
      destruct (Hsub x Hx) as [E|E]; congruence.
    + by apply elem_of_all_squares.
    + done.
    + congruence.
  - intros s Hs. rewrite board_place_piece, cell_insert by (done || lia).
    case_decide as E; [subst; by right|by apply Hsub].
Qed.

Lemma place_all_spec L :
  forall Q, NoDup L -> (forall s, s ∈ L -> 0 <= s < 64) -> partly b Q ->
    (forall s, s ∈ L -> cell (_board Q) s = NO_PIECE) ->
    let Q' := place_all Q (placements_of b L) in
    listed Q'
    /\ forall s, 0 <= s < 64 ->
         cell (_board Q') s
         = if decide (s ∈ L) then cell b s else cell (_board Q) s.
Proof.
  induction L as [|s0 L IH]; intros Q Hnd Hr Hp Hempty.
  - cbn zeta. unfold placements_of, place_all. cbn [omap list_omap fold_left].
    split; [apply Hp|]. intros s Hs. rewrite decide_False; [done|].
    apply not_elem_of_nil.
  - apply NoDup_cons in Hnd as [Hs0 Hnd].
    assert (Hr0 : 0 <= s0 < 64) by (apply Hr; apply elem_of_cons; by left).
    assert (Hr' : forall s, s ∈ L -> 0 <= s < 64)
      by (intros s Hs; apply Hr; apply elem_of_cons; by right).
    assert (He0 : cell (_board Q) s0 = NO_PIECE)
      by (apply Hempty; apply elem_of_cons; by left).
    assert (He' : forall s, s ∈ L -> cell (_board Q) s = NO_PIECE)
      by (intros s Hs; apply Hempty; apply elem_of_cons; by right).
    pose proof (lo_board _ _ _ (proj1 Hp)) as Hlen.
    cbn zeta. rewrite placements_of_cons.
    destruct (decide (cell b s0 = NO_PIECE)) as [E|E].
    + destruct (IH Q Hnd Hr' Hp He') as [Hl Hb]. split; [exact Hl|].
      intros s Hs. rewrite (Hb s Hs).
      destruct (decide (s = s0)) as [->|Hne].
      * rewrite decide_False by done.
        rewrite decide_True by (apply elem_of_cons; by left). congruence.
      * destruct (decide (s ∈ L)) as [Hin|Hin].
        -- by rewrite decide_True by (apply elem_of_cons; by right).
        -- rewrite decide_False; [done|].
           rewrite elem_of_cons. tauto.
    + unfold place_all. cbn [fold_left fst snd].
      fold (place_all (place_piece Q (cell b s0) s0) (placements_of b L)).
      destruct (IH (place_piece Q (cell b s0) s0) Hnd Hr') as [Hl Hb].
      * by apply partly_place_piece.
      * intros s Hs. rewrite board_place_piece, cell_insert
          by (done || apply Hr' in Hs; lia).
        rewrite decide_False by (intros ->; done). by apply He'.
      * split; [exact Hl|]. intros s Hs. rewrite (Hb s Hs).
        rewrite board_place_piece, cell_insert by (done || lia).
        destruct (decide (s = s0)) as [->|Hne].
        -- rewrite decide_False by done.
           by rewrite decide_True by (apply elem_of_cons; by left).
        -- destruct (decide (s ∈ L)) as [Hin|Hin].
           ++ by rewrite decide_True by (apply elem_of_cons; by right).
           ++ rewrite decide_False; [done|].
              rewrite elem_of_cons. tauto.
Qed.
End Placing.

Lemma cell_blank s : cell (_board blank_position) s = NO_PIECE.
Proof.
  unfold cell. cbn [_board blank_position].
  destruct (decide (Z.to_nat s < 64)%nat) as [H|H].
  - apply list_lookup_total_correct. by apply lookup_replicate_2.
  - rewrite list_lookup_total_alt, lookup_ge_None_2; [done|].
    rewrite length_replicate. lia.
Qed.

Lemma listed_blank : listed blank_position.
Proof.
  split.
  - reflexivity.
  - intros pc. reflexivity.
  - intros pc. cbn. lia.
  - reflexivity.
  - intros pc. apply NoDup_nil_2.
  - intros pc sq Hpc. unfold live_of. cbn [blank_position _piece_count
      _piece_position Z.to_nat take]. rewrite take_0, cell_blank. split.
    + intros H. by apply elem_of_nil in H.
    + intros [_ Hc]. congruence.
Qed.

Lemma fen_order_spec :
  NoDup (fen_order (ranks_down 8))
  /\ forall s, s ∈ fen_order (ranks_down 8) <-> 0 <= s < 64.
Proof.
  split.
  - apply (bool_decide_unpack _). vm_compute. exact I.
  - intros s. rewrite <- elem_of_all_squares.
    assert (H1 : Forall (fun x => x ∈ all_squares) (fen_order (ranks_down 8)))
      by (apply (bool_decide_unpack _); vm_compute; exact I).
    assert (H2 : Forall (fun x => x ∈ fen_order (ranks_down 8)) all_squares)
      by (apply (bool_decide_unpack _); vm_compute; exact I).
    rewrite Forall_forall in H1, H2. split; [apply H1|apply H2].
Qed.

(** The placement field of [fen] read back: the board is the one written,
    and the piece lists agree with it. *)
Lemma placement_round_trip P :
  listed P ->
  let Q := (fold_left fen_place (fen_ranks P (ranks_down 8))
              (blank_position, SQ_A8)).1 in
  listed Q /\ _board Q = _board P
  /\ _current_side Q = WHITE /\ _castling_rights Q = NO_CASTLING
  /\ _ply_counter Q = 0
  /\ _history Q = replicate (Z.to_nat MAX_PLIES) 0.
Proof.
  intros Hl. cbn zeta.
  rewrite (fen_ranks_parse P 8) by done.
  destruct fen_order_spec as [Hnd Hall].
  destruct (place_all_spec (_board P)) with
    (L := fen_order (ranks_down 8)) (Q := blank_position) as [HlQ Hb];
    try done.
  - intros pc Hpc. pose proof (count_as_filter _ _ _ pc Hl Hpc) as E.
    pose proof (lo_count _ _ _ Hl pc). lia.
  - intros s Hs. by apply Hall.
  - split; [apply listed_blank|]. intros s Hs. left. apply cell_blank.
  - intros s Hs. apply cell_blank.
  - destruct (place_all_scalars blank_position
                (placements_of (_board P) (fen_order (ranks_down 8))))
      as (H1 & H2 & H3 & H4 & H5).
    cbn zeta in *. split; [exact HlQ|]. split; [|by rewrite H1, H2, H4, H5].
    apply cell_ext; [apply HlQ|apply Hl|].
    intros s Hs. rewrite (Hb s Hs).
    by rewrite decide_True by by apply Hall.
Qed.

(** ** The key [HashKey::init] computes *)

Section HashInit.
Context {T : ZobristTable}.

Lemma hash_init_keys P :
  listed P ->
  let h := hash_init HashKey_empty P in
  _pawn_key h = board_key (_board P) pawn_pieces
  /\ _piece_key h = board_key (_board P) officer_pieces
  /\ _castling_key h = castling_key_of (_castling_rights P)
  /\ _enpassant_key h
     = (if _enpassant_square P =? NO_SQUARE then 0
        else HASH_ENPASSANT (file (_enpassant_square P)))
  /\ _color_key h
     = (if decide (_current_side P = WHITE) then HASH_TURN else 0).
Proof.
  intros Hl. cbn zeta. unfold hash_init, enpassant_square, castling_rights,
    color.
  cbn [fold_left HashKey_empty _color_key _pawn_key _piece_key
       _enpassant_key _castling_key make_piece].
  rewrite !xor_squares_xor_list.
  change (live P) with (live_of (_piece_count P) (_piece_position P)).
  rewrite !(xor_list_live (_board P)) by (done || discriminate).
  destruct (_enpassant_square P =? NO_SQUARE); cbn [negb];
    cbn [hash_set_enpassant hash_set_castling _color_key _pawn_key _piece_key
         _enpassant_key _castling_key];
    unfold board_key, pawn_pieces, officer_pieces; cbn [foldr];
    repeat split; try reflexivity;
    try (destruct (decide (_current_side P = WHITE)); xor_ring);
    xor_ring.
Qed.
End HashInit.

(** ** The fields of the text *)

Lemma nospace_forallb l :
  forallb (fun c => negb (is_space c)) l = true -> nospace l.
Proof.
  intros H. apply Forall_forall. intros c Hc.
  apply list_elem_of_In in Hc. rewrite forallb_forall in H.
  apply H in Hc. by apply negb_true_iff in Hc.
Qed.

Lemma take_word_nospace w r :
  nospace w -> take_word (w ++ " "%char :: r) = (w, " "%char :: r).
Proof.
  induction 1 as [|c w Hc Hw IH]; [reflexivity|].
  cbn [app take_word]. by rewrite Hc, IH.
Qed.

Lemma read_token_first w r tok :
  w <> [] -> nospace w ->
  read_token {| buf := w ++ " "%char :: r; failed := false |} tok
  = ({| buf := " "%char :: r; failed := false |}, w).
Proof.
  intros Hne Hw. unfold read_token. cbn [failed buf].
  destruct w as [|c w]; [done|]. apply Forall_cons in Hw as [Hc Hw].
  cbn [app skip_ws]. rewrite Hc.
  change (c :: w ++ " "%char :: r) with ((c :: w) ++ " "%char :: r).
  rewrite take_word_nospace; [done|]. by apply Forall_cons.
Qed.

Lemma read_token_next w r tok :
  w <> [] -> nospace w ->
  read_token {| buf := " "%char :: w ++ " "%char :: r; failed := false |} tok
  = ({| buf := " "%char :: r; failed := false |}, w).
Proof.
  intros Hne Hw. unfold read_token. cbn [failed buf skip_ws].
  change (is_space " ") with true. cbn iota.
  destruct w as [|c w]; [done|]. apply Forall_cons in Hw as [Hc Hw].
  cbn [app skip_ws]. rewrite Hc.
  change (c :: w ++ " "%char :: r) with ((c :: w) ++ " "%char :: r).
  rewrite take_word_nospace; [done|]. by apply Forall_cons.
Qed.

Lemma pending_nospace n :
  0 <= n <= 8 -> nospace (if 0 <? n then [chr (code "0" + n)] else []).
Proof.
  intros H. destruct (Z.ltb_spec 0 n); [|apply Forall_nil_2].
  apply Forall_cons. split; [|apply Forall_nil_2].
  by destruct (digit_char_spec n ltac:(lia)) as (? & _).
Qed.

Lemma fen_rank_nospace P r files :
  forall counter, 0 <= counter ->
    counter + Z.of_nat (length files) <= 8 ->
    nospace (fen_rank P r files counter).
Proof.
  induction files as [|f files IH]; intros counter Hc Hl.
  - cbn [fen_rank]. apply pending_nospace. cbn [length] in Hl. lia.
  - rewrite fen_rank_cons. cbn [length] in Hl. case_decide as E.
    + apply IH; lia.
    + apply Forall_app. split; [apply pending_nospace; lia|].
      apply Forall_cons. split.
      * by destruct (piece_char_spec _ E) as (? & _).
      * apply IH; lia.
Qed.

Lemma fen_rank_nonempty P r files :
  forall counter, 0 <= counter ->
    0 < counter + Z.of_nat (length files) ->
    fen_rank P r files counter <> [].
Proof.
  induction files as [|f files IH]; intros counter Hc Hl.
  - cbn [fen_rank]. cbn [length] in Hl.
    destruct (Z.ltb_spec 0 counter); [done|lia].
  - rewrite fen_rank_cons. cbn [length] in Hl. case_decide as E.
    + apply IH; lia.
    + intros H. apply app_eq_nil in H as [_ H]. done.
Qed.

Lemma fen_ranks_nospace P ranks : nospace (fen_ranks P ranks).
Proof.
  induction ranks as [|r ranks IH]; [apply Forall_nil_2|].
  cbn [fen_ranks]. apply Forall_app. split.
  - apply fen_rank_nospace; cbn; lia.
  - apply Forall_app. split; [|done].
    destruct (0 <? r); [|apply Forall_nil_2].
    apply Forall_cons. split; [reflexivity|apply Forall_nil_2].
Qed.

Lemma fen_ranks_nonempty P r ranks : fen_ranks P (r :: ranks) <> [].
Proof.
  cbn [fen_ranks]. intros H. apply app_eq_nil in H as [H _].
  revert H. apply fen_rank_nonempty; cbn; lia.
Qed.

Lemma below_16 (Q : Z -> Prop) :
  Q 0 -> Q 1 -> Q 2 -> Q 3 -> Q 4 -> Q 5 -> Q 6 -> Q 7 -> Q 8 -> Q 9 ->
  Q 10 -> Q 11 -> Q 12 -> Q 13 -> Q 14 -> Q 15 ->
  forall n, 0 <= n < 16 -> Q n.
Proof.
  intros H0 H1 H2 H3 H4 H5 H6 H7 H8 H9 H10 H11 H12 H13 H14 H15 n Hn.
  destruct n as [|p|p]; [assumption| |lia].
  do 4 (try destruct p as [p|p|]); first [assumption | lia].
Qed.

(** The castling field read back. *)
Lemma castling_field_round_trip rights :
  0 <= rights < 16 ->
  fen_castling_field rights <> []
  /\ nospace (fen_castling_field rights)
  /\ fold_left fen_castling (fen_castling_field rights) NO_CASTLING = rights.
Proof.
  revert rights. apply below_16;
    (split; [discriminate|split; [|reflexivity]]);
    apply nospace_forallb; reflexivity.
Qed.

Lemma below_64 (Q : Z -> Prop) :
  (forall n, (n < 64)%nat -> Q (Z.of_nat n)) -> forall z, 0 <= z < 64 -> Q z.
Proof.
  intros H z Hz. replace z with (Z.of_nat (Z.to_nat z)) by lia. apply H. lia.
Qed.

(** The en-passant field read back. *)
Lemma enpassant_field_round_trip ep :
  0 <= ep <= 64 ->
  fen_enpassant_field ep <> []
  /\ nospace (fen_enpassant_field ep)
  /\ (if ascii_list_eqb (fen_enpassant_field ep) ["-"%char] then NO_SQUARE
      else notationToSquare (fen_enpassant_field ep)) = ep.
Proof.
  intros H. destruct (decide (ep = 64)) as [->|Hne].
  - split; [discriminate|]. split; [|reflexivity].
    apply nospace_forallb; reflexivity.
  - revert ep H Hne.
    assert (Hall : forallb (fun ep =>
              negb (match fen_enpassant_field ep with [] => true | _ => false end)
              && forallb (fun c => negb (is_space c)) (fen_enpassant_field ep)
              && ((if ascii_list_eqb (fen_enpassant_field ep) ["-"%char]
                   then NO_SQUARE
                   else notationToSquare (fen_enpassant_field ep)) =? ep))
             all_squares = true) by (vm_compute; reflexivity).
    intros ep H Hne.
    assert (Hin : ep ∈ all_squares) by (apply elem_of_all_squares; lia).
    pose proof (forallb_elem _ _ ep Hall Hin) as E. cbn beta in E.
    apply andb_true_iff in E as [E E3]. apply andb_true_iff in E as [E1 E2].
    split; [|split].
    + intros Hnil. rewrite Hnil in E1. discriminate.
    + by apply nospace_forallb.
    + by apply Z.eqb_eq.
Qed.

Lemma side_field_round_trip side :
  (if ascii_list_eqb
        [if decide (side = WHITE) then "w"%char else "b"%char] ["w"%char]
   then WHITE else BLACK) = side.
Proof. by destruct side. Qed.

Section FenRoundTrip.
Context {T : ZobristTable}.

Lemma Position_of_fen_fields B S C E rest :
  B <> [] -> nospace B -> S <> [] -> nospace S -> C <> [] -> nospace C ->
  E <> [] -> nospace E ->
  let Q := (fold_left fen_place B (blank_position, SQ_A8)).1 in
  exists n1 n2,
    Position_of_fen
      (B ++ " "%char :: S ++ " "%char :: C ++ " "%char :: E
         ++ " "%char :: rest)
    = fen_finish Q
        (if ascii_list_eqb S ["w"%char] then WHITE else BLACK)
        (fold_left fen_castling C (_castling_rights Q))
        (if ascii_list_eqb E ["-"%char] then NO_SQUARE
         else notationToSquare E)
        n1 n2.
Proof.
  intros HB1 HB2 HS1 HS2 HC1 HC2 HE1 HE2 Q. unfold Position_of_fen.
  rewrite (read_token_first B) by done. cbv beta iota.
  fold Q. destruct (fold_left fen_place B (blank_position, SQ_A8)) as [Q0 sq]
    eqn:EQ. cbn [fst] in Q. subst Q.
  rewrite (read_token_next S) by done. cbv beta iota.
  rewrite (read_token_next C) by done. cbv beta iota.
  rewrite (read_token_next E) by done. cbv beta iota.
  match goal with |- context [read_int ?st ?n] =>
    destruct (read_int st n) as [st1 n1] end.
  match goal with |- context [read_int ?st ?n] =>
    destruct (read_int st n) as [st2 n2] end.
  exists n1, n2. reflexivity.
Qed.

Lemma fen_finish_spec Q side rights ep n1 n2 :
  listed Q ->
  let R := fen_finish Q side rights ep n1 n2 in
  _board R = _board Q
  /\ _current_side R = side
  /\ _castling_rights R = rights
  /\ _enpassant_square R = ep
  /\ get_key (_zobrist_hash R)
     = Z.lxor (Z.lxor (Z.lxor (Z.lxor
         (board_key (_board Q) officer_pieces)
         (board_key (_board Q) pawn_pieces))
         (if ep =? NO_SQUARE then 0 else HASH_ENPASSANT (file ep)))
         (castling_key_of rights))
         (if decide (side = WHITE) then HASH_TURN else 0).
Proof.
  intros Hl R. repeat split.
  set (X := set_ply_counter
              (set_ply_counter
                 (set_half_move_counter
                    (set_ply_counter
                       (set_enpassant_square
                          (set_castling_rights (set_current_side Q side)
                             rights) ep) n1) (u8 n1)) n2)
              (2 * n2 - 1 + (if decide (side = BLACK) then 1 else 0))).
  change (_zobrist_hash R) with (hash_init HashKey_empty X).
  destruct (hash_init_keys X Hl) as (H1 & H2 & H3 & H4 & H5).
  unfold get_key. rewrite H1, H2, H3, H4, H5. reflexivity.
Qed.

(** For a consistent position [P], the position built from the text [fen]
    writes for [P] compares equal to [P] under [operator==]. *)
Lemma fen_round_trip_compared P :
  consistent P = true -> Position_eq (Position_of_fen (fen P)) P = true.
Proof.
  intros Hc. destruct (consistent_sound P Hc)
    as [[Hl _ _ [Hpk Hok]] Hr _ Hep _ Hck Hek Hcol].
  destruct (placement_round_trip P Hl) as (HlQ & Hb & Hside & Hrights & _).
  cbn zeta in *.
  destruct (castling_field_round_trip _ Hr) as (HC1 & HC2 & HC3).
  destruct (enpassant_field_round_trip _ Hep) as (HE1 & HE2 & HE3).
  destruct (Position_of_fen_fields
              (fen_ranks P (ranks_down 8))
              [if decide (_current_side P = WHITE) then "w"%char
               else "b"%char]
              (fen_castling_field (_castling_rights P))
              (fen_enpassant_field (_enpassant_square P))
              (print_int (_half_move_counter P) ++ " "%char
                 :: print_int (Z.quot (_ply_counter P - 1) 2 + 1)))
    as (n1 & n2 & Heq); try done.
  - apply fen_ranks_nonempty.
  - apply fen_ranks_nospace.
  - apply nospace_forallb. by destruct (decide (_current_side P = WHITE)).
  - cbn zeta in Heq.
    replace (fen P) with
      (fen_ranks P (ranks_down 8) ++ " "%char
       :: [if decide (_current_side P = WHITE) then "w"%char else "b"%char]
       ++ " "%char :: fen_castling_field (_castling_rights P)
       ++ " "%char :: fen_enpassant_field (_enpassant_square P)
       ++ " "%char :: print_int (_half_move_counter P) ++ " "%char
       :: print_int (Z.quot (_ply_counter P - 1) 2 + 1)).
    2:{ reflexivity. }
    rewrite Heq, Hrights, HC3, HE3, side_field_round_trip.
    destruct (fen_finish_spec _ (_current_side P) (_castling_rights P)
                (_enpassant_square P) n1 n2 HlQ) as (F1 & F2 & F3 & F4 & F5).
    cbn zeta in *. apply Position_eq_spec. unfold same_compared, piece_at.
    rewrite F1, F2, F3, F4, F5, Hb. repeat split; try done.
    unfold get_key. by rewrite Hok, Hpk, Hck, Hek, Hcol.
Qed.
End FenRoundTrip.

(** * Further results

    ** Moves and undo records packed and read back (types.cpp) *)

(** A move built by [create_promotion] (or by [create_move], which is the
    case of no promotion) gives back its origin, its destination and its
    promotion kind, and is no castling move; a castling move gives back its
    side of the board and reads as a1a1 without promotion. *)
Theorem move_fields_read_back f t k :
  0 <= f < 64 -> 0 <= t < 64 ->
  from (create_promotion f t k) = f
  /\ to (create_promotion f t k) = t
  /\ promotion (create_promotion f t k) = k
  /\ castling (create_promotion f t k) = NO_CASTLING
  /\ create_move f t = create_promotion f t NO_PIECE_KIND
  /\ (forall c, c = KING_CASTLING \/ c = QUEEN_CASTLING ->
        castling (create_castling c) = c
        /\ from (create_castling c) = SQ_A1
        /\ to (create_castling c) = SQ_A1
        /\ promotion (create_castling c) = NO_PIECE_KIND).
Proof.
  intros Hf Ht.
  split; [by apply from_create_promotion|].
  split; [by apply to_create_promotion|].
  split; [by apply promotion_create_promotion|].
  split; [by apply castling_create_promotion|].
  split.
  - unfold create_move, create_promotion. cbn [pk_code].
    by rewrite Z.shiftl_0_l, Z.lor_0_l.
  - intros c [-> | ->]; vm_compute; done.
Qed.

Lemma move_fields_read_back_witness :
  from (create_promotion 52 60 QUEEN) = 52
  /\ to (create_promotion 52 60 QUEEN) = 60
  /\ promotion (create_promotion 52 60 QUEEN) = QUEEN.
Proof.
  destruct (move_fields_read_back 52 60 QUEEN ltac:(lia) ltac:(lia))
    as (H1 & H2 & H3 & _).
  split; [exact H1|split; [exact H2|exact H3]].
Defined.

(** The undo record [create_moveinfo] packs gives back the captured kind,
    the castling rights, the half-move counter and the two flags. The
    en-passant square read back is the one packed, except that A1 is read
    back when there was none: the record has no room for [NO_SQUARE], and
    only the flag [last_enpassant] tells the two apart. *)
Theorem moveinfo_read_back captured rights ep e hm :
  0 <= rights < 16 -> 0 <= ep <= 64 -> 0 <= hm < 256 ->
  captured_piece (create_moveinfo captured rights ep e hm) = captured
  /\ last_castling (create_moveinfo captured rights ep e hm) = rights
  /\ half_move_counter (create_moveinfo captured rights ep e hm) = hm
  /\ enpassant (create_moveinfo captured rights ep e hm) = e
  /\ last_enpassant (create_moveinfo captured rights ep e hm)
     = negb (ep =? NO_SQUARE)
  /\ last_enpassant_square (create_moveinfo captured rights ep e hm)
     = (if ep =? NO_SQUARE then SQ_A1 else ep).
Proof.
  intros Hr Hep Hhm.
  split; [by apply captured_piece_create|].
  split; [by apply last_castling_create|].
  split; [by apply half_move_counter_create|].
  split; [by apply enpassant_create|].
  split; [by apply last_enpassant_create|].
  by apply last_enpassant_square_create.
Qed.

Lemma moveinfo_read_back_witness :
  captured_piece (create_moveinfo ROOK 15 NO_SQUARE false 7) = ROOK
  /\ last_enpassant (create_moveinfo ROOK 15 NO_SQUARE false 7) = false
  /\ last_enpassant_square (create_moveinfo ROOK 15 NO_SQUARE false 7)
     = SQ_A1.
Proof.
  destruct (moveinfo_read_back ROOK 15 NO_SQUARE false 7
              ltac:(lia) ltac:(unfold NO_SQUARE; lia) ltac:(lia))
    as (H1 & _ & _ & _ & H5 & H6).
  split; [exact H1|split; [exact H5|exact H6]].
Defined.

(** ** The key of a position: its algebra, and [HashKey::init]
    (zobrist_hash.cpp) *)

Section KeyAlgebra.
Context {T : ZobristTable}.

Lemma HashKey_eq h h' :
  _piece_key h = _piece_key h' -> _pawn_key h = _pawn_key h' ->
  _enpassant_key h = _enpassant_key h' ->
  _castling_key h = _castling_key h' -> _color_key h = _color_key h' ->
  h = h'.
Proof. destruct h, h'. cbn. by intros -> -> -> -> ->. Qed.

(** Toggling a piece on a square changes the key by exactly the constant
    of that piece and square, whichever subkey holds it; toggling it again,
    moving a piece there and back, or flipping the side twice gives the
    key record back; and only pawns reach the pawn key. *)
Theorem toggle_piece_algebra h p a b :
  get_key (toggle_piece h p a) = Z.lxor (get_key h) (HASH_PIECE p a)
  /\ toggle_piece (toggle_piece h p a) p a = h
  /\ hash_move_piece (hash_move_piece h p a b) p b a = h
  /\ get_key (hash_move_piece h p a b)
     = Z.lxor (get_key h) (Z.lxor (HASH_PIECE p a) (HASH_PIECE p b))
  /\ flip_side (flip_side h) = h
  /\ get_key (flip_side h) = Z.lxor (get_key h) HASH_TURN
  /\ (get_piece_kind p <> PAWN ->
      get_pawnkey (hash_move_piece h p a b) = get_pawnkey h).
Proof.
  assert (Hnil : forall x y, Z.lxor (Z.lxor x y) y = x).
  { intros x y. by rewrite Z.lxor_assoc, Z.lxor_nilpotent, Z.lxor_0_r. }
  assert (Hnil2 : forall x y z,
            Z.lxor (Z.lxor (Z.lxor (Z.lxor x y) z) z) y = x).
  { intros x y z. by rewrite (Hnil (Z.lxor x y) z), Hnil. }
  unfold hash_move_piece, toggle_piece, flip_side, get_key, get_pawnkey.
  destruct (decide (get_piece_kind p = PAWN)) as [Hp|Hp];
    cbn [_piece_key _pawn_key _enpassant_key _castling_key _color_key].
  - split; [xor_ring|]. split; [apply HashKey_eq; cbn; by rewrite ?Hnil|].
    split; [apply HashKey_eq; cbn; by rewrite ?Hnil2|].
    split; [xor_ring|]. split; [apply HashKey_eq; cbn; by rewrite ?Hnil|].
    split; [xor_ring|]. intros H. by destruct H.
  - split; [xor_ring|]. split; [apply HashKey_eq; cbn; by rewrite ?Hnil|].
    split; [apply HashKey_eq; cbn; by rewrite ?Hnil2|].
    split; [xor_ring|]. split; [apply HashKey_eq; cbn; by rewrite ?Hnil|].
    split; [xor_ring|]. done.
Qed.

Lemma xor_squares_shift pc l k :
  xor_squares pc l k = Z.lxor k (xor_squares pc l 0).
Proof.
  unfold xor_squares. revert k.
  induction l as [|x l IH]; intros k; cbn [fold_left].
  - by rewrite Z.lxor_0_r.
  - rewrite (IH (Z.lxor k _)), (IH (Z.lxor 0 _)). xor_ring.
Qed.

Lemma hash_position_parts P :
  hash_position P
  = Z.lxor
      (Z.lxor
         (Z.lxor
            (fold_left (fun key piece => xor_squares piece (live P piece) key)
               all_pieces 0)
            (castling_key_of (castling_rights P)))
         (if negb (enpassant_square P =? NO_SQUARE) && enpassant_capturable P
          then HASH_ENPASSANT (file (enpassant_square P)) else 0))
      (if decide (color P = WHITE) then HASH_TURN else 0).
Proof.
  unfold hash_position, enpassant_capturable, castling_key_of. cbn zeta.
  generalize (fold_left (fun key piece => xor_squares piece (live P piece) key)
                all_pieces 0).
  intros k.
  destruct (has_right (castling_rights P) W_OO),
    (has_right (castling_rights P) W_OOO),
    (has_right (castling_rights P) B_OO),
    (has_right (castling_rights P) B_OOO),
    (enpassant_square P =? NO_SQUARE); cbn [negb andb];
    try destruct (Z.land _ _ =? 0); cbn [negb];
    destruct (decide (color P = WHITE)); xor_ring.
Qed.

(** The key [HashKey::init] gives a freshly built position, whatever its
    piece lists hold, is the key [hash_position] computes for it, except
    that it also carries the en-passant constant when an en-passant square
    is set that no pawn of the side to move attacks. *)
Theorem hash_init_and_hash_position P :
  get_key (hash_init HashKey_empty P)
  = Z.lxor (hash_position P)
      (if negb (enpassant_square P =? NO_SQUARE)
          && negb (enpassant_capturable P)
       then HASH_ENPASSANT (file (enpassant_square P)) else 0).
Proof.
  rewrite hash_position_parts.
  assert (Hpieces :
    fold_left (fun key piece => xor_squares piece (live P piece) key)
      all_pieces 0
    = Z.lxor
        (fold_left (fun k c =>
           fold_left (fun k pk => xor_squares (make_piece c pk)
                                    (live P (make_piece c pk)) k)
             [KNIGHT; BISHOP; ROOK; QUEEN; KING] k)
           [WHITE; BLACK] 0)
        (fold_left (fun k c => xor_squares (make_piece c PAWN)
                                 (live P (make_piece c PAWN)) k)
           [WHITE; BLACK] 0)).
  { unfold all_pieces. cbn [fold_left make_piece].
    repeat match goal with
    | |- context [xor_squares ?pc ?l ?k] =>
        lazymatch k with
        | 0 => fail
        | _ => rewrite (xor_squares_shift pc l k)
        end
    end.
    xor_ring. }
  rewrite Hpieces. unfold hash_init.
  cbn [HashKey_empty _piece_key _pawn_key _enpassant_key _castling_key
       _color_key].
  generalize (fold_left (fun k c =>
           fold_left (fun k pk => xor_squares (make_piece c pk)
                                    (live P (make_piece c pk)) k)
             [KNIGHT; BISHOP; ROOK; QUEEN; KING] k)
           [WHITE; BLACK] 0).
  generalize (fold_left (fun k c => xor_squares (make_piece c PAWN)
                                 (live P (make_piece c PAWN)) k)
           [WHITE; BLACK] 0).
  intros kp ko.
  unfold hash_set_castling, hash_set_enpassant, get_key. cbn zeta.
  destruct (enpassant_square P =? NO_SQUARE); cbn [negb andb];
    try destruct (enpassant_capturable P); cbn [negb];
    destruct (decide (color P = WHITE));
    cbn [_piece_key _pawn_key _enpassant_key _castling_key _color_key];
    xor_ring.
Qed.
End KeyAlgebra.

(** ** Null moves (position.cpp) *)

Section NullMove.
Context {T : ZobristTable}.

Lemma Position_ext P Q :
  _board P = _board Q -> _by_color_bb P = _by_color_bb Q ->
  _by_piece_kind_bb P = _by_piece_kind_bb Q ->
  _piece_count P = _piece_count Q -> _piece_position P = _piece_position Q ->
  _current_side P = _current_side Q ->
  _castling_rights P = _castling_rights Q ->
  _enpassant_square P = _enpassant_square Q ->
  _half_move_counter P = _half_move_counter Q ->
  _ply_counter P = _ply_counter Q -> _zobrist_hash P = _zobrist_hash Q ->
  _history P = _history Q -> _history_counter P = _history_counter Q ->
  P = Q.
Proof.
  destruct P, Q. cbn.
  by intros -> -> -> -> -> -> -> -> -> -> -> -> ->.
Qed.

Lemma do_null_move_fst P :
  (do_null_move P).1
  = zobrist_clear_enpassant
      (set_enpassant_square
         (set_half_move_counter
            (set_ply_counter (change_current_side P) (_ply_counter P + 1))
            (u8 (_half_move_counter P + 1)))
         NO_SQUARE).
Proof. reflexivity. Qed.

Lemma do_null_move_snd P :
  (do_null_move P).2
  = create_moveinfo NO_PIECE_KIND NO_CASTLING (_enpassant_square P) false 0.
Proof. reflexivity. Qed.

Lemma undo_null_move_eq Q info :
  undo_null_move Q info
  = if negb (last_enpassant_square info =? NO_SQUARE)
    then zobrist_set_enpassant
           (set_enpassant_square
              (set_half_move_counter
                 (set_ply_counter (change_current_side Q) (_ply_counter Q - 1))
                 (u8 (_half_move_counter Q - 1)))
              (last_enpassant_square info))
           (file (last_enpassant_square info))
    else set_enpassant_square
           (set_half_move_counter
              (set_ply_counter (change_current_side Q) (_ply_counter Q - 1))
              (u8 (_half_move_counter Q - 1)))
           (last_enpassant_square info).
Proof. reflexivity. Qed.

(** Undoing a null move gives the position back, field by field, with one
    exception: the en-passant square comes back as A1, with the constant of
    file a in the key, when the position had none, because the undo record
    cannot hold [NO_SQUARE] and [undo_null_move] does not read the flag that
    tells the two apart. With an en-passant square set, and its constant in
    the key, the position comes back exactly. *)
Theorem null_move_round_trip P :
  0 <= _enpassant_square P <= 64 -> 0 <= _half_move_counter P < 256 ->
  let ep := if _enpassant_square P =? NO_SQUARE then SQ_A1
            else _enpassant_square P in
  undo_null_move (do_null_move P).1 (do_null_move P).2
  = zobrist_set_enpassant (set_enpassant_square P ep) (file ep)
  /\ (_enpassant_square P <> NO_SQUARE ->
      _enpassant_key (_zobrist_hash P)
      = HASH_ENPASSANT (file (_enpassant_square P)) ->
      undo_null_move (do_null_move P).1 (do_null_move P).2 = P).
Proof.
  intros Hep Hhm ep.
  assert (Hread :
    last_enpassant_square
      (create_moveinfo NO_PIECE_KIND NO_CASTLING (_enpassant_square P) false 0)
    = ep).
  { apply last_enpassant_square_create; unfold NO_CASTLING; lia. }
  assert (Hne : (ep =? NO_SQUARE) = false).
  { subst ep. destruct (_enpassant_square P =? NO_SQUARE) eqn:E; [done|].
    exact E. }
  assert (Hu8 : u8 (u8 (_half_move_counter P + 1) - 1) = _half_move_counter P).
  { unfold u8. Z.to_euclidean_division_equations; lia. }
  assert (Hmain :
    undo_null_move (do_null_move P).1 (do_null_move P).2
    = zobrist_set_enpassant (set_enpassant_square P ep) (file ep)).
  { rewrite undo_null_move_eq, do_null_move_snd, Hread, Hne. cbn [negb].
    rewrite do_null_move_fst.
    apply Position_ext; frame; try reflexivity.
    - apply opp_opp.
    - exact Hu8.
    - lia.
    - apply HashKey_eq; try reflexivity.
      unfold flip_side, hash_clear_enpassant, hash_set_enpassant.
      cbn [_color_key].
      by rewrite Z.lxor_assoc, Z.lxor_nilpotent, Z.lxor_0_r. }
  split; [exact Hmain|].
  intros Hset Hkey. rewrite Hmain. subst ep.
  apply Z.eqb_neq in Hset. rewrite Hset.
  apply Position_ext; frame; try reflexivity.
  apply HashKey_eq; try reflexivity.
  unfold hash_set_enpassant. cbn [_enpassant_key]. by rewrite Hkey.
Qed.
End NullMove.

Lemma null_move_round_trip_witness :
  _enpassant_square
    (undo_null_move (T := example_table)
       (do_null_move (T := example_table) startpos).1
       (do_null_move (T := example_table) startpos).2)
  = SQ_A1
  /\ undo_null_move (T := example_table)
       (do_null_move (T := example_table) enpassant_position).1
       (do_null_move (T := example_table) enpassant_position).2
     = enpassant_position.
Proof.
  split.
  - destruct (null_move_round_trip (T := example_table) startpos
                ltac:(by vm_compute) ltac:(by vm_compute)) as [H _].
    rewrite H. reflexivity.
  - destruct (null_move_round_trip (T := example_table) enpassant_position
                ltac:(by vm_compute) ltac:(by vm_compute)) as [_ H].
    apply H; [by vm_compute | reflexivity].
Defined.

(** ** Move texts written and read back (position.cpp, types.cpp) *)

(** Case analysis on a square of the board. *)
Ltac each_square sq H :=
  let Hin := fresh "Hin" in
  assert (Hin : sq ∈ all_squares) by (apply elem_of_all_squares; exact H);
  clear H; unfold all_squares in Hin;
  cbv [map seq Z.of_nat Pos.of_succ_nat Pos.succ] in Hin;
  repeat (apply elem_of_cons in Hin as [-> | Hin]);
  [..| by apply elem_of_nil in Hin].

Lemma square_chars sq :
  0 <= sq < 64 ->
  [char_at files_text (Z.to_nat (file sq));
   char_at ranks_text (Z.to_nat (rank sq))] = squareToNotation sq
  /\ make_square (code (char_at ranks_text (Z.to_nat (rank sq))) - code "1")
       (code (char_at files_text (Z.to_nat (file sq))) - code "a") = sq.
Proof. intros H. each_square sq H; by vm_compute. Qed.

(** The two characters [squareToNotation] writes for a square of the board
    are read back by [notationToSquare] as that square; and the four
    characters the move printers start with are the notations of the
    origin and of the destination. *)
Theorem notation_round_trip sq m :
  0 <= sq < 64 ->
  notationToSquare (squareToNotation sq) = sq
  /\ squares_text m = squareToNotation (from m) ++ squareToNotation (to m).
Proof.
  intros H. split.
  - destruct (square_chars sq H) as [E1 E2]. rewrite <- E1.
    exact E2.
  - unfold squares_text.
    destruct (square_chars (from m) (from_range m)) as [<- _].
    destruct (square_chars (to m) (to_range m)) as [<- _].
    reflexivity.
Qed.

Lemma notation_round_trip_witness :
  notationToSquare (squareToNotation 36) = 36.
Proof.
  destruct (notation_round_trip 36 NO_MOVE ltac:(lia)) as [H _]. exact H.
Defined.

Lemma squares_text_read f t k rest :
  0 <= f < 64 -> 0 <= t < 64 ->
  let str := squares_text (create_promotion f t k) ++ rest in
  make_square (code (char_at str 1) - code "1")
    (code (char_at str 0) - code "a") = f
  /\ make_square (code (char_at str 3) - code "1")
       (code (char_at str 2) - code "a") = t
  /\ length str = (4 + length rest)%nat
  /\ char_at str 4 = char_at rest 0.
Proof.
  intros Hf Ht. unfold squares_text.
  rewrite from_create_promotion, to_create_promotion by done.
  cbn [app char_at nth length].
  destruct (square_chars f Hf) as [_ E1].
  destruct (square_chars t Ht) as [_ E2].
  by rewrite E1, E2.
Qed.

(** [parse_uci] reads back what [uci] writes for a move that is no castling
    move: for a move from one square of the board to another, with no
    promotion or a promotion to knight, bishop, rook or queen, the text
    [uci] gives is parsed as that very move, unless the text is one of
    e1g1, e1c1, e8g8, e8c8 and a king stands on the origin (in which case
    [parse_uci] answers a castling move). *)
Theorem parse_uci_of_uci P f t k :
  0 <= f < 64 -> 0 <= t < 64 ->
  k ∈ [NO_PIECE_KIND; KNIGHT; BISHOP; ROOK; QUEEN] ->
  ~ (make_piece_kind (piece_at P f) = KING
     /\ (f = SQ_E1 /\ (t = SQ_G1 \/ t = SQ_C1)
         \/ f = SQ_E8 /\ (t = SQ_G8 \/ t = SQ_C8))) ->
  parse_uci P (uci P (create_promotion f t k))
  = Returned (create_promotion f t k).
Proof.
  intros Hf Ht Hk Hking.
  unfold uci. rewrite castling_create_promotion by done.
  change (Z.land NO_CASTLING KING_CASTLING =? 0) with true.
  change (Z.land NO_CASTLING QUEEN_CASTLING =? 0) with true.
  cbn [negb].
  rewrite promotion_create_promotion by done. cbn zeta.
  assert (Hover : forall a b : Square,
            (a = SQ_E1 /\ (b = SQ_G1 \/ b = SQ_C1)
             \/ a = SQ_E8 /\ (b = SQ_G8 \/ b = SQ_C8)) ->
            bool_decide (make_piece_kind (_board P !!! Z.to_nat f) = KING)
            && (f =? a) && (t =? b) = false).
  { intros a b Hab.
    destruct (bool_decide_reflect
                (make_piece_kind (_board P !!! Z.to_nat f) = KING))
      as [Hk'|]; [|done].
    destruct (f =? a) eqn:Ea; [|done]. destruct (t =? b) eqn:Eb; [|done].
    apply Z.eqb_eq in Ea, Eb. subst a b. exfalso. apply Hking.
    split; [exact Hk'|exact Hab]. }
  assert (Hret : forall rest promo,
    (if 4 <? Z.of_nat (length (squares_text (create_promotion f t k) ++ rest))
     then promo (char_at (squares_text (create_promotion f t k) ++ rest) 4)
     else Returned NO_PIECE_KIND) = Returned k ->
    forall str, str = squares_text (create_promotion f t k) ++ rest ->
    (let from := make_square (code (char_at str 1) - code "1")
                   (code (char_at str 0) - code "a") in
     let to := make_square (code (char_at str 3) - code "1")
                 (code (char_at str 2) - code "a") in
     match (if 4 <? Z.of_nat (length str) then promo (char_at str 4)
            else Returned NO_PIECE_KIND) with
     | Thrown what => Thrown what
     | Returned promotion =>
         let move := create_promotion from to promotion in
         let king := bool_decide (make_piece_kind (_board P !!! Z.to_nat from)
                                  = KING) in
         let move := if king && (from =? SQ_E1) && (to =? SQ_G1)
                     then create_castling KING_CASTLING else move in
         let move := if king && (from =? SQ_E1) && (to =? SQ_C1)
                     then create_castling QUEEN_CASTLING else move in
         let move := if king && (from =? SQ_E8) && (to =? SQ_G8)
                     then create_castling KING_CASTLING else move in
         let move := if king && (from =? SQ_E8) && (to =? SQ_C8)
                     then create_castling QUEEN_CASTLING else move in
         Returned move
     end) = Returned (create_promotion f t k)).
  { intros rest promo Hp str ->.
    destruct (squares_text_read f t k rest Hf Ht) as (E1 & E2 & _ & _).
    cbn zeta in E1, E2. cbn zeta. rewrite E1, E2, Hp.
    rewrite !Hover by tauto. reflexivity. }
  assert (Hlen4 : length (squares_text (create_promotion f t k)) = 4%nat)
    by reflexivity.
  repeat (apply elem_of_cons in Hk as [-> | Hk]);
    [..| by apply elem_of_nil in Hk].
  - rewrite (decide_False (P := NO_PIECE_KIND <> NO_PIECE_KIND))
      by (intros H; by apply H).
    unfold parse_uci.
    apply (Hret [] (fun c =>
      if is_char "nN" c then Returned KNIGHT
      else if is_char "bB" c then Returned BISHOP
      else if is_char "rR" c then Returned ROOK
      else if is_char "qQ" c then Returned QUEEN
      else Thrown (list_ascii_of_string "Unknown promotion piece: "
                   ++ drop 4 (squares_text
                                (create_promotion f t NO_PIECE_KIND)))));
      [|by rewrite app_nil_r].
    rewrite app_nil_r, Hlen4. reflexivity.
  - rewrite decide_True by discriminate. unfold parse_uci.
    eapply (Hret _ (fun c =>
      if is_char "nN" c then Returned KNIGHT
      else if is_char "bB" c then Returned BISHOP
      else if is_char "rR" c then Returned ROOK
      else if is_char "qQ" c then Returned QUEEN
      else Thrown (list_ascii_of_string "Unknown promotion piece: "
                   ++ drop 4 _))); [|reflexivity].
    destruct (squares_text_read f t KNIGHT
                [char_at (list_ascii_of_string "  nbrq ")
                   (Z.to_nat (pk_code KNIGHT))] Hf Ht) as (_ & _ & E3 & E4).
    cbn zeta in E3, E4. rewrite E3, E4. reflexivity.
  - rewrite decide_True by discriminate. unfold parse_uci.
    eapply (Hret _ (fun c =>
      if is_char "nN" c then Returned KNIGHT
      else if is_char "bB" c then Returned BISHOP
      else if is_char "rR" c then Returned ROOK
      else if is_char "qQ" c then Returned QUEEN
      else Thrown (list_ascii_of_string "Unknown promotion piece: "
                   ++ drop 4 _))); [|reflexivity].
    destruct (squares_text_read f t BISHOP
                [char_at (list_ascii_of_string "  nbrq ")
                   (Z.to_nat (pk_code BISHOP))] Hf Ht) as (_ & _ & E3 & E4).
    cbn zeta in E3, E4. rewrite E3, E4. reflexivity.
  - rewrite decide_True by discriminate. unfold parse_uci.
    eapply (Hret _ (fun c =>
      if is_char "nN" c then Returned KNIGHT
      else if is_char "bB" c then Returned BISHOP
      else if is_char "rR" c then Returned ROOK
      else if is_char "qQ" c then Returned QUEEN
      else Thrown (list_ascii_of_string "Unknown promotion piece: "
                   ++ drop 4 _))); [|reflexivity].
    destruct (squares_text_read f t ROOK
                [char_at (list_ascii_of_string "  nbrq ")
                   (Z.to_nat (pk_code ROOK))] Hf Ht) as (_ & _ & E3 & E4).
    cbn zeta in E3, E4. rewrite E3, E4. reflexivity.
  - rewrite decide_True by discriminate. unfold parse_uci.
    eapply (Hret _ (fun c =>
      if is_char "nN" c then Returned KNIGHT
      else if is_char "bB" c then Returned BISHOP
      else if is_char "rR" c then Returned ROOK
      else if is_char "qQ" c then Returned QUEEN
      else Thrown (list_ascii_of_string "Unknown promotion piece: "
                   ++ drop 4 _))); [|reflexivity].
    destruct (squares_text_read f t QUEEN
                [char_at (list_ascii_of_string "  nbrq ")
                   (Z.to_nat (pk_code QUEEN))] Hf Ht) as (_ & _ & E3 & E4).
    cbn zeta in E3, E4. rewrite E3, E4. reflexivity.
Qed.

Lemma parse_uci_of_uci_witness :
  parse_uci startpos (uci startpos (create_promotion 12 28 NO_PIECE_KIND))
  = Returned (create_promotion 12 28 NO_PIECE_KIND).
Proof.
  apply parse_uci_of_uci; [lia|lia| |].
  - apply elem_of_cons. by left.
  - intros [H _]. vm_compute in H. discriminate.
Defined.

(** A castling move written by [uci] is read back by [parse_uci] as the
    same castling move, provided a king stands on the home square of the
    side to move: the text is the king's two-square step, and [parse_uci]
    answers a castling move exactly when it finds a king on its origin. *)
Theorem parse_uci_of_uci_castling P c :
  c = KING_CASTLING \/ c = QUEEN_CASTLING ->
  make_piece_kind
    (piece_at P (make_square (home_rank (_current_side P)) FILE_E)) = KING ->
  parse_uci P (uci P (create_castling c)) = Returned (create_castling c).
Proof.
  intros Hc Hking. unfold piece_at in Hking.
  assert (Huci : uci P (create_castling c)
                 = match c =? KING_CASTLING, _current_side P with
                   | true, WHITE => list_ascii_of_string "e1g1"
                   | true, BLACK => list_ascii_of_string "e8g8"
                   | false, WHITE => list_ascii_of_string "e1c1"
                   | false, BLACK => list_ascii_of_string "e8c8"
                   end).
  { unfold uci. destruct Hc as [-> | ->].
    - change (negb (Z.land (castling (create_castling KING_CASTLING))
                      KING_CASTLING =? 0)) with true.
      cbv iota. by destruct (decide (_current_side P = WHITE)) as [-> | H];
        [|destruct (_current_side P)].
    - change (negb (Z.land (castling (create_castling QUEEN_CASTLING))
                      KING_CASTLING =? 0)) with false.
      change (negb (Z.land (castling (create_castling QUEEN_CASTLING))
                      QUEEN_CASTLING =? 0)) with true.
      cbv iota. by destruct (decide (_current_side P = WHITE)) as [-> | H];
        [|destruct (_current_side P)]. }
  rewrite Huci. clear Huci. unfold parse_uci.
  destruct Hc as [-> | ->]; destruct (_current_side P).
  - change (KING_CASTLING =? KING_CASTLING) with true. cbv iota.
    change (4 <? Z.of_nat (length (list_ascii_of_string "e1g1"))) with false.
    change (make_square
              (code (char_at (list_ascii_of_string "e1g1") 1) - code "1")
              (code (char_at (list_ascii_of_string "e1g1") 0) - code "a"))
      with SQ_E1.
    change (make_square
              (code (char_at (list_ascii_of_string "e1g1") 3) - code "1")
              (code (char_at (list_ascii_of_string "e1g1") 2) - code "a"))
      with SQ_G1.
    cbv beta iota zeta. rewrite (bool_decide_eq_true_2 _ Hking). reflexivity.
  - change (KING_CASTLING =? KING_CASTLING) with true. cbv iota.
    change (4 <? Z.of_nat (length (list_ascii_of_string "e8g8"))) with false.
    change (make_square
              (code (char_at (list_ascii_of_string "e8g8") 1) - code "1")
              (code (char_at (list_ascii_of_string "e8g8") 0) - code "a"))
      with SQ_E8.
    change (make_square
              (code (char_at (list_ascii_of_string "e8g8") 3) - code "1")
              (code (char_at (list_ascii_of_string "e8g8") 2) - code "a"))
      with SQ_G8.
    cbv beta iota zeta. rewrite (bool_decide_eq_true_2 _ Hking). reflexivity.
  - change (QUEEN_CASTLING =? KING_CASTLING) with false. cbv iota.
    change (4 <? Z.of_nat (length (list_ascii_of_string "e1c1"))) with false.
    change (make_square
              (code (char_at (list_ascii_of_string "e1c1") 1) - code "1")
              (code (char_at (list_ascii_of_string "e1c1") 0) - code "a"))
      with SQ_E1.
    change (make_square
              (code (char_at (list_ascii_of_string "e1c1") 3) - code "1")
              (code (char_at (list_ascii_of_string "e1c1") 2) - code "a"))
      with SQ_C1.
    cbv beta iota zeta. rewrite (bool_decide_eq_true_2 _ Hking). reflexivity.
  - change (QUEEN_CASTLING =? KING_CASTLING) with false. cbv iota.
    change (4 <? Z.of_nat (length (list_ascii_of_string "e8c8"))) with false.
    change (make_square
              (code (char_at (list_ascii_of_string "e8c8") 1) - code "1")
              (code (char_at (list_ascii_of_string "e8c8") 0) - code "a"))
      with SQ_E8.
    change (make_square
              (code (char_at (list_ascii_of_string "e8c8") 3) - code "1")
              (code (char_at (list_ascii_of_string "e8c8") 2) - code "a"))
      with SQ_C8.
    cbv beta iota zeta. rewrite (bool_decide_eq_true_2 _ Hking). reflexivity.
Qed.

Lemma parse_uci_of_uci_castling_witness :
  parse_uci rooks_and_kings
    (uci rooks_and_kings (create_castling QUEEN_CASTLING))
  = Returned (create_castling QUEEN_CASTLING).
Proof.
  apply parse_uci_of_uci_castling; [by right|by vm_compute].
Defined.

(** [string_to_move] does not read back what [move_to_string] writes for a
    promotion: the printer writes the promotion letter in upper case and
    the reader knows only the lower-case letters, so the move read back is
    the plain move between the two squares, whatever the promotion was.
    Without promotion the move is read back as it was. *)
Theorem string_to_move_of_move_to_string f t k :
  0 <= f < 64 -> 0 <= t < 64 ->
  string_to_move (move_to_string (create_promotion f t k)) = create_move f t
  /\ (k <> NO_PIECE_KIND ->
      string_to_move (move_to_string (create_promotion f t k))
      <> create_promotion f t k).
Proof.
  intros Hf Ht.
  assert (Hmain : string_to_move (move_to_string (create_promotion f t k))
                  = create_promotion f t NO_PIECE_KIND).
  { unfold move_to_string. rewrite castling_create_promotion by done.
    change (Z.land NO_CASTLING KING_CASTLING =? 0) with true.
    change (Z.land NO_CASTLING QUEEN_CASTLING =? 0) with true.
    cbn [negb]. rewrite promotion_create_promotion by done. cbn zeta.
    unfold string_to_move.
    destruct (decide (k <> NO_PIECE_KIND)) as [Hk|Hk].
    - destruct (squares_text_read f t k
                  [char_at (list_ascii_of_string "  NBRQ ")
                     (Z.to_nat (pk_code k))] Hf Ht) as (E1 & E2 & E3 & E4).
      cbn zeta in E1, E2, E3, E4. cbn zeta. rewrite E1, E2, E3, E4.
      by destruct k.
    - destruct (squares_text_read f t k [] Hf Ht) as (E1 & E2 & E3 & _).
      cbn zeta in E1, E2, E3. rewrite app_nil_r in E1, E2, E3.
      cbn zeta. rewrite E1, E2, E3. reflexivity. }
  split.
  - rewrite Hmain. unfold create_move, create_promotion. cbn [pk_code].
    by rewrite Z.shiftl_0_l, Z.lor_0_l.
  - intros Hk E. rewrite Hmain in E.
    apply (f_equal promotion) in E.
    rewrite !promotion_create_promotion in E by done. by apply Hk.
Qed.

Lemma string_to_move_of_move_to_string_witness :
  string_to_move (move_to_string (create_promotion 52 60 QUEEN))
  = create_move 52 60
  /\ string_to_move (move_to_string (create_promotion 52 60 QUEEN))
     <> create_promotion 52 60 QUEEN.
Proof.
  destruct (string_to_move_of_move_to_string 52 60 QUEEN
              ltac:(lia) ltac:(lia)) as [H1 H2].
  split; [exact H1|apply H2; discriminate].
Defined.

(** ** Repetition after a move, quiet moves and captures (position.cpp) *)

Section Repetition.
Context {T : ZobristTable}.

Lemma do_move_pushed P m :
  exists R info,
    do_move P m = (push_history R, info) /\ same_stable R (entered P).
Proof.
  destruct (decide (castling m = NO_CASTLING)) as [Hc|Hc].
  - pose proof (do_move_ordinary_eq P m Hc) as E. cbv zeta in E.
    eexists _, _. split; [exact E|].
    eapply same_stable_trans; [apply same_stable_mark_enpassant|].
    eapply same_stable_trans; [apply same_stable_shift_pieces|].
    apply same_stable_tick_half_move.
  - eexists _, _. split; [apply (do_move_castling_eq P m Hc)|].
    apply same_stable_do_castling.
Qed.

Lemma is_repeated_loop_spec h key n :
  is_repeated_loop h key n = (1 <=? occurrences h key n).
Proof.
  induction n as [|n IH].
  - reflexivity.
  - cbn [is_repeated_loop]. rewrite occurrences_S.
    pose proof (occurrences_nonneg h key n).
    destruct (h !!! n =? key).
    + symmetry. apply Z.leb_le. lia.
    + rewrite IH. f_equal. lia.
Qed.

Lemma occurrences_ext h h' key n :
  (forall i, (i < n)%nat -> h !!! i = h' !!! i) ->
  occurrences h key n = occurrences h' key n.
Proof.
  induction n as [|n IH]; intros H; [reflexivity|].
  rewrite !occurrences_S, IH by (intros i Hi; apply H; lia).
  rewrite (H n) by lia. reflexivity.
Qed.

(** [is_repeated] answers whether the key of the position occurs among the
    keys recorded before the last one, that is at least once where
    [threefold_repetition] asks for twice; so a threefold repetition is
    always reported as a repetition. *)
Theorem is_repeated_spec P :
  is_repeated P
  = (1 <=? occurrences (_history P) (hash P)
             (Z.to_nat (_history_counter P - 1)))
  /\ (threefold_repetition P = true -> is_repeated P = true).
Proof.
  pose proof (is_repeated_loop_spec (_history P) (hash P)
                (Z.to_nat (_history_counter P - 1))) as H.
  change (is_repeated_loop _ _ _) with (is_repeated P) in H.
  split; [exact H|].
  rewrite H, threefold_repetition_spec. intros H2.
  apply Z.leb_le in H2. apply Z.leb_le. lia.
Qed.

(** [do_move] writes the key of the position it reaches into the history
    at the old count and leaves the other entries alone, as long as the
    count is inside the array. So after a move the repetition tests compare
    the new key with the keys recorded so far, the one of the position just
    left included: [is_repeated] asks for one of them to equal it,
    [threefold_repetition] for two. *)
Theorem do_move_records_key P m :
  0 <= _history_counter P < Z.of_nat (length (_history P)) ->
  _history (do_move P m).1 !!! Z.to_nat (_history_counter P)
  = hash (do_move P m).1
  /\ (forall i, i <> Z.to_nat (_history_counter P) ->
        _history (do_move P m).1 !!! i = _history P !!! i)
  /\ is_repeated (do_move P m).1
     = (1 <=? occurrences (_history P) (hash (do_move P m).1)
                (Z.to_nat (_history_counter P)))
  /\ threefold_repetition (do_move P m).1
     = (2 <=? occurrences (_history P) (hash (do_move P m).1)
                (Z.to_nat (_history_counter P))).
Proof.
  intros Hc.
  destruct (do_move_pushed P m) as (R & info & E & Hst).
  destruct (pushed_fields P R Hst) as (_ & _ & Hh & Hn & _).
  cbv zeta in Hh, Hn. rewrite E. cbn [fst].
  assert (Hkey : hash (push_history R) = get_key (_zobrist_hash R))
    by reflexivity.
  assert (Hother : forall i, i <> Z.to_nat (_history_counter P) ->
            _history (push_history R) !!! i = _history P !!! i).
  { intros i Hi. rewrite Hh. apply list_lookup_total_insert_ne. lia. }
  assert (Hocc : occurrences (_history (push_history R))
                   (hash (push_history R))
                   (Z.to_nat (_history_counter (push_history R) - 1))
                 = occurrences (_history P) (hash (push_history R))
                     (Z.to_nat (_history_counter P))).
  { rewrite Hn.
    replace (Z.to_nat (_history_counter P + 1 - 1))
      with (Z.to_nat (_history_counter P)) by lia.
    apply occurrences_ext. intros i Hi. apply Hother. lia. }
  split; [|split; [exact Hother|split]].
  - rewrite Hh, Hkey. apply list_lookup_total_insert_eq. lia.
  - unfold is_repeated.
    change (get_key (_zobrist_hash (push_history R)))
      with (hash (push_history R)).
    by rewrite is_repeated_loop_spec, Hocc.
  - by rewrite threefold_repetition_spec, Hocc.
Qed.
End Repetition.

Lemma do_move_records_key_witness :
  is_repeated (do_move (T := example_table) startpos (uci_move "g1f3")).1
  = false.
Proof.
  destruct (do_move_records_key (T := example_table) startpos
              (uci_move "g1f3") ltac:(by vm_compute)) as (_ & _ & H & _).
  rewrite H. by vm_compute.
Defined.

(** ** Quiet moves and captures *)

(** A move is quiet exactly when it is a castling move, or is neither a
    promotion nor a capture; in particular no move is both quiet and a
    capture, and a promotion onto an empty square is neither. *)
Theorem move_is_quiet_spec P m :
  move_is_quiet P m
  = negb (castling m =? NO_CASTLING)
    || (bool_decide (promotion m = NO_PIECE_KIND)
        && negb (move_is_capture P m)).
Proof.
  unfold move_is_quiet, move_is_capture.
  destruct (castling m =? NO_CASTLING); cbn [negb orb andb]; [|done].
  destruct (bool_decide_reflect (promotion m <> NO_PIECE_KIND)) as [Hp|Hp].
  - by rewrite (bool_decide_eq_false_2 (promotion m = NO_PIECE_KIND)).
  - rewrite (bool_decide_eq_true_2 (promotion m = NO_PIECE_KIND))
      by (destruct (decide (promotion m = NO_PIECE_KIND)); tauto).
    cbn [andb].
    destruct (to m =? enpassant_square P);
      destruct (bool_decide
                  (make_piece_kind (piece_at P (from m)) = PAWN));
      cbn [andb orb negb];
      rewrite ?orb_true_r, ?orb_false_r; cbn [negb]; try done;
      by destruct (bool_decide_reflect (piece_at P (to m) = NO_PIECE));
        [rewrite bool_decide_eq_false_2 by tauto
        |rewrite bool_decide_eq_true_2 by tauto].
Qed.

(** ** Checks and attackers (position.cpp) *)

(** The tests of [is_in_check] are those of [square_attackers] on the
    king's square, for the other side, without the last one: the king's
    square has no attacker exactly when the side is not in check and the
    enemy king does not stand next to its king. *)
Theorem is_in_check_spec P side :
  let king_sq := piece_position P (make_piece side KING) 0 in
  square_attackers P king_sq (opp side) = 0
  <-> is_in_check P side = false
      /\ Z.land (KING_MASK king_sq) (pieces_cp P (opp side) KING) = 0.
Proof.
  cbv zeta. unfold square_attackers, is_in_check. cbv zeta.
  rewrite opp_opp, Z.lor_0_l. rewrite !Z.lor_eq_0_iff.
  destruct (Z.eqb_spec
              (Z.land (pawn_attacks
                         (square_bb (piece_position P (make_piece side KING) 0))
                         side)
                 (pieces_cp P (opp side) PAWN)) 0) as [E1|E1];
    cbn [negb]; [|split; [tauto|intros [? _]; done]].
  destruct (Z.eqb_spec
              (Z.land (KNIGHT_MASK (piece_position P (make_piece side KING) 0))
                 (pieces_cp P (opp side) KNIGHT)) 0) as [E2|E2];
    cbn [negb]; [|split; [tauto|intros [? _]; done]].
  destruct (Z.eqb_spec
              (Z.land (slider_attack BISHOP
                         (piece_position P (make_piece side KING) 0)
                         (pieces P))
                 (pieces_cpp P (opp side) BISHOP QUEEN)) 0) as [E3|E3];
    cbn [negb]; [|split; [tauto|intros [? _]; done]].
  destruct (Z.eqb_spec
              (Z.land (slider_attack ROOK
                         (piece_position P (make_piece side KING) 0)
                         (pieces P))
                 (pieces_cpp P (opp side) ROOK QUEEN)) 0) as [E4|E4];
    cbn [negb]; [|split; [tauto|intros [? _]; done]].
  tauto.
Qed.

(** ** The move loop of the search is fail-hard (search.cpp) *)

Section LoopBounds.
Context {T : ZobristTable}.
Variable search_rec :
  Position -> SearchInfo -> Z -> Z -> Z -> Z * MoveList * Position * SearchInfo.

Lemma search_settle_bounds depth beta st move tried :
  ls_best st <= beta ->
  match search_settle depth beta st move tried with
  | Return score st' =>
      score = beta /\ ls_best st' = ls_best st /\ ls_alpha st' = ls_alpha st
  | Next st' =>
      ls_best st <= ls_best st' <= beta /\ ls_alpha st <= ls_alpha st'
      /\ (ls_alpha st < beta -> ls_alpha st' < beta)
  end.
Proof.
  intros Hb. destruct tried as [[[result tml] position] info].
  unfold search_settle.
  destruct (Z.leb_spec beta result) as [Hcut|Hcut].
  - cbn [ls_best ls_alpha]. done.
  - destruct (Z.ltb_spec (ls_best st) result),
      (Z.ltb_spec (ls_alpha st) result); cbn [ls_best ls_alpha]; lia.
Qed.

(** Whatever the recursive search answers, the move loop started with a
    best score not above beta returns a score between that best score and
    beta: it never returns more than beta. The lower bound alpha it carries
    never falls. *)
Theorem search_moves_bounds depth beta moves st :
  ls_best st <= beta ->
  ls_best st <= (search_moves search_rec depth beta st moves).1 <= beta
  /\ ls_alpha st <= ls_alpha (search_moves search_rec depth beta st moves).2.
Proof.
  revert st. induction moves as [|move moves IH]; intros st Hb.
  - cbn [search_moves fst snd ls_alpha]. lia.
  - cbn [search_moves]. unfold search_round.
    pose proof (search_settle_bounds depth beta st move
                  (search_try search_rec depth beta st move) Hb) as H.
    destruct (search_settle depth beta st move
                (search_try search_rec depth beta st move)) as [score st'|st'].
    + cbn [fst snd]. lia.
    + destruct H as (H1 & H2 & _).
      destruct (IH st' ltac:(lia)) as [H3 H4]. lia.
Qed.
End LoopBounds.

Lemma search_moves_bounds_witness :
  (search_moves (T := example_table) losing_search 3 100 enpassant_root
     [uci_move "e5f6"; uci_move "e5d6"]).1 <= 100.
Proof.
  destruct (search_moves_bounds (T := example_table) losing_search 3 100
              [uci_move "e5f6"; uci_move "e5d6"] enpassant_root
              ltac:(by vm_compute)) as [[_ H] _].
  exact H.
Defined.

(** ** The opening book (polyglot.cpp) *)

Lemma sum_of_weights_from l a :
  fold_left (fun s (wm : Move * Z) => s + snd wm) l a = a + sum_of_weights l.
Proof.
  unfold sum_of_weights. revert a.
  induction l as [|x l IH]; intros a; cbn [fold_left]; [lia|].
  rewrite (IH (a + snd x)), (IH (0 + snd x)). lia.
Qed.

Lemma sum_of_weights_cons x l :
  sum_of_weights (x :: l) = snd x + sum_of_weights l.
Proof.
  unfold sum_of_weights at 1. cbn [fold_left].
  rewrite sum_of_weights_from. lia.
Qed.

Lemma weighted_index_gen rest :
  forall sample w i0,
    rest <> [] -> sample <= w + sum_of_weights rest ->
    let i := weighted_index rest sample w i0 in
    (i0 <= i < i0 + length rest)%nat
    /\ sample <= w + sum_of_weights (take (S (i - i0)) rest)
    /\ forall j, (j < i - i0)%nat ->
         w + sum_of_weights (take (S j) rest) < sample.
Proof.
  induction rest as [|[m wt] rest IH]; intros sample w i0 Hne Hs; [done|].
  cbn zeta. cbn [weighted_index].
  rewrite sum_of_weights_cons in Hs. cbn [snd] in Hs.
  destruct (Z.ltb_spec (w + wt) sample) as [Hlt|Hge].
  - destruct rest as [|y rest].
    { unfold sum_of_weights in Hs. cbn in Hs. lia. }
    destruct (IH sample (w + wt) (S i0) ltac:(done) ltac:(lia))
      as (Hi & Hreach & Hbelow).
    cbn zeta in Hi, Hreach, Hbelow.
    set (i := weighted_index (y :: rest) sample (w + wt) (S i0)) in *.
    split; [cbn [length] in *; lia|].
    replace (i - i0)%nat with (S (i - S i0)) by lia.
    split.
    + rewrite firstn_cons, sum_of_weights_cons. cbn [snd]. lia.
    + intros [|j] Hj.
      * cbn [take]. rewrite sum_of_weights_cons. cbn [snd].
        rewrite ?take_0. unfold sum_of_weights. cbn [fold_left]. lia.
      * rewrite firstn_cons, sum_of_weights_cons. cbn [snd].
        specialize (Hbelow j ltac:(lia)). lia.
  - split; [cbn [length]; lia|].
    rewrite Nat.sub_diag. split; [|intros j Hj; lia].
    cbn [take]. rewrite sum_of_weights_cons. cbn [snd].
    rewrite ?take_0. unfold sum_of_weights. cbn [fold_left]. lia.
Qed.

(** [get_random_move] never reads past the end of the list: when the
    weights sum to more than zero and the number drawn is not negative, it
    answers the (decoded) move of an entry of the list, namely the first one
    at which the running total of the weights reaches the sample, that is
    the number drawn modulo the sum. *)
Theorem get_random_move_spec moves random P :
  0 < sum_of_weights moves -> 0 <= random ->
  let sample := Z.rem random (sum_of_weights moves) in
  exists i wm,
    moves !! i = Some wm
    /\ get_random_move moves random P = decode_move wm.1 P
    /\ sample <= sum_of_weights (take (S i) moves)
    /\ forall j, (j < i)%nat -> sum_of_weights (take (S j) moves) < sample.
Proof.
  intros Hsum Hrandom sample.
  assert (Hne : moves <> []) by (intros ->; unfold sum_of_weights in Hsum;
                                 cbn in Hsum; lia).
  pose proof (Z.rem_bound_pos random (sum_of_weights moves) Hrandom Hsum)
    as Hsample. fold sample in Hsample.
  destruct (weighted_index_gen moves sample 0 0 Hne ltac:(lia))
    as (Hi & Hreach & Hbelow).
  cbn zeta in Hi, Hreach, Hbelow.
  unfold get_random_move. cbn zeta. fold sample.
  set (i := weighted_index moves sample 0 0) in *.
  rewrite Nat.sub_0_r in Hreach, Hbelow.
  destruct (lookup_lt_is_Some_2 moves i ltac:(lia)) as [wm Hwm].
  exists i, wm. split; [exact Hwm|]. split; [|split].
  - by rewrite (nth_lookup_Some _ _ _ _ Hwm).
  - lia.
  - intros j Hj. specialize (Hbelow j Hj). lia.
Qed.

Lemma get_random_move_spec_witness :
  get_random_move [(uci_move "e2e4", 3); (uci_move "d2d4", 1)] 7 startpos
  = uci_move "e2e4".
Proof.
  destruct (get_random_move_spec
              [(uci_move "e2e4", 3); (uci_move "d2d4", 1)] 7 startpos
              ltac:(by vm_compute) ltac:(lia)) as (i & wm & H1 & H2 & H3 & H4).
  rewrite H2. clear H2. destruct i as [|[|i]].
  - injection H1 as <-. by vm_compute.
  - exfalso. specialize (H4 0%nat ltac:(lia)). vm_compute in H4.
    discriminate.
  - discriminate.
Defined.

Lemma max_element_spec rest :
  forall best,
    exists i,
      (best :: rest) !! i = Some (max_element best rest)
      /\ (forall x, x ∈ best :: rest -> snd x <= snd (max_element best rest))
      /\ forall j x, (j < i)%nat -> (best :: rest) !! j = Some x ->
           snd x < snd (max_element best rest).
Proof.
  induction rest as [|wm rest IH]; intros best.
  - exists 0%nat. cbn [max_element]. split; [done|]. split.
    + intros x Hx. apply list_elem_of_singleton in Hx as ->. lia.
    + intros j x Hj. lia.
  - cbn [max_element]. destruct (Z.ltb_spec (snd best) (snd wm)) as [Hlt|Hge].
    + destruct (IH wm) as (i & Hi & Hall & Hfirst).
      assert (Hwm : snd wm <= snd (max_element wm rest))
        by (apply Hall, elem_of_cons; by left).
      exists (S i). split; [exact Hi|]. split.
      * intros x Hx. apply elem_of_cons in Hx as [-> | Hx]; [lia|by apply Hall].
      * intros [|j] x Hj Hx.
        -- injection Hx as <-. lia.
        -- apply (Hfirst j x); [lia|exact Hx].
    + destruct (IH best) as (i & Hi & Hall & Hfirst).
      assert (Hin : forall x, x ∈ best :: wm :: rest ->
                snd x <= snd (max_element best rest)).
      { intros x Hx. apply elem_of_cons in Hx as [-> | Hx].
        - apply Hall, elem_of_cons. by left.
        - apply elem_of_cons in Hx as [-> | Hx].
          + pose proof (Hall best ltac:(apply elem_of_cons; by left)). lia.
          + apply Hall, elem_of_cons. by right. }
      destruct i as [|i].
      * exists 0%nat. split; [exact Hi|]. split; [exact Hin|].
        intros j x Hj. lia.
      * exists (S (S i)). split; [exact Hi|]. split; [exact Hin|].
        pose proof (Hfirst 0%nat best ltac:(lia) eq_refl) as Hb.
        intros [|[|j]] x Hj Hx.
        -- injection Hx as <-. exact Hb.
        -- injection Hx as <-. lia.
        -- apply (Hfirst (S j) x); [lia|exact Hx].
Qed.

(** [get_best_move] answers the (decoded) move of an entry of greatest
    weight, and of the first one when several entries share that weight. *)
Theorem get_best_move_spec moves P :
  moves <> [] ->
  exists i wm,
    moves !! i = Some wm
    /\ get_best_move moves P = decode_move wm.1 P
    /\ (forall x, x ∈ moves -> snd x <= snd wm)
    /\ forall j x, (j < i)%nat -> moves !! j = Some x -> snd x < snd wm.
Proof.
  intros Hne. destruct moves as [|best rest]; [done|].
  destruct (max_element_spec rest best) as (i & Hi & Hall & Hfirst).
  exists i, (max_element best rest). by repeat split.
Qed.

Lemma get_best_move_spec_witness :
  exists wm,
    get_best_move [(uci_move "e2e4", 3); (uci_move "d2d4", 3)] startpos
    = decode_move wm.1 startpos
    /\ snd wm = 3.
Proof.
  destruct (get_best_move_spec
              [(uci_move "e2e4", 3); (uci_move "d2d4", 3)] startpos
              ltac:(done)) as (i & wm & H1 & H2 & H3 & _).
  exists wm. split; [exact H2|].
  pose proof (H3 (uci_move "e2e4", 3) ltac:(apply elem_of_cons; by left))
    as Hge.
  destruct i as [|[|i]]; [| |discriminate]; by injection H1 as <-.
Defined.

(** The move of a book entry is the move [create_promotion] builds from the
    two six-bit fields of the entry's move code (bits 6 to 11 the origin,
    bits 0 to 5 the destination) and from its promotion code (bits 12 to
    14), for the promotion codes 0 to 4 of the book format: none, knight,
    bishop, rook, queen. *)
Theorem book_move_spec byte8 byte9 :
  let move_code := Z.land byte8 255 * 256 + Z.land byte9 255 in
  let promotion_code := move_code / 4096 mod 8 in
  promotion_code <= 4 ->
  book_move byte8 byte9
  = create_promotion (move_code / 64 mod 64) (move_code mod 64)
      (match promotion_code with
       | 1 => KNIGHT | 2 => BISHOP | 3 => ROOK | 4 => QUEEN
       | _ => NO_PIECE_KIND
       end).
Proof.
  cbv zeta. unfold book_move. cbv zeta.
  change 255 with (Z.ones 8). rewrite !Z.land_ones by lia.
  change (2 ^ 8) with 256.
  pose proof (Z.mod_pos_bound byte8 256 ltac:(lia)) as Hx.
  pose proof (Z.mod_pos_bound byte9 256 ltac:(lia)) as Hy.
  set (x := byte8 mod 256) in *. set (y := byte9 mod 256) in *.
  clearbody x y.
  rewrite (Z.shiftl_mul_pow2 x 8) by lia. change (2 ^ 8) with 256.
  rewrite (lor_disjoint (x * 256) y 8);
    [|lia|change (2 ^ 8) with 256; lia
     |change (2 ^ 8) with 256; apply Z.mod_mul; lia].
  set (mc := x * 256 + y).
  assert (Hmc : 0 <= mc < 65536) by (subst mc; lia). clearbody mc.
  rewrite !Z.shiftr_div_pow2 by lia.
  change 7 with (Z.ones 3). rewrite !Z.land_ones by lia.
  change (2 ^ 3) with 8. change (2 ^ 6) with 64. change (2 ^ 9) with 512.
  change (2 ^ 12) with 4096.
  intros Hpc.
  assert (Hfrom : make_square (mc / 512 mod 8) (mc / 64 mod 8)
                  = mc / 64 mod 64)
    by (unfold make_square; Z.to_euclidean_division_equations; lia).
  assert (Hto : make_square (mc / 8 mod 8) (mc mod 8) = mc mod 64)
    by (unfold make_square; Z.to_euclidean_division_equations; lia).
  rewrite Hfrom, Hto.
  pose proof (Z.mod_pos_bound (mc / 4096) 8 ltac:(lia)) as Hp.
  set (pc := mc / 4096 mod 8) in *. clearbody pc.
  unfold create_promotion.
  assert (Hcases : pc = 0 \/ pc = 1 \/ pc = 2 \/ pc = 3 \/ pc = 4) by lia.
  destruct Hcases as [-> | [-> | [-> | [-> | ->]]]]; reflexivity.
Qed.

Lemma book_move_spec_witness :
  book_move 77 60 = create_promotion 52 60 QUEEN.
Proof. apply (book_move_spec 77 60). by vm_compute. Defined.

(** ** The invariant of the position is kept (position.cpp) *)

Section Complete.
Context {T : ZobristTable}.

Lemma listed_lists_ok P : listed P -> lists_ok P = true.
Proof.
  intros [Hb Hlen Hcnt Hnone Hnd Hmem].
  unfold lists_ok. rewrite (bool_decide_eq_true_2 _ (Hlen NO_PIECE)).
  rewrite Hnone. cbn [Z.eqb andb].
  apply forallb_forall. intros pc Hin. apply list_elem_of_In in Hin.
  assert (Hpc : pc <> NO_PIECE).
  { intros ->. apply (bool_decide_pack _) in Hin. vm_compute in Hin.
    destruct Hin. }
  unfold list_ok.
  rewrite (bool_decide_eq_true_2 _ (Hlen pc)).
  pose proof (Hcnt pc) as Hc.
  rewrite (proj2 (Z.leb_le 0 (_piece_count P pc))) by lia.
  rewrite (proj2 (Z.leb_le (_piece_count P pc) 10)) by lia.
  rewrite (bool_decide_eq_true_2 _ (Hnd pc)). cbn [andb].
  apply andb_true_iff. split.
  - apply forallb_forall. intros s Hs. apply list_elem_of_In in Hs.
    apply (Hmem pc s Hpc) in Hs as [Hr Hcell].
    rewrite (bool_decide_eq_true_2 _ Hcell).
    rewrite (proj2 (Z.leb_le 0 s)) by lia.
    rewrite (proj2 (Z.ltb_lt s 64)) by lia. done.
  - apply forallb_forall. intros s Hs.
    apply list_elem_of_In, elem_of_all_squares in Hs.
    destruct (bool_decide_reflect (cell (_board P) s = pc)) as [Hcell|Hcell];
      [|done].
    cbn [implb]. apply bool_decide_eq_true_2. by apply Hmem.
Qed.

Lemma mapped_bb_where {A : Type} `{EqDecision A} (f : Piece -> A) b bb a :
  mapped_on f b bb ->
  bb a = bb_where (fun p => bool_decide (p <> NO_PIECE /\ f p = a)) b.
Proof.
  intros H. apply Z.bits_inj'. intros n Hn.
  rewrite (H a n), testbit_bb_where.
  destruct (decide (0 <= n < 64)) as [Hr|Hr].
  - rewrite (bool_decide_eq_true_2 (0 <= n < 64)) by done. cbn [andb].
    apply bool_decide_ext. tauto.
  - rewrite (bool_decide_eq_false_2 (0 <= n < 64)) by done. cbn [andb].
    apply bool_decide_eq_false_2. tauto.
Qed.

(** The facts a consistent position gives are all the test asks for. *)
Lemma consistent_complete P : consistent_facts P -> consistent P = true.
Proof.
  intros [[Hl Hc Hk [Hpk Hok]] Hr Hhm Hep Hepok Hck Hek Hcol].
  unfold consistent.
  rewrite (bool_decide_eq_true_2 _ (lo_board _ _ _ Hl)).
  rewrite (listed_lists_ok P Hl).
  assert (Hbb : bitboards_ok P = true).
  { unfold bitboards_ok. apply andb_true_iff.
    split; apply forallb_forall; intros a _; apply Z.eqb_eq.
    - by apply (mapped_bb_where get_color).
    - by apply (mapped_bb_where make_piece_kind). }
  assert (Hkeys : keys_ok P = true).
  { unfold keys_ok. cbn zeta. rewrite Hpk, Hok, Hck, Hek, Hcol.
    by rewrite !Z.eqb_refl. }
  rewrite Hbb, Hkeys, Hepok. cbn [andb].
  rewrite (proj2 (Z.leb_le 0 (_castling_rights P))) by lia.
  rewrite (proj2 (Z.ltb_lt (_castling_rights P) 16)) by lia.
  rewrite (proj2 (Z.leb_le 0 (_half_move_counter P))) by lia.
  rewrite (proj2 (Z.ltb_lt (_half_move_counter P) 256)) by lia.
  done.
Qed.

(** A position placed as the board has it, and agreeing with a
    consistent one on the side to move, the rights, the en-passant square,
    the half-move clock and the three subkeys they fix, is consistent. *)
Lemma consistent_facts_same Y P :
  consistent_facts P -> placed Y -> same_scalars Y P -> consistent_facts Y.
Proof.
  intros [_ Hr Hhm Hep Hepok Hck Hek Hcol] Hpl
    ((E1 & _ & _ & _ & E5) & E6 & E7 & E8 & E9 & E10).
  split; rewrite ?E1, ?E5, ?E6, ?E7, ?E8, ?E9, ?E10; done.
Qed.
End Complete.

Section PieceOperations.
Context {T : ZobristTable}.

(** [add_piece] on an empty square, for a piece whose list has room,
    [remove_piece] on an occupied square, and [move_piece] from an occupied
    square to an empty one keep a consistent position consistent: the
    board, the bitboards, the piece lists and the subkeys stay in step. *)
Theorem piece_operations_keep_consistent P :
  consistent P = true ->
  (forall pc sq,
     pc <> NO_PIECE -> 0 <= sq < 64 -> piece_at P sq = NO_PIECE ->
     _piece_count P pc < 10 -> consistent (add_piece P pc sq) = true)
  /\ (forall sq,
        0 <= sq < 64 -> piece_at P sq <> NO_PIECE ->
        consistent (remove_piece P sq) = true)
  /\ (forall a t,
        0 <= a < 64 -> 0 <= t < 64 -> piece_at P a <> NO_PIECE ->
        piece_at P t = NO_PIECE -> consistent (move_piece P a t) = true).
Proof.
  intros Hc. pose proof (consistent_sound P Hc) as HF.
  pose proof (cf_placed _ HF) as Hpl.
  split; [|split].
  - intros pc sq H1 H2 H3 H4. apply consistent_complete.
    apply (consistent_facts_same _ P HF);
      [by apply placed_add_piece|apply same_scalars_add_piece].
  - intros sq H1 H2. apply consistent_complete.
    apply (consistent_facts_same _ P HF);
      [by apply placed_remove_piece|apply same_scalars_remove_piece].
  - intros a t H1 H2 H3 H4. apply consistent_complete.
    apply (consistent_facts_same _ P HF);
      [by apply placed_move_piece|apply same_scalars_move_piece].
Qed.
End PieceOperations.

Lemma piece_operations_keep_consistent_witness :
  consistent (T := example_table)
    (remove_piece (T := example_table) startpos SQ_A1) = true.
Proof.
  destruct (piece_operations_keep_consistent (T := example_table) startpos
              ltac:(by vm_compute)) as (_ & H & _).
  apply H; [by vm_compute|by vm_compute].
Defined.

(** ** [do_move] keeps the invariant *)

Lemma land_range a b : 0 <= a < 16 -> 0 <= Z.land a b < 16.
Proof.
  intros Ha.
  assert (E : Z.land a b = Z.land (Z.land a b) (Z.ones 4)).
  { rewrite <- Z.land_assoc, (Z.land_comm b), Z.land_assoc.
    rewrite (Z.land_ones a 4) by lia. change (2 ^ 4) with 16.
    by rewrite Z.mod_small. }
  rewrite E, Z.land_ones by lia. change (2 ^ 4) with 16.
  apply Z.mod_pos_bound. lia.
Qed.

(** The piece operations leave the other fields alone. *)
Ltac past_pieces :=
  repeat match goal with
  | |- same_scalars ?X ?X => apply same_scalars_refl
  | |- same_scalars (add_piece _ _ _) _ =>
      eapply same_scalars_trans; [apply same_scalars_add_piece|]
  | |- same_scalars (remove_piece _ _) _ =>
      eapply same_scalars_trans; [apply same_scalars_remove_piece|]
  | |- same_scalars (move_piece _ _ _) _ =>
      eapply same_scalars_trans; [apply same_scalars_move_piece|]
  end.

Section MoveKeeps.
Context {T : ZobristTable}.

Lemma clear_rights_if_range q X mask :
  0 <= _castling_rights X < 16 ->
  0 <= _castling_rights (clear_rights_if q X mask) < 16.
Proof.
  intros H. destruct q; [|exact H].
  unfold clear_rights_if, clear_rights. frame. by apply land_range.
Qed.

Lemma update_rights_scalars Z side mp cp m :
  0 <= _castling_rights Z < 16 ->
  0 <= _castling_rights (update_rights Z side mp cp m) < 16
  /\ _castling_key (_zobrist_hash (update_rights Z side mp cp m))
     = castling_key_of (_castling_rights (update_rights Z side mp cp m))
  /\ _enpassant_key (_zobrist_hash (update_rights Z side mp cp m))
     = _enpassant_key (_zobrist_hash Z)
  /\ _enpassant_square (update_rights Z side mp cp m) = _enpassant_square Z.
Proof.
  intros H. unfold update_rights. cbv zeta.
  match goal with
  | |- context [zobrist_set_castling ?W] => set (W0 := W)
  end.
  assert (HW : 0 <= _castling_rights W0 < 16)
    by (subst W0; repeat apply clear_rights_if_range; exact H).
  assert (HZ : _zobrist_hash W0 = _zobrist_hash Z) by (subst W0; by frame).
  assert (HE : _enpassant_square W0 = _enpassant_square Z)
    by (subst W0; by frame).
  clearbody W0. frame.
  split; [exact HW|]. split; [reflexivity|]. split; [|exact HE].
  unfold zobrist_set_castling. frame. by rewrite <- HZ.
Qed.

Lemma shift_pieces_scalars X side m mp cp :
  0 <= _castling_rights X < 16 ->
  _castling_key (_zobrist_hash X) = castling_key_of (_castling_rights X) ->
  0 <= _castling_rights (shift_pieces X side m mp cp).1 < 16
  /\ _castling_key (_zobrist_hash (shift_pieces X side m mp cp).1)
     = castling_key_of (_castling_rights (shift_pieces X side m mp cp).1)
  /\ _enpassant_key (_zobrist_hash (shift_pieces X side m mp cp).1)
     = _enpassant_key (_zobrist_hash X).
Proof.
  intros Hr Hk. unfold shift_pieces.
  destruct (bool_decide (get_piece_kind mp = PAWN)
            && (to m =? _enpassant_square X)); cbn [fst].
  - assert (Hs : same_scalars
                   (remove_piece (move_piece X (from m) (to m))
                      (to m + pawn_step_back side)) X) by past_pieces.
    destruct Hs as (_ & E1 & _ & _ & E4 & E5).
    by rewrite E1, E4, E5.
  - match goal with
    | |- context [update_rights ?Z0 side mp cp m] => set (Z := Z0)
    end.
    assert (Hs : same_scalars Z X)
      by (subst Z; repeat case_match; past_pieces).
    destruct Hs as (_ & E1 & _ & _ & E4 & _). clearbody Z.
    destruct (update_rights_scalars Z side mp cp m ltac:(by rewrite E1))
      as (H1 & H2 & H3 & _).
    split; [exact H1|]. split; [exact H2|]. by rewrite H3.
Qed.

Lemma rank_value sq : rank sq = sq / 8.
Proof. unfold rank. by rewrite Z.shiftr_div_pow2 by lia. Qed.

Lemma mark_enpassant_scalars X side m mp :
  _enpassant_key (_zobrist_hash X) = 0 ->
  let Y := mark_enpassant X side m mp in
  enpassant_square_ok (_enpassant_square Y) = true
  /\ 0 <= _enpassant_square Y <= 64
  /\ _enpassant_key (_zobrist_hash Y)
     = (if _enpassant_square Y =? NO_SQUARE then 0
        else HASH_ENPASSANT (file (_enpassant_square Y)))
  /\ _castling_rights Y = _castling_rights X
  /\ _castling_key (_zobrist_hash Y) = _castling_key (_zobrist_hash X)
  /\ _half_move_counter Y = _half_move_counter X.
Proof.
  intros Hk. cbv zeta. unfold mark_enpassant.
  destruct (bool_decide (get_piece_kind mp = PAWN)
            && (rank (from m) =? match side with
                                 | WHITE => RANK_2 | BLACK => RANK_7 end)
            && (rank (to m) =? match side with
                               | WHITE => RANK_4 | BLACK => RANK_5 end))
    eqn:Hcond.
  - apply andb_true_iff in Hcond as [_ Hto]. apply Z.eqb_eq in Hto.
    pose proof (to_range m) as Hrange.
    rewrite rank_value in Hto.
    assert (Hep : rank (to m + pawn_step_back side)
                  = match side with WHITE => RANK_3 | BLACK => RANK_6 end
                  /\ 0 <= to m + pawn_step_back side < 64).
    { rewrite rank_value. unfold RANK_3, RANK_4, RANK_5, RANK_6 in *.
      destruct side; cbn [pawn_step_back];
        Z.to_euclidean_division_equations; lia. }
    destruct Hep as [Hrank Hin].
    unfold zobrist_set_enpassant. frame.
    cbn [_enpassant_key _castling_key hash_set_enpassant].
    assert (Hne : (to m + pawn_step_back side =? NO_SQUARE) = false)
      by (apply Z.eqb_neq; unfold NO_SQUARE; lia).
    rewrite Hne. unfold enpassant_square_ok. rewrite Hrank, Hne.
    split; [by destruct side|]. split; [lia|]. done.
  - frame. rewrite Hk.
    change (enpassant_square_ok NO_SQUARE) with true.
    change (NO_SQUARE =? NO_SQUARE) with true. unfold NO_SQUARE.
    split; [done|]. split; [lia|]. done.
Qed.

Lemma tick_entered_scalars P mp cp :
  0 <= _half_move_counter P < 256 ->
  let X := tick_half_move (entered P) mp cp in
  _castling_rights X = _castling_rights P
  /\ _castling_key (_zobrist_hash X) = _castling_key (_zobrist_hash P)
  /\ _enpassant_key (_zobrist_hash X) = 0
  /\ 0 <= _half_move_counter X < 256.
Proof.
  intros Hhm. cbv zeta. unfold tick_half_move, entered.
  case_match; frame; (split; [done|]); (split; [done|]); (split; [done|]).
  - unfold u8. apply Z.mod_pos_bound. lia.
  - lia.
Qed.

Lemma shift_pieces_placed X side m b c :
  tracks X b c ->
  ordinary_shape b c (_enpassant_square X) side m = true ->
  placed (shift_pieces X side m (cell b (from m)) (cell b (to m))).1.
Proof.
  intros HX Hshape.
  pose proof (tracks_board_length _ _ _ HX) as Hlen.
  pose proof (from_range m) as Hfrom. pose proof (to_range m) as Hto.
  unfold ordinary_shape in Hshape. cbn zeta in Hshape.
  apply andb_true_iff in Hshape as [Hown Hshape].
  apply bool_decide_eq_true in Hown as [Hmoved Hside].
  unfold shift_pieces.
  destruct (bool_decide (get_piece_kind (cell b (from m)) = PAWN)
            && (to m =? _enpassant_square X)).
  - apply bool_decide_eq_true in Hshape as (Hempty & Hpromo & Hcsq & Hpawn).
    cbn [fst].
    set (csq := to m + pawn_step_back side) in *.
    assert (Hne : make_piece (opp side) PAWN <> NO_PIECE)
      by (destruct side; discriminate).
    assert (Hcf : csq <> from m).
    { intros E. rewrite E in Hpawn.
      rewrite Hpawn in Hside. rewrite get_color_make_piece in Hside by done.
      by apply (opp_ne side). }
    assert (Hct : csq <> to m)
      by (subst csq; destruct side; cbn [pawn_step_back]; lia).
    assert (Hft : from m <> to m).
    { intros E. rewrite E in Hmoved. done. }
    clearbody csq.
    pose proof (tracks_move _ _ _ (from m) (to m) HX Hfrom Hto Hmoved Hempty)
      as H1.
    pose proof (tracks_remove _ _ _ csq H1 Hcsq ltac:(cells)) as H2.
    apply H2.
  - apply andb_true_iff in Hshape as [Htarget Hpromo].
    apply bool_decide_eq_true in Htarget.
    apply bool_decide_eq_true in Hpromo.
    cbn [fst].
    assert (Hft : from m <> to m).
    { intros E. rewrite E in *.
      destruct Htarget as [Ht|Ht]; [done|].
      rewrite Ht in Hside. by apply (opp_ne side). }
    pose proof (tracks_count_bound _ _ _ (cell b (to m)) HX) as Hbc.
    assert (Hcm : cell b (to m) <> NO_PIECE ->
                  cell b (to m) <> cell b (from m)).
    { intros Hn E. destruct Htarget as [Ht|Ht]; [done|].
      rewrite E, Hside in Ht. by apply (opp_ne side). }
    apply (placed_same _ _
             (same_placement_sym _ _ (same_placement_update_rights _ _ _ _ _))).
    destruct (bool_decide_reflect (cell b (to m) <> NO_PIECE)) as [Hn|Hn],
             (bool_decide_reflect (promotion m <> NO_PIECE_KIND)) as [Hq|Hq].
    + destruct (Hpromo Hq) as (Hq7 & Hpawn & Hroom).
      assert (Hqn : make_piece side (promotion m) <> NO_PIECE)
        by (intros E; by apply make_piece_is_none in E).
      assert (Hcq : cell b (to m) <> make_piece side (promotion m)).
      { intros E. destruct Htarget as [Ht|Ht]; [done|].
        rewrite E, get_color_make_piece in Ht by done.
        by apply (opp_ne side). }
      pose proof (tracks_remove _ _ _ (to m) HX Hto Hn) as H1.
      pose proof (tracks_remove _ _ _ (from m) H1 Hfrom ltac:(cells)) as H2.
      pose proof (tracks_add _ _ _ (make_piece side (promotion m)) (to m) H2
                    Hqn Hto ltac:(cells) ltac:(cells)) as H3.
      apply H3.
    + pose proof (tracks_remove _ _ _ (to m) HX Hto Hn) as H1.
      pose proof (tracks_move _ _ _ (from m) (to m) H1 Hfrom Hto
                    ltac:(cells) ltac:(cells)) as H2.
      apply H2.
    + destruct (Hpromo Hq) as (Hq7 & Hpawn & Hroom).
      assert (Hempty : cell b (to m) = NO_PIECE)
        by (destruct (decide (cell b (to m) = NO_PIECE)); tauto).
      assert (Hqn : make_piece side (promotion m) <> NO_PIECE)
        by (intros E; by apply make_piece_is_none in E).
      pose proof (tracks_remove _ _ _ (from m) HX Hfrom Hmoved) as H1.
      pose proof (tracks_add _ _ _ (make_piece side (promotion m)) (to m) H1
                    Hqn Hto ltac:(cells) ltac:(cells)) as H2.
      apply H2.
    + assert (Hempty : cell b (to m) = NO_PIECE)
        by (destruct (decide (cell b (to m) = NO_PIECE)); tauto).
      pose proof (tracks_move _ _ _ (from m) (to m) HX Hfrom Hto
                    Hmoved Hempty) as H1.
      apply H1.
Qed.

Lemma do_castling_placed X side m b c :
  tracks X b c -> castling_shape b side m = true ->
  placed (do_castling X side m).
Proof.
  intros HX Hshape.
  pose proof (tracks_board_length _ _ _ HX) as Hlen.
  apply (placed_same _ _
           (same_placement_sym _ _ (same_placement_do_castling X side m))).
  cbv zeta.
  assert (HX0 : tracks (set_half_move_counter X 0) b c)
    by (eapply tracks_same; [|exact HX]; by repeat split).
  unfold castling_shape in Hshape. cbv zeta in Hshape.
  set (r := home_rank side) in *.
  assert (Hr : r = 0 \/ r = 7)
    by (subst r; unfold home_rank, RANK_1, RANK_8; destruct side; lia).
  clearbody r.
  unfold make_square, FILE_A, FILE_C, FILE_D, FILE_E, FILE_F, FILE_G, FILE_H
    in *.
  destruct (castling m =? KING_CASTLING).
  - apply bool_decide_eq_true in Hshape as (He & Hh & Hf & Hg).
    pose proof (tracks_move _ _ _ (r * 8 + 4) (r * 8 + 6) HX0
                  ltac:(lia) ltac:(lia) He Hg) as H1.
    pose proof (tracks_move _ _ _ (r * 8 + 7) (r * 8 + 5) H1
                  ltac:(lia) ltac:(lia) ltac:(cells) ltac:(cells)) as H2.
    apply H2.
  - apply bool_decide_eq_true in Hshape as (He & Ha & Hc' & Hd).
    pose proof (tracks_move _ _ _ (r * 8 + 4) (r * 8 + 2) HX0
                  ltac:(lia) ltac:(lia) He Hc') as H1.
    pose proof (tracks_move _ _ _ (r * 8 + 0) (r * 8 + 3) H1
                  ltac:(lia) ltac:(lia) ltac:(cells) ltac:(cells)) as H2.
    apply H2.
Qed.

Lemma do_castling_scalars X side m :
  0 <= _castling_rights X < 16 ->
  let Y := do_castling X side m in
  0 <= _castling_rights Y < 16
  /\ _castling_key (_zobrist_hash Y) = castling_key_of (_castling_rights Y)
  /\ _enpassant_key (_zobrist_hash Y) = _enpassant_key (_zobrist_hash X)
  /\ _enpassant_square Y = NO_SQUARE
  /\ _half_move_counter Y = 0.
Proof.
  intros Hr. cbv zeta. unfold do_castling. cbv zeta.
  match goal with
  | |- context [clear_rights ?Z0 (CASTLING_RIGHTS side)] => set (Z := Z0)
  end.
  assert (Hs : same_scalars Z (set_half_move_counter X 0))
    by (subst Z; case_match; past_pieces).
  destruct Hs as (_ & E1 & _ & E3 & E4 & _). clearbody Z.
  unfold zobrist_set_castling, clear_rights. frame.
  cbn [_castling_key _enpassant_key hash_set_castling].
  split; [apply land_range; by rewrite E1|]. split; [reflexivity|].
  split; [by rewrite E4|]. split; [reflexivity|]. by rewrite E3.
Qed.

Lemma color_key_flipped P :
  _color_key (_zobrist_hash P)
  = (if decide (_current_side P = WHITE) then HASH_TURN else 0) ->
  Z.lxor (_color_key (_zobrist_hash P)) HASH_TURN
  = if decide (opp (_current_side P) = WHITE) then HASH_TURN else 0.
Proof.
  intros ->. destruct (_current_side P); cbn [opp].
  - rewrite decide_True, decide_False by done. apply Z.lxor_nilpotent.
  - rewrite decide_False, decide_True by done. apply Z.lxor_0_l.
Qed.

(** [do_move] keeps the invariant: on a consistent position, for a move of
    the shape [do_move] expects, the position reached is consistent again:
    its board, bitboards, piece lists and subkeys agree, its castling
    rights and half-move clock are in range, and its en-passant square is
    none or a square of the third or sixth rank. *)
Theorem do_move_keeps_consistent P m :
  consistent P = true -> move_shape P m = true ->
  consistent (do_move P m).1 = true.
Proof.
  intros Hc Hs. pose proof (consistent_sound P Hc) as HF.
  pose proof (cf_placed _ HF) as Hpl.
  pose proof (cf_rights _ HF) as Hr. pose proof (cf_hm _ HF) as Hhm.
  pose proof (cf_castling_key _ HF) as Hck.
  pose proof (cf_color_key _ HF) as Hcol.
  assert (HT : tracks P (_board P) (_piece_count P))
    by (split; [exact Hpl|split; [reflexivity|intros; reflexivity]]).
  apply consistent_complete.
  unfold move_shape in Hs.
  destruct (Z.eqb_spec (castling m) NO_CASTLING) as [E|E]; cbn [negb] in Hs.
  - rewrite (do_move_ordinary_eq P m E). cbn zeta. cbn [fst].
    set (moved := cell (_board P) (from m)) in *.
    set (captured := cell (_board P) (to m)) in *.
    destruct (tick_entered_scalars P moved captured Hhm)
      as (X1 & X2 & X3 & X4). cbv zeta in X1, X2, X3, X4.
    set (X := tick_half_move (entered P) moved captured) in *.
    assert (HX : tracks X (_board P) (_piece_count P)).
    { eapply tracks_same; [|exact HT].
      eapply same_placement_trans; [apply same_placement_tick_half_move|].
      apply same_placement_entered. }
    assert (HXep : _enpassant_square X = _enpassant_square P)
      by apply ep_tick_entered.
    pose proof (shift_pieces_placed X (_current_side P) m _ _ HX
                  ltac:(by rewrite HXep)) as HSpl.
    destruct (shift_pieces_scalars X (_current_side P) m moved captured
                ltac:(by rewrite X1) ltac:(by rewrite X1, X2))
      as (S1 & S2 & S3).
    pose proof (hm_shift_pieces X (_current_side P) m moved captured) as S4.
    fold moved captured in HSpl.
    set (S := shift_pieces X (_current_side P) m moved captured) in *.
    destruct (mark_enpassant_scalars S.1 (_current_side P) m moved
                ltac:(by rewrite S3, X3)) as (R1 & R2 & R3 & R4 & R5 & R6).
    cbv zeta in R1, R2, R3, R4, R5, R6.
    assert (Hst : same_stable
                    (mark_enpassant S.1 (_current_side P) m moved)
                    (entered P)).
    { eapply same_stable_trans; [apply same_stable_mark_enpassant|].
      eapply same_stable_trans; [apply same_stable_shift_pieces|].
      apply same_stable_tick_half_move. }
    assert (HRpl : placed (mark_enpassant S.1 (_current_side P) m moved)).
    { apply (placed_same S.1); [|exact HSpl].
      apply same_placement_sym, same_placement_mark_enpassant. }
    set (R := mark_enpassant S.1 (_current_side P) m moved) in *.
    destruct (pushed_fields P R Hst) as (Q1 & _ & _ & _ & Q5).
    cbv zeta in Q1, Q5.
    split.
    + apply (placed_same R); [|exact HRpl].
      apply same_placement_sym, same_placement_push_history.
    + frame. by rewrite R4.
    + frame. by rewrite R6, S4.
    + frame. exact R2.
    + frame. exact R1.
    + unfold push_history. frame. by rewrite R5, R4.
    + unfold push_history. frame. exact R3.
    + rewrite Q5, Q1. by apply color_key_flipped.
  - rewrite (do_move_castling_eq P m E). cbn [fst].
    destruct (do_castling_scalars (entered P) (_current_side P) m Hr)
      as (R1 & R2 & R3 & R4 & R5). cbv zeta in R1, R2, R3, R4, R5.
    assert (HRpl : placed (do_castling (entered P) (_current_side P) m)).
    { apply (do_castling_placed _ _ _ (_board P) (_piece_count P));
        [|exact Hs].
      eapply tracks_same; [apply same_placement_entered|exact HT]. }
    pose proof (same_stable_do_castling (entered P) (_current_side P) m)
      as Hst.
    set (R := do_castling (entered P) (_current_side P) m) in *.
    destruct (pushed_fields P R Hst) as (Q1 & _ & _ & _ & Q5).
    cbv zeta in Q1, Q5.
    split.
    + apply (placed_same R); [|exact HRpl].
      apply same_placement_sym, same_placement_push_history.
    + frame. exact R1.
    + frame. rewrite R5. lia.
    + frame. rewrite R4. unfold NO_SQUARE. lia.
    + frame. by rewrite R4.
    + unfold push_history. frame. exact R2.
    + unfold push_history. frame. by rewrite R3, R4.
    + rewrite Q5, Q1. by apply color_key_flipped.
Qed.
End MoveKeeps.

Lemma do_move_keeps_consistent_witness :
  consistent (T := example_table)
    (do_move (T := example_table) enpassant_position (uci_move "e5f6")).1
  = true.
Proof.
  apply do_move_keeps_consistent; by vm_compute.
Defined.

(** ** The constructors establish the invariant (position.cpp) *)

Section Constructors.
Context {T : ZobristTable}.

Lemma mapped_blank {A : Type} `{EqDecision A} (f : Piece -> A) :
  mapped_on f (_board blank_position) (fun _ => 0).
Proof.
  intros a s. rewrite Z.bits_0, cell_blank. symmetry.
  apply bool_decide_eq_false_2. tauto.
Qed.

Lemma place_piece_arranged Q pc sq :
  listed Q ->
  mapped_on get_color (_board Q) (_by_color_bb Q) ->
  mapped_on make_piece_kind (_board Q) (_by_piece_kind_bb Q) ->
  pc <> NO_PIECE -> 0 <= sq < 64 -> cell (_board Q) sq = NO_PIECE ->
  _piece_count Q pc < 10 ->
  listed (place_piece Q pc sq)
  /\ mapped_on get_color (_board (place_piece Q pc sq))
       (_by_color_bb (place_piece Q pc sq))
  /\ mapped_on make_piece_kind (_board (place_piece Q pc sq))
       (_by_piece_kind_bb (place_piece Q pc sq)).
Proof.
  intros Hl Hc Hk Hpc Hsq Hempty Hroom.
  pose proof (lo_board _ _ _ Hl) as Hlen.
  split; [|split].
  - unfold listed.
    rewrite board_place_piece, count_place_piece, ppos_place_piece.
    by apply listed_on_add.
  - rewrite board_place_piece.
    change (_by_color_bb (place_piece Q pc sq))
      with (arr_set (_by_color_bb Q) (get_color pc)
              (Z.lor (_by_color_bb Q (get_color pc)) (square_bb sq))).
    by apply mapped_on_add.
  - rewrite board_place_piece.
    change (_by_piece_kind_bb (place_piece Q pc sq))
      with (arr_set (_by_piece_kind_bb Q) (make_piece_kind pc)
              (Z.lor (_by_piece_kind_bb Q (make_piece_kind pc))
                 (square_bb sq))).
    by apply mapped_on_add.
Qed.

Lemma place_all_arranged pcs :
  forall Q,
    listed Q ->
    mapped_on get_color (_board Q) (_by_color_bb Q) ->
    mapped_on make_piece_kind (_board Q) (_by_piece_kind_bb Q) ->
    NoDup (map snd pcs) ->
    (forall ps, ps ∈ pcs ->
       ps.1 <> NO_PIECE /\ 0 <= ps.2 < 64 /\ cell (_board Q) ps.2 = NO_PIECE) ->
    (forall pc,
       _piece_count Q pc
       + Z.of_nat (length (filter (fun ps : Piece * Square => ps.1 = pc) pcs))
       <= 10) ->
    listed (place_all Q pcs)
    /\ mapped_on get_color (_board (place_all Q pcs))
         (_by_color_bb (place_all Q pcs))
    /\ mapped_on make_piece_kind (_board (place_all Q pcs))
         (_by_piece_kind_bb (place_all Q pcs))
    /\ (forall pc sq, (pc, sq) ∈ pcs -> cell (_board (place_all Q pcs)) sq = pc)
    /\ (forall sq, 0 <= sq < 64 -> sq ∉ map snd pcs ->
          cell (_board (place_all Q pcs)) sq = cell (_board Q) sq)
    /\ (forall pc,
          _piece_count (place_all Q pcs) pc
          = _piece_count Q pc
            + Z.of_nat
                (length (filter (fun ps : Piece * Square => ps.1 = pc) pcs))).
Proof.
  induction pcs as [|[pc0 s0] pcs IH]; intros Q Hl Hc Hk Hnd Hall Hroom.
  - unfold place_all. cbn [fold_left].
    split; [exact Hl|]. split; [exact Hc|]. split; [exact Hk|].
    split; [|split].
    + intros pc sq Hin. by apply elem_of_nil in Hin.
    + done.
    + intros pc. rewrite filter_nil. cbn [length]. lia.
  - cbn [map snd] in Hnd. apply NoDup_cons in Hnd as [Hs0 Hnd].
    pose proof (lo_board _ _ _ Hl) as Hlen.
    destruct (Hall (pc0, s0) ltac:(apply elem_of_cons; by left))
      as (Hpc0 & Hr0 & He0). cbn [fst snd] in Hpc0, Hr0, He0.
    assert (Hroom0 : _piece_count Q pc0 < 10).
    { specialize (Hroom pc0). rewrite filter_cons in Hroom.
      rewrite decide_True in Hroom by done. cbn [length] in Hroom. lia. }
    destruct (place_piece_arranged Q pc0 s0 Hl Hc Hk Hpc0 Hr0 He0 Hroom0)
      as (Hl1 & Hc1 & Hk1).
    assert (Hin_snd : forall ps, ps ∈ pcs -> ps.2 ∈ map snd pcs).
    { intros ps Hps. apply list_elem_of_fmap. by exists ps. }
    change (place_all Q ((pc0, s0) :: pcs))
      with (place_all (place_piece Q pc0 s0) pcs).
    destruct (IH (place_piece Q pc0 s0) Hl1 Hc1 Hk1 Hnd)
      as (Hl' & Hc' & Hk' & Hon & Hoff & Hcnt).
    + intros ps Hps.
      destruct (Hall ps ltac:(apply elem_of_cons; by right))
        as (H1 & H2 & H3).
      split; [exact H1|]. split; [exact H2|].
      rewrite board_place_piece, cell_insert by (done || lia).
      rewrite decide_False; [exact H3|].
      intros E. apply Hs0. rewrite <- E. by apply Hin_snd.
    + intros pc. rewrite count_place_piece. unfold arr_set.
      specialize (Hroom pc). rewrite filter_cons in Hroom. cbn [fst] in Hroom.
      destruct (decide (pc = pc0)) as [->|Hne].
      * rewrite decide_True in Hroom by done. cbn [length] in Hroom. lia.
      * rewrite decide_False in Hroom by done. exact Hroom.
    + split; [exact Hl'|]. split; [exact Hc'|]. split; [exact Hk'|].
      split; [|split].
      * intros pc sq Hin. apply elem_of_cons in Hin as [Hin|Hin].
        -- injection Hin as -> ->. rewrite (Hoff s0 Hr0 Hs0).
           rewrite board_place_piece, cell_insert by (done || lia).
           by rewrite decide_True.
        -- by apply Hon.
      * intros sq Hsq Hnot. cbn [map snd] in Hnot.
        apply not_elem_of_cons in Hnot as [Hne Hnot].
        rewrite (Hoff sq Hsq Hnot).
        rewrite board_place_piece, cell_insert by (done || lia).
        by rewrite decide_False.
      * intros pc. rewrite Hcnt, count_place_piece. unfold arr_set.
        rewrite filter_cons. cbn [fst].
        destruct (decide (pc = pc0)) as [->|Hne].
        -- rewrite decide_True by done. cbn [length]. lia.
        -- rewrite decide_False by done. lia.
Qed.

(** The last steps of both constructors: the key is computed from the
    position built so far and written into the history. *)
Lemma keyed_consistent X hist n :
  listed X ->
  mapped_on get_color (_board X) (_by_color_bb X) ->
  mapped_on make_piece_kind (_board X) (_by_piece_kind_bb X) ->
  0 <= _castling_rights X < 16 -> 0 <= _half_move_counter X < 256 ->
  enpassant_square_ok (_enpassant_square X) = true ->
  consistent_facts
    (set_history (set_zobrist_hash X (hash_init HashKey_empty X)) hist n).
Proof.
  intros Hl Hc Hk Hr Hhm Hep.
  destruct (hash_init_keys X Hl) as (H1 & H2 & H3 & H4 & H5).
  cbv zeta in H1, H2, H3, H4, H5.
  split; frame;
    [split; [exact Hl|exact Hc|exact Hk|split; [exact H1|exact H2]]
    |exact Hr|exact Hhm|by apply enpassant_square_ok_range|exact Hep
    |exact H3|exact H4|exact H5].
Qed.

(** The constructor from a list of pieces builds a consistent position
    from any list that names each square at most once, only squares of the
    board and no empty piece, and at most ten pieces of each sort (the
    capacity of a piece list): every listed piece stands on its square, the
    other squares are empty, and the counts are those of the list. White
    is to move, without castling rights or en-passant square. *)
Theorem Position_of_pieces_consistent pcs :
  NoDup (map snd pcs) ->
  (forall ps, ps ∈ pcs -> ps.1 <> NO_PIECE /\ 0 <= ps.2 < 64) ->
  (forall pc,
     (length (filter (fun ps : Piece * Square => ps.1 = pc) pcs) <= 10)%nat) ->
  consistent (Position_of_pieces pcs) = true
  /\ (forall pc sq, (pc, sq) ∈ pcs -> piece_at (Position_of_pieces pcs) sq = pc)
  /\ (forall sq, 0 <= sq < 64 -> sq ∉ map snd pcs ->
        piece_at (Position_of_pieces pcs) sq = NO_PIECE)
  /\ (forall pc,
        _piece_count (Position_of_pieces pcs) pc
        = Z.of_nat
            (length (filter (fun ps : Piece * Square => ps.1 = pc) pcs)))
  /\ _current_side (Position_of_pieces pcs) = WHITE
  /\ _castling_rights (Position_of_pieces pcs) = NO_CASTLING
  /\ _enpassant_square (Position_of_pieces pcs) = NO_SQUARE.
Proof.
  intros Hnd Hall Hroom.
  destruct (place_all_arranged pcs blank_position listed_blank
              (mapped_blank get_color) (mapped_blank make_piece_kind) Hnd)
    as (Hl & Hc & Hk & Hon & Hoff & Hcnt).
  { intros ps Hps. destruct (Hall ps Hps) as [H1 H2].
    split; [exact H1|]. split; [exact H2|]. apply cell_blank. }
  { intros pc. specialize (Hroom pc). cbn [blank_position _piece_count].
    lia. }
  destruct (place_all_scalars blank_position pcs) as (S1 & S2 & S3 & _).
  cbv zeta in S1, S2, S3.
  unfold Position_of_pieces. cbv zeta.
  fold (place_all blank_position pcs).
  set (Q := place_all blank_position pcs) in *.
  split.
  - apply consistent_complete.
    apply (keyed_consistent (set_ply_counter (set_half_move_counter Q 0) 1));
      frame; try done.
    + rewrite S2. done.
    + by rewrite S3.
  - frame. unfold piece_at. frame.
    split; [exact Hon|]. split.
    + intros sq Hsq Hnot.
      change (_board Q !!! Z.to_nat sq) with (cell (_board Q) sq).
      rewrite (Hoff sq Hsq Hnot). apply cell_blank.
    + split; [|by rewrite S1, S2, S3].
      intros pc. rewrite Hcnt. cbn [blank_position _piece_count]. lia.
Qed.
End Constructors.

Lemma Position_of_pieces_consistent_witness :
  consistent (T := example_table)
    (Position_of_pieces (T := example_table)
       [(W_KING, SQ_E1); (B_KING, SQ_E8); (W_ROOK, SQ_A1)]) = true.
Proof.
  destruct (Position_of_pieces_consistent (T := example_table)
              [(W_KING, SQ_E1); (B_KING, SQ_E8); (W_ROOK, SQ_A1)])
    as [H _]; [| | |exact H].
  - apply (bool_decide_unpack _). by vm_compute.
  - intros ps Hps.
    repeat (apply elem_of_cons in Hps as [-> | Hps]);
      [..| by apply elem_of_nil in Hps]; by vm_compute.
  - intros pc. destruct pc; vm_compute; lia.
Defined.

(** ** The counters of a FEN text, and the position read back
    (position.cpp) *)

Lemma digit_facts c :
  is_digit c = true ->
  is_space c = false /\ (code c =? code "-") = false
  /\ (code c =? code "+") = false.
Proof.
  unfold is_digit, is_space.
  change (code "0") with 48. change (code "9") with 57.
  change (code "-") with 45. change (code "+") with 43.
  intros H. apply andb_true_iff in H as [H1 H2].
  apply Z.leb_le in H1, H2.
  rewrite (proj2 (Z.eqb_neq (code c) 32)) by lia.
  rewrite (proj2 (Z.leb_gt (code c) 13)) by lia.
  rewrite (proj2 (Z.eqb_neq (code c) 45)) by lia.
  rewrite (proj2 (Z.eqb_neq (code c) 43)) by lia.
  by rewrite andb_false_r.
Qed.

Lemma decimal_digit_spec k :
  0 <= k < 10 ->
  is_digit (chr (code "0" + k)) = true
  /\ code (chr (code "0" + k)) - code "0" = k.
Proof.
  intros H.
  assert (Hk : k = 0 \/ k = 1 \/ k = 2 \/ k = 3 \/ k = 4 \/ k = 5 \/ k = 6
               \/ k = 7 \/ k = 8 \/ k = 9) by lia.
  repeat destruct Hk as [-> | Hk]; try subst k; by vm_compute.
Qed.

Lemma digits_value_snoc ds d :
  digits_value (ds ++ [d]) = 10 * digits_value ds + (code d - code "0").
Proof. unfold digits_value. by rewrite fold_left_app. Qed.

Lemma decimal_digits_spec fuel :
  forall n acc,
    0 <= n < Z.of_nat fuel ->
    exists ds,
      decimal_digits fuel n acc = ds ++ acc /\ ds <> []
      /\ Forall (fun c => is_digit c = true) ds /\ digits_value ds = n.
Proof.
  induction fuel as [|fuel IH]; intros n acc Hn; [lia|].
  cbn [decimal_digits].
  destruct (decimal_digit_spec (n mod 10)
              ltac:(apply Z.mod_pos_bound; lia)) as [Hd Hv].
  destruct (Z.ltb_spec n 10) as [Hlt|Hge].
  - exists [chr (code "0" + n mod 10)]. split; [done|]. split; [done|].
    split; [by apply Forall_singleton|].
    unfold digits_value. cbn [fold_left]. rewrite Hv, Z.mod_small; lia.
  - destruct (IH (n / 10) (chr (code "0" + n mod 10) :: acc))
      as (ds & E & Hne & Hall & Hval).
    { split; [apply Z.div_pos; lia|].
      assert (n / 10 < n) by (apply Z.div_lt; lia). lia. }
    exists (ds ++ [chr (code "0" + n mod 10)]).
    split; [by rewrite E, <- app_assoc|].
    split; [by destruct ds|].
    split; [apply Forall_app; split; [done|by apply Forall_singleton]|].
    rewrite digits_value_snoc, Hval, Hv.
    pose proof (Z.div_mod n 10 ltac:(lia)). lia.
Qed.

Lemma print_int_spec n :
  0 <= n ->
  print_int n <> [] /\ Forall (fun c => is_digit c = true) (print_int n)
  /\ digits_value (print_int n) = n.
Proof.
  intros Hn. unfold print_int.
  rewrite (proj2 (Z.ltb_ge n 0)) by lia.
  destruct (decimal_digits_spec (S (Z.to_nat n)) n [] ltac:(lia))
    as (ds & E & Hne & Hall & Hval).
  rewrite E, app_nil_r. done.
Qed.

Lemma take_digits_app ds rest :
  Forall (fun c => is_digit c = true) ds ->
  match rest with [] => True | c :: _ => is_digit c = false end ->
  take_digits (ds ++ rest) = (ds, rest).
Proof.
  intros Hall Hrest. induction Hall as [|c ds Hc Hall IH].
  - destruct rest as [|c rest]; [done|]. cbn [app take_digits].
    by rewrite Hrest.
  - cbn [app take_digits]. by rewrite Hc, IH.
Qed.

(** [stream >> n] on a decimal number that [<<] wrote after a space. *)
Lemma read_int_printed n rest d0 :
  0 <= n ->
  match rest with [] => True | c :: _ => is_digit c = false end ->
  read_int {| buf := " "%char :: print_int n ++ rest; failed := false |} d0
  = ({| buf := rest; failed := false |}, n).
Proof.
  intros Hn Hrest. destruct (print_int_spec n Hn) as (Hne & Hall & Hval).
  unfold read_int. cbn [failed buf skip_ws].
  change (is_space " ") with true. cbv iota.
  destruct (print_int n) as [|c ds] eqn:E; [done|].
  pose proof (Forall_inv Hall) as Hc. cbv beta in Hc.
  destruct (digit_facts c Hc) as (Hsp & Hminus & Hplus).
  cbn [app skip_ws]. rewrite Hsp, Hminus, Hplus.
  change (c :: ds ++ rest) with ((c :: ds) ++ rest).
  rewrite (take_digits_app (c :: ds) rest Hall Hrest).
  by rewrite Hval.
Qed.

Lemma placements_of_spec b L ps :
  ps ∈ placements_of b L ->
  ps.1 = cell b ps.2 /\ ps.1 <> NO_PIECE /\ ps.2 ∈ L.
Proof.
  induction L as [|s L IH]; [intros H; by apply elem_of_nil in H|].
  rewrite placements_of_cons. case_decide as E.
  - intros H. destruct (IH H) as (H1 & H2 & H3).
    split; [done|]. split; [done|]. apply elem_of_cons. by right.
  - intros H. apply elem_of_cons in H as [-> | H].
    + cbn [fst snd]. split; [done|]. split; [done|].
      apply elem_of_cons. by left.
    + destruct (IH H) as (H1 & H2 & H3).
      split; [done|]. split; [done|]. apply elem_of_cons. by right.
Qed.

Lemma placements_of_NoDup b L :
  NoDup L -> NoDup (map snd (placements_of b L)).
Proof.
  induction L as [|s L IH]; intros Hnd; [apply NoDup_nil_2|].
  apply NoDup_cons in Hnd as [Hs Hnd]. rewrite placements_of_cons.
  case_decide as E; [by apply IH|].
  cbn [map snd]. apply NoDup_cons. split; [|by apply IH].
  intros Hin. apply list_elem_of_fmap in Hin as (ps & -> & Hps).
  by destruct (placements_of_spec b L ps Hps) as (_ & _ & H).
Qed.

Section Placed.
Context {T : ZobristTable}.

Lemma place_all_mapped pcs :
  forall Q,
    length (_board Q) = 64%nat ->
    mapped_on get_color (_board Q) (_by_color_bb Q) ->
    mapped_on make_piece_kind (_board Q) (_by_piece_kind_bb Q) ->
    NoDup (map snd pcs) ->
    (forall ps, ps ∈ pcs ->
       ps.1 <> NO_PIECE /\ 0 <= ps.2 < 64 /\ cell (_board Q) ps.2 = NO_PIECE) ->
    mapped_on get_color (_board (place_all Q pcs))
      (_by_color_bb (place_all Q pcs))
    /\ mapped_on make_piece_kind (_board (place_all Q pcs))
         (_by_piece_kind_bb (place_all Q pcs)).
Proof.
  induction pcs as [|[pc0 s0] pcs IH]; intros Q Hlen Hc Hk Hnd Hall.
  - by split.
  - cbn [map snd] in Hnd. apply NoDup_cons in Hnd as [Hs0 Hnd].
    destruct (Hall (pc0, s0) ltac:(apply elem_of_cons; by left))
      as (Hpc0 & Hr0 & He0). cbn [fst snd] in Hpc0, Hr0, He0.
    change (place_all Q ((pc0, s0) :: pcs))
      with (place_all (place_piece Q pc0 s0) pcs).
    apply IH.
    + by rewrite board_place_piece, length_insert.
    + rewrite board_place_piece.
      change (_by_color_bb (place_piece Q pc0 s0))
        with (arr_set (_by_color_bb Q) (get_color pc0)
                (Z.lor (_by_color_bb Q (get_color pc0)) (square_bb s0))).
      by apply mapped_on_add.
    + rewrite board_place_piece.
      change (_by_piece_kind_bb (place_piece Q pc0 s0))
        with (arr_set (_by_piece_kind_bb Q) (make_piece_kind pc0)
                (Z.lor (_by_piece_kind_bb Q (make_piece_kind pc0))
                   (square_bb s0))).
      by apply mapped_on_add.
    + exact Hnd.
    + intros ps Hps.
      destruct (Hall ps ltac:(apply elem_of_cons; by right))
        as (H1 & H2 & H3).
      split; [exact H1|]. split; [exact H2|].
      rewrite board_place_piece, cell_insert by (done || lia).
      rewrite decide_False; [exact H3|].
      intros E. apply Hs0. rewrite <- E.
      apply list_elem_of_fmap. by exists ps.
Qed.

Lemma Position_of_fen_counted B S C E n1 n2 :
  B <> [] -> nospace B -> S <> [] -> nospace S -> C <> [] -> nospace C ->
  E <> [] -> nospace E -> 0 <= n1 -> 0 <= n2 ->
  let Q := (fold_left fen_place B (blank_position, SQ_A8)).1 in
  Position_of_fen
    (B ++ " "%char :: S ++ " "%char :: C ++ " "%char :: E
       ++ " "%char :: print_int n1 ++ " "%char :: print_int n2 ++ [])
  = fen_finish Q
      (if ascii_list_eqb S ["w"%char] then WHITE else BLACK)
      (fold_left fen_castling C (_castling_rights Q))
      (if ascii_list_eqb E ["-"%char] then NO_SQUARE
       else notationToSquare E)
      n1 n2.
Proof.
  intros HB1 HB2 HS1 HS2 HC1 HC2 HE1 HE2 Hn1 Hn2 Q. unfold Position_of_fen.
  rewrite (read_token_first B) by done. cbv beta iota.
  fold Q. destruct (fold_left fen_place B (blank_position, SQ_A8)) as [Q0 sq]
    eqn:EQ. cbn [fst] in Q. subst Q.
  rewrite (read_token_next S) by done. cbv beta iota.
  rewrite (read_token_next C) by done. cbv beta iota.
  rewrite (read_token_next E) by done. cbv beta iota.
  rewrite (read_int_printed n1 (" "%char :: print_int n2 ++ [])) by done.
  cbv beta iota.
  rewrite (read_int_printed n2 []) by done.
  reflexivity.
Qed.

(** The counters and the history of the position read back. *)
Lemma Position_of_fen_restores P :
  consistent P = true -> 1 <= _ply_counter P ->
  consistent (Position_of_fen (fen P)) = true
  /\ (forall pc,
        _piece_count (Position_of_fen (fen P)) pc = _piece_count P pc)
  /\ _half_move_counter (Position_of_fen (fen P)) = _half_move_counter P
  /\ _ply_counter (Position_of_fen (fen P))
     = 2 * (Z.quot (_ply_counter P - 1) 2 + 1) - 1
       + (if decide (_current_side P = BLACK) then 1 else 0)
  /\ (_ply_counter (Position_of_fen (fen P)) = _ply_counter P
      <-> Z.odd (_ply_counter P) = bool_decide (_current_side P = WHITE))
  /\ _history_counter (Position_of_fen (fen P)) = 1
  /\ _history (Position_of_fen (fen P)) !!! 0%nat
     = hash (Position_of_fen (fen P)).
Proof.
  intros Hc Hply. destruct (consistent_sound P Hc)
    as [[Hl Hco Hki [Hpk Hok]] Hr Hhm Hep Hepok Hck Hek Hcol].
  destruct (placement_round_trip P Hl)
    as (HlQ & Hb & Hside & Hrights & _ & Hhist).
  cbn zeta in HlQ, Hb, Hside, Hrights, Hhist.
  destruct (castling_field_round_trip _ Hr) as (HC1 & HC2 & HC3).
  destruct (enpassant_field_round_trip _ Hep) as (HE1 & HE2 & HE3).
  assert (Hfull : 0 <= Z.quot (_ply_counter P - 1) 2 + 1).
  { pose proof (Z.quot_pos (_ply_counter P - 1) 2 ltac:(lia) ltac:(lia)).
    lia. }
  pose proof (Position_of_fen_counted
                (fen_ranks P (ranks_down 8))
                [if decide (_current_side P = WHITE) then "w"%char
                 else "b"%char]
                (fen_castling_field (_castling_rights P))
                (fen_enpassant_field (_enpassant_square P))
                (_half_move_counter P)
                (Z.quot (_ply_counter P - 1) 2 + 1)
                (fen_ranks_nonempty P _ _) (fen_ranks_nospace P _)
                ltac:(done)
                ltac:(apply nospace_forallb;
                      by destruct (decide (_current_side P = WHITE)))
                HC1 HC2 HE1 HE2 ltac:(lia) Hfull) as Heq.
  cbn zeta in Heq.
  replace (fen P) with
    (fen_ranks P (ranks_down 8) ++ " "%char
     :: [if decide (_current_side P = WHITE) then "w"%char else "b"%char]
     ++ " "%char :: fen_castling_field (_castling_rights P)
     ++ " "%char :: fen_enpassant_field (_enpassant_square P)
     ++ " "%char :: print_int (_half_move_counter P) ++ " "%char
     :: print_int (Z.quot (_ply_counter P - 1) 2 + 1) ++ [])
    by (rewrite app_nil_r; reflexivity).
  rewrite Heq, Hrights, HC3, HE3, side_field_round_trip. clear Heq.
  set (Q := (fold_left fen_place (fen_ranks P (ranks_down 8))
               (blank_position, SQ_A8)).1) in *.
  assert (Hmapped :
    mapped_on get_color (_board Q) (_by_color_bb Q)
    /\ mapped_on make_piece_kind (_board Q) (_by_piece_kind_bb Q)).
  { subst Q. rewrite (fen_ranks_parse P 8) by done.
    destruct fen_order_spec as [Hnd Hall].
    apply place_all_mapped.
    - reflexivity.
    - apply mapped_blank.
    - apply mapped_blank.
    - by apply placements_of_NoDup.
    - intros ps Hps.
      destruct (placements_of_spec _ _ ps Hps) as (H1 & H2 & H3).
      split; [exact H2|]. split; [by apply Hall|apply cell_blank]. }
  destruct Hmapped as [HcQ HkQ].
  assert (Hcounts : forall pc, _piece_count Q pc = _piece_count P pc).
  { intros pc. destruct (decide (pc = NO_PIECE)) as [->|Hpc].
    - by rewrite (lo_none _ _ _ HlQ), (lo_none _ _ _ Hl).
    - rewrite (count_as_filter _ _ _ pc HlQ Hpc).
      rewrite (count_as_filter _ _ _ pc Hl Hpc). by rewrite Hb. }
  assert (Hu8 : u8 (_half_move_counter P) = _half_move_counter P)
    by (unfold u8; apply Z.mod_small; lia).
  unfold fen_finish. cbv zeta.
  match goal with
  | |- context [hash_init HashKey_empty ?X0] => set (X := X0)
  end.
  assert (HF : consistent_facts
                 (set_history (set_zobrist_hash X (hash_init HashKey_empty X))
                    (<[0%nat := get_key (hash_init HashKey_empty X)]>
                       (_history X)) 1)).
  { apply keyed_consistent; subst X; frame; try done.
    rewrite Hu8. exact Hhm. }
  split; [apply consistent_complete; exact HF|].
  split; [intros pc; subst X; frame; apply Hcounts|].
  split; [subst X; frame; exact Hu8|].
  assert (Hplyeq :
    _ply_counter
      (set_history (set_zobrist_hash X (hash_init HashKey_empty X))
         (<[0%nat := get_key
                       (_zobrist_hash
                          (set_zobrist_hash X (hash_init HashKey_empty X)))]>
            (_history (set_zobrist_hash X (hash_init HashKey_empty X)))) 1)
    = 2 * (Z.quot (_ply_counter P - 1) 2 + 1) - 1
      + (if decide (_current_side P = BLACK) then 1 else 0))
    by (subst X; by frame).
  split; [exact Hplyeq|].
  split.
  - rewrite Hplyeq. clear Hplyeq HF.
    assert (Hpar : exists k, _ply_counter P = 2 * k + (if Z.odd (_ply_counter P)
                                                      then 1 else 0)).
    { destruct (Z.odd (_ply_counter P)) eqn:Ho.
      - apply Z.odd_spec in Ho as [k Hk]. by exists k.
      - rewrite <- Z.negb_even in Ho. apply negb_false_iff in Ho.
        apply Z.even_spec in Ho as [k Hk]. exists k. lia. }
    destruct Hpar as [k Hk].
    destruct (_current_side P), (Z.odd (_ply_counter P)).
    + rewrite decide_False by done.
      rewrite (bool_decide_eq_true_2 (WHITE = WHITE)) by done.
      split; [done|]. intros _. Z.to_euclidean_division_equations; lia.
    + rewrite decide_False by done.
      rewrite (bool_decide_eq_true_2 (WHITE = WHITE)) by done.
      split; [|done]. intros H. exfalso.
      Z.to_euclidean_division_equations; lia.
    + rewrite decide_True by done.
      rewrite (bool_decide_eq_false_2 (BLACK = WHITE)) by done.
      split; [|done]. intros H. exfalso.
      Z.to_euclidean_division_equations; lia.
    + rewrite decide_True by done.
      rewrite (bool_decide_eq_false_2 (BLACK = WHITE)) by done.
      split; [done|]. intros _. Z.to_euclidean_division_equations; lia.
  - split; [reflexivity|].
    unfold hash. frame. apply list_lookup_total_insert_eq.
    subst X. frame. rewrite Hhist, length_replicate. unfold MAX_PLIES. lia.
Qed.

(** What [Position(fen)] builds from the text [fen] writes for a
    consistent position is consistent again, with the same piece counts and
    the same half-move clock. Its ply counter is rebuilt from the full-move
    number and the side to move, and is the old one exactly when the old one
    was odd with White to move or even with Black to move. Its history
    holds one key, its own. *)
Theorem fen_round_trip_counters P :
  consistent P = true -> 1 <= _ply_counter P ->
  consistent (Position_of_fen (fen P)) = true
  /\ (forall pc,
        _piece_count (Position_of_fen (fen P)) pc = _piece_count P pc)
  /\ _half_move_counter (Position_of_fen (fen P)) = _half_move_counter P
  /\ _ply_counter (Position_of_fen (fen P))
     = 2 * (Z.quot (_ply_counter P - 1) 2 + 1) - 1
       + (if decide (_current_side P = BLACK) then 1 else 0)
  /\ (_ply_counter (Position_of_fen (fen P)) = _ply_counter P
      <-> Z.odd (_ply_counter P) = bool_decide (_current_side P = WHITE))
  /\ _history_counter (Position_of_fen (fen P)) = 1
  /\ _history (Position_of_fen (fen P)) !!! 0%nat
     = hash (Position_of_fen (fen P)).
Proof. exact (Position_of_fen_restores P). Qed.
End Placed.

Lemma fen_round_trip_counters_witness :
  consistent (T := example_table)
    (Position_of_fen (T := example_table) (fen enpassant_position)) = true
  /\ _ply_counter
       (Position_of_fen (T := example_table) (fen enpassant_position))
     = _ply_counter enpassant_position.
Proof.
  destruct (fen_round_trip_counters (T := example_table) enpassant_position
              ltac:(by vm_compute) ltac:(by vm_compute))
    as (H1 & _ & _ & _ & H5 & _).
  split; [exact H1|]. apply H5. by vm_compute.
Defined.

(** ** The FEN round trip, field by field *)

Section FenFields.
Context {T : ZobristTable}.

(** C3 (as amended). Let [P] be a consistent position whose ply counter is
    at least 1, and [Q] the position built from the text [fen] writes for
    [P]. Then [Q] compares equal to [P] under [operator==], is consistent,
    and has the board, the two bitboard arrays, the piece counts, the side
    to move, the castling rights, the en-passant square, the half-move
    counter and the five subkeys of [P]; the filled part of each of its
    piece lists holds the squares the list of [P] holds, possibly in
    another order. Its ply counter is computed from the full-move number
    and the side to move, and is the ply counter of [P] exactly when that
    one is odd with White to move or even with Black to move. The history
    of [P] is not restored: [Q] has one history entry, its own key. *)
Theorem fen_round_trip P :
  consistent P = true -> 1 <= _ply_counter P ->
  let Q := Position_of_fen (fen P) in
  Position_eq Q P = true
  /\ consistent Q = true
  /\ _board Q = _board P
  /\ (forall c, _by_color_bb Q c = _by_color_bb P c)
  /\ (forall k, _by_piece_kind_bb Q k = _by_piece_kind_bb P k)
  /\ (forall pc, _piece_count Q pc = _piece_count P pc)
  /\ (forall pc, live_of (_piece_count Q) (_piece_position Q) pc
                 ≡ₚ live_of (_piece_count P) (_piece_position P) pc)
  /\ _current_side Q = _current_side P
  /\ _castling_rights Q = _castling_rights P
  /\ _enpassant_square Q = _enpassant_square P
  /\ _half_move_counter Q = _half_move_counter P
  /\ _zobrist_hash Q = _zobrist_hash P
  /\ _ply_counter Q
     = 2 * (Z.quot (_ply_counter P - 1) 2 + 1) - 1
       + (if decide (_current_side P = BLACK) then 1 else 0)
  /\ (_ply_counter Q = _ply_counter P
      <-> Z.odd (_ply_counter P) = bool_decide (_current_side P = WHITE))
  /\ _history_counter Q = 1
  /\ _history Q !!! 0%nat = hash Q.
Proof.
  intros Hc Hply Q.
  pose proof (fen_round_trip_compared P Hc) as Heq. fold Q in Heq.
  destruct (Position_of_fen_restores P Hc Hply)
    as (HcQ & Hcnt & Hhm & Hply1 & Hply2 & Hh1 & Hh2).
  fold Q in HcQ, Hcnt, Hhm, Hply1, Hply2, Hh1, Hh2.
  clearbody Q.
  apply Position_eq_spec in Heq as (Hkey & Hside & Hr & Hep & Hcells).
  destruct (consistent_sound P Hc)
    as [[Hl Hco Hki [Hpk Hok]] _ _ _ _ Hck Hek Hcol].
  destruct (consistent_sound Q HcQ)
    as [[HlQ HcoQ HkiQ [HpkQ HokQ]] _ _ _ _ HckQ HekQ HcolQ].
  assert (Hb : _board Q = _board P).
  { apply cell_ext; [apply HlQ|apply Hl|]. intros s Hs. by apply Hcells. }
  split; [by apply Position_eq_spec|].
  split; [done|]. split; [done|].
  split.
  { intros c. apply (mapped_on_unique get_color (_board P)); [|done].
    by rewrite <- Hb. }
  split.
  { intros k. apply (mapped_on_unique make_piece_kind (_board P)); [|done].
    by rewrite <- Hb. }
  split; [done|].
  split.
  { intros pc. destruct (decide (pc = NO_PIECE)) as [->|Hpc].
    - unfold live_of.
      by rewrite (lo_none _ _ _ HlQ), (lo_none _ _ _ Hl).
    - rewrite (live_perm _ _ _ pc HlQ Hpc), (live_perm _ _ _ pc Hl Hpc).
      by rewrite Hb. }
  split; [done|]. split; [done|]. split; [done|]. split; [done|].
  split.
  { apply HashKey_eq.
    - by rewrite HokQ, Hok, Hb.
    - by rewrite HpkQ, Hpk, Hb.
    - by rewrite HekQ, Hek, Hep.
    - by rewrite HckQ, Hck, Hr.
    - by rewrite HcolQ, Hcol, Hside. }
  done.
Qed.
End FenFields.

(** C3 with its hypotheses met, on the position of section 8, scenario 6. *)
Lemma fen_round_trip_witness :
  consistent (T := example_table) enpassant_position = true
  /\ 1 <= _ply_counter enpassant_position
  /\ Position_eq
       (Position_of_fen (T := example_table) (fen enpassant_position))
       enpassant_position = true
  /\ _half_move_counter
       (Position_of_fen (T := example_table) (fen enpassant_position))
     = _half_move_counter enpassant_position.
Proof.
  assert (Hc : consistent (T := example_table) enpassant_position = true)
    by (vm_compute; reflexivity).
  assert (Hp : 1 <= _ply_counter enpassant_position)
    by (vm_compute; discriminate).
  split; [exact Hc|]. split; [exact Hp|].
  destruct (fen_round_trip (T := example_table) enpassant_position Hc Hp)
    as (H1 & _ & _ & _ & _ & _ & _ & _ & _ & _ & H2 & _).
  split; [exact H1|exact H2].
Defined.

(** C3, where the claim fails: the history. After 1. e4 from the starting
    position the position has two history entries, the key of the starting
    position and its own; the position read back from its FEN text compares
    equal to it, but has one history entry, and that entry is not the first
    entry of the original. *)
Lemma fen_round_trip_loses_history :
  let P := after_e2e4 in
  let Q := Position_of_fen (T := example_table) (fen P) in
  consistent (T := example_table) P = true
  /\ Position_eq Q P = true
  /\ _history_counter P = 2
  /\ _history_counter Q = 1
  /\ _history P !!! 0%nat = hash startpos
  /\ _history Q !!! 0%nat = hash P
  /\ hash startpos <> hash P.
Proof. vm_compute. repeat split; discriminate. Qed.

(** ** What [undo_move] cannot bring back, and what [do_move] never
    grants (position.cpp) *)

Section UndoEdge.
Context {T : ZobristTable}.

Lemma do_move_info P m :
  exists captured e,
    (do_move P m).2
    = create_moveinfo captured (_castling_rights P) (_enpassant_square P) e
        (_half_move_counter P).
Proof.
  destruct (decide (castling m = NO_CASTLING)) as [Hc|Hc].
  - pose proof (do_move_ordinary_eq P m Hc) as E. cbv zeta in E.
    rewrite E. cbn [snd]. by eexists _, _.
  - rewrite (do_move_castling_eq P m Hc). cbn [snd]. by eexists _, _.
Qed.

(** A move made and taken back on a position without en-passant square
    leaves the en-passant square A1 behind, and the constant of file a in
    the key: the undo record stores no square in that case, and
    [undo_move] reads the square field without looking at the flag that
    says so. The position that comes back is never equal to the one the
    move was made on. *)
Theorem undo_move_leaves_a1 P m :
  0 <= _castling_rights P < 16 -> 0 <= _half_move_counter P < 256 ->
  _enpassant_square P = NO_SQUARE ->
  _enpassant_square (undo_move (do_move P m).1 m (do_move P m).2) = SQ_A1
  /\ _enpassant_key
       (_zobrist_hash (undo_move (do_move P m).1 m (do_move P m).2))
     = HASH_ENPASSANT FILE_A
  /\ enpassant_square_ok
       (_enpassant_square (undo_move (do_move P m).1 m (do_move P m).2))
     = false
  /\ Position_eq (undo_move (do_move P m).1 m (do_move P m).2) P = false.
Proof.
  intros Hr Hhm Hep.
  destruct (do_move_info P m) as (captured & e & Hinfo).
  destruct (undo_move_fields (do_move P m).1 m (do_move P m).2)
    as (_ & _ & _ & _ & _ & _ & U7 & _ & U9 & _).
  cbv zeta in U7, U9.
  assert (Hread : last_enpassant_square (do_move P m).2 = SQ_A1).
  { rewrite Hinfo, last_enpassant_square_create
      by (rewrite ?Hep; unfold NO_SQUARE; lia).
    by rewrite Hep. }
  rewrite Hread in U7, U9.
  split; [exact U7|]. split; [exact U9|]. split; [by rewrite U7|].
  unfold Position_eq. rewrite U7, Hep.
  change (negb (SQ_A1 =? NO_SQUARE)) with true.
  by repeat case_match.
Qed.
End UndoEdge.

Lemma undo_move_leaves_a1_witness :
  _enpassant_square
    (undo_move (T := example_table)
       (do_move (T := example_table) startpos (uci_move "e2e4")).1
       (uci_move "e2e4")
       (do_move (T := example_table) startpos (uci_move "e2e4")).2)
  = SQ_A1.
Proof.
  destruct (undo_move_leaves_a1 (T := example_table) startpos
              (uci_move "e2e4") ltac:(by vm_compute) ltac:(by vm_compute)
              ltac:(by vm_compute)) as [H _].
  exact H.
Defined.

(** One set of rights is within another. *)
Lemma land_within_l a b : Z.land (Z.land a b) a = Z.land a b.
Proof.
  rewrite (Z.land_comm a b), <- Z.land_assoc. by rewrite Z.land_diag.
Qed.

Lemma land_within_trans a b c :
  Z.land a b = a -> Z.land b c = b -> Z.land a c = a.
Proof. intros H1 H2. by rewrite <- H1, <- Z.land_assoc, H2. Qed.

Section NeverGrants.
Context {T : ZobristTable}.

Lemma clear_rights_if_within q X mask :
  Z.land (_castling_rights (clear_rights_if q X mask)) (_castling_rights X)
  = _castling_rights (clear_rights_if q X mask).
Proof.
  destruct q; unfold clear_rights_if, clear_rights; frame.
  - apply land_within_l.
  - apply Z.land_diag.
Qed.

Lemma update_rights_within X side mp cp m :
  Z.land (_castling_rights (update_rights X side mp cp m))
    (_castling_rights X)
  = _castling_rights (update_rights X side mp cp m).
Proof.
  unfold update_rights. cbv zeta. frame.
  repeat (eapply land_within_trans; [apply clear_rights_if_within|]).
  apply Z.land_diag.
Qed.

Lemma shift_pieces_within X side m mp cp :
  Z.land (_castling_rights (shift_pieces X side m mp cp).1)
    (_castling_rights X)
  = _castling_rights (shift_pieces X side m mp cp).1.
Proof.
  unfold shift_pieces.
  destruct (bool_decide (get_piece_kind mp = PAWN)
            && (to m =? _enpassant_square X)); cbn [fst].
  - frame. apply Z.land_diag.
  - eapply land_within_trans; [apply update_rights_within|].
    repeat case_match; frame; apply Z.land_diag.
Qed.

(** [do_move] never grants a castling right: every right held after a
    move was held before it, whatever the position and the move. *)
Theorem do_move_never_grants_rights P m flag :
  Z.land (_castling_rights (do_move P m).1) (_castling_rights P)
  = _castling_rights (do_move P m).1
  /\ (has_right (_castling_rights (do_move P m).1) flag = true ->
      has_right (_castling_rights P) flag = true).
Proof.
  assert (Hsub : Z.land (_castling_rights (do_move P m).1)
                   (_castling_rights P)
                 = _castling_rights (do_move P m).1).
  { destruct (decide (castling m = NO_CASTLING)) as [Hc|Hc].
    - pose proof (do_move_ordinary_eq P m Hc) as E. cbv zeta in E.
      rewrite E. cbn [fst]. unfold push_history. frame.
      match goal with
      | |- context [mark_enpassant ?S0 _ _ _] => set (S := S0)
      end.
      assert (HR : _castling_rights
                     (mark_enpassant S (_current_side P) m
                        (cell (_board P) (from m)))
                   = _castling_rights S)
        by (unfold mark_enpassant; case_match; by frame).
      rewrite HR. subst S.
      eapply land_within_trans; [apply shift_pieces_within|].
      unfold tick_half_move, entered. case_match; frame; apply Z.land_diag.
    - rewrite (do_move_castling_eq P m Hc). cbn [fst].
      unfold push_history, do_castling. cbv zeta. frame.
      unfold clear_rights. frame.
      eapply land_within_trans; [apply land_within_l|].
      case_match; frame; apply Z.land_diag. }
  split; [exact Hsub|].
  unfold has_right. intros H. apply negb_true_iff, Z.eqb_neq in H.
  apply negb_true_iff, Z.eqb_neq. intros E. apply H.
  rewrite <- Hsub, <- Z.land_assoc, E. apply Z.land_0_r.
Qed.
End NeverGrants.

(** ** The invariant across a move made and taken back, and across a
    null move *)

Section BackAgain.
Context {T : ZobristTable}.

Lemma do_undo_tracks P m :
  consistent_facts P -> move_shape P m = true ->
  exists c',
    tracks (undo_move (do_move P m).1 m (do_move P m).2) (_board P) c'.
Proof.
  intros HF Hs.
  pose proof (cf_placed _ HF) as Hpl.
  pose proof (cf_rights _ HF) as Hr. pose proof (cf_hm _ HF) as Hhm.
  pose proof (cf_ep _ HF) as Hep.
  assert (HT : tracks P (_board P) (_piece_count P))
    by (split; [exact Hpl|split; [reflexivity|intros; reflexivity]]).
  unfold move_shape in Hs.
  destruct (Z.eqb_spec (castling m) NO_CASTLING) as [E|E]; cbn [negb] in Hs.
  - rewrite (do_move_ordinary_eq P m E). cbn zeta. cbn [fst snd].
    set (moved := cell (_board P) (from m)) in *.
    set (captured := cell (_board P) (to m)) in *.
    set (X := tick_half_move (entered P) moved captured).
    set (S := shift_pieces X (_current_side P) m moved captured).
    set (R := mark_enpassant S.1 (_current_side P) m moved).
    set (info := create_moveinfo (make_piece_kind captured)
                   (_castling_rights P) (_enpassant_square P) S.2
                   (_half_move_counter P)).
    assert (HX : tracks X (_board P) (_piece_count P)).
    { eapply tracks_same; [|exact HT].
      eapply same_placement_trans; [apply same_placement_tick_half_move|].
      apply same_placement_entered. }
    assert (Hst : same_stable R (entered P)).
    { eapply same_stable_trans; [apply same_stable_mark_enpassant|].
      eapply same_stable_trans; [apply same_stable_shift_pieces|].
      apply same_stable_tick_half_move. }
    destruct (pushed_fields P R Hst) as (Q1 & _). cbn zeta in Q1.
    destruct (ordinary_undone X
                (restore_scalars
                   (set_ply_counter (change_current_side (push_history R))
                      (_ply_counter (push_history R) - 1)) info)
                (_current_side P) m (_board P) (_piece_count P) info)
      as (c' & Hc' & _).
    + exact HX.
    + subst X. rewrite ep_tick_entered. exact Hs.
    + exact E.
    + eapply same_placement_trans; [apply same_placement_undo_entry|].
      eapply same_placement_trans; [apply same_placement_push_history|].
      apply same_placement_mark_enpassant.
    + by apply captured_piece_create.
    + by apply enpassant_create.
    + exists c'. apply tracks_undo_move. by rewrite Q1, opp_opp.
  - rewrite (do_move_castling_eq P m E). cbn [fst snd].
    set (R := do_castling (entered P) (_current_side P) m).
    assert (Hst : same_stable R (entered P))
      by apply same_stable_do_castling.
    destruct (pushed_fields P R Hst) as (Q1 & _). cbn zeta in Q1.
    exists (_piece_count P).
    apply tracks_undo_move. rewrite Q1, opp_opp.
    eapply (castling_undone (set_half_move_counter (entered P) 0)).
    + eapply tracks_same; [|exact HT]. by repeat split.
    + exact Hs.
    + eapply same_placement_trans; [apply same_placement_undo_entry|].
      eapply same_placement_trans; [apply same_placement_push_history|].
      apply same_placement_do_castling.
    + exact E.
Qed.

(** A move made and taken back on a consistent position that has an
    en-passant square leaves a consistent position: the search can go on
    from it. (Without en-passant square the square comes back as A1, and
    the position is not consistent.) *)
Theorem do_undo_keeps_consistent P m :
  consistent P = true -> move_shape P m = true ->
  _enpassant_square P <> NO_SQUARE ->
  consistent (undo_move (do_move P m).1 m (do_move P m).2) = true.
Proof.
  intros Hc Hs Hset. pose proof (consistent_sound P Hc) as HF.
  destruct (do_undo_tracks P m HF Hs) as (c' & Hpl & _ & _).
  destruct HF as [_ Hr Hhm Hep Hepok Hck Hek Hcol].
  destruct (do_move_info P m) as (captured & e & Hinfo).
  destruct (do_move_pushed P m) as (R & info & E & Hst).
  destruct (pushed_fields P R Hst) as (Q1 & _ & _ & _ & Q5).
  cbv zeta in Q1, Q5.
  destruct (undo_move_fields (do_move P m).1 m (do_move P m).2)
    as (U1 & _ & _ & _ & U5 & U6 & U7 & U8 & U9 & U10).
  cbv zeta in U1, U5, U6, U7, U8, U9, U10.
  apply Z.eqb_neq in Hset.
  assert (Hlc : last_castling (do_move P m).2 = _castling_rights P)
    by (rewrite Hinfo; by apply last_castling_create).
  assert (Hle : last_enpassant_square (do_move P m).2 = _enpassant_square P)
    by (rewrite Hinfo, last_enpassant_square_create by done; by rewrite Hset).
  assert (Hlh : half_move_counter (do_move P m).2 = _half_move_counter P)
    by (rewrite Hinfo; by apply half_move_counter_create).
  rewrite Hlc in U6, U10. rewrite Hle in U7, U9. rewrite Hlh in U8.
  rewrite Hset in U9.
  assert (Hside : _current_side (do_move P m).1 = opp (_current_side P))
    by (rewrite E; exact Q1).
  assert (Hkey : _color_key (_zobrist_hash (do_move P m).1)
                 = Z.lxor (_color_key (_zobrist_hash P)) HASH_TURN)
    by (rewrite E; exact Q5).
  rewrite Hside, opp_opp in U1. rewrite Hkey in U5.
  apply consistent_complete. split.
  - exact Hpl.
  - by rewrite U6.
  - by rewrite U8.
  - by rewrite U7.
  - by rewrite U7.
  - by rewrite U10, U6.
  - by rewrite U9, U7, Hset.
  - rewrite U5, U1, Hcol.
    by rewrite Z.lxor_assoc, Z.lxor_nilpotent, Z.lxor_0_r.
Qed.

(** [do_null_move] keeps the invariant: from a consistent position it
    reaches a consistent one, without en-passant square, whose key differs
    from the old key by the constant of the side to move and by the
    en-passant constant of the old position, if it had an en-passant
    square. *)
Theorem do_null_move_keeps_consistent P :
  consistent P = true ->
  consistent (do_null_move P).1 = true
  /\ _enpassant_square (do_null_move P).1 = NO_SQUARE
  /\ hash (do_null_move P).1
     = Z.lxor (Z.lxor (hash P) HASH_TURN)
         (if _enpassant_square P =? NO_SQUARE then 0
          else HASH_ENPASSANT (file (_enpassant_square P))).
Proof.
  intros Hc. destruct (consistent_sound P Hc)
    as [Hpl Hr Hhm Hep Hepok Hck Hek Hcol].
  rewrite do_null_move_fst.
  split; [|split; [reflexivity|]].
  - apply consistent_complete. split.
    + apply (placed_same P); [by repeat split|exact Hpl].
    + by frame.
    + frame. unfold u8. apply Z.mod_pos_bound. lia.
    + frame. unfold NO_SQUARE. lia.
    + by frame.
    + unfold zobrist_clear_enpassant, change_current_side. frame. exact Hck.
    + unfold zobrist_clear_enpassant. by frame.
    + unfold zobrist_clear_enpassant, change_current_side. frame.
      cbn [_color_key hash_clear_enpassant flip_side].
      by apply color_key_flipped.
  - unfold hash, get_key, zobrist_clear_enpassant, change_current_side.
    frame.
    cbn [_piece_key _pawn_key _enpassant_key _castling_key _color_key
         hash_clear_enpassant flip_side].
    rewrite Hek.
    apply Z.bits_inj'; intros n Hn;
      repeat rewrite Z.lxor_spec; rewrite ?Z.bits_0.
    destruct (_enpassant_square P =? NO_SQUARE);
      repeat rewrite Z.lxor_spec; rewrite ?Z.bits_0; ring.
Qed.
End BackAgain.

Lemma do_undo_keeps_consistent_witness :
  consistent (T := example_table)
    (undo_move (T := example_table)
       (do_move (T := example_table) enpassant_position (uci_move "e5f6")).1
       (uci_move "e5f6")
       (do_move (T := example_table) enpassant_position (uci_move "e5f6")).2)
  = true.
Proof.
  apply do_undo_keeps_consistent; by vm_compute.
Defined.

Lemma do_null_move_keeps_consistent_witness :
  consistent (T := example_table)
    (do_null_move (T := example_table) enpassant_position).1 = true.
Proof.
  destruct (do_null_move_keeps_consistent (T := example_table)
              enpassant_position ltac:(by vm_compute)) as [H _].
  exact H.
Defined.
